(* ===== verification/_CoqProject ===== *)
-Q . S2P
Prelude.v
Errno.v
Ctype.v
KString.v
Vsprintf.v
Cmdline.v
Resource.v
Bootmem.v
Buddy.v
PageAlloc.v
Timer.v
BuFsm.v
BuDriver.v
BuOpen.v
PosixLock.v
LockSim.v
LockThm.v
LockOps.v
LockTable.v
LockDeadlock.v
Pipe.v
PipeSystem.v
Elf2psx.v
Printk.v
Syslog.v
Console.v
Ipc.v
Sem.v
SemAtomic.v
SemSystem.v
SemCalls.v
SemLive.v
Msg.v
MsgText.v
MsgSystem.v
MsgCalls.v
MsgLive.v
