(* ===== verification/Prelude.v ===== *)
(** A verification of parts of PS1Linux, Linux 2.4 for the PlayStation
    ([src/linux], a port of the kernel to a MIPS without an MMU).

    * The program

    The kernel boots with a bitmap allocator ([mmnommu/bootmem.c]) whose free
    pages are handed to the zoned buddy allocator ([mmnommu/page_alloc.c]).
    I/O ports and memory ranges are claimed in a tree of resources
    ([kernel/resource.c]), options of the command line are parsed with
    [lib/cmdline.c] and [lib/vsprintf.c], timers run from a wheel
    ([kernel/timer.c]).  The memory card, the machine's only disk, has a block
    driver of this port ([drivers/block/bu.c]): a state machine over a serial
    port, driven by interrupts, timeouts and the request queue.  Files carry
    record locks, FLOCK locks and leases ([fs/locks.c]); pipes and FIFOs
    ([fs/pipe.c], [fs/fifo.c]) connect processes.  Messages go into the ring
    buffer of [kernel/printk.c] and to the registered consoles.  Semaphore sets
    ([ipc/sem.c]) and message queues ([ipc/msg.c]) are named by identifiers of
    a table ([ipc/util.c]).

    * The development

    - [Prelude]: machine integers with their wrap-around written out ([u32],
      [s64], ...), the error monad [outcome] with the traps BUG, fault and
      exhausted fuel, byte memories, tactics and hints.
    - [Errno]: error numbers.
    - [Ctype], [KString], [Vsprintf], [Cmdline]: [lib/].  Strings are
      NUL-terminated in a memory whose unmapped addresses fault ([KString]) or
      lists of characters ([Vsprintf], [Cmdline]).
    - [Resource]: [kernel/resource.c] over a store of records linked by the
      pointers child, sibling and parent.
    - [Bootmem]: [mmnommu/bootmem.c], the bitmap of a node and the list of
      nodes.
    - [Buddy]: one zone of [mmnommu/page_alloc.c], free lists and bitmaps;
      [PageAlloc]: [__alloc_pages] and its wrappers on top of it.  Reclaim and
      the daemons are the class [VmEnv]; what the allocator relies on of them
      is stated there, and an instance satisfies it.
    - [Timer]: the wheel of [kernel/timer.c]; timer functions are a parameter.
    - [BuFsm]: the protocol states of [bu.c] on an arbitrary controller;
      [BuDriver]: the request function, the interrupt and the timeout over
      lists of events; [BuOpen]: detection and opening of cards.
    - [PosixLock]: [posix_lock_file] and its helpers over a store of structures
      that the code rewrites through aliases; [LockSim]: the reference
      definition on lists of regions and the simulation; [LockThm]: the
      invariant of an inode's list and the effect of a request; [LockOps]: the
      system calls, closing, leases and mandatory locks; [LockTable]: any
      sequence of calls; [LockDeadlock]: the wait-for graph.
    - [Pipe]: the stretches of pipe calls between sleeps; [PipeSystem]: any
      number of interleaved calls on one pipe.
    - [Elf2psx]: the tool that turns the linked kernel, an ELF file, into an
      executable of the PlayStation ([tools/elf2psx/elf2psx.c]).
    - [Printk]: the ring buffer, levels and [printk]; [Syslog]: the commands of
      [do_syslog], interleaved with printing; [Console]: options, registering
      and unregistering of consoles, whose drivers are a parameter.
    - [Ipc]: the table of identifiers and permissions; [Sem]: semaphore sets,
      undo structures and queues in stores, with the system calls cut at their
      sleeps; [SemAtomic]: [try_atomic_semop] against operations on integers;
      [SemSystem]: the invariant and [update_queue]; [SemCalls]: each call keeps
      the invariant; [SemLive]: any number of processes.
    - [Msg]: message queues with their sleeping senders and receivers, the
      system calls cut at their sleeps; [MsgText]: segmented message texts and
      the search of a queue; [MsgSystem]: the invariant; [MsgCalls]: each call
      keeps it; [MsgLive]: any number of processes.

    A function of the source is a definition of the same name; a loop or a part
    of a long function has a definition of its own, and PROJECT.json maps each
    to its lines.  State is passed explicitly.  A call that sleeps ends in a
    value that says so, and what follows the sleep is another definition, so
    that interleavings are sequences of steps.

    * What is shown

    - Memory: allocations are apart from each other and from what is free,
      succeed exactly when there is room, and freeing merges and restores
      ([Bootmem.alloc_bootmem_core_correct], [Buddy.free_pages_ok_correct],
      [Buddy.rmqueue_correct], [PageAlloc.alloc_pages_correct]).
    - Resources: requests link exactly the free ranges and keep the tree well
      formed ([Resource]).
    - Timers run in exactly their tick, across the wrap-around of jiffies
      ([Timer]).
    - Text: printing and parsing are inverse, string routines do what their
      names say and touch nothing else, whatever overlaps ([KString],
      [Vsprintf], [Cmdline]).
    - Memory card: no order of events traps the driver or loses its lock,
      every request ends, detection accepts exactly the protocol's dialogue
      ([BuDriver], [BuOpen]).
    - File locks: a request refines the map from owner and byte to lock type,
      the table stays exclusive over any sequence of calls, and no cycle of
      waiting processes forms ([LockThm], [LockTable], [LockDeadlock]).
    - Pipes are queues, small writes are atomic, no wake-up is lost
      ([Pipe], [PipeSystem]).
    - The log hands each character to one reader, in order, unless it was
      overwritten ([Syslog]); lines carry a level and reach the consoles they
      are meant for ([Printk], [Console]).
    - Identifiers name their object until it is removed ([Ipc]).  The operations
      of a semaphore call happen together or not at all, exit cancels what was
      to be undone, calls in any order do not trap, and nobody who could go on
      sleeps unnoticed, mixed operations apart ([SemAtomic], [SemLive]).  A message is delivered
      once, texts arrive as they were sent, a receiver gets the message its type
      asks for, and no wake-up of a message queue is lost ([MsgText],
      [MsgLive]).
    - The converter of executables succeeds for exactly the files it can
      convert and writes the program's memory image ([Elf2psx]).

    * Fuel

    Loops that are not structural take fuel and trap with [Fuel] when it runs
    out; theorems state that the bound is enough.  String loops: the size of
    the memory ([cfuel]).  The scan of [Bootmem]: the pages of the node.  The
    merging loop of [Buddy]: MAX_ORDER.  [Resource]: the number of records.
    [Timer]: the ticks and timers that are due.  The deadlock chain of
    [PosixLock]: the blocked processes ([LockDeadlock]).  The copying loops of
    [Pipe]: three rounds, since a piece ends at the end of the page at most
    once.  [LockOps.flock_pass]: the locks of the file.  [printk] and
    the segments of [Msg]: the length of the text.

    * Not modelled

    Locks against interrupts and other processors (the machine has one
    processor and the modelled sections run to their next sleep), printed
    messages, user space copies except as a success or a fault, the scheduler
    (who runs next is arbitrary), page reclaim, time keeping, the slab
    allocator, path lookup and file systems, networking, drivers other than the
    memory card, the assembly of the architecture.  Breaking of leases and the
    text of /proc/locks are left out of [LockOps]; [do_pipe] out of [Pipe]; time
    stamps and /proc out of [Sem] and [Msg].  Next in the plan: page reclaim,
    time keeping, the scheduler. *)

From stdpp Require Export base numbers list gmap option.
From Stdlib Require Export Lia ZArith.
Open Scope Z_scope.

(** ** Machine integers

    A [w]-bit C integer is a [Z]; unsigned arithmetic wraps with [wrap w],
    conversion to a signed type with [swrap w] (two's complement). *)

Definition wrap (w z : Z) : Z := z mod 2 ^ w.
Definition swrap (w z : Z) : Z := (z + 2 ^ (w - 1)) mod 2 ^ w - 2 ^ (w - 1).

Abbreviation u8 := (wrap 8).
Abbreviation u16 := (wrap 16).
Abbreviation u32 := (wrap 32).
Abbreviation u64 := (wrap 64).
Abbreviation s8 := (swrap 8).
Abbreviation s16 := (swrap 16).
Abbreviation s32 := (swrap 32).
Abbreviation s64 := (swrap 64).

(** C's bitwise operators. *)
Declare Scope c_scope.
Infix "|||" := Z.lor : c_scope.

(** The truth value of a C condition. *)
Definition c_true (z : Z) : bool := negb (z =? 0).

(** ** Outcomes

    [BUG()] dereferences a null pointer, a load or store outside the mapped
    memory faults; [Fuel] marks a loop whose bound was too small, and the
    developments below show that it never is. *)

Inductive trap := Bug | Fault | Fuel.

Inductive outcome (A : Type) :=
| Ok (a : A)
| Trap (t : trap).
Arguments Ok {A} _.
Arguments Trap {A} _.

#[export] Instance outcome_ret : MRet outcome := fun A a => Ok a.
#[export] Instance outcome_bind : MBind outcome := fun A B f o =>
  match o with Ok a => f a | Trap t => Trap t end.
#[export] Instance outcome_fmap : FMap outcome := fun A B f o =>
  match o with Ok a => Ok (f a) | Trap t => Trap t end.
#[export] Instance trap_eq_dec : EqDecision trap.
Proof. solve_decision. Defined.

(** [BUG_if c k] is [if (c) BUG(); k]. *)
Definition BUG_if {A} (c : bool) (k : outcome A) : outcome A :=
  if c then Trap Bug else k.

(** ** Memory

    Byte-addressed memory: a finite map from addresses to bytes [0..255].
    A load or a store of an address outside the map faults. *)

Abbreviation mem := (gmap Z Z).

Definition load (m : mem) (a : Z) : outcome Z :=
  match m !! a with Some b => Ok b | None => Trap Fault end.

Definition store (m : mem) (a v : Z) : outcome mem :=
  match m !! a with Some _ => Ok (<[a := u8 v]> m) | None => Trap Fault end.

(** Enough fuel for any loop that visits ever larger mapped addresses. *)
Definition cfuel (m : mem) : nat := S (size m).

(** [bytes_at m a l]: the bytes [l] are stored at [a], [a+1], ... *)
Fixpoint bytes_at (m : mem) (a : Z) (l : list Z) : Prop :=
  match l with
  | [] => True
  | b :: l => m !! a = Some b ∧ bytes_at m (a + 1) l
  end.

Definition byte (b : Z) : Prop := 0 <= b < 256.

(** A NUL-terminated C string with the characters [l]. *)
Definition cstr (m : mem) (s : Z) (l : list Z) : Prop :=
  bytes_at m s (l ++ [0]) ∧ Forall (fun b => b <> 0) l.

Definition zlen {A} (l : list A) : Z := Z.of_nat (length l).

#[global] Arguments zlen : simpl never.
#[global] Arguments wrap : simpl never.
#[global] Arguments swrap : simpl never.
#[global] Arguments cfuel : simpl never.

(** ** Tactics *)

(** Turn boolean comparisons in the context and the goal into propositions. *)
Ltac zbool :=
  repeat match goal with
  | H : context [Z.eqb ?a ?b] |- _ => destruct (Z.eqb_spec a b)
  | H : context [Z.ltb ?a ?b] |- _ => destruct (Z.ltb_spec a b)
  | H : context [Z.leb ?a ?b] |- _ => destruct (Z.leb_spec a b)
  | |- context [Z.eqb ?a ?b] => destruct (Z.eqb_spec a b)
  | |- context [Z.ltb ?a ?b] => destruct (Z.ltb_spec a b)
  | |- context [Z.leb ?a ?b] => destruct (Z.leb_spec a b)
  end.

(** A load through a pointer into a store of objects. *)
Definition deref {A} (m : gmap Z A) (a : Z) : outcome A :=
  match m !! a with Some x => Ok x | None => Trap Fault end.

Lemma deref_ok {A} (m : gmap Z A) a x : m !! a = Some x → deref m a = Ok x.
Proof. intros H. unfold deref. by rewrite H. Qed.

(** Split an equation [x ← e; k = Ok v] into the equation of [e] and of [k]. *)
Ltac inv_ok H :=
  repeat match type of H with
  | (?e ≫= ?k) = Ok _ =>
      let x := fresh "x" in let E := fresh "E" in
      destruct e as [x|] eqn:E; [cbn [mbind outcome_bind] in H | discriminate H]
  | BUG_if ?c _ = Ok _ =>
      let E := fresh "E" in
      unfold BUG_if in H; destruct c eqn:E; [discriminate H |]
  | Ok _ = Ok _ => injection H; clear H; intros; subst
  end.

(** Split the hypotheses [Forall P (x :: l)]. *)
Ltac inv_forall :=
  repeat match goal with
  | H : Forall _ (_ :: _) |- _ => apply Forall_cons_1 in H as [? ?]; cbv beta in *
  end.

(** ** Lemmas on machine integers *)

Create HintDb machine discriminated.

Lemma wrap_bound w z : 0 <= w → 0 <= wrap w z < 2 ^ w.
Proof. intros. apply Z.mod_pos_bound. lia. Qed.

Lemma wrap_small w z : 0 <= z < 2 ^ w → wrap w z = z.
Proof. apply Z.mod_small. Qed.

Lemma wrap_wrap w z : 0 <= w → wrap w (wrap w z) = wrap w z.
Proof. intros. unfold wrap. by rewrite Z.mod_mod by lia. Qed.

Lemma u8_byte z : byte (u8 z).
Proof. apply (wrap_bound 8). lia. Qed.

Lemma u8_id z : byte z → u8 z = z.
Proof. apply (wrap_small 8). Qed.

Lemma swrap_small w z : 0 < w → - 2 ^ (w - 1) <= z < 2 ^ (w - 1) → swrap w z = z.
Proof.
  intros Hw Hz. unfold swrap.
  assert (2 ^ w = 2 * 2 ^ (w - 1)) as E by (rewrite <- Z.pow_succ_r by lia; f_equal; lia).
  rewrite E, Z.mod_small by lia. lia.
Qed.

Lemma swrap_zero_iff w z : 0 < w → swrap w z = 0 ↔ z mod 2 ^ w = 0.
Proof.
  intros Hw. unfold swrap.
  assert (2 ^ w = 2 * 2 ^ (w - 1)) as E by (rewrite <- Z.pow_succ_r by lia; f_equal; lia).
  assert (0 < 2 ^ (w - 1)) by (apply Z.pow_pos_nonneg; lia).
  rewrite E. set (k := 2 ^ (w - 1)) in *.
  split; intros Hz.
  - pose proof (Z.mod_eq (z + k) (2 * k) ltac:(lia)) as Hm.
    apply Z.mod_divide; [lia|]. exists ((z + k) / (2 * k)). lia.
  - apply Z.mod_divide in Hz as [q ->]; [|lia].
    replace (q * (2 * k) + k) with (k + q * (2 * k)) by lia.
    rewrite Z.mod_add, Z.mod_small by lia. lia.
Qed.

(** Signed differences of unsigned counters, such as [(long) (a - b)]. *)
Lemma swrap_sub_wrap w a b : swrap w (wrap w a - wrap w b) = swrap w (a - b).
Proof.
  unfold swrap, wrap. f_equal. rewrite <- (Zplus_mod_idemp_l (a mod _ - _)), <- Zminus_mod.
  by rewrite Zplus_mod_idemp_l.
Qed.

(** [x & ~(2^k - 1)] rounds down to a multiple of [2^k]. *)
Lemma land_align x k :
  0 <= k → 0 <= x < 2 ^ 32 →
  Z.land x (u32 (Z.lnot (2 ^ k - 1))) = 2 ^ k * (x / 2 ^ k).
Proof.
  intros Hk Hx. unfold wrap. rewrite <- Z.land_ones by lia.
  rewrite (Z.land_comm (Z.lnot _)), Z.land_assoc, Z.land_ones, Z.mod_small by lia.
  assert (2 ^ k - 1 = Z.ones k) as -> by (rewrite Z.ones_equiv; lia).
  rewrite <- Z.ldiff_land, Z.ldiff_ones_r, Z.shiftl_mul_pow2, Z.shiftr_div_pow2 by lia. lia.
Qed.

(** [(x + a - 1) & ~(a - 1)] rounds up. *)
Lemma align_up x k :
  0 <= k → 0 <= x → x + 2 ^ k <= 2 ^ 32 →
  let y := Z.land (u32 (x + 2 ^ k - 1)) (u32 (Z.lnot (2 ^ k - 1))) in
  x <= y < x + 2 ^ k ∧ (2 ^ k | y).
Proof.
  intros Hk Hx Hb. cbv zeta. assert (0 < 2 ^ k) by lia. rewrite wrap_small by lia.
  rewrite land_align by lia.
  pose proof (Z.div_mod (x + 2 ^ k - 1) (2 ^ k) ltac:(lia)).
  pose proof (Z.mod_pos_bound (x + 2 ^ k - 1) (2 ^ k) ltac:(lia)).
  split; [lia|]. exists ((x + 2 ^ k - 1) / 2 ^ k). lia.
Qed.

Lemma c_true_spec z : c_true z = true ↔ z ≠ 0.
Proof. unfold c_true. destruct (Z.eqb_spec z 0); simpl; naive_solver. Qed.

#[export] Hint Resolve u8_byte u8_id wrap_bound wrap_small : machine.

(** ** Lemmas on memory *)

Lemma zlen_nil {A} : zlen (@nil A) = 0.
Proof. done. Qed.

Lemma zlen_cons {A} (x : A) l : zlen (x :: l) = zlen l + 1.
Proof. unfold zlen. simpl. lia. Qed.

Lemma zlen_app {A} (l k : list A) : zlen (l ++ k) = zlen l + zlen k.
Proof. unfold zlen. rewrite length_app. lia. Qed.

Lemma zlen_nonneg {A} (l : list A) : 0 <= zlen l.
Proof. unfold zlen. lia. Qed.

Create Rewrite HintDb zlen.
#[export] Hint Rewrite @zlen_nil @zlen_cons @zlen_app : zlen.
#[export] Hint Resolve zlen_nonneg : machine.

Lemma load_ok m a b : load m a = Ok b ↔ m !! a = Some b.
Proof. unfold load. destruct (m !! a); naive_solver. Qed.

Lemma store_ok m a v m' :
  store m a v = Ok m' ↔ is_Some (m !! a) ∧ m' = <[a := u8 v]> m.
Proof.
  unfold store, is_Some. destruct (m !! a) eqn:E; naive_solver.
Qed.

Lemma load_mapped m a : load m a ≠ Trap Fault → is_Some (m !! a).
Proof. unfold load. destruct (m !! a); naive_solver. Qed.

Lemma bytes_at_app m a l k :
  bytes_at m a (l ++ k) ↔ bytes_at m a l ∧ bytes_at m (a + zlen l) k.
Proof.
  revert a. induction l as [|b l IH]; intros a; simpl.
  - rewrite zlen_nil, Z.add_0_r. tauto.
  - rewrite IH, zlen_cons. replace (a + 1 + zlen l) with (a + (zlen l + 1)) by lia. tauto.
Qed.

Lemma bytes_at_lookup m a l :
  bytes_at m a l ↔ ∀ i b, l !! i = Some b → m !! (a + Z.of_nat i) = Some b.
Proof.
  revert a. induction l as [|b l IH]; intros a; simpl.
  - split; [intros _ i b Hi; by rewrite lookup_nil in Hi | done].
  - rewrite IH. split.
    + intros [H1 H2] [|i] c Hc; simpl in Hc; [simplify_eq; by rewrite Z.add_0_r|].
      replace (a + Z.of_nat (S i)) with (a + 1 + Z.of_nat i) by lia. auto.
    + intros H. split; [by rewrite <- (H 0%nat b eq_refl), Z.add_0_r|].
      intros i c Hc. rewrite <- (H (S i) c Hc). f_equal. lia.
Qed.

Lemma bytes_at_insert m a l x v :
  x < a ∨ a + zlen l <= x → bytes_at m a l → bytes_at (<[x := v]> m) a l.
Proof.
  intros Hx. rewrite !bytes_at_lookup. intros H i b Hi.
  rewrite lookup_insert_ne; [auto|].
  apply lookup_lt_Some in Hi. unfold zlen in Hx. lia.
Qed.

Lemma bytes_at_dom_eq m m' a l :
  (∀ x, a <= x < a + zlen l → m' !! x = m !! x) → bytes_at m a l → bytes_at m' a l.
Proof.
  intros Hx. rewrite !bytes_at_lookup. intros H i b Hi.
  rewrite Hx; [auto|]. apply lookup_lt_Some in Hi. unfold zlen. lia.
Qed.

Lemma mem_size_insert (m : mem) a v : is_Some (m !! a) → size (<[a := v]> m) = size m.
Proof. intros [x Hx]. by eapply map_size_insert_Some. Qed.

(** A run of [n] mapped addresses needs [n] entries. *)
Lemma mapped_run_size (m : mem) a n :
  (∀ i, (i < n)%nat → is_Some (m !! (a + Z.of_nat i))) → (n <= size m)%nat.
Proof.
  intros H. rewrite <- size_dom.
  assert (size (list_to_set ((fun i => a + Z.of_nat i) <$> seq 0 n) : gset Z) = n) as E.
  { rewrite size_list_to_set; [by rewrite length_fmap, length_seq|].
    apply NoDup_fmap_2; [intros x y; lia | apply NoDup_seq]. }
  rewrite <- E at 1. apply subseteq_size. intros x.
  rewrite elem_of_list_to_set, list_elem_of_fmap. intros (i & -> & Hi).
  apply elem_of_seq in Hi. apply elem_of_dom, H. lia.
Qed.

Lemma cfuel_size m : cfuel m = S (size m).
Proof. done. Qed.

Lemma bytes_at_fuel m a l : bytes_at m a l → (length l < cfuel m)%nat.
Proof.
  intros H. unfold cfuel. apply Nat.lt_succ_r. apply (mapped_run_size m a).
  intros i Hi. apply lookup_lt_is_Some_2 in Hi as [b Hb].
  rewrite bytes_at_lookup in H. eauto.
Qed.

(** Two strings stored at the same address are the same string. *)
Lemma cstr_unique m s l k : cstr m s l → cstr m s k → l = k.
Proof.
  revert s k. induction l as [|b l IH]; intros s [|c k] [H1 N1] [H2 N2]; simpl in *.
  - done.
  - destruct H1, H2. inversion N2; congruence.
  - destruct H1, H2. inversion N1; congruence.
  - destruct H1 as [E1 H1], H2 as [E2 H2]. inversion N1; inversion N2; subst.
    f_equal; [congruence|]. apply (IH (s + 1)); done.
Qed.

#[global] Opaque cfuel.

(** ** Termination: a run that never exhausts its fuel *)

Definition terminates {A} (o : outcome A) : Prop := o ≠ Trap Fuel.

Lemma terminates_bind {A B} (o : outcome A) (k : A → outcome B) :
  terminates o → (∀ a, o = Ok a → terminates (k a)) → terminates (o ≫= k).
Proof. destruct o as [a|t]; unfold terminates; simpl; [auto|congruence]. Qed.

Lemma terminates_ok {A} (a : A) : terminates (Ok a).
Proof. done. Qed.

Lemma load_terminates m a : terminates (load m a).
Proof. unfold load. by destruct (m !! a). Qed.

Lemma store_terminates m a v : terminates (store m a v).
Proof. unfold store. by destruct (m !! a). Qed.

Create HintDb total discriminated.
#[export] Hint Resolve terminates_ok load_terminates store_terminates : total.

(** Walk through a body: every bound step terminates by the hints. *)
Ltac total :=
  repeat match goal with
  | |- terminates (_ ≫= _) => apply terminates_bind; [| intros ? ?]
  | |- terminates (if ?c then _ else _) => destruct c
  | |- terminates (match ?p with pair _ _ => _ end) => destruct p
  | |- terminates (match ?o with Some _ => _ | None => _ end) => destruct o
  | |- terminates _ => solve [auto with total]
  end.

(** A check of the first [n] values by evaluation. *)
Lemma forallb_range (f : Z → bool) (n : nat) :
  forallb (λ i, f (Z.of_nat i)) (seq 0 n) = true → ∀ v, 0 <= v < Z.of_nat n → f v = true.
Proof.
  rewrite forallb_forall. intros H v Hv. specialize (H (Z.to_nat v)).
  rewrite Z2Nat.id in H by lia. apply H, in_seq. lia.
Qed.

(** Induction on the length of a list. *)
Lemma list_len_ind {A} (P : list A → Prop) :
  (∀ l, (∀ k, (length k < length l)%nat → P k) → P l) → ∀ l, P l.
Proof.
  intros H l. assert (∀ n l, (length l <= n)%nat → P l) as G; [|by apply (G (length l))].
  clear l. induction n as [|n IH]; intros l Hl; apply H; intros k Hk; [lia|].
  apply IH. lia.
Qed.

(** ** Removing an element *)

Lemma filter_ne_notin (l : list Z) x : x ∉ l → filter (λ y, y ≠ x) l = l.
Proof.
  induction l as [|y l IH]; intros Hx; [done|].
  rewrite filter_cons, decide_True, IH by set_solver. done.
Qed.

Lemma filter_ne_length (l : list Z) x :
  NoDup l → x ∈ l → zlen (filter (λ y, y ≠ x) l) = zlen l - 1.
Proof.
  induction 1 as [|y l Hy Hl IH]; intros Hx; [by apply elem_of_nil in Hx|].
  rewrite filter_cons, zlen_cons. destruct (decide (y = x)) as [->|Hne].
  - rewrite decide_False by auto. rewrite filter_ne_notin by done. lia.
  - rewrite decide_True by done. rewrite zlen_cons, IH; [lia|]. set_solver.
Qed.

(** Removing the first element of a list without duplicates. *)
Lemma filter_ne_head (l : list Z) x : x ∉ l → filter (λ y, y ≠ x) (x :: l) = l.
Proof. intros Hx. rewrite filter_cons, decide_False by auto. by apply filter_ne_notin. Qed.

(** ** Prefixes selected by a predicate *)

Section span.
Context {A : Type} (p : A → bool).

Fixpoint take_while (l : list A) : list A :=
  match l with [] => [] | x :: l => if p x then x :: take_while l else [] end.

Fixpoint drop_while (l : list A) : list A :=
  match l with [] => [] | x :: k => if p x then drop_while k else l end.

Lemma take_drop_while l : take_while l ++ drop_while l = l.
Proof. induction l as [|x l IH]; simpl; [done|]. destruct (p x); simpl; congruence. Qed.

Lemma take_while_all l : Forall (λ x, p x = true) (take_while l).
Proof. induction l as [|x l IH]; simpl; [done|]. destruct (p x) eqn:E; auto. Qed.

Lemma drop_while_head x l k : drop_while l = x :: k → p x = false.
Proof.
  induction l as [|y l IH]; simpl; [done|].
  destruct (p y) eqn:E; [done|]. by intros [= -> ->].
Qed.

Lemma drop_while_length l : (length (drop_while l) <= length l)%nat.
Proof. induction l as [|x l IH]; simpl; [lia|]. destruct (p x); simpl; lia. Qed.
End span.
