(* ===== verification/Errno.v ===== *)
(** The error numbers the modelled code returns, [asm-mipsnommu/errno.h] and
    [linux/errno.h]. *)

From S2P Require Import Prelude.

Definition EPERM : Z := 1.
Definition ENOENT : Z := 2.
Definition EINTR : Z := 4.
Definition ENXIO : Z := 6.
Definition E2BIG : Z := 7.
Definition EBADF : Z := 9.
Definition EAGAIN : Z := 11.
Definition ENOMEM : Z := 12.
Definition EACCES : Z := 13.
Definition EFAULT : Z := 14.
Definition EBUSY : Z := 16.
Definition EEXIST : Z := 17.
Definition ENODEV : Z := 19.
Definition EINVAL : Z := 22.
Definition EFBIG : Z := 27.
Definition ENOSPC : Z := 28.
Definition ESPIPE : Z := 29.
Definition EPIPE : Z := 32.
Definition ERANGE : Z := 34.
Definition ENOMSG : Z := 35.
Definition EIDRM : Z := 36.
Definition EDEADLK : Z := 45.
Definition ENOLCK : Z := 46.
Definition EOVERFLOW : Z := 79.
Definition ERESTARTSYS : Z := 512.
