(* ===== verification/KString.v ===== *)
(** * KString: the string and memory routines of [lib/string.c]

    Every routine works on the byte memory of the prelude: a pointer is an
    address, [0] is [NULL], a read or write outside the mapped memory faults.
    [char] is signed, as the MIPS compiler has it.  Loops that run to a NUL
    byte carry fuel [cfuel m], which is always enough since they visit ever
    larger mapped addresses; loops with a [count] recurse on it. *)

From S2P Require Import Prelude Ctype.

(** ** Comparison *)

(** [do { ... } while (--len)] of [strnicmp], entered with [len <> 0]. *)
Fixpoint strnicmp_loop (len : nat) (m : mem) (s1 s2 : Z) (c1 c2 : Z) : outcome (Z * Z) :=
  match len with
  | O => Ok (c1, c2)
  | S len =>
      c1 ← load m s1;
      c2 ← load m s2;
      if c1 =? 0 then Ok (c1, c2)
      else if c2 =? 0 then Ok (c1, c2)
      else if c1 =? c2 then strnicmp_loop len m (s1 + 1) (s2 + 1) c1 c2
      else let c1 := tolower c1 in
           let c2 := tolower c2 in
           if negb (c1 =? c2) then Ok (c1, c2)
           else strnicmp_loop len m (s1 + 1) (s2 + 1) c1 c2
  end.

Definition strnicmp (m : mem) (s1 s2 len : Z) : outcome Z :=
  '(c1, c2) ← strnicmp_loop (Z.to_nat len) m s1 s2 0 0;
  Ok (c1 - c2).

Fixpoint strcmp_loop (fuel : nat) (m : mem) (cs ct : Z) : outcome Z :=
  match fuel with
  | O => Trap Fuel
  | S fuel =>
      a ← load m cs;
      b ← load m ct;
      let __res := s8 (s8 a - s8 b) in
      if negb (__res =? 0) || (a =? 0) then Ok __res
      else strcmp_loop fuel m (cs + 1) (ct + 1)
  end.

Definition strcmp (m : mem) (cs ct : Z) : outcome Z := strcmp_loop (cfuel m) m cs ct.

Fixpoint strncmp_loop (count : nat) (m : mem) (cs ct : Z) (__res : Z) : outcome Z :=
  match count with
  | O => Ok __res
  | S count =>
      a ← load m cs;
      b ← load m ct;
      let __res := s8 (s8 a - s8 b) in
      if negb (__res =? 0) || (a =? 0) then Ok __res
      else strncmp_loop count m (cs + 1) (ct + 1) __res
  end.

Definition strncmp (m : mem) (cs ct count : Z) : outcome Z :=
  strncmp_loop (Z.to_nat count) m cs ct 0.

Fixpoint memcmp_loop (count : nat) (m : mem) (su1 su2 : Z) (res : Z) : outcome Z :=
  match count with
  | O => Ok res
  | S count =>
      a ← load m su1;
      b ← load m su2;
      let res := s8 (a - b) in
      if negb (res =? 0) then Ok res
      else memcmp_loop count m (su1 + 1) (su2 + 1) res
  end.

Definition memcmp (m : mem) (cs ct count : Z) : outcome Z :=
  memcmp_loop (Z.to_nat count) m cs ct 0.

(** ** Copying *)

(** [while (( *dest++ = *src++ ) != 0);] — the address after the NUL is dropped. *)
Fixpoint strcpy_loop (fuel : nat) (m : mem) (dest src : Z) : outcome mem :=
  match fuel with
  | O => Trap Fuel
  | S fuel =>
      c ← load m src;
      m ← store m dest c;
      if c =? 0 then Ok m else strcpy_loop fuel m (dest + 1) (src + 1)
  end.

Definition strcpy (m : mem) (dest src : Z) : outcome (mem * Z) :=
  m ← strcpy_loop (cfuel m) m dest src;
  Ok (m, dest).

Fixpoint strncpy_loop (count : nat) (m : mem) (dest src : Z) : outcome mem :=
  match count with
  | O => Ok m
  | S count =>
      c ← load m src;
      m ← store m dest c;
      if c =? 0 then Ok m else strncpy_loop count m (dest + 1) (src + 1)
  end.

Definition strncpy (m : mem) (dest src count : Z) : outcome (mem * Z) :=
  m ← strncpy_loop (Z.to_nat count) m dest src;
  Ok (m, dest).

(** [while ( *dest) dest++;] *)
Fixpoint skip_to_nul (fuel : nat) (m : mem) (dest : Z) : outcome Z :=
  match fuel with
  | O => Trap Fuel
  | S fuel =>
      c ← load m dest;
      if c =? 0 then Ok dest else skip_to_nul fuel m (dest + 1)
  end.

Definition strcat (m : mem) (dest src : Z) : outcome (mem * Z) :=
  d ← skip_to_nul (cfuel m) m dest;
  m ← strcpy_loop (cfuel m) m d src;
  Ok (m, dest).

Fixpoint strncat_loop (count : nat) (m : mem) (dest src : Z) : outcome mem :=
  match count with
  | O => Ok m
  | S count =>
      c ← load m src;
      m ← store m dest c;
      if c =? 0 then Ok m
      else match count with
           | O => store m (dest + 1) 0
           | S _ => strncat_loop count m (dest + 1) (src + 1)
           end
  end.

Definition strncat (m : mem) (dest src count : Z) : outcome (mem * Z) :=
  if count =? 0 then Ok (m, dest)
  else
    d ← skip_to_nul (cfuel m) m dest;
    m ← strncat_loop (Z.to_nat count) m d src;
    Ok (m, dest).

Fixpoint memset_loop (count : nat) (m : mem) (xs c : Z) : outcome mem :=
  match count with
  | O => Ok m
  | S count => m ← store m xs c; memset_loop count m (xs + 1) c
  end.

Definition memset (m : mem) (s c count : Z) : outcome (mem * Z) :=
  m ← memset_loop (Z.to_nat count) m s c;
  Ok (m, s).

(** [while (count--) *tmp++ = *s++;] *)
Fixpoint copy_up (count : nat) (m : mem) (tmp s : Z) : outcome mem :=
  match count with
  | O => Ok m
  | S count =>
      c ← load m s;
      m ← store m tmp c;
      copy_up count m (tmp + 1) (s + 1)
  end.

(** [while (count--) *--tmp = *--s;] *)
Fixpoint copy_down (count : nat) (m : mem) (tmp s : Z) : outcome mem :=
  match count with
  | O => Ok m
  | S count =>
      c ← load m (s - 1);
      m ← store m (tmp - 1) c;
      copy_down count m (tmp - 1) (s - 1)
  end.

(** [count] is an [int] here; a negative one counts through all 2^32 values. *)
Definition bcopy (m : mem) (src dest count : Z) : outcome (mem * Z) :=
  m ← copy_up (Z.to_nat (u32 count)) m dest src;
  Ok (m, dest).

Definition memcpy (m : mem) (dest src count : Z) : outcome (mem * Z) :=
  m ← copy_up (Z.to_nat count) m dest src;
  Ok (m, dest).

Definition memmove (m : mem) (dest src count : Z) : outcome (mem * Z) :=
  m ← (if dest <=? src
       then copy_up (Z.to_nat count) m dest src
       else copy_down (Z.to_nat count) m (dest + count) (src + count));
  Ok (m, dest).

(** ** Searching *)

Fixpoint strchr_loop (fuel : nat) (m : mem) (s c : Z) : outcome Z :=
  match fuel with
  | O => Trap Fuel
  | S fuel =>
      b ← load m s;
      if b =? u8 c then Ok s
      else if b =? 0 then Ok 0
      else strchr_loop fuel m (s + 1) c
  end.

Definition strchr (m : mem) (s c : Z) : outcome Z := strchr_loop (cfuel m) m s c.

Definition strlen (m : mem) (s : Z) : outcome Z :=
  sc ← skip_to_nul (cfuel m) m s;
  Ok (sc - s).

Fixpoint strrchr_loop (n : nat) (m : mem) (s c : Z) : outcome Z :=
  b ← load m (s + Z.of_nat n);
  if b =? u8 c then Ok (s + Z.of_nat n)
  else match n with
       | O => Ok 0
       | S n => strrchr_loop n m s c
       end.

(** [p] runs down from [s + strlen(s)] to [s]. *)
Definition strrchr (m : mem) (s c : Z) : outcome Z :=
  n ← strlen m s;
  strrchr_loop (Z.to_nat n) m s c.

Fixpoint strnlen_loop (count : nat) (m : mem) (sc : Z) : outcome Z :=
  match count with
  | O => Ok sc
  | S count =>
      c ← load m sc;
      if c =? 0 then Ok sc else strnlen_loop count m (sc + 1)
  end.

Definition strnlen (m : mem) (s count : Z) : outcome Z :=
  sc ← strnlen_loop (Z.to_nat count) m s;
  Ok (sc - s).

(** Does the character [c] occur in the string [a]?  (The inner loop of
    [strspn] and [strpbrk]: it stops at [c] or at the NUL.) *)
Fixpoint in_set_loop (fuel : nat) (m : mem) (a c : Z) : outcome bool :=
  match fuel with
  | O => Trap Fuel
  | S fuel =>
      b ← load m a;
      if b =? 0 then Ok false
      else if c =? b then Ok true
      else in_set_loop fuel m (a + 1) c
  end.

Fixpoint strspn_loop (fuel : nat) (m : mem) (p accept count : Z) : outcome Z :=
  match fuel with
  | O => Trap Fuel
  | S fuel =>
      c ← load m p;
      if c =? 0 then Ok count
      else
        found ← in_set_loop (cfuel m) m accept c;
        if (found : bool) then strspn_loop fuel m (p + 1) accept (count + 1)
        else Ok count
  end.

Definition strspn (m : mem) (s accept : Z) : outcome Z :=
  strspn_loop (cfuel m) m s accept 0.

Fixpoint strpbrk_loop (fuel : nat) (m : mem) (sc1 ct : Z) : outcome Z :=
  match fuel with
  | O => Trap Fuel
  | S fuel =>
      c ← load m sc1;
      if c =? 0 then Ok 0
      else
        found ← in_set_loop (cfuel m) m ct c;
        if (found : bool) then Ok sc1 else strpbrk_loop fuel m (sc1 + 1) ct
  end.

Definition strpbrk (m : mem) (cs ct : Z) : outcome Z := strpbrk_loop (cfuel m) m cs ct.

Fixpoint memscan_loop (size : nat) (m : mem) (p c : Z) : outcome Z :=
  match size with
  | O => Ok p
  | S size =>
      b ← load m p;
      if b =? c then Ok p else memscan_loop size m (p + 1) c
  end.

Definition memscan (m : mem) (addr c size : Z) : outcome Z :=
  memscan_loop (Z.to_nat size) m addr c.

Fixpoint memchr_loop (n : nat) (m : mem) (p c : Z) : outcome Z :=
  match n with
  | O => Ok 0
  | S n =>
      b ← load m p;
      if u8 c =? b then Ok p else memchr_loop n m (p + 1) c
  end.

Definition memchr (m : mem) (s c n : Z) : outcome Z := memchr_loop (Z.to_nat n) m s c.

(** [while (l1 >= l2)]: [n] is the number of iterations left, [l1 - l2 + 1]. *)
Fixpoint strstr_loop (n : nat) (m : mem) (s1 s2 l2 : Z) : outcome Z :=
  match n with
  | O => Ok 0
  | S n =>
      r ← memcmp m s1 s2 l2;
      if r =? 0 then Ok s1 else strstr_loop n m (s1 + 1) s2 l2
  end.

Definition strstr (m : mem) (s1 s2 : Z) : outcome Z :=
  l2 ← strlen m s2;
  if l2 =? 0 then Ok s1
  else
    l1 ← strlen m s1;
    strstr_loop (Z.to_nat (l1 - l2 + 1)) m s1 s2 l2.

(** ** Tokens *)

(** The common part of [strtok] and [strsep]: skip the leading delimiters of
    [sbegin]; at the end of the string there is no token, otherwise the token
    is cut at the next delimiter and the rest of the string starts behind it.
    The result is the token, and the rest ([0] when no delimiter follows). *)
Definition next_token (m : mem) (sbegin ct : Z) : outcome (mem * option (Z * Z)) :=
  n ← strspn m sbegin ct;
  let sbegin := sbegin + n in
  c ← load m sbegin;
  if c =? 0 then Ok (m, None)
  else
    send ← strpbrk m sbegin ct;
    if negb (send =? 0) then
      e ← load m send;
      if negb (e =? 0) then
        m ← store m send 0;
        Ok (m, Some (sbegin, send + 1))
      else Ok (m, Some (sbegin, send))
    else Ok (m, Some (sbegin, send)).

(** [___strtok] is passed in and out. *)
Definition strtok (m : mem) (___strtok s ct : Z) : outcome (mem * Z * Z) :=
  let sbegin := if negb (s =? 0) then s else ___strtok in
  if sbegin =? 0 then Ok (m, ___strtok, 0)
  else
    '(m, t) ← next_token m sbegin ct;
    match t with
    | None => Ok (m, 0, 0)
    | Some (sbegin, send) => Ok (m, send, sbegin)
    end.

(** [*s] is passed in and out; [strsep] leaves it alone when there is no token. *)
Definition strsep (m : mem) (s ct : Z) : outcome (mem * Z * Z) :=
  if s =? 0 then Ok (m, s, 0)
  else
    '(m, t) ← next_token m s ct;
    match t with
    | None => Ok (m, s, 0)
    | Some (sbegin, send) => Ok (m, send, sbegin)
    end.

(** ** Reference definitions *)

(** The value [strcmp] and [memcmp] compute: the first difference, as a
    [signed char]. *)
Fixpoint str_diff (l k : list Z) : Z :=
  match l, k with
  | [], [] => 0
  | [], b :: _ => s8 (0 - b)
  | a :: _, [] => s8 a
  | a :: l, b :: k => if a =? b then str_diff l k else s8 (a - b)
  end.

(** [write_bytes m a l]: memory with [l] written at [a]. *)
Fixpoint write_bytes (m : mem) (a : Z) (l : list Z) : mem :=
  match l with
  | [] => m
  | b :: l => write_bytes (<[a := b]> m) (a + 1) l
  end.

Definition mapped (m : mem) (a n : Z) : Prop := ∀ x, a <= x < a + n → is_Some (m !! x).

(** ** Lengths *)

Lemma skip_to_nul_cstr m s l fuel :
  cstr m s l → (length l < fuel)%nat → skip_to_nul fuel m s = Ok (s + zlen l).
Proof.
  revert s fuel. induction l as [|b l IH]; intros s [|fuel] [H N] Hf; simpl in *; try lia.
  - destruct H as [H _]. unfold load. rewrite H. simpl. rewrite zlen_nil. f_equal. lia.
  - destruct H as [H1 H]. inv_forall. unfold load. rewrite H1. simpl.
    destruct (Z.eqb_spec b 0); [done|].
    rewrite IH; [|by split|lia]. rewrite zlen_cons. f_equal. lia.
Qed.

Lemma cstr_fuel m s l : cstr m s l → (length l < cfuel m)%nat.
Proof.
  intros [H _]. apply bytes_at_fuel in H. rewrite length_app in H. simpl in H. lia.
Qed.

Lemma strlen_cstr m s l : cstr m s l → strlen m s = Ok (zlen l).
Proof.
  intros H. unfold strlen. rewrite (skip_to_nul_cstr m s l) by eauto using cstr_fuel.
  simpl. f_equal. lia.
Qed.

Lemma strnlen_loop_cstr m s l n :
  cstr m s l → strnlen_loop n m s = Ok (s + Z.min (Z.of_nat n) (zlen l)).
Proof.
  revert s l. induction n as [|n IH]; intros s l H; simpl.
  - pose proof (zlen_nonneg l). f_equal. lia.
  - destruct l as [|b l], H as [H N]; simpl in H; destruct H as [H1 H]; unfold load; rewrite H1; cbn -[Z.of_nat].
    + f_equal. unfold zlen. cbn -[Z.of_nat]. lia.
    + inv_forall. destruct (Z.eqb_spec b 0); [done|].
      rewrite (IH (s + 1) l) by (by split). rewrite zlen_cons. f_equal. lia.
Qed.

Lemma strnlen_cstr m s l n :
  0 <= n → cstr m s l → strnlen m s n = Ok (Z.min n (zlen l)).
Proof.
  intros Hn H. unfold strnlen. rewrite (strnlen_loop_cstr m s l) by done.
  simpl. rewrite Z2Nat.id by done. f_equal. lia.
Qed.

(** ** Comparison *)

Lemma s8_diff a b : s8 (s8 a - s8 b) = s8 (a - b).
Proof.
  unfold swrap. change (2 ^ 8) with 256. change (2 ^ (8 - 1)) with 128.
  f_equal. Z.div_mod_to_equations. lia.
Qed.

Lemma s8_diff_eq a b : byte a → byte b → s8 (a - b) = 0 → a = b.
Proof.
  unfold byte. intros Ha Hb. rewrite swrap_zero_iff by lia. change (2 ^ 8) with 256.
  Z.div_mod_to_equations. lia.
Qed.

Lemma str_diff_zero l k :
  Forall byte l → Forall byte k → Forall (λ b, b ≠ 0) l → Forall (λ b, b ≠ 0) k →
  str_diff l k = 0 ↔ l = k.
Proof.
  assert (byte 0) as B0 by (unfold byte; lia).
  intros Hl. revert k. induction Hl as [|a l Ha Hl IH]; intros [|b k] Hk Nl Nk; simpl.
  - done.
  - inv_forall. split; [|done].
    intros E. apply s8_diff_eq in E; first [done | congruence].
  - inv_forall. split; [|done].
    intros E. replace a with (a - 0) in E by lia. apply s8_diff_eq in E; first [done | congruence].
  - inv_forall.
    destruct (Z.eqb_spec a b) as [->|Hab].
    + rewrite IH by done. naive_solver.
    + split; [intros E; apply s8_diff_eq in E; first [done | congruence] | congruence].
Qed.

Lemma strcmp_loop_spec m cs ct l k fuel :
  cstr m cs l → cstr m ct k → Forall byte l → Forall byte k → (length l < fuel)%nat →
  strcmp_loop fuel m cs ct = Ok (str_diff l k).
Proof.
  assert (byte 0) as B0 by (unfold byte; lia).
  revert cs ct k fuel. induction l as [|a l IH];
    intros cs ct [|b k] [|fuel] [H1 N1] [H2 N2] Bl Bk Hf; simpl in *; try lia;
    destruct H1 as [E1 H1], H2 as [E2 H2]; unfold load; rewrite E1, E2; simpl;
    rewrite s8_diff.
  - done.
  - rewrite orb_true_r. done.
  - inv_forall.
    destruct (Z.eqb_spec (s8 (a - 0)) 0) as [E|E]; simpl.
    + apply s8_diff_eq in E; first [done | congruence].
    + by rewrite Z.sub_0_r.
  - inv_forall.
    destruct (Z.eqb_spec a b) as [->|Hab].
    + rewrite Z.sub_diag. simpl. destruct (Z.eqb_spec b 0); [done|].
      apply IH; [split; done..|done|done|lia].
    + destruct (Z.eqb_spec (s8 (a - b)) 0) as [E|E]; [|done].
      apply s8_diff_eq in E; first [done | congruence].
Qed.

Lemma strcmp_spec m cs ct l k :
  cstr m cs l → cstr m ct k → Forall byte l → Forall byte k →
  strcmp m cs ct = Ok (str_diff l k).
Proof. intros. apply strcmp_loop_spec; eauto using cstr_fuel. Qed.

Lemma memcmp_loop_spec m cs ct l k res :
  length l = length k → bytes_at m cs l → bytes_at m ct k → Forall byte l → Forall byte k →
  ∃ r, memcmp_loop (length l) m cs ct res = Ok r ∧ (r = 0 ↔ l = k ∧ (l = [] → res = 0)).
Proof.
  revert cs ct k res. induction l as [|a l IH]; intros cs ct [|b k] res Hlen H1 H2 Bl Bk;
    simpl in *; try lia.
  - exists res. naive_solver.
  - destruct H1 as [E1 H1], H2 as [E2 H2]. inv_forall.
    unfold load. rewrite E1, E2. simpl.
    destruct (Z.eqb_spec (s8 (a - b)) 0) as [E|E]; simpl.
    + assert (a = b) as Eab by (by apply s8_diff_eq).
      destruct (IH (cs + 1) (ct + 1) k (s8 (a - b))) as (r & Hr & Hz); [lia|done..|].
      exists r. split; [done|]. rewrite Hz. subst b.
      split; [intros [-> _]; done | intros [[= ->] _]; done].
    + eexists. split; [done|]. split; [done|]. intros [[= -> ->] _].
      rewrite Z.sub_diag in E. done.
Qed.

Lemma memcmp_spec m cs ct l k :
  length l = length k → bytes_at m cs l → bytes_at m ct k → Forall byte l → Forall byte k →
  ∃ r, memcmp m cs ct (zlen l) = Ok r ∧ (r = 0 ↔ l = k).
Proof.
  intros Hlen H1 H2 Bl Bk. destruct (memcmp_loop_spec m cs ct l k 0) as (r & Hr & Hz); [done..|].
  exists r. unfold memcmp, zlen. rewrite Nat2Z.id. split; [done|]. rewrite Hz. naive_solver.
Qed.

(** ** Copying *)

Lemma lookup_write_bytes_out m a l x :
  x < a ∨ a + zlen l <= x → write_bytes m a l !! x = m !! x.
Proof.
  revert m a. induction l as [|b l IH]; intros m a Hx; simpl; [done|].
  rewrite zlen_cons in Hx. pose proof (zlen_nonneg l).
  rewrite IH by lia. apply lookup_insert_ne. lia.
Qed.

Lemma write_bytes_at m a l : bytes_at (write_bytes m a l) a l.
Proof.
  revert m a. induction l as [|b l IH]; intros m a; simpl; [done|]. split; [|done].
  rewrite lookup_write_bytes_out by lia. apply lookup_insert_eq.
Qed.

Lemma write_bytes_snoc m a l b :
  write_bytes m a (l ++ [b]) = write_bytes (<[a + zlen l := b]> m) a l.
Proof.
  revert m a. induction l as [|c l IH]; intros m a; simpl.
  - by rewrite zlen_nil, Z.add_0_r.
  - rewrite IH, zlen_cons. replace (a + 1 + zlen l) with (a + (zlen l + 1)) by lia.
    by rewrite insert_insert_ne by (pose proof (zlen_nonneg l); lia).
Qed.

Lemma mapped_insert m a n x v : mapped m a n → mapped (<[x := v]> m) a n.
Proof. intros H y Hy. rewrite lookup_insert_is_Some'. eauto. Qed.

Lemma mapped_sub m a n b k : a <= b → b + k <= a + n → mapped m a n → mapped m b k.
Proof. intros ?? H x Hx. apply H. lia. Qed.

Lemma store_mapped m a v : is_Some (m !! a) → store m a v = Ok (<[a := u8 v]> m).
Proof. intros [b Hb]. unfold store. by rewrite Hb. Qed.

Lemma copy_up_spec m dest src l :
  bytes_at m src l → Forall byte l → mapped m dest (zlen l) →
  dest <= src ∨ src + zlen l <= dest →
  copy_up (length l) m dest src = Ok (write_bytes m dest l).
Proof.
  revert m dest src. induction l as [|b l IH]; intros m dest src H B M Hov; simpl; [done|].
  destruct H as [E H]. inv_forall. rewrite zlen_cons in *. pose proof (zlen_nonneg l).
  unfold load. rewrite E. simpl.
  rewrite store_mapped by (apply M; lia). simpl. rewrite u8_id by done.
  apply IH; [|done| |lia].
  - apply bytes_at_insert; [lia|done].
  - apply mapped_insert. eapply mapped_sub; [..|exact M]; lia.
Qed.

Lemma copy_down_spec m dest src l :
  bytes_at m src l → Forall byte l → mapped m dest (zlen l) → src <= dest →
  copy_down (length l) m (dest + zlen l) (src + zlen l) = Ok (write_bytes m dest l).
Proof.
  revert m. induction l as [|b l IH] using rev_ind; intros m H B M Hov; [done|].
  apply bytes_at_app in H as [H [E _]]. apply Forall_app in B as [B Bb]. inv_forall.
  rewrite length_app, Nat.add_comm, zlen_app, zlen_cons, zlen_nil in *. simpl.
  pose proof (zlen_nonneg l).
  replace (src + (zlen l + (0 + 1)) - 1) with (src + zlen l) by lia.
  replace (dest + (zlen l + (0 + 1)) - 1) with (dest + zlen l) by lia.
  unfold load. rewrite E. simpl.
  rewrite store_mapped by (apply M; lia). simpl. rewrite u8_id by done.
  rewrite write_bytes_snoc. apply IH; [|done| |done].
  - apply bytes_at_insert; [lia|done].
  - apply mapped_insert. eapply mapped_sub; [..|exact M]; lia.
Qed.

Lemma memmove_spec m dest src l :
  bytes_at m src l → Forall byte l → mapped m dest (zlen l) →
  memmove m dest src (zlen l) = Ok (write_bytes m dest l, dest).
Proof.
  intros H B M. unfold memmove, zlen at 1 2. rewrite Nat2Z.id.
  destruct (Z.leb_spec dest src).
  - by rewrite copy_up_spec by auto.
  - rewrite copy_down_spec by (auto; lia). done.
Qed.

Lemma memcpy_spec m dest src l :
  bytes_at m src l → Forall byte l → mapped m dest (zlen l) →
  dest <= src ∨ src + zlen l <= dest →
  memcpy m dest src (zlen l) = Ok (write_bytes m dest l, dest).
Proof.
  intros H B M Hov. unfold memcpy, zlen at 1. rewrite Nat2Z.id.
  by rewrite copy_up_spec by auto.
Qed.

Lemma memset_loop_spec m s c n :
  mapped m s (Z.of_nat n) → memset_loop n m s c = Ok (write_bytes m s (replicate n (u8 c))).
Proof.
  revert m s. induction n as [|n IH]; intros m s M; simpl; [done|].
  rewrite store_mapped by (apply M; lia). simpl.
  apply IH, mapped_insert. eapply mapped_sub; [..|exact M]; lia.
Qed.

(** The copied string [l ++ [0]] overwrites the source only if they overlap
    with the destination above it. *)
Lemma strcpy_loop_spec m dest src l fuel :
  cstr m src l → Forall byte l → mapped m dest (zlen l + 1) →
  dest <= src ∨ src + zlen l + 1 <= dest → (length l < fuel)%nat →
  strcpy_loop fuel m dest src = Ok (write_bytes m dest (l ++ [0])).
Proof.
  revert m dest src fuel. induction l as [|b l IH];
    intros m dest src [|fuel] [H N] B M Hov Hf; simpl in *; try lia.
  - destruct H as [E _]. unfold load. rewrite E. simpl.
    rewrite store_mapped by (apply M; rewrite zlen_nil; lia). done.
  - destruct H as [E H]. inv_forall. rewrite zlen_cons in *. pose proof (zlen_nonneg l).
    unfold load. rewrite E. simpl.
    rewrite store_mapped by (apply M; lia). simpl. rewrite u8_id by done.
    destruct (Z.eqb_spec b 0); [done|].
    apply IH; [split|done| | |]; try lia.
    + apply bytes_at_insert; [rewrite zlen_app, zlen_cons, zlen_nil; lia|done].
    + done.
    + apply mapped_insert. eapply mapped_sub; [..|exact M]; lia.
Qed.

(** ** Substring search *)

Lemma take_prefix_iff (l k : list Z) :
  (length k <= length l)%nat → take (length k) l = k ↔ k `prefix_of` l.
Proof.
  intros Hlen. split.
  - intros <-. apply prefix_take.
  - intros [z ->]. apply take_app_length.
Qed.

Lemma strstr_loop_spec m s1 s2 l k :
  cstr m s1 l → bytes_at m s2 k → k ≠ [] → Forall byte l → Forall byte k →
  ∃ r, strstr_loop (Z.to_nat (zlen l - zlen k + 1)) m s1 s2 (zlen k) = Ok r ∧
    ((∃ i : nat, r = s1 + Z.of_nat i ∧ k `prefix_of` drop i l ∧
        ∀ j : nat, (j < i)%nat → ¬ k `prefix_of` drop j l) ∨
     (r = 0 ∧ ∀ i : nat, ¬ k `prefix_of` drop i l)).
Proof.
  intros Hs Hk Hne Bl Bk. revert s1 Hs. induction l as [|a l IH]; intros s1 Hs.
  - exists 0. destruct k as [|b k]; [done|]. rewrite zlen_cons, zlen_nil.
    pose proof (zlen_nonneg k). replace (Z.to_nat _) with 0%nat by lia.
    split; [done|]. right. split; [done|]. intros i [z Hz]. by rewrite drop_nil in Hz.
  - destruct (decide (length k <= length (a :: l))%nat) as [Hlen|Hlen].
    2:{ exists 0. unfold zlen. replace (Z.to_nat _) with 0%nat by lia.
        split; [done|]. right. split; [done|]. intros i Hp.
        apply prefix_length in Hp. rewrite length_drop in Hp. simpl in *. lia. }
    replace (Z.to_nat (zlen (a :: l) - zlen k + 1))
      with (S (Z.to_nat (zlen l - zlen k + 1)))
      by (unfold zlen; simpl length in *; lia).
    destruct (memcmp_spec m s1 s2 (take (length k) (a :: l)) k) as (r & Hr & Hz).
    { rewrite length_take. lia. }
    { destruct Hs as [Hs _]. apply bytes_at_app in Hs as [Hs _].
      rewrite <- (take_drop (length k) (a :: l)) in Hs. by apply bytes_at_app in Hs as [Hs _]. }
    { done. } { by apply Forall_take. } { done. }
    replace (zlen (take _ _)) with (zlen k) in Hr
      by (unfold zlen; rewrite length_take; lia).
    cbn [strstr_loop]. rewrite Hr. cbn [mbind outcome_bind].
    rewrite take_prefix_iff in Hz by done.
    destruct (Z.eqb_spec r 0) as [->|Hr0].
    + exists s1. split; [done|]. left. exists 0%nat. split; [lia|].
      split; [by apply Hz|lia].
    + inv_forall. destruct Hs as [Hs N]. destruct Hs as [_ Hs]. inv_forall.
      destruct (IH ltac:(done) (s1 + 1)) as (r' & Hr' & Hc); [by split|].
      exists r'. split; [done|]. destruct Hc as [(i & -> & Hp & Hj)|[-> Hn]].
      * left. exists (S i). split; [lia|]. split; [done|].
        intros [|j] Hji; [naive_solver|]. apply (Hj j). lia.
      * right. split; [done|]. intros [|i]; [naive_solver|]. apply Hn.
Qed.

Lemma strstr_spec m s1 s2 l k :
  cstr m s1 l → cstr m s2 k → Forall byte l → Forall byte k →
  ∃ r, strstr m s1 s2 = Ok r ∧
    ((∃ i : nat, r = s1 + Z.of_nat i ∧ k `prefix_of` drop i l ∧
        ∀ j : nat, (j < i)%nat → ¬ k `prefix_of` drop j l) ∨
     (r = 0 ∧ ∀ i : nat, ¬ k `prefix_of` drop i l)).
Proof.
  intros H1 H2 Bl Bk. unfold strstr. rewrite (strlen_cstr m s2 k) by done. simpl.
  destruct (decide (k = [])) as [->|Hk].
  - exists s1. split; [done|]. left. exists 0%nat. split; [lia|].
    split; [apply prefix_nil|lia].
  - assert (zlen k ≠ 0) by (unfold zlen; destruct k; simpl; [done|lia]).
    destruct (Z.eqb_spec (zlen k) 0); [done|].
    rewrite (strlen_cstr m s1 l) by done. simpl.
    apply strstr_loop_spec; try done.
    destruct H2 as [H2 _]. by apply bytes_at_app in H2 as [H2 _].
Qed.

(** ** Tokens *)

Definition delim (d : list Z) (c : Z) : bool := bool_decide (c ∈ d).

(** The maximal non-empty delimiter-free segments of [l], left to right;
    [cur] is the segment being read, reversed. *)
Fixpoint tokens_from (d cur l : list Z) : list (list Z) :=
  match l with
  | [] => match cur with [] => [] | _ => [rev cur] end
  | c :: l =>
      if delim d c
      then match cur with [] => tokens_from d [] l | _ => rev cur :: tokens_from d [] l end
      else tokens_from d (c :: cur) l
  end.

Definition tokens (d l : list Z) : list (list Z) := tokens_from d [] l.

(** A client's loop [for (p = strtok(s, ct); p; p = strtok(NULL, ct))], [n]
    rounds at most; it collects the token pointers. *)
Fixpoint strtok_all (n : nat) (m : mem) (___strtok s ct : Z) : outcome (mem * list Z) :=
  match n with
  | O => Trap Fuel
  | S n =>
      '(m, st, p) ← strtok m ___strtok s ct;
      if p =? 0 then Ok (m, [])
      else '(m, ps) ← strtok_all n m st 0 ct; Ok (m, p :: ps)
  end.

Lemma in_set_loop_spec m a d c fuel :
  cstr m a d → c ≠ 0 → (length d < fuel)%nat → in_set_loop fuel m a c = Ok (delim d c).
Proof.
  intros Hd Hc. unfold delim. revert a fuel Hd. induction d as [|b d IH];
    intros a [|fuel] [H N] Hf; simpl in *; try lia; destruct H as [E H];
    unfold load; rewrite E; simpl; [done|].
  inv_forall. destruct (Z.eqb_spec b 0); [done|].
  destruct (Z.eqb_spec c b) as [->|Hcb].
  - by rewrite bool_decide_true by set_solver.
  - rewrite (IH (a + 1)) by (done || lia || by split). f_equal.
    apply bool_decide_ext. set_solver.
Qed.

Lemma strspn_loop_spec m s l ct d n fuel :
  cstr m s l → cstr m ct d → (length l < fuel)%nat →
  strspn_loop fuel m s ct n = Ok (n + zlen (take_while (delim d) l)).
Proof.
  intros Hl Hd. revert s n fuel Hl. induction l as [|b l IH];
    intros s n [|fuel] [H N] Hf; simpl in *; try lia; destruct H as [E H];
    unfold load; rewrite E; simpl.
  - rewrite zlen_nil. f_equal. lia.
  - inv_forall. destruct (Z.eqb_spec b 0); [done|].
    rewrite (in_set_loop_spec m ct d) by eauto using cstr_fuel. simpl.
    destruct (delim d b).
    + rewrite IH by (done || lia || by split). rewrite zlen_cons. f_equal. lia.
    + rewrite zlen_nil. f_equal. lia.
Qed.

Lemma strspn_spec m s l ct d :
  cstr m s l → cstr m ct d → strspn m s ct = Ok (zlen (take_while (delim d) l)).
Proof. intros. unfold strspn. by erewrite strspn_loop_spec by eauto using cstr_fuel. Qed.

Lemma strpbrk_loop_spec m s l ct d fuel :
  cstr m s l → cstr m ct d → (length l < fuel)%nat →
  strpbrk_loop fuel m s ct =
  Ok (match drop_while (negb ∘ delim d) l with
      | [] => 0 | _ => s + zlen (take_while (negb ∘ delim d) l) end).
Proof.
  intros Hl Hd. revert s fuel Hl. induction l as [|b l IH];
    intros s [|fuel] [H N] Hf; simpl in *; try lia; destruct H as [E H];
    unfold load; rewrite E; simpl; [done|].
  inv_forall. destruct (Z.eqb_spec b 0); [done|].
  rewrite (in_set_loop_spec m ct d) by eauto using cstr_fuel. simpl.
  destruct (delim d b) eqn:Eb; simpl.
  - rewrite zlen_nil. f_equal. lia.
  - rewrite IH by (done || lia || by split). f_equal.
    destruct (drop_while _ l); [done|]. rewrite zlen_cons. lia.
Qed.

Lemma strpbrk_spec m s l ct d :
  cstr m s l → cstr m ct d →
  strpbrk m s ct = Ok (match drop_while (negb ∘ delim d) l with
      | [] => 0 | _ => s + zlen (take_while (negb ∘ delim d) l) end).
Proof. intros. unfold strpbrk. by erewrite strpbrk_loop_spec by eauto using cstr_fuel. Qed.

Lemma cstr_suffix m s l k : cstr m s (l ++ k) → cstr m (s + zlen l) k.
Proof.
  intros [H N]. rewrite <- app_assoc in H. apply bytes_at_app in H as [_ H].
  apply Forall_app in N as [_ N]. by split.
Qed.

Lemma cstr_frame m m' s l :
  (∀ x, s <= x < s + zlen l + 1 → m' !! x = m !! x) → cstr m s l → cstr m' s l.
Proof.
  intros Hx [H N]. split; [|done]. eapply bytes_at_dom_eq; [|exact H].
  intros x. rewrite zlen_app, zlen_cons, zlen_nil. intros. apply Hx. lia.
Qed.

(** Cutting a string at [c] with a NUL leaves a string on either side. *)
Lemma cstr_cut m s t c r :
  cstr m s (t ++ c :: r) →
  cstr (<[s + zlen t := 0]> m) s t ∧ cstr (<[s + zlen t := 0]> m) (s + zlen t + 1) r.
Proof.
  intros H. pose proof (zlen_nonneg t). split.
  - destruct H as [H N]. apply Forall_app in N as [N _]. split; [|done].
    rewrite <- app_assoc in H. apply bytes_at_app in H as [H _]. apply bytes_at_app. split.
    + apply bytes_at_insert; [lia|done].
    + simpl. by rewrite lookup_insert_eq.
  - apply (cstr_frame m); [intros; apply lookup_insert_ne; lia|].
    replace (t ++ c :: r) with ((t ++ [c]) ++ r) in H by (by rewrite <- app_assoc).
    apply cstr_suffix in H. rewrite zlen_app, zlen_cons, zlen_nil in H.
    by replace (s + zlen t + 1) with (s + (zlen t + (0 + 1))) by lia.
Qed.

(** One step of [strtok]/[strsep] on the string [l]: no token is left, or the
    token [t] is cut off at [s + n] and the rest [r] follows it. *)
Lemma next_token_spec m s ct l d :
  cstr m s l → cstr m ct d → 0 < s →
  match drop_while (delim d) l with
  | [] => next_token m s ct = Ok (m, None)
  | (c :: k) as l1 =>
      let n := zlen (take_while (delim d) l) in
      let t := take_while (negb ∘ delim d) l1 in
      match drop_while (negb ∘ delim d) l1 with
      | [] => next_token m s ct = Ok (m, Some (s + n, 0)) ∧ cstr m (s + n) t
      | x :: r =>
          let m' := <[s + n + zlen t := 0]> m in
          next_token m s ct = Ok (m', Some (s + n, s + n + zlen t + 1)) ∧
          cstr m' (s + n) t ∧ cstr m' (s + n + zlen t + 1) r
      end
  end.
Proof.
  intros Hl Hd Hs. pose proof (take_drop_while (delim d) l) as El.
  unfold next_token. erewrite strspn_spec by done. cbn [mbind outcome_bind].
  set (n := zlen (take_while (delim d) l)).
  assert (cstr m (s + n) (drop_while (delim d) l)) as Hl1
    by (apply cstr_suffix; by rewrite El).
  pose proof (zlen_nonneg (take_while (delim d) l)) as Hn. fold n in Hn.
  destruct (drop_while (delim d) l) as [|c k] eqn:Ed.
  - destruct Hl1 as [[E _] _]. unfold load. by rewrite E.
  - pose proof (take_drop_while (negb ∘ delim d) (c :: k)) as E1.
    assert (load m (s + n) = Ok c ∧ c ≠ 0) as [-> Hc].
    { destruct Hl1 as [[E _] N]. inv_forall. unfold load. by rewrite E. }
    cbn [mbind outcome_bind]. destruct (Z.eqb_spec c 0); [done|].
    erewrite strpbrk_spec by done. cbn [mbind outcome_bind].
    set (t := take_while (negb ∘ delim d) (c :: k)) in *.
    pose proof (zlen_nonneg t).
    destruct (drop_while (negb ∘ delim d) (c :: k)) as [|x r] eqn:Er.
    + rewrite app_nil_r in E1. rewrite E1. done.
    + rewrite <- E1 in Hl1. destruct (Z.eqb_spec (s + n + zlen t) 0); [lia|]. cbn [negb].
      pose proof (cstr_suffix _ _ _ _ Hl1) as [[E _] N]. inv_forall.
      unfold load. rewrite E. cbn [mbind outcome_bind].
      destruct (Z.eqb_spec x 0); [done|]. cbn [negb].
      unfold store. rewrite E. cbn [mbind outcome_bind].
      split; [done|]. by apply cstr_cut with x.
Qed.

Lemma tokens_from_cur d cur l :
  cur ≠ [] →
  tokens_from d cur l =
  (rev cur ++ take_while (negb ∘ delim d) l) ::
  tokens_from d [] (tail (drop_while (negb ∘ delim d) l)).
Proof.
  revert cur. induction l as [|c l IH]; intros cur Hc; simpl.
  - destruct cur; [done|]. by rewrite app_nil_r.
  - destruct (delim d c) eqn:E; simpl.
    + destruct cur; [done|]. by rewrite app_nil_r.
    + rewrite IH by done. simpl. by rewrite <- app_assoc.
Qed.

(** The reference split, one token at a time. *)
Lemma tokens_step d l :
  tokens d l =
  match drop_while (delim d) l with
  | [] => []
  | l1 => take_while (negb ∘ delim d) l1 ::
          tokens d (tail (drop_while (negb ∘ delim d) l1))
  end.
Proof.
  unfold tokens. induction l as [|c l IH]; simpl; [done|].
  destruct (delim d c) eqn:E; [done|]. simpl. rewrite E. simpl.
  rewrite tokens_from_cur by done. done.
Qed.

Lemma drop_while_tail_length {A} (p : A → bool) l x r :
  drop_while p l = x :: r → (length r < length l)%nat.
Proof. intros E. pose proof (drop_while_length p l). rewrite E in *. simpl in *. lia. Qed.

Lemma strtok_all_spec m s ct l d st arg n :
  cstr m s l → cstr m ct d → 0 < s →
  ct + zlen d < s ∨ s + zlen l < ct →
  (if arg =? 0 then st else arg) = s → (length l + 1 < n)%nat →
  ∃ m' ps, strtok_all n m st arg ct = Ok (m', ps) ∧
    Forall2 (cstr m') ps (tokens d l) ∧
    (∀ x, x < s ∨ s + zlen l <= x → m' !! x = m !! x).
Proof.
  revert m s st arg n. induction l as [l IH] using list_len_ind.
  intros m s st arg [|n] Hl Hd Hs Hdis Harg Hn; [lia|]. cbn [strtok_all].
  assert (strtok m st arg ct = '(m', t) ← next_token m s ct;
            match t with None => Ok (m', 0, 0) | Some (b, e) => Ok (m', e, b) end) as ->.
  { assert ((if negb (arg =? 0) then arg else st) = s) as E
      by (rewrite <- Harg; by destruct (arg =? 0)).
    unfold strtok. rewrite E. destruct (Z.eqb_spec s 0); [lia|done]. }
  pose proof (next_token_spec m s ct l d Hl Hd Hs) as HT.
  rewrite tokens_step. pose proof (take_drop_while (delim d) l) as El.
  destruct (drop_while (delim d) l) as [|c k] eqn:Ed.
  { rewrite HT. cbn. exists m, []. repeat split; auto. }
  cbv zeta in HT. set (a := s + zlen (take_while (delim d) l)) in *.
  assert (s <= a) by (pose proof (zlen_nonneg (take_while (delim d) l)); unfold a; lia).
  assert (a + zlen (c :: k) = s + zlen l) as Ha
    by (pose proof (f_equal zlen El) as Hz; rewrite zlen_app in Hz; unfold a; lia).
  pose proof (take_drop_while (negb ∘ delim d) (c :: k)) as E1.
  pose proof (zlen_nonneg (take_while (negb ∘ delim d) (c :: k))).
  destruct (drop_while (negb ∘ delim d) (c :: k)) as [|x r] eqn:Er.
  - destruct HT as [-> Ht]. cbn [mbind outcome_bind].
    destruct (Z.eqb_spec a 0); [lia|].
    destruct n as [|n]; [lia|]. exists m, [a]. split; [done|]. split; [|done].
    rewrite Er. constructor; [done | constructor].
  - destruct HT as (-> & Ht & Hr). cbn [mbind outcome_bind].
    destruct (Z.eqb_spec a 0); [lia|].
    set (t := take_while (negb ∘ delim d) (c :: k)) in *.
    assert (zlen (c :: k) = zlen t + (zlen r + 1)) as Elen
      by (pose proof (f_equal zlen E1) as Hz; rewrite zlen_app, (zlen_cons x r) in Hz; lia).
    pose proof (zlen_nonneg r). pose proof (zlen_nonneg d).
    destruct (IH r) with (m := <[a + zlen t := 0]> m) (s := a + zlen t + 1)
      (st := a + zlen t + 1) (arg := 0) (n := n) as (m' & ps & -> & HF & Hfr).
    + apply drop_while_tail_length in Er. unfold zlen in Elen, Ha. lia.
    + done.
    + apply (cstr_frame m); [|done]. intros y Hy. apply lookup_insert_ne. lia.
    + lia.
    + lia.
    + done.
    + apply drop_while_tail_length in Er. unfold zlen in Elen, Ha. lia.
    + exists m', (a :: ps). split; [done|]. split.
      * rewrite Er. cbn [tail]. constructor; [|done].
        apply (cstr_frame (<[a + zlen t := 0]> m)); [|done]. intros y Hy. apply Hfr. lia.
      * intros y Hy. rewrite Hfr by lia. apply lookup_insert_ne. lia.
Qed.

(** ** Termination: the fuel is always enough *)

(** A scanner that reads [p], [p+1], ... and runs out of fuel has read
    [fuel] mapped addresses; there are not that many. *)
Definition scanned (m : mem) (p : Z) (fuel : nat) : Prop :=
  ∀ i, (i < fuel)%nat → is_Some (m !! (p + Z.of_nat i)).

Lemma scanned_S m p fuel c : load m p = Ok c → scanned m (p + 1) fuel → scanned m p (S fuel).
Proof.
  intros Hl H [|i] Hi; [apply load_ok in Hl; rewrite Z.add_0_r; eauto|].
  replace (p + Z.of_nat (S i)) with (p + 1 + Z.of_nat i) by lia. apply H. lia.
Qed.

Lemma scanned_fuel m p : ¬ scanned m p (cfuel m).
Proof. intros H. apply mapped_run_size in H. rewrite cfuel_size in H. lia. Qed.

(** Step through one round of a scanner's body in [H : body = Trap Fuel]. *)
Ltac scan H :=
  repeat (cbn [mbind outcome_bind] in H;
    match type of H with
    | (load ?m ?a ≫= _) = _ =>
        let E := fresh "E" in let c := fresh "c" in destruct (load m a) as [c|[]] eqn:E;
        [| discriminate H | discriminate H | by destruct (load_terminates m a)]
    | (store ?m ?a ?v ≫= _) = _ =>
        let E := fresh "E" in let m1 := fresh "m" in destruct (store m a v) as [m1|[]] eqn:E;
        [| discriminate H | discriminate H | by destruct (store_terminates m a v)]
    | (if ?c then _ else _) = _ => destruct c; try discriminate H
    end).

Lemma skip_to_nul_scanned fuel m s : skip_to_nul fuel m s = Trap Fuel → scanned m s fuel.
Proof.
  revert s. induction fuel as [|fuel IH]; intros s H; [intros ? ?; lia|].
  cbn [skip_to_nul] in H. scan H. eauto using scanned_S.
Qed.

Lemma strchr_scanned fuel m s c : strchr_loop fuel m s c = Trap Fuel → scanned m s fuel.
Proof.
  revert s. induction fuel as [|fuel IH]; intros s H; [intros ? ?; lia|].
  cbn [strchr_loop] in H. scan H. eauto using scanned_S.
Qed.

Lemma in_set_scanned fuel m s c : in_set_loop fuel m s c = Trap Fuel → scanned m s fuel.
Proof.
  revert s. induction fuel as [|fuel IH]; intros s H; [intros ? ?; lia|].
  cbn [in_set_loop] in H. scan H. eauto using scanned_S.
Qed.

Lemma strcmp_scanned fuel m s t : strcmp_loop fuel m s t = Trap Fuel → scanned m s fuel.
Proof.
  revert s t. induction fuel as [|fuel IH]; intros s t H; [intros ? ?; lia|].
  cbn [strcmp_loop] in H. scan H. eauto using scanned_S.
Qed.

Lemma strcpy_scanned fuel m d s : strcpy_loop fuel m d s = Trap Fuel → scanned m s fuel.
Proof.
  revert m d s. induction fuel as [|fuel IH]; intros m d s H; [intros ? ?; lia|].
  cbn [strcpy_loop] in H. scan H. apply store_ok in E0 as [Hd ->].
  apply (scanned_S _ _ _ c); [done|]. intros i Hi. apply IH in H. specialize (H i Hi).
  rewrite lookup_insert_is_Some' in H. destruct H as [<-|H]; done.
Qed.

Lemma in_set_terminates m s c : terminates (in_set_loop (cfuel m) m s c).
Proof. intros H. by apply in_set_scanned, scanned_fuel in H. Qed.

Lemma strspn_scanned fuel m p a n : strspn_loop fuel m p a n = Trap Fuel → scanned m p fuel.
Proof.
  revert p n. induction fuel as [|fuel IH]; intros p n H; [intros ? ?; lia|].
  cbn [strspn_loop] in H. scan H.
  destruct (in_set_loop (cfuel m) m a c) as [[]|[]] eqn:E0; try discriminate H.
  - eauto using scanned_S.
  - by destruct (in_set_terminates m a c).
Qed.

Lemma strpbrk_scanned fuel m p a : strpbrk_loop fuel m p a = Trap Fuel → scanned m p fuel.
Proof.
  revert p. induction fuel as [|fuel IH]; intros p H; [intros ? ?; lia|].
  cbn [strpbrk_loop] in H. scan H.
  destruct (in_set_loop (cfuel m) m a c) as [[]|[]] eqn:E0; try discriminate H.
  - eauto using scanned_S.
  - by destruct (in_set_terminates m a c).
Qed.

Lemma skip_to_nul_terminates m s : terminates (skip_to_nul (cfuel m) m s).
Proof. intros H. by apply skip_to_nul_scanned, scanned_fuel in H. Qed.

Lemma strcmp_terminates m s t : terminates (strcmp m s t).
Proof. intros H. by apply strcmp_scanned, scanned_fuel in H. Qed.

Lemma strchr_terminates m s c : terminates (strchr m s c).
Proof. intros H. by apply strchr_scanned, scanned_fuel in H. Qed.

Lemma strcpy_loop_terminates m d s : terminates (strcpy_loop (cfuel m) m d s).
Proof. intros H. by apply strcpy_scanned, scanned_fuel in H. Qed.

Lemma strspn_terminates m s t : terminates (strspn m s t).
Proof. intros H. by apply strspn_scanned, scanned_fuel in H. Qed.

Lemma strpbrk_terminates m s t : terminates (strpbrk m s t).
Proof. intros H. by apply strpbrk_scanned, scanned_fuel in H. Qed.

#[export] Hint Resolve skip_to_nul_terminates strcmp_terminates strchr_terminates
  strcpy_loop_terminates strspn_terminates strpbrk_terminates : total.

Lemma strlen_terminates m s : terminates (strlen m s).
Proof. unfold strlen. total. Qed.

Lemma memcmp_loop_terminates n m s t r : terminates (memcmp_loop n m s t r).
Proof. revert s t r. induction n; intros; cbn [memcmp_loop]; total. Qed.

Lemma strncat_loop_terminates n m d s : terminates (strncat_loop n m d s).
Proof. revert m d s. induction n as [|n IH]; intros; cbn [strncat_loop]; total. Qed.

Lemma strrchr_loop_terminates n m s c : terminates (strrchr_loop n m s c).
Proof. induction n; cbn [strrchr_loop]; total. Qed.

Lemma memcmp_terminates m s t n : terminates (memcmp m s t n).
Proof. apply memcmp_loop_terminates. Qed.

#[export] Hint Resolve strlen_terminates memcmp_terminates strncat_loop_terminates
  strrchr_loop_terminates : total.

Lemma strstr_loop_terminates n m s t l : terminates (strstr_loop n m s t l).
Proof. revert s. induction n; intros; cbn [strstr_loop]; total. Qed.

#[export] Hint Resolve strstr_loop_terminates : total.

Lemma next_token_terminates m s t : terminates (next_token m s t).
Proof. unfold next_token. cbv zeta. total. Qed.

#[export] Hint Resolve next_token_terminates : total.

(** ** Concatenation *)

Lemma write_bytes_is_Some m a l x : is_Some (m !! x) → is_Some (write_bytes m a l !! x).
Proof.
  revert m a. induction l as [|b l IH]; intros m a H; simpl; [done|].
  apply IH, lookup_insert_is_Some'. by right.
Qed.

Lemma strcat_spec m dest src l k :
  cstr m dest l → cstr m src k → Forall byte k →
  mapped m (dest + zlen l) (zlen k + 1) →
  src + zlen k + 1 <= dest + zlen l ∨ dest + zlen l <= src →
  strcat m dest src = Ok (write_bytes m (dest + zlen l) (k ++ [0]), dest).
Proof.
  intros Hd Hs B M Hov. unfold strcat.
  rewrite (skip_to_nul_cstr m dest l) by eauto using cstr_fuel. cbn [mbind outcome_bind].
  rewrite (strcpy_loop_spec m (dest + zlen l) src k) by (eauto using cstr_fuel; lia). done.
Qed.

(** ** Checking the hypotheses on a concrete memory *)

Definition mappedb (m : mem) (a n : Z) : bool :=
  forallb (λ i, bool_decide (is_Some (m !! (a + Z.of_nat i)))) (seq 0 (Z.to_nat n)).

Lemma mappedb_mapped m a n : mappedb m a n = true → mapped m a n.
Proof.
  unfold mappedb. rewrite forallb_forall. intros H x Hx.
  specialize (H (Z.to_nat (x - a))). rewrite Z2Nat.id in H by lia.
  replace (a + (x - a)) with x in H by lia.
  eapply bool_decide_eq_true_1, H, in_seq. lia.
Qed.

Definition cstrb (m : mem) (s : Z) (l : list Z) : bool :=
  forallb (λ i, bool_decide (m !! (s + Z.of_nat i) = (l ++ [0]) !! i)) (seq 0 (S (length l)))
  && forallb (λ b, negb (b =? 0)) l.

Lemma cstrb_cstr m s l : cstrb m s l = true → cstr m s l.
Proof.
  unfold cstrb. rewrite andb_true_iff, !forallb_forall. intros [H N]. split.
  - apply bytes_at_lookup. intros i b Hi. rewrite <- Hi.
    eapply bool_decide_eq_true_1, H, in_seq.
    apply lookup_lt_Some in Hi. rewrite length_app in Hi. simpl in *. lia.
  - apply Forall_forall. intros b Hb. apply N in Hb.
    by destruct (Z.eqb_spec b 0).
Qed.

Definition bytesb (l : list Z) : bool := forallb (λ b, (0 <=? b) && (b <? 256)) l.

Lemma bytesb_bytes l : bytesb l = true → Forall byte l.
Proof.
  unfold bytesb. rewrite forallb_forall, Forall_forall. intros H b Hb.
  apply H in Hb. unfold byte. lia.
Qed.

(** [abc\0] at 100 and [bc\0] at 200, with room behind both. *)
Definition mem_ex : mem :=
  write_bytes (write_bytes ∅ 100 [97; 98; 99; 0; 1; 1; 1]) 200 [98; 99; 0].

(** ** Properties *)

(** C39: [memmove] copies [l] to [dest] whatever the overlap of the two areas,
    and changes nothing else. *)
Theorem memmove_correct m dest src l :
  bytes_at m src l → Forall byte l → mapped m dest (zlen l) →
  ∃ m', memmove m dest src (zlen l) = Ok (m', dest) ∧ bytes_at m' dest l ∧
    ∀ x, x < dest ∨ dest + zlen l <= x → m' !! x = m !! x.
Proof.
  intros. eexists. split; [by apply memmove_spec|]. split; [apply write_bytes_at|].
  intros. by apply lookup_write_bytes_out.
Qed.

Lemma memmove_correct_witness :
  ∃ m', memmove mem_ex 102 100 3 = Ok (m', 102) ∧ bytes_at m' 102 [97; 98; 99] ∧
    ∀ x, x < 102 ∨ 102 + 3 <= x → m' !! x = mem_ex !! x.
Proof.
  apply (memmove_correct mem_ex 102 100 [97; 98; 99]).
  - vm_compute. repeat split; reflexivity.
  - apply bytesb_bytes. reflexivity.
  - apply mappedb_mapped. vm_compute. reflexivity.
Defined.

(** [strcmp] on two strings always returns, and it returns 0 exactly when
    the strings are equal. *)
Theorem strcmp_zero_iff_equal m cs ct l k :
  cstr m cs l → cstr m ct k → Forall byte l → Forall byte k →
  ∃ r, strcmp m cs ct = Ok r ∧ (r = 0 ↔ l = k).
Proof.
  intros H1 H2 B1 B2. exists (str_diff l k). split; [by apply strcmp_spec|].
  apply str_diff_zero; try done; [apply H1 | apply H2].
Qed.

Lemma strcmp_zero_iff_equal_witness :
  ∃ r, strcmp mem_ex 101 200 = Ok r ∧ (r = 0 ↔ [98; 99] = [98; 99]).
Proof.
  apply (strcmp_zero_iff_equal mem_ex 101 200 [98; 99] [98; 99]);
    first [apply cstrb_cstr | apply bytesb_bytes]; vm_compute; reflexivity.
Defined.

(** The order [memcmp] reports is taken from a [signed char]: bytes that differ
    by more than 127 compare the wrong way round. *)
Example memcmp_sign_wrong :
  memcmp (write_bytes ∅ 100 [0; 129]) 100 101 1 = Ok 127.
Proof. vm_compute. reflexivity. Qed.

(** [strstr] returns the first position at which the second string occurs
    in the first, and NULL exactly when there is none. *)
Theorem strstr_first_occurrence m s1 s2 l k :
  cstr m s1 l → cstr m s2 k → Forall byte l → Forall byte k →
  ∃ r, strstr m s1 s2 = Ok r ∧
    ((∃ i : nat, r = s1 + Z.of_nat i ∧ k `prefix_of` drop i l ∧
        ∀ j : nat, (j < i)%nat → ¬ k `prefix_of` drop j l) ∨
     (r = 0 ∧ ∀ i : nat, ¬ k `prefix_of` drop i l)).
Proof. apply strstr_spec. Qed.

Lemma strstr_first_occurrence_witness :
  ∃ r, strstr mem_ex 100 200 = Ok r ∧
    ((∃ i : nat, r = 100 + Z.of_nat i ∧ [98; 99] `prefix_of` drop i [97; 98; 99] ∧
        ∀ j : nat, (j < i)%nat → ¬ [98; 99] `prefix_of` drop j [97; 98; 99]) ∨
     (r = 0 ∧ ∀ i : nat, ¬ [98; 99] `prefix_of` drop i [97; 98; 99])).
Proof.
  apply (strstr_first_occurrence mem_ex 100 200 [97; 98; 99] [98; 99]);
    first [apply cstrb_cstr | apply bytesb_bytes]; vm_compute; reflexivity.
Defined.

(** calling [strtok] until it returns NULL yields pointers to exactly the
    tokens of the string, in order, and writes only inside the string. *)
Theorem strtok_splits m s ct l d st :
  cstr m s l → cstr m ct d → 0 < s → ct + zlen d < s ∨ s + zlen l < ct →
  ∃ m' ps, strtok_all (length l + 2) m st s ct = Ok (m', ps) ∧
    Forall2 (cstr m') ps (tokens d l) ∧
    (∀ x, x < s ∨ s + zlen l <= x → m' !! x = m !! x).
Proof.
  intros H1 H2 Hs Hd. apply strtok_all_spec; try done; [|lia].
  by destruct (Z.eqb_spec s 0); [lia|].
Qed.

(** [a,,b] split at commas. *)
Definition mem_tok : mem :=
  write_bytes (write_bytes ∅ 100 [97; 44; 44; 98; 0]) 200 [44; 0].

Lemma strtok_splits_witness :
  tokens [44] [97; 44; 44; 98] = [[97]; [98]] ∧
  ∃ m' ps, strtok_all 6 mem_tok 0 100 200 = Ok (m', ps) ∧
    Forall2 (cstr m') ps [[97]; [98]] ∧
    (∀ x, x < 100 ∨ 100 + 4 <= x → m' !! x = mem_tok !! x).
Proof.
  split; [reflexivity|].
  apply (strtok_splits mem_tok 100 200 [97; 44; 44; 98] [44] 0);
    try (apply cstrb_cstr; vm_compute; reflexivity); vm_compute; auto.
Defined.

(** [strcat] appends the second string to the first in place, when the
    source does not overlap the area written, and changes nothing else. *)
Theorem strcat_appends m dest src l k :
  cstr m dest l → cstr m src k → Forall byte k →
  mapped m (dest + zlen l) (zlen k + 1) →
  src + zlen k + 1 <= dest + zlen l ∨ dest + zlen l + zlen k + 1 <= src →
  ∃ m', strcat m dest src = Ok (m', dest) ∧ cstr m' dest (l ++ k) ∧ cstr m' src k ∧
    ∀ x, x < dest + zlen l ∨ dest + zlen l + zlen k + 1 <= x → m' !! x = m !! x.
Proof.
  intros Hd Hs B M Hov. pose proof (zlen_nonneg k). pose proof (zlen_nonneg l).
  eexists. split; [apply (strcat_spec m dest src l k); (done || lia)|].
  assert (∀ x, x < dest + zlen l ∨ dest + zlen l + zlen k + 1 <= x →
    write_bytes m (dest + zlen l) (k ++ [0]) !! x = m !! x) as Hfr.
  { intros x Hx. apply lookup_write_bytes_out. autorewrite with zlen. lia. }
  destruct Hd as [Hd Nl]. apply bytes_at_app in Hd as [Hd _]. split; [|split; [|done]].
  - split; [|apply Forall_app; by destruct Hs].
    rewrite <- app_assoc. apply bytes_at_app. split; [|apply write_bytes_at].
    eapply bytes_at_dom_eq; [|exact Hd]. intros. apply Hfr. lia.
  - apply (cstr_frame m); [intros; apply Hfr; lia|done].
Qed.

Lemma strcat_appends_witness :
  ∃ m', strcat mem_ex 100 200 = Ok (m', 100) ∧ cstr m' 100 [97; 98; 99; 98; 99] ∧
    cstr m' 200 [98; 99] ∧
    ∀ x, x < 100 + 3 ∨ 100 + 3 + 2 + 1 <= x → m' !! x = mem_ex !! x.
Proof.
  apply (strcat_appends mem_ex 100 200 [97; 98; 99] [98; 99]);
    [apply cstrb_cstr | apply cstrb_cstr | apply bytesb_bytes | apply mappedb_mapped | right];
    vm_compute; congruence.
Defined.

(** no routine of the string library loops for ever: on any memory and any
    pointers it returns or faults. *)
Theorem string_routines_terminate m p q n st :
  terminates (strlen m p) ∧ terminates (strcmp m p q) ∧ terminates (strcpy m p q) ∧
  terminates (strcat m p q) ∧ terminates (strncat m p q n) ∧ terminates (strchr m p n) ∧
  terminates (strrchr m p n) ∧ terminates (strspn m p q) ∧ terminates (strpbrk m p q) ∧
  terminates (strstr m p q) ∧ terminates (strtok m st p q) ∧ terminates (strsep m p q).
Proof.
  repeat split; try (solve [auto with total]);
    unfold strcpy, strcat, strncat, strrchr, strstr, strtok, strsep; cbv zeta; total.
Qed.
