(* ===== verification/Vsprintf.v ===== *)
(** * Vsprintf: number parsing and formatted printing ([lib/vsprintf.c])

    A C string is the list of its characters without the NUL; reading at its
    end gives 0.  A parser returns the rest of the string, which is what the
    source stores through [endp].  The printers return the bytes that the
    source stores through [str]: all stores are [*str++ = c], so the final
    [str] is [buf] plus their number. *)

From S2P Require Import Prelude Ctype.
Open Scope c_scope.

(** [*cp] *)
Definition hd0 (cp : list Z) : Z := match cp with [] => 0 | c :: _ => c end.

(** ** Parsing *)

(** [isdigit( *cp) ? *cp-'0' : toupper( *cp)-'A'+10] *)
Definition digit_value (c : Z) : Z :=
  if isdigit c then c - 48 else toupper c - 65 + 10.

(** [while (isxdigit( *cp) && (value = ...) < base) { ... }] with a [w]-bit
    [result]. *)
Fixpoint strto_loop (w base : Z) (cp : list Z) (result : Z) : Z * list Z :=
  match cp with
  | [] => (result, cp)
  | c :: rest =>
      if isxdigit c && (wrap w (digit_value c) <? base)
      then strto_loop w base rest (wrap w (result * base + digit_value c))
      else (result, cp)
  end.

(** The choice of the base when the caller passes 0. *)
Definition strto_base (cp : list Z) (base : Z) : list Z * Z :=
  if base =? 0 then
    if hd0 cp =? 48 then
      let cp := tail cp in
      if (hd0 cp =? 120) && isxdigit (hd0 (tail cp)) then (tail cp, 16)
      else (cp, 8)
    else (cp, 10)
  else (cp, base).

Definition simple_strtoul (cp : list Z) (base : Z) : Z * list Z :=
  let '(cp, base) := strto_base cp base in strto_loop 32 base cp 0.

Definition simple_strtol (cp : list Z) (base : Z) : Z * list Z :=
  if hd0 cp =? 45 then
    let '(v, endp) := simple_strtoul (tail cp) base in (s32 (- v), endp)
  else
    let '(v, endp) := simple_strtoul cp base in (s32 v, endp).

Definition simple_strtoull (cp : list Z) (base : Z) : Z * list Z :=
  let '(cp, base) := strto_base cp base in strto_loop 64 base cp 0.

Definition simple_strtoll (cp : list Z) (base : Z) : Z * list Z :=
  if hd0 cp =? 45 then
    let '(v, endp) := simple_strtoull (tail cp) base in (s64 (- v), endp)
  else
    let '(v, endp) := simple_strtoull cp base in (s64 v, endp).

Fixpoint skip_atoi_loop (s : list Z) (i : Z) : Z * list Z :=
  match s with
  | [] => (i, s)
  | c :: rest => if isdigit c then skip_atoi_loop rest (s32 (i * 10 + c - 48)) else (i, s)
  end.

Definition skip_atoi (s : list Z) : Z * list Z := skip_atoi_loop s 0.

(** ** Printing a number *)

Definition ZEROPAD : Z := 1.
Definition SIGN : Z := 2.
Definition PLUS : Z := 4.
Definition SPACE : Z := 8.
Definition LEFT : Z := 16.
Definition SPECIAL : Z := 32.
Definition LARGE : Z := 64.

Definition flag (type f : Z) : bool := c_true (Z.land type f).

Definition decimal_digits : list Z := (λ i, 48 + Z.of_nat i) <$> seq 0 10.
(** ["0123456789abcdefghijklmnopqrstuvwxyz"] and its upper-case version *)
Definition lower_digits : list Z := decimal_digits ++ ((λ i, 97 + Z.of_nat i) <$> seq 0 26).
Definition upper_digits : list Z := decimal_digits ++ ((λ i, 65 + Z.of_nat i) <$> seq 0 26).

(** [while (num != 0) tmp[i++] = digits[do_div(num,base)];]  [do_div] divides
    the 64-bit unsigned [num] in place and returns the remainder; 64 rounds
    are enough for a base of at least 2. *)
Fixpoint num_digits (fuel : nat) (num base : Z) (digits : list Z) : list Z :=
  match fuel with
  | O => []
  | S fuel =>
      if num =? 0 then []
      else digits !!! Z.to_nat (num mod base) :: num_digits fuel (num / base) base digits
  end.

(** [while (n-- > 0) *str++ = c;] and the value of [n] after it. *)
Definition pad (n c : Z) : list Z := replicate (Z.to_nat n) c.
Definition after_loop (n : Z) : Z := s32 (Z.min n 0 - 1).

(** The result is [None] where the source returns a null [str]. *)
Definition number (num base size precision type : Z) : option (list Z) :=
  let digits := if flag type LARGE then upper_digits else lower_digits in
  let type := if flag type LEFT then Z.ldiff type ZEROPAD else type in
  if (base <? 2) || (36 <? base) then None
  else
    let c := if flag type ZEROPAD then 48 else 32 in
    let '(sign, num, size) :=
      if flag type SIGN then
        if num <? 0 then (45, s64 (- num), s32 (size - 1))
        else if flag type PLUS then (43, num, s32 (size - 1))
        else if flag type SPACE then (32, num, s32 (size - 1))
        else (0, num, size)
      else (0, num, size) in
    let size :=
      if flag type SPECIAL then
        if base =? 16 then s32 (size - 2)
        else if base =? 8 then s32 (size - 1) else size
      else size in
    let tmp := if num =? 0 then [48] else num_digits 64 (u64 num) base digits in
    let i := zlen tmp in
    let precision := if precision <? i then i else precision in
    let size := s32 (size - precision) in
    let '(out1, size) :=
      if negb (flag type (ZEROPAD + LEFT)) then (pad size 32, after_loop size)
      else ([], size) in
    let out2 := if c_true sign then [sign] else [] in
    let out3 :=
      if flag type SPECIAL then
        if base =? 8 then [48]
        else if base =? 16 then [48; digits !!! 33%nat] else []
      else [] in
    let '(out4, size) :=
      if negb (flag type LEFT) then (pad size c, after_loop size) else ([], size) in
    let out5 := pad (precision - i) 48 in
    let out6 := rev tmp in
    let out7 := pad size 32 in
    Some (out1 ++ out2 ++ out3 ++ out4 ++ out5 ++ out6 ++ out7).

(** ** [vsprintf] *)

(** A variadic argument: a 32-bit word ([int], [long], [size_t] or a pointer
    other than a string), a [long long], or a string ([None] for NULL). *)
Inductive va_val :=
| VWord (w : Z)
| VLLong (d : Z)
| VStr (s : option (list Z)).

Definition va_word (args : list va_val) : outcome (Z * list va_val) :=
  match args with VWord w :: args => Ok (w, args) | _ => Trap Fault end.

Definition va_llong (args : list va_val) : outcome (Z * list va_val) :=
  match args with VLLong d :: args => Ok (d, args) | _ => Trap Fault end.

Definition va_str (args : list va_val) : outcome (option (list Z) * list va_val) :=
  match args with VStr s :: args => Ok (s, args) | _ => Trap Fault end.

(** The [repeat:] loop over the flag characters. *)
Fixpoint conv_flags (fmt : list Z) (flags : Z) : list Z * Z :=
  match fmt with
  | [] => (fmt, flags)
  | c :: rest =>
      if c =? 45 then conv_flags rest (flags ||| LEFT)
      else if c =? 43 then conv_flags rest (flags ||| PLUS)
      else if c =? 32 then conv_flags rest (flags ||| SPACE)
      else if c =? 35 then conv_flags rest (flags ||| SPECIAL)
      else if c =? 48 then conv_flags rest (flags ||| ZEROPAD)
      else (fmt, flags)
  end.

Definition conv_width (fmt : list Z) (flags : Z) (args : list va_val)
    : outcome (list Z * Z * Z * list va_val) :=
  if isdigit (hd0 fmt) then
    let '(w, fmt) := skip_atoi fmt in Ok (fmt, flags, w, args)
  else if hd0 fmt =? 42 then
    '(w, args) ← va_word args;
    let w := s32 w in
    if w <? 0 then Ok (tail fmt, flags ||| LEFT, s32 (- w), args)
    else Ok (tail fmt, flags, w, args)
  else Ok (fmt, flags, -1, args).

Definition conv_precision (fmt : list Z) (args : list va_val)
    : outcome (list Z * Z * list va_val) :=
  if hd0 fmt =? 46 then
    let fmt := tail fmt in
    '(fmt, p, args) ←
      (if isdigit (hd0 fmt) then
         let '(p, fmt) := skip_atoi fmt in Ok (fmt, p, args)
       else if hd0 fmt =? 42 then
         '(p, args) ← va_word args; Ok (tail fmt, s32 p, args)
       else Ok (fmt, -1, args));
    Ok (fmt, if p <? 0 then 0 else p, args)
  else Ok (fmt, -1, args).

(** ['h'], ['l'], ['L'], ['Z'] or [-1] *)
Definition conv_qualifier (fmt : list Z) : list Z * Z :=
  let c := hd0 fmt in
  if (c =? 104) || (c =? 108) || (c =? 76) || (c =? 90) then (tail fmt, c) else (fmt, -1).

(** The argument of an integer conversion, widened to [unsigned long long] and
    passed to [number] as a [long long]. *)
Definition conv_num (qualifier flags : Z) (args : list va_val)
    : outcome (Z * list va_val) :=
  if qualifier =? 76 then '(d, args) ← va_llong args; Ok (s64 d, args)
  else
    '(w, args) ← va_word args;
    let num :=
      if qualifier =? 108 then if flag flags SIGN then s32 w else u32 w
      else if qualifier =? 90 then u32 w
      else if qualifier =? 104 then if flag flags SIGN then s16 (u16 w) else u16 w
      else if flag flags SIGN then s32 w else u32 w in
    Ok (s64 num, args).

Definition emit_number (num base size precision type : Z) : outcome (list Z) :=
  match number num base size precision type with
  | Some out => Ok out
  | None => Trap Fault
  end.

Definition conv_integer (fmt : list Z) (base qualifier flags width precision : Z)
    (args : list va_val) : outcome (list Z * list Z * list va_val) :=
  '(num, args) ← conv_num qualifier flags args;
  out ← emit_number num base width precision flags;
  Ok (out, fmt, args).

Definition null_string : list Z := [60; 78; 85; 76; 76; 62].

Definition conv_string (s : option (list Z)) (flags width precision : Z) : list Z :=
  let s := default null_string s in
  let len := Z.min (u32 precision) (zlen s) in
  let padding := pad (width - len) 32 in
  let body := take (Z.to_nat len) s in
  if flag flags LEFT then body ++ padding else padding ++ body.

Definition conv_char (c flags width : Z) : list Z :=
  let padding := pad (width - 1) 32 in
  if flag flags LEFT then u8 c :: padding else padding ++ [u8 c].

(** One conversion; [fmt] points behind the [%], [count] is [str - buf].  The
    result is the bytes printed, the store of a [%n], the rest of the format
    and the arguments left. *)
Definition conversion (fmt : list Z) (args : list va_val) (count : Z)
    : outcome (list Z * list (Z * Z) * list Z * list va_val) :=
  let '(fmt, flags) := conv_flags fmt 0 in
  '(fmt, flags, width, args) ← conv_width fmt flags args;
  '(fmt, precision, args) ← conv_precision fmt args;
  let '(fmt, qualifier) := conv_qualifier fmt in
  let c := hd0 fmt in
  let rest := tail fmt in
  let integer base flags :=
    '(out, fmt, args) ← conv_integer rest base qualifier flags width precision args;
    Ok (out, [], fmt, args) in
  if c =? 99 then
    '(w, args) ← va_word args; Ok (conv_char w flags width, [], rest, args)
  else if c =? 115 then
    '(s, args) ← va_str args; Ok (conv_string s flags width precision, [], rest, args)
  else if c =? 112 then
    '(w, args) ← va_word args;
    let '(width, flags) :=
      if width =? -1 then (8, flags ||| ZEROPAD) else (width, flags) in
    out ← emit_number (u32 w) 16 width precision flags;
    Ok (out, [], rest, args)
  else if c =? 110 then
    '(ip, args) ← va_word args; Ok ([], [(ip, count)], rest, args)
  else if c =? 37 then Ok ([37], [], rest, args)
  else if c =? 111 then integer 8 flags
  else if c =? 88 then integer 16 (flags ||| LARGE)
  else if c =? 120 then integer 16 flags
  else if (c =? 100) || (c =? 105) then integer 10 (flags ||| SIGN)
  else if c =? 117 then integer 10 flags
  else if c_true c then Ok ([37; c], [], rest, args)
  else Ok ([37], [], fmt, args).

(** The main loop; every round consumes a character of the format. *)
Fixpoint vsprintf_loop (fuel : nat) (fmt : list Z) (args : list va_val) (count : Z)
    : outcome (list Z * list (Z * Z)) :=
  match fuel with
  | O => Trap Fuel
  | S fuel =>
      match fmt with
      | [] => Ok ([], [])
      | c :: fmt =>
          if negb (c =? 37) then
            '(out, ns) ← vsprintf_loop fuel fmt args (count + 1); Ok (c :: out, ns)
          else
            '(out1, ns1, fmt, args) ← conversion fmt args count;
            '(out2, ns2) ← vsprintf_loop fuel fmt args (count + zlen out1);
            Ok (out1 ++ out2, ns1 ++ ns2)
      end
  end.

(** The text printed (the source appends a NUL), the return value and the
    stores of [%n]. *)
Definition vsprintf (fmt : list Z) (args : list va_val)
    : outcome (list Z * Z * list (Z * Z)) :=
  '(out, ns) ← vsprintf_loop (S (length fmt)) fmt args 0;
  Ok (out, zlen out, ns).

Definition sprintf (fmt : list Z) (args : list va_val)
    : outcome (list Z * Z * list (Z * Z)) := vsprintf fmt args.

(** ** Lemmas on digits *)

(** Both digit tables hold the digits the parser understands. *)
Definition is_digits (digits : list Z) : Prop := digits = lower_digits ∨ digits = upper_digits.

Lemma digits_parse digits v :
  is_digits digits → 0 <= v < 16 →
  let c := digits !!! Z.to_nat v in isxdigit c = true ∧ digit_value c = v.
Proof.
  intros Hd Hv. cbv zeta.
  pose proof (forallb_range (λ v, isxdigit (digits !!! Z.to_nat v) &&
                                  (digit_value (digits !!! Z.to_nat v) =? v)) 16) as H.
  rewrite <- Z.eqb_eq, <- andb_true_iff. apply H; [|lia].
  destruct Hd as [-> | ->]; vm_compute; reflexivity.
Qed.

Lemma strto_loop_digit w base c rest acc v :
  4 < w → isxdigit c = true → digit_value c = v → 0 <= v < base → base <= 16 →
  strto_loop w base (c :: rest) acc = strto_loop w base rest (wrap w (acc * base + v)).
Proof.
  intros Hw Hx Hv Hb Hb'. simpl. rewrite Hx, Hv.
  assert (2 ^ 4 < 2 ^ w) by (apply Z.pow_lt_mono_r; lia).
  rewrite wrap_small by lia. destruct (Z.ltb_spec v base); [done|lia].
Qed.

Lemma wrap_mul_add w a b c :
  0 <= w → wrap w (wrap w a * b + c) = wrap w (a * b + c).
Proof.
  intros Hw. unfold wrap.
  rewrite (Z.add_mod (a mod 2 ^ w * b)), Z.mul_mod_idemp_l, <- Z.add_mod by lia. done.
Qed.

(** Reading the digits of [n] back, most significant first. *)
Lemma strto_loop_digits w base digits fuel n rest acc :
  4 < w → 2 <= base <= 16 → is_digits digits → 0 <= n < base ^ Z.of_nat fuel →
  strto_loop w base (rev (num_digits fuel n base digits) ++ rest) acc =
  strto_loop w base rest
    (if n =? 0 then acc
     else wrap w (acc * base ^ zlen (num_digits fuel n base digits) + n)).
Proof.
  intros Hw Hb Hd. revert n rest. induction fuel as [|fuel IH]; intros n rest Hn.
  - change (base ^ Z.of_nat 0) with 1 in Hn. by replace n with 0 by lia.
  - cbn [num_digits]. destruct (Z.eqb_spec n 0) as [->|Hn0]; [done|].
    cbn [rev]. rewrite <- app_assoc. cbn [app].
    rewrite Nat2Z.inj_succ, Z.pow_succ_r in Hn by lia.
    pose proof (Z.mod_pos_bound n base ltac:(lia)) as Hm.
    pose proof (Z.div_mod n base ltac:(lia)) as Hdm.
    assert (0 <= n / base < base ^ Z.of_nat fuel) as Hq.
    { split; [apply Z.div_pos; lia|]. apply Z.div_lt_upper_bound; lia. }
    rewrite IH by done.
    destruct (digits_parse digits (n mod base)) as [Hx Hv]; [done|lia|].
    rewrite (strto_loop_digit w base _ _ _ (n mod base)) by (done || lia).
    f_equal. rewrite zlen_cons, Z.pow_add_r, Z.pow_1_r by (try apply zlen_nonneg; lia).
    destruct (Z.eqb_spec (n / base) 0) as [E|E].
    + replace (num_digits fuel (n / base) base digits) with (@nil Z)
        by (rewrite E; by destruct fuel).
      rewrite zlen_nil, Z.pow_0_r. f_equal. lia.
    + rewrite wrap_mul_add by lia. f_equal. nia.
Qed.

Lemma num_digits_64 n base :
  2 <= base → 0 <= n < 2 ^ 64 → 0 <= n < base ^ Z.of_nat 64.
Proof.
  intros Hb Hn. split; [lia|]. eapply Z.lt_le_trans; [apply Hn|].
  apply Z.pow_le_mono_l. lia.
Qed.

(** Zeros in front of a number do not change it. *)
Lemma strto_loop_zeros w base k rest :
  4 < w → 2 <= base <= 16 →
  strto_loop w base (replicate k 48 ++ rest) 0 = strto_loop w base rest 0.
Proof.
  intros Hw Hb. induction k as [|k IH]; cbn [replicate app]; [done|].
  rewrite (strto_loop_digit w base 48 _ _ 0) by (reflexivity || lia).
  replace (wrap w (0 * base + 0)) with 0; [done|].
  rewrite wrap_small; lia.
Qed.

(** The digits [tmp] of [number], in writing order. *)
Definition number_digits (num base : Z) (digits : list Z) : list Z :=
  rev (if num =? 0 then [48] else num_digits 64 num base digits).

Lemma number_digits_pos num base digits :
  2 <= base → 0 <= num → 1 <= zlen (number_digits num base digits).
Proof.
  intros Hb Hn. unfold number_digits, zlen. rewrite length_rev.
  destruct (Z.eqb_spec num 0); [simpl; lia|].
  cbn [num_digits]. destruct (Z.eqb_spec num 0); [done|]. cbn [length]. lia.
Qed.

(** [tmp] has room for 66 digits; at most 64 are written. *)
Lemma num_digits_bound fuel num base digits :
  (length (num_digits fuel num base digits) <= fuel)%nat.
Proof.
  revert num. induction fuel as [|fuel IH]; intros num; simpl; [lia|].
  destruct (num =? 0); simpl; [lia|]. specialize (IH (num / base)). lia.
Qed.

Lemma number_digits_bound num base digits : zlen (number_digits num base digits) <= 64.
Proof.
  unfold number_digits, zlen. rewrite length_rev.
  destruct (num =? 0); [cbn; lia|].
  pose proof (num_digits_bound 64 num base digits). lia.
Qed.

Lemma strto_number_digits w base num digits rest :
  4 < w → 2 <= base <= 16 → is_digits digits → 0 <= num < 2 ^ 64 →
  strto_loop w base (number_digits num base digits ++ rest) 0 =
  strto_loop w base rest (wrap w num).
Proof.
  intros Hw Hb Hd Hn. unfold number_digits. destruct (Z.eqb_spec num 0) as [->|Hn0].
  - cbn [rev app]. by rewrite (strto_loop_digit w base 48 _ _ 0) by (reflexivity || lia).
  - rewrite strto_loop_digits by (auto; apply num_digits_64; lia).
    destruct (Z.eqb_spec num 0); [done|]. done.
Qed.

Lemma pad_neg n c : n <= 0 → pad n c = [].
Proof. intros. unfold pad. by replace (Z.to_nat n) with 0%nat by lia. Qed.

Lemma after_loop_neg n : - 2 ^ 31 < n < 2 ^ 31 → after_loop n <= 0.
Proof. intros Hn. unfold after_loop. rewrite swrap_small; lia. Qed.

(** An unsigned number without sign, prefix or left justification: zeros, then
    the digits, when nothing has to be filled with spaces. *)
Lemma number_plain num base size precision type :
  2 <= base <= 36 → 0 <= num < 2 ^ 63 → -1 <= size < 2 ^ 30 → -1 <= precision < 2 ^ 30 →
  flag type SIGN = false → flag type SPECIAL = false → flag type LEFT = false →
  flag type ZEROPAD = true ∨ size <= 1 →
  ∃ k, number num base size precision type =
    Some (replicate k 48 ++
          number_digits num base (if flag type LARGE then upper_digits else lower_digits)).
Proof.
  intros Hb Hn Hs Hp Fsign Fspec Fleft Fz. unfold number.
  set (digits := if flag type LARGE then _ else _).
  rewrite Fleft, Fsign, Fspec. destruct (Z.ltb_spec base 2); [lia|].
  destruct (Z.ltb_spec 36 base); [lia|]. cbn [orb].
  rewrite (wrap_small 64 num) by lia.
  set (tmp := if num =? 0 then [48] else _).
  assert (number_digits num base digits = rev tmp) as -> by done.
  assert (1 <= zlen tmp <= 64) as Hi.
  { pose proof (number_digits_pos num base digits ltac:(lia) ltac:(lia)) as H1.
    pose proof (number_digits_bound num base digits) as H2.
    change (number_digits num base digits) with (rev tmp) in H1, H2.
    unfold zlen in *. rewrite length_rev in H1, H2. lia. }
  set (p := if precision <? zlen tmp then _ else _).
  assert (1 <= p < 2 ^ 30) as Hp' by (unfold p; destruct (Z.ltb_spec precision (zlen tmp)); lia).
  rewrite (swrap_small 32) by lia. change (c_true 0) with false. cbn [negb].
  set (sz := size - p).
  assert (after_loop sz <= 0) by (apply after_loop_neg; unfold sz; lia).
  destruct (flag type (ZEROPAD + LEFT)) eqn:Fzl; cbn [negb app]; rewrite ?Fleft; cbn [negb].
  - rewrite (pad_neg (after_loop sz)) by done. rewrite app_nil_r.
    destruct (flag type ZEROPAD) eqn:Fz'.
    + exists (Z.to_nat sz + Z.to_nat (p - zlen tmp))%nat. unfold pad.
      by rewrite replicate_add, <- app_assoc.
    + destruct Fz as [|Hsz]; [done|]. rewrite (pad_neg sz) by (unfold sz; lia).
      exists (Z.to_nat (p - zlen tmp)). done.
  - assert (flag type ZEROPAD = false) as Fz'.
    { revert Fzl Fleft. unfold flag, c_true, ZEROPAD, LEFT. rewrite !negb_false_iff, !Z.eqb_eq.
      change (1 + 16) with (Z.lor 1 16). rewrite Z.land_lor_distr_r.
      intros E1 E2. rewrite E2, Z.lor_0_r in E1. done. }
    destruct Fz as [Fz|Hsz]; [congruence|]. rewrite (pad_neg sz) by (unfold sz; lia).
    rewrite (pad_neg (after_loop sz)) by done.
    rewrite (pad_neg (after_loop (after_loop sz)))
      by (apply after_loop_neg; unfold after_loop; rewrite swrap_small; unfold sz; lia).
    rewrite app_nil_r. exists (Z.to_nat (p - zlen tmp)). done.
Qed.

Lemma is_digits_choice (b : bool) : is_digits (if b then upper_digits else lower_digits).
Proof. destruct b; [right|left]; done. Qed.

Lemma number_plain_strto w num base size precision type :
  4 < w → 2 <= base <= 16 → 0 <= num < 2 ^ 63 → -1 <= size < 2 ^ 30 →
  -1 <= precision < 2 ^ 30 →
  flag type SIGN = false → flag type SPECIAL = false → flag type LEFT = false →
  flag type ZEROPAD = true ∨ size <= 1 →
  ∃ out, number num base size precision type = Some out ∧
    strto_loop w base out 0 = (wrap w num, []).
Proof.
  intros Hw Hb Hn Hs Hp F1 F2 F3 F4.
  destruct (number_plain num base size precision type) as [k Hk]; [lia..|done|done|done|done|].
  eexists. split; [exact Hk|]. rewrite strto_loop_zeros by lia.
  rewrite <- (app_nil_r (number_digits _ _ _)).
  by rewrite strto_number_digits by (auto using is_digits_choice; lia).
Qed.

Lemma num_digits_xdigit fuel num base digits :
  2 <= base <= 16 → is_digits digits →
  Forall (λ c, isxdigit c = true) (num_digits fuel num base digits).
Proof.
  intros Hb Hd. revert num. induction fuel as [|fuel IH]; intros num; cbn [num_digits]; [done|].
  destruct (num =? 0); [done|]. constructor; [|done].
  apply digits_parse; [done|]. pose proof (Z.mod_pos_bound num base). lia.
Qed.

Lemma number_digits_xdigit num base digits :
  2 <= base <= 16 → is_digits digits →
  Forall (λ c, isxdigit c = true) (number_digits num base digits).
Proof.
  intros Hb Hd. unfold number_digits. apply Forall_rev.
  destruct (num =? 0); [by repeat constructor|]. by apply num_digits_xdigit.
Qed.

Lemma number_digits_head num base digits rest :
  2 <= base <= 16 → 0 <= num → is_digits digits →
  isxdigit (hd0 (number_digits num base digits ++ rest)) = true.
Proof.
  intros Hb Hn Hd. pose proof (number_digits_xdigit num base digits Hb Hd) as HF.
  pose proof (number_digits_pos num base digits ltac:(lia) Hn) as Hl.
  destruct (number_digits num base digits); [unfold zlen in Hl; simpl in Hl; lia|].
  by inv_forall.
Qed.

(** [%d] with neither width nor precision. *)
Lemma number_signed n :
  - 2 ^ 31 <= n < 2 ^ 31 →
  number n 10 (-1) (-1) SIGN =
  Some ((if n <? 0 then [45] else []) ++ number_digits (Z.abs n) 10 lower_digits).
Proof.
  intros Hn. unfold number. cbv zeta. change (flag SIGN LARGE) with false.
  change (flag SIGN LEFT) with false. cbv match. change (flag SIGN SIGN) with true.
  change (flag SIGN PLUS) with false. change (flag SIGN SPACE) with false.
  change (flag SIGN SPECIAL) with false. change (flag SIGN (ZEROPAD + LEFT)) with false.
  change ((10 <? 2) || (36 <? 10)) with false. change (flag SIGN LEFT) with false. cbn [negb].
  assert ((if n <? 0 then (45, s64 (- n), s32 (-1 - 1)) else (0, n, -1)) =
          ((if n <? 0 then 45 else 0), Z.abs n, if n <? 0 then -2 else -1)) as ->.
  { destruct (Z.ltb_spec n 0); [|f_equal; f_equal; lia].
    rewrite (swrap_small 64) by lia. f_equal. f_equal. lia. }
  rewrite (wrap_small 64 (Z.abs n)) by lia.
  set (tmp := if Z.abs n =? 0 then [48] else _).
  assert (number_digits (Z.abs n) 10 lower_digits = rev tmp) as -> by done.
  assert (1 <= zlen tmp <= 64) as Hi.
  { pose proof (number_digits_pos (Z.abs n) 10 lower_digits ltac:(lia) ltac:(lia)) as H1.
    pose proof (number_digits_bound (Z.abs n) 10 lower_digits) as H2.
    change (number_digits (Z.abs n) 10 lower_digits) with (rev tmp) in H1, H2.
    unfold zlen in *. rewrite length_rev in H1, H2. lia. }
  destruct (Z.ltb_spec (-1) (zlen tmp)); [|lia].
  rewrite (swrap_small 32 ((if n <? 0 then -2 else -1) - zlen tmp)) by (destruct (n <? 0); lia).
  set (sz := (if n <? 0 then -2 else -1) - zlen tmp).
  assert (-100 < sz <= 0) as Hsz by (unfold sz; destruct (n <? 0); lia).
  assert (after_loop sz = sz - 1) as -> by (unfold after_loop; rewrite swrap_small; lia).
  assert (after_loop (sz - 1) = sz - 2) as -> by (unfold after_loop; rewrite swrap_small; lia).
  rewrite !pad_neg by lia. cbn [app]. rewrite app_nil_r. by destruct (n <? 0).
Qed.

Lemma hd0_xdigit_minus l : isxdigit (hd0 l) = true → (hd0 l =? 45) = false.
Proof. intros H. destruct (Z.eqb_spec (hd0 l) 45) as [E|]; [by rewrite E in H|done]. Qed.

Lemma simple_strtol_signed n rest :
  - 2 ^ 31 <= n < 2 ^ 31 → isxdigit (hd0 rest) = false →
  simple_strtol ((if n <? 0 then [45] else []) ++ number_digits (Z.abs n) 10 lower_digits ++ rest) 10
  = (n, rest).
Proof.
  intros Hn Hr.
  assert (∀ v, strto_loop 32 10 rest v = (v, rest)) as Hstop.
  { intros v. destruct rest as [|c rest]; [done|]. simpl in *. by rewrite Hr. }
  assert (is_digits lower_digits) as Hd by (by left).
  unfold simple_strtol, simple_strtoul. destruct (Z.ltb_spec n 0); cbn [app hd0 tail].
  - change (45 =? 45) with true. cbn [tail]. unfold strto_base. cbn [Z.eqb].
    rewrite strto_number_digits by (auto; lia). rewrite Hstop.
    rewrite (wrap_small 32), swrap_small by lia. f_equal. lia.
  - rewrite hd0_xdigit_minus by (apply number_digits_head; auto; lia).
    unfold strto_base. cbn [Z.eqb].
    rewrite strto_number_digits by (auto; lia). rewrite Hstop.
    rewrite (wrap_small 32), swrap_small by lia. f_equal. lia.
Qed.

(** ** Progress of the format loop *)

Lemma skip_atoi_length s : (length (skip_atoi s).2 <= length s)%nat.
Proof.
  unfold skip_atoi. generalize 0. induction s as [|c s IH]; intros i; simpl; [lia|].
  destruct (isdigit c); simpl; [specialize (IH (s32 (i * 10 + c - 48)))|]; lia.
Qed.

Lemma conv_flags_length fmt flags : (length (conv_flags fmt flags).1 <= length fmt)%nat.
Proof.
  revert flags. induction fmt as [|c fmt IH]; intros flags; simpl; [lia|].
  repeat case_match; simpl; try lia;
    match goal with |- context [conv_flags fmt ?f] => specialize (IH f) end; lia.
Qed.

Lemma tail_length {A} (l : list A) : (length (tail l) <= length l)%nat.
Proof. destruct l; simpl; lia. Qed.

Lemma conv_width_length fmt flags args fmt' flags' w args' :
  conv_width fmt flags args = Ok (fmt', flags', w, args') → (length fmt' <= length fmt)%nat.
Proof.
  unfold conv_width. pose proof (tail_length fmt). pose proof (skip_atoi_length fmt).
  intros H1. destruct (isdigit (hd0 fmt)).
  - destruct (skip_atoi fmt). simpl in *. by inv_ok H1.
  - destruct (hd0 fmt =? 42); [|by inv_ok H1]. inv_ok H1. destruct x as [z args1].
    destruct (s32 z <? 0); by inv_ok H1.
Qed.

Lemma conv_precision_length fmt args fmt' p args' :
  conv_precision fmt args = Ok (fmt', p, args') → (length fmt' <= length fmt)%nat.
Proof.
  unfold conv_precision. pose proof (tail_length fmt). pose proof (tail_length (tail fmt)).
  pose proof (skip_atoi_length (tail fmt)). intros H2.
  destruct (hd0 fmt =? 46); [|by inv_ok H2]. cbv zeta in H2. inv_ok H2.
  destruct x as [[f q] a]. inv_ok H2. destruct (isdigit (hd0 (tail fmt))).
  - destruct (skip_atoi (tail fmt)). simpl in *. inv_ok E. lia.
  - destruct (hd0 (tail fmt) =? 42); [|inv_ok E; lia]. inv_ok E.
    destruct x as [z args1]. inv_ok E. lia.
Qed.

Lemma conv_qualifier_length fmt : (length (conv_qualifier fmt).1 <= length fmt)%nat.
Proof. unfold conv_qualifier. pose proof (tail_length fmt). case_match; simpl; lia. Qed.

(** A conversion leaves a suffix of the format. *)
Lemma conversion_length fmt args count out ns fmt' args' :
  conversion fmt args count = Ok (out, ns, fmt', args') → (length fmt' <= length fmt)%nat.
Proof.
  unfold conversion. pose proof (conv_flags_length fmt 0).
  destruct (conv_flags fmt 0) as [f1 flags]. simpl in *. intros Hc.
  inv_ok Hc. destruct x as [[[f2 flags2] w] args2]. apply conv_width_length in E. inv_ok Hc.
  destruct x as [[f3 p] args3]. apply conv_precision_length in E0.
  pose proof (conv_qualifier_length f3). destruct (conv_qualifier f3) as [f4 q]. simpl in *.
  pose proof (tail_length f4).
  repeat match type of Hc with (if ?b then _ else _) = Ok _ => destruct b end;
    inv_ok Hc; unfold conv_integer in *;
    repeat match goal with
    | x : _ * _ |- _ => destruct x
    | H : (_ ≫= _) = Ok _ |- _ => inv_ok H
    | H : (if ?b then _ else _) = _ |- _ => destruct b
    | H : context [w =? -1] |- _ => destruct (w =? -1)
    end; simplify_eq; lia.
Qed.

Lemma va_word_terminates args : terminates (va_word args).
Proof. by destruct args as [|[]]. Qed.

Lemma va_llong_terminates args : terminates (va_llong args).
Proof. by destruct args as [|[]]. Qed.

Lemma va_str_terminates args : terminates (va_str args).
Proof. by destruct args as [|[]]. Qed.

Lemma emit_number_terminates n b s p t : terminates (emit_number n b s p t).
Proof. unfold emit_number. by destruct (number n b s p t). Qed.

#[export] Hint Resolve va_word_terminates va_llong_terminates va_str_terminates
  emit_number_terminates : total.

Lemma conversion_terminates fmt args count : terminates (conversion fmt args count).
Proof.
  unfold conversion, conv_width, conv_precision, conv_integer, conv_num. cbv zeta. total.
Qed.

Lemma vsprintf_loop_fuel fuel fmt args count :
  (length fmt < fuel)%nat → vsprintf_loop fuel fmt args count ≠ Trap Fuel.
Proof.
  revert fmt args count. induction fuel as [|fuel IH]; intros [|c fmt] args count Hf;
    cbn [vsprintf_loop length] in *; try lia; [done|].
  destruct (negb (c =? 37)).
  - pose proof (IH fmt args (count + 1) ltac:(lia)).
    destruct (vsprintf_loop fuel fmt args (count + 1)) as [[]|]; simpl; congruence.
  - destruct (conversion fmt args count) as [[[[out1 ns1] fmt1] args1]|t] eqn:E; simpl.
    + apply conversion_length in E. pose proof (IH fmt1 args1 (count + zlen out1) ltac:(lia)).
      destruct (vsprintf_loop fuel fmt1 args1 (count + zlen out1)) as [[]|]; simpl; congruence.
    + intros [= ->]. by apply conversion_terminates in E.
Qed.

(** ** Properties *)

(** C23: a non-negative number printed by [number] in a base up to 16, upper or
    lower case, with any precision and with zero padding (or no padding), is
    read back by [simple_strtoull] in that base, to the last character. *)
Theorem number_roundtrip num base size precision type :
  2 <= base <= 16 → 0 <= num < 2 ^ 63 → -1 <= size < 2 ^ 30 → -1 <= precision < 2 ^ 30 →
  flag type SIGN = false → flag type SPECIAL = false → flag type LEFT = false →
  flag type ZEROPAD = true ∨ size <= 1 →
  ∃ out, number num base size precision type = Some out ∧
    simple_strtoull out base = (num, []).
Proof.
  intros Hb Hn Hs Hp F1 F2 F3 F4.
  destruct (number_plain_strto 64 num base size precision type) as (out & Ho & Hv);
    [lia..|done|done|done|done|].
  exists out. split; [done|]. unfold simple_strtoull, strto_base.
  destruct (Z.eqb_spec base 0); [lia|]. by rewrite Hv, wrap_small by lia.
Qed.

Lemma number_roundtrip_witness :
  ∃ out, number 48879 16 8 (-1) (ZEROPAD ||| LARGE) = Some out ∧
    simple_strtoull out 16 = (48879, []).
Proof. apply number_roundtrip; first [lia | reflexivity | left; reflexivity]. Defined.

(** ["%d"] *)
Definition fmt_d : list Z := [37; 100].

(** printing an [int] with [%d] and reading the text with
    [simple_strtol] gives the same [int], negative ones and the smallest one
    included; [sprintf] returns the number of characters printed. *)
Theorem sprintf_d_strtol n :
  - 2 ^ 31 <= n < 2 ^ 31 →
  ∃ out, sprintf fmt_d [VWord (u32 n)] = Ok (out, zlen out, []) ∧
    simple_strtol out 10 = (n, []).
Proof.
  intros Hn. assert (s32 (u32 n) = n) as Hw.
  { unfold swrap, wrap. change (2 ^ 32) with 4294967296 in *.
    change (2 ^ (32 - 1)) with 2147483648. change (2 ^ 31) with 2147483648 in Hn.
    Z.div_mod_to_equations. lia. }
  exists ((if n <? 0 then [45] else []) ++ number_digits (Z.abs n) 10 lower_digits).
  split.
  - unfold sprintf, vsprintf. cbn [length fmt_d vsprintf_loop Z.eqb Pos.eqb negb].
    assert (conversion [100] [VWord (u32 n)] 0 =
      out ← emit_number (s64 (s32 (u32 n))) 10 (-1) (-1) SIGN; Ok (out, [], [], [])) as ->.
    { set (w := VWord (u32 n)). unfold conversion. change (conv_flags [100] 0) with ([100], 0).
      cbv iota beta. change (conv_width [100] 0 [w]) with (Ok ([100], 0, -1, [w])).
      cbn [mbind outcome_bind]. change (conv_precision [100] [w]) with (Ok ([100], -1, [w])).
      cbn [mbind outcome_bind]. change (conv_qualifier [100]) with ([100], -1).
      cbn -[emit_number swrap]. by destruct (emit_number _ _ _ _ _). }
    rewrite Hw, (swrap_small 64) by lia. unfold emit_number. rewrite number_signed by done.
    cbn [mbind outcome_bind]. by rewrite !app_nil_r.
  - rewrite <- (app_nil_r (number_digits _ _ _)).
    by rewrite simple_strtol_signed by done.
Qed.

Lemma sprintf_d_strtol_witness :
  ∃ out, sprintf fmt_d [VWord (u32 (-2147483648))] = Ok (out, zlen out, []) ∧
    simple_strtol out 10 = (-2147483648, []).
Proof. apply sprintf_d_strtol. lia. Defined.

(** whatever the format and the arguments, [vsprintf] comes to the end of
    the format or stops at an argument of the wrong kind; every conversion
    moves forward in the format. *)
Theorem vsprintf_terminates fmt args : terminates (vsprintf fmt args).
Proof.
  unfold vsprintf. apply terminates_bind; [|intros []; by auto with total].
  apply vsprintf_loop_fuel. lia.
Qed.
