(* ===== verification/Cmdline.v ===== *)
(** * Cmdline: option parsing for the kernel command line ([lib/cmdline.c])

    A [char **] argument is passed in and out as an optional string ([None] is
    a null pointer), an [int *] argument as the value it points to, an [int]
    array as a list whose out-of-range accesses fault. *)

From S2P Require Import Prelude Ctype Vsprintf.

Definition get_option (str : option (list Z)) (pint : Z) : Z * option (list Z) * Z :=
  match str with
  | None => (0, str, pint)
  | Some cur =>
      if hd0 cur =? 0 then (0, str, pint)
      else
        let '(pint, endp) := simple_strtol cur 0 in
        if (length cur =? length endp)%nat then (0, Some endp, pint)
        else if hd0 endp =? 44 then (2, Some (tail endp), pint)
        else (1, Some endp, pint)
  end.

(** [ints[i]] and [ints[i] = v] *)
Definition int_get (ints : list Z) (i : Z) : outcome Z :=
  if 0 <=? i then
    match ints !! Z.to_nat i with Some v => Ok v | None => Trap Fault end
  else Trap Fault.
Definition int_set (ints : list Z) (i v : Z) : outcome (list Z) :=
  if (0 <=? i) && (i <? zlen ints) then Ok (<[Z.to_nat i := v]> ints) else Trap Fault.

(** [while (i < nints) { ... }]; [n] is [nints - i]. *)
Fixpoint get_options_loop (n : nat) (str : option (list Z)) (i : Z) (ints : list Z)
    : outcome (option (list Z) * Z * list Z) :=
  match n with
  | O => Ok (str, i, ints)
  | S n =>
      v ← int_get ints i;
      let '(res, str, v) := get_option str v in
      ints ← int_set ints i v;
      if res =? 0 then Ok (str, i, ints)
      else if res =? 1 then Ok (str, i + 1, ints)
      else get_options_loop n str (i + 1) ints
  end.

Definition get_options (str : option (list Z)) (nints : Z) (ints : list Z)
    : outcome (option (list Z) * list Z) :=
  '(str, i, ints) ← get_options_loop (Z.to_nat (nints - 1)) str 1 ints;
  ints ← int_set ints 0 (i - 1);
  Ok (str, ints).

Definition memparse (ptr : list Z) : Z * list Z :=
  let '(ret, retptr) := simple_strtoul ptr 0 in
  let c := hd0 retptr in
  if (c =? 71) || (c =? 103) then (u32 (u32 (u32 (ret * 2 ^ 10) * 2 ^ 10) * 2 ^ 10), tail retptr)
  else if (c =? 77) || (c =? 109) then (u32 (u32 (ret * 2 ^ 10) * 2 ^ 10), tail retptr)
  else if (c =? 75) || (c =? 107) then (u32 (ret * 2 ^ 10), tail retptr)
  else (ret, retptr).

(** ** Reading decimal numbers in base 0 *)

(** The text of an [int], as [%d] prints it. *)
Definition print_int (n : Z) : list Z :=
  (if n <? 0 then [45] else []) ++ number_digits (Z.abs n) 10 lower_digits.

(** The most significant digit of a non-zero number is not a zero. *)
Lemma num_digits_last fuel n :
  0 < n < 10 ^ Z.of_nat fuel →
  ∃ c k, rev (num_digits fuel n 10 lower_digits) = c :: k ∧ c ≠ 48.
Proof.
  revert n. induction fuel as [|fuel IH]; intros n Hn; [simpl in Hn; lia|].
  cbn [num_digits]. destruct (Z.eqb_spec n 0); [lia|]. cbn [rev].
  rewrite Nat2Z.inj_succ, Z.pow_succ_r in Hn by lia.
  pose proof (Z.div_mod n 10 ltac:(lia)). pose proof (Z.mod_pos_bound n 10 ltac:(lia)).
  destruct (Z.eqb_spec (n / 10) 0) as [E|E].
  - assert (num_digits fuel (n / 10) 10 lower_digits = []) as ->
      by (rewrite E; by destruct fuel).
    eexists _, []. split; [done|]. intros Hc.
    destruct (digits_parse lower_digits (n mod 10)) as [_ Hv]; [by left|lia|].
    rewrite Hc in Hv. change (digit_value 48) with 0 in Hv. lia.
  - destruct (IH (n / 10)) as (c & k & -> & Hc); [split; [|apply Z.div_lt_upper_bound]; lia|].
    eexists c, _. split; [done|done].
Qed.

Lemma number_digits_first n rest :
  0 < n < 2 ^ 64 → hd0 (number_digits n 10 lower_digits ++ rest) ≠ 48.
Proof.
  intros Hn. unfold number_digits. destruct (Z.eqb_spec n 0); [lia|].
  destruct (num_digits_last 64 n) as (c & k & -> & Hc); [|done].
  pose proof (num_digits_64 n 10). lia.
Qed.

Lemma strto_stop w base rest v :
  isxdigit (hd0 rest) = false → strto_loop w base rest v = (v, rest).
Proof. intros H. destruct rest as [|c rest]; [done|]. simpl in *. by rewrite H. Qed.

(** [simple_strtoul] with base 0 reads a decimal number. *)
Lemma strtoul_decimal n rest :
  0 <= n < 2 ^ 64 → isxdigit (hd0 rest) = false → hd0 rest ≠ 120 →
  simple_strtoul (number_digits n 10 lower_digits ++ rest) 0 = (u32 n, rest).
Proof.
  intros Hn Hr Hx. unfold simple_strtoul, strto_base. cbn [Z.eqb].
  destruct (Z.eqb_spec n 0) as [->|Hn0].
  - change (number_digits 0 10 lower_digits ++ rest) with (48 :: rest). cbn [hd0 tail].
    change (48 =? 48) with true. cbv iota.
    destruct (Z.eqb_spec (hd0 rest) 120); [done|]. cbn [andb].
    by rewrite strto_stop.
  - destruct (Z.eqb_spec (hd0 (number_digits n 10 lower_digits ++ rest)) 48) as [E|E].
    { by apply number_digits_first in E; [|lia]. }
    rewrite strto_number_digits by (first [lia | by left]). by rewrite strto_stop.
Qed.

Lemma strtol_decimal n rest :
  - 2 ^ 31 <= n < 2 ^ 31 → isxdigit (hd0 rest) = false → hd0 rest ≠ 120 →
  simple_strtol (print_int n ++ rest) 0 = (n, rest).
Proof.
  intros Hn Hr Hx. unfold simple_strtol, print_int. rewrite <- app_assoc.
  destruct (Z.ltb_spec n 0); cbn [app hd0 tail].
  - change (45 =? 45) with true. cbv iota.
    rewrite strtoul_decimal by (done || lia).
    rewrite wrap_small, swrap_small by lia. f_equal. lia.
  - rewrite hd0_xdigit_minus by (apply number_digits_head; first [lia | by left]).
    rewrite strtoul_decimal by (done || lia).
    rewrite wrap_small, swrap_small by lia. f_equal. lia.
Qed.

Lemma print_int_nonempty n : print_int n ≠ [].
Proof.
  unfold print_int. intros H. apply app_nil in H as [_ H].
  pose proof (number_digits_pos (Z.abs n) 10 lower_digits ltac:(lia) ltac:(lia)) as Hl.
  rewrite H in Hl. done.
Qed.

Lemma print_int_hd n rest : hd0 (print_int n ++ rest) ≠ 0.
Proof.
  unfold print_int. destruct (n <? 0); [done|]. cbn [app].
  pose proof (number_digits_head (Z.abs n) 10 lower_digits rest) as H.
  intros E. rewrite E in H. specialize (H ltac:(lia) ltac:(lia) ltac:(by left)). done.
Qed.

Lemma get_option_int n rest v :
  - 2 ^ 31 <= n < 2 ^ 31 → isxdigit (hd0 rest) = false → hd0 rest ≠ 120 →
  get_option (Some (print_int n ++ rest)) v =
  if hd0 rest =? 44 then (2, Some (tail rest), n) else (1, Some rest, n).
Proof.
  intros Hn Hr Hx. unfold get_option. pose proof (print_int_hd n rest).
  destruct (Z.eqb_spec (hd0 (print_int n ++ rest)) 0); [done|].
  rewrite strtol_decimal by done. rewrite length_app.
  pose proof (print_int_nonempty n) as Hne.
  destruct (Nat.eqb_spec (length (print_int n) + length rest) (length rest)); [|done].
  destruct (print_int n); [done|]. simpl in *. lia.
Qed.

(** ** Lists of numbers *)

(** The numbers [xs] separated by commas. *)
Fixpoint print_ints (xs : list Z) : list Z :=
  match xs with
  | [] => []
  | [x] => print_int x
  | x :: xs => print_int x ++ 44 :: print_ints xs
  end.

Definition is_int (x : Z) : Prop := - 2 ^ 31 <= x < 2 ^ 31.

Lemma int_get_ok ints i : 0 <= i < zlen ints → ∃ v, int_get ints i = Ok v.
Proof.
  intros Hi. unfold int_get. destruct (Z.leb_spec 0 i); [|lia].
  destruct (lookup_lt_is_Some_2 ints (Z.to_nat i)) as [v ->]; [unfold zlen in Hi; lia|eauto].
Qed.

Lemma int_set_ok ints i v :
  0 <= i < zlen ints → int_set ints i v = Ok (<[Z.to_nat i := v]> ints).
Proof.
  intros Hi. unfold int_set. destruct (Z.leb_spec 0 i), (Z.ltb_spec i (zlen ints)); lia || done.
Qed.

(** The slots [i], [i+1], ... of the array after parsing [xs]. *)
Fixpoint fill (ints : list Z) (i : nat) (xs : list Z) : list Z :=
  match xs with [] => ints | x :: xs => fill (<[i := x]> ints) (S i) xs end.

Lemma length_fill ints i xs : length (fill ints i xs) = length ints.
Proof.
  revert ints i. induction xs as [|x xs IH]; intros; simpl; [done|].
  by rewrite IH, length_insert.
Qed.

Lemma fill_below ints i xs j : (j < i)%nat → fill ints i xs !! j = ints !! j.
Proof.
  revert ints i. induction xs as [|x xs IH]; intros ints i Hj; simpl; [done|].
  rewrite IH by lia. apply list_lookup_insert_ne. lia.
Qed.

Lemma fill_lookup ints i xs j x :
  (i + length xs <= length ints)%nat → xs !! j = Some x → fill ints i xs !! (i + j)%nat = Some x.
Proof.
  revert ints i j. induction xs as [|y xs IH]; intros ints i [|j] Hlen Hx; simpl in *; try done.
  - simplify_eq. rewrite Nat.add_0_r, fill_below by lia. apply list_lookup_insert_eq. lia.
  - rewrite Nat.add_succ_r, <- Nat.add_succ_l. apply IH; [|done]. rewrite length_insert. lia.
Qed.

Lemma get_options_loop_print xs n i ints :
  xs ≠ [] → Forall is_int xs → (length xs <= n)%nat → 0 <= i → i + zlen xs <= zlen ints →
  get_options_loop n (Some (print_ints xs)) i ints =
  Ok (Some [], i + zlen xs, fill ints (Z.to_nat i) xs).
Proof.
  revert n i ints. induction xs as [|x xs IH]; intros n i ints Hne HF Hn Hi Hlen; [done|].
  inv_forall. rewrite zlen_cons in *. pose proof (zlen_nonneg xs).
  destruct n as [|n]; [simpl in Hn; lia|]. cbn [get_options_loop].
  destruct (int_get_ok ints i) as [v ->]; [lia|]. cbn [mbind outcome_bind].
  destruct xs as [|y xs].
  - cbn [print_ints]. rewrite <- (app_nil_r (print_int x)).
    rewrite get_option_int by done. cbn [hd0 Z.eqb].
    rewrite int_set_ok by lia. cbn [mbind outcome_bind Z.eqb fill]. done.
  - change (print_ints (x :: y :: xs)) with (print_int x ++ 44 :: print_ints (y :: xs)).
    rewrite get_option_int by done. cbn [hd0 tail]. change (44 =? 44) with true. cbv iota.
    rewrite int_set_ok by lia. cbn [mbind outcome_bind]. change (2 =? 0) with false.
    change (2 =? 1) with false. cbv iota. rewrite IH; try done; try lia.
    + rewrite Z2Nat.inj_add by lia. change (Z.to_nat 1) with 1%nat. rewrite Nat.add_1_r.
      cbn [fill]. f_equal. f_equal. f_equal. lia.
    + simpl in *. lia.
    + unfold zlen in *. rewrite length_insert. lia.
Qed.

(** ** Properties *)

(** parsing a comma-separated list of [int]s, as [%d] prints them, stores
    all of them in order behind their count and stops at the end of the
    string, when the array has room for them. *)
Theorem get_options_parses_list xs nints ints :
  xs ≠ [] → Forall is_int xs → zlen xs < nints <= zlen ints →
  ∃ ints', get_options (Some (print_ints xs)) nints ints = Ok (Some [], ints') ∧
    length ints' = length ints ∧
    ints' !! 0%nat = Some (zlen xs) ∧
    ∀ j x, xs !! j = Some x → ints' !! S j = Some x.
Proof.
  intros Hne HF Hn. pose proof (zlen_nonneg xs).
  unfold get_options. rewrite get_options_loop_print; try done; try lia.
  2:{ unfold zlen in Hn. lia. }
  change (Z.to_nat 1) with 1%nat. cbn [mbind outcome_bind].
  assert (zlen (fill ints 1 xs) = zlen ints) as El by (unfold zlen; by rewrite length_fill).
  rewrite int_set_ok by lia. cbn [mbind outcome_bind]. eexists. split; [done|].
  change (Z.to_nat 0) with 0%nat. split; [by rewrite length_insert, length_fill|]. split.
  - rewrite list_lookup_insert_eq by (unfold zlen in *; lia). f_equal. lia.
  - intros j x Hx. rewrite list_lookup_insert_ne by done.
    apply (fill_lookup ints 1); [unfold zlen in Hn; lia|done].
Qed.

Lemma get_options_parses_list_witness :
  ∃ ints', get_options (Some (print_ints [7; -12; 0])) 4 [0; 0; 0; 0] = Ok (Some [], ints') ∧
    length ints' = 4%nat ∧ ints' !! 0%nat = Some 3 ∧
    ∀ j x, [7; -12; 0] !! j = Some x → ints' !! S j = Some x.
Proof.
  apply (get_options_parses_list [7; -12; 0] 4 [0; 0; 0; 0]);
    [done | repeat constructor; unfold is_int; lia | vm_compute; split; congruence].
Defined.

(** [memparse] of a decimal number followed by a suffix scales it by 2^10,
    2^20 or 2^30 modulo 2^32 and consumes the suffix; without a suffix it
    returns the number and stops behind it. *)
Theorem memparse_scales n rest :
  0 <= n < 2 ^ 32 → isxdigit (hd0 rest) = false → hd0 rest ≠ 120 →
  memparse (number_digits n 10 lower_digits ++ rest) =
  match rest with
  | 71 :: r | 103 :: r => (u32 (n * 2 ^ 30), r)
  | 77 :: r | 109 :: r => (u32 (n * 2 ^ 20), r)
  | 75 :: r | 107 :: r => (u32 (n * 2 ^ 10), r)
  | _ => (n, rest)
  end.
Proof.
  intros Hn Hr Hx. unfold memparse. rewrite strtoul_decimal by (done || lia).
  rewrite (wrap_small 32 n) by lia.
  assert (∀ z k, u32 (u32 z * k) = u32 (z * k)) as Hm
    by (intros; unfold wrap; rewrite Z.mul_mod_idemp_l by lia; done).
  assert (u32 (u32 (u32 (n * 2 ^ 10) * 2 ^ 10) * 2 ^ 10) = u32 (n * 2 ^ 30)) as ->
    by (rewrite (Hm (u32 _ * _)), <- (Z.mul_assoc (u32 _)), Hm; f_equal; lia).
  assert (u32 (u32 (n * 2 ^ 10) * 2 ^ 10) = u32 (n * 2 ^ 20)) as ->
    by (rewrite Hm; f_equal; lia).
  destruct rest as [|c rest]; cbn [hd0 tail]; [done|].
  destruct (Z.eqb_spec c 71) as [->|]; [done|]. destruct (Z.eqb_spec c 103) as [->|]; [done|].
  destruct (Z.eqb_spec c 77) as [->|]; [done|]. destruct (Z.eqb_spec c 109) as [->|]; [done|].
  destruct (Z.eqb_spec c 75) as [->|]; [done|]. destruct (Z.eqb_spec c 107) as [->|]; [done|].
  cbn [orb]. by repeat (case_match; try done).
Qed.

Lemma memparse_scales_witness :
  memparse (number_digits 8 10 lower_digits ++ [77; 64]) = (8 * 2 ^ 20, [64]).
Proof. apply (memparse_scales 8 [77; 64]); [lia | reflexivity | discriminate]. Defined.

(** A lone minus sign counts as a number. *)
Example get_option_lone_minus : get_option (Some [45; 120]) 5 = (1, Some [120], 0).
Proof. vm_compute. reflexivity. Qed.
