(* ===== verification/Resource.v ===== *)
(** * Resource: the I/O resource tree ([kernel/resource.c])

    Resources live in a store of [struct resource] records indexed by address;
    [0] is the null pointer and following it faults.  A [struct resource **]
    is a slot: the [child] or the [sibling] field of a record.  The tree is
    the one the source builds: [child] is the first child of a resource,
    [sibling] the next one of the same parent, in increasing order.

    Loops over the sibling list and over the levels of the tree carry fuel
    [S (size h)], more than there are records; the theorems show that it is
    enough on well-formed trees.  [resource_lock] serialises the operations
    and is not modelled. *)

From S2P Require Import Prelude Errno Ctype Vsprintf Cmdline.

Record resource := Resource {
  name : option (list Z);
  start : Z;
  end_ : Z;
  flags : Z;
  parent : Z;
  sibling : Z;
  child : Z
}.

Abbreviation heap := (gmap Z resource).

Definition IORESOURCE_IO : Z := 0x100.
Definition IORESOURCE_MEM : Z := 0x200.
Definition IORESOURCE_BUSY : Z := 0x80000000.
Definition IO_SPACE_LIMIT : Z := 0xffff.

(** Field updates *)
Definition set_parent (v : Z) (r : resource) : resource :=
  Resource (name r) (start r) (end_ r) (flags r) v (sibling r) (child r).
Definition set_sibling (v : Z) (r : resource) : resource :=
  Resource (name r) (start r) (end_ r) (flags r) (parent r) v (child r).
Definition set_child (v : Z) (r : resource) : resource :=
  Resource (name r) (start r) (end_ r) (flags r) (parent r) (sibling r) v.
Definition set_range (s e : Z) (r : resource) : resource :=
  Resource (name r) s e (flags r) (parent r) (sibling r) (child r).

Definition rget (h : heap) (a : Z) : outcome resource :=
  match h !! a with Some r => Ok r | None => Trap Fault end.

(** [a->f = v] *)
Definition rupd (h : heap) (a : Z) (f : resource → resource) : outcome heap :=
  match h !! a with Some r => Ok (<[a := f r]> h) | None => Trap Fault end.

(** [struct resource **p] *)
Inductive slot :=
| ChildOf (a : Z)
| SiblingOf (a : Z).

Definition slot_get (h : heap) (p : slot) : outcome Z :=
  match p with
  | ChildOf a => r ← rget h a; Ok (child r)
  | SiblingOf a => r ← rget h a; Ok (sibling r)
  end.

Definition slot_set (h : heap) (p : slot) (v : Z) : outcome heap :=
  match p with
  | ChildOf a => rupd h a (set_child v)
  | SiblingOf a => rupd h a (set_sibling v)
  end.

Definition hfuel (h : heap) : nat := S (size h).

(** The two trees of the system. *)
Definition ioport_resource : resource :=
  Resource (Some [80; 67; 73; 32; 73; 79]) 0 IO_SPACE_LIMIT IORESOURCE_IO 0 0 0.
Definition iomem_resource : resource :=
  Resource (Some [80; 67; 73; 32; 109; 101; 109]) 0 0xffffffff IORESOURCE_MEM 0 0 0.

(** ** Requesting and releasing *)

(** The [for (;;)] loop of [__request_resource]. *)
Fixpoint request_loop (fuel : nat) (h : heap) (p : slot) (root new s e : Z)
    : outcome (heap * Z) :=
  match fuel with
  | O => Trap Fuel
  | S fuel =>
      tmp ← slot_get h p;
      let insert_here :=
        h ← rupd h new (set_sibling tmp);
        h ← slot_set h p new;
        h ← rupd h new (set_parent root);
        Ok (h, 0) in
      if tmp =? 0 then insert_here
      else
        t ← rget h tmp;
        if e <? start t then insert_here
        else if end_ t <? s then request_loop fuel h (SiblingOf tmp) root new s e
        else Ok (h, tmp)
  end.

(** The conflicting entry, or 0. *)
Definition __request_resource (h : heap) (root new : Z) : outcome (heap * Z) :=
  n ← rget h new;
  r ← rget h root;
  if end_ n <? start n then Ok (h, root)
  else if start n <? start r then Ok (h, root)
  else if end_ r <? end_ n then Ok (h, root)
  else request_loop (hfuel h) h (ChildOf root) root new (start n) (end_ n).

Fixpoint release_loop (fuel : nat) (h : heap) (p : slot) (old : Z) : outcome (heap * Z) :=
  match fuel with
  | O => Trap Fuel
  | S fuel =>
      tmp ← slot_get h p;
      if tmp =? 0 then Ok (h, - EINVAL)
      else if tmp =? old then
        t ← rget h tmp;
        h ← slot_set h p (sibling t);
        h ← rupd h old (set_parent 0);
        Ok (h, 0)
      else release_loop fuel h (SiblingOf tmp) old
  end.

Definition __release_resource (h : heap) (old : Z) : outcome (heap * Z) :=
  o ← rget h old;
  release_loop (hfuel h) h (ChildOf (parent o)) old.

Definition request_resource (h : heap) (root new : Z) : outcome (heap * Z) :=
  '(h, conflict) ← __request_resource h root new;
  Ok (h, if c_true conflict then - EBUSY else 0).

Definition release_resource (h : heap) (old : Z) : outcome (heap * Z) :=
  __release_resource h old.

(** [tmp] is the address of the local variable and [garbage] its initial
    content; it goes out of scope at the end. *)
Definition check_resource (h : heap) (root s len tmp : Z) (garbage : resource)
    : outcome (heap * Z) :=
  let h := <[tmp := set_range s (u32 (s + len - 1)) garbage]> h in
  '(h, conflict) ← __request_resource h root tmp;
  h ← (if c_true conflict then Ok h
       else '(h, _) ← __release_resource h tmp; Ok h);
  Ok (delete tmp h, if c_true conflict then - EBUSY else 0).

(** ** Allocation *)

(** The optional [alignf] callback with its data: it may change [new]. *)
Abbreviation alignf_t := (option (resource → Z → resource)).

(** One round of [find_resource] proposes a range for the gap in front of the
    child whose start is given (the end of [root] for the last gap). *)
Definition find_gap (new : resource) (gap_end size min max align : Z) (alignf : alignf_t)
    : resource :=
  let e := gap_end in
  let s := start new in
  let s := if s <? min then min else s in
  let e := if max <? e then max else e in
  let s := Z.land (u32 (s + align - 1)) (u32 (Z.lnot (align - 1))) in
  let new := set_range s e new in
  match alignf with None => new | Some f => f new size end.

Fixpoint find_loop (fuel : nat) (h : heap) (root this : Z) (new : resource)
    (size min max align : Z) (alignf : alignf_t) : outcome (resource * Z) :=
  match fuel with
  | O => Trap Fuel
  | S fuel =>
      gap_end ← (if c_true this then t ← rget h this; Ok (start t)
                 else r ← rget h root; Ok (end_ r));
      let new := find_gap new gap_end size min max align alignf in
      if (start new <? end_ new) && (size <=? u32 (end_ new - start new + 1)) then
        Ok (set_range (start new) (u32 (start new + size - 1)) new, 0)
      else if negb (c_true this) then Ok (new, - EBUSY)
      else
        t ← rget h this;
        find_loop fuel h root (sibling t) (set_range (u32 (end_ t + 1)) (end_ new) new)
          size min max align alignf
  end.

Definition find_resource (h : heap) (root new size min max align : Z) (alignf : alignf_t)
    : outcome (heap * Z) :=
  r ← rget h root;
  n ← rget h new;
  '(n, err) ← find_loop (hfuel h) h root (child r) (set_range (start r) (end_ n) n)
                size min max align alignf;
  Ok (<[new := n]> h, err).

Definition allocate_resource (h : heap) (root new size min max align : Z) (alignf : alignf_t)
    : outcome (heap * Z) :=
  '(h, err) ← find_resource h root new size min max align alignf;
  if 0 <=? err then
    '(h, conflict) ← __request_resource h root new;
    Ok (h, if c_true conflict then - EBUSY else err)
  else Ok (h, err).

(** ** Regions *)

Fixpoint region_loop (fuel : nat) (h : heap) (parent res : Z) : outcome (heap * Z) :=
  match fuel with
  | O => Trap Fuel
  | S fuel =>
      '(h, conflict) ← __request_resource h parent res;
      if conflict =? 0 then Ok (h, res)
      else if negb (conflict =? parent) then
        c ← rget h conflict;
        if Z.land (flags c) IORESOURCE_BUSY =? 0 then region_loop fuel h conflict res
        else Ok (delete res h, 0)
      else Ok (delete res h, 0)
  end.

(** [res] is what [kmalloc] returned. *)
Definition __request_region (h : heap) (parent s n : Z) (nm : option (list Z)) (res : Z)
    : outcome (heap * Z) :=
  if res =? 0 then Ok (h, 0)
  else
    let h := <[res := Resource nm s (u32 (s + n - 1)) IORESOURCE_BUSY 0 0 0]> h in
    region_loop (hfuel h) h parent res.

(** ["check-region"] *)
Definition check_region_name : list Z := [99; 104; 101; 99; 107; 45; 114; 101; 103; 105; 111; 110].

Definition __check_region (h : heap) (parent s n : Z) (res : Z) : outcome (heap * Z) :=
  '(h, res) ← __request_region h parent s n (Some check_region_name) res;
  if res =? 0 then Ok (h, - EBUSY)
  else
    '(h, _) ← release_resource h res;
    Ok (delete res h, 0).

(** The result tells whether the region was found; the source only prints a
    message when it was not. *)
Fixpoint release_region_loop (fuel : nat) (h : heap) (p : slot) (s e : Z)
    : outcome (heap * bool) :=
  match fuel with
  | O => Trap Fuel
  | S fuel =>
      res ← slot_get h p;
      if res =? 0 then Ok (h, false)
      else
        r ← rget h res;
        if (start r <=? s) && (e <=? end_ r) then
          if Z.land (flags r) IORESOURCE_BUSY =? 0 then
            release_region_loop fuel h (ChildOf res) s e
          else if negb (start r =? s) || negb (end_ r =? e) then Ok (h, false)
          else
            h ← slot_set h p (sibling r);
            Ok (delete res h, true)
        else release_region_loop fuel h (SiblingOf res) s e
  end.

Definition __release_region (h : heap) (parent s n : Z) : outcome (heap * bool) :=
  release_region_loop (hfuel h) h (ChildOf parent) s (u32 (s + n - 1)).

(** ** The ["reserve="] option *)

Definition MAXRESERVE : Z := 4.

(** ["reserved"] *)
Definition reserved_name : list Z := [114; 101; 115; 101; 114; 118; 101; 100].

Section reserve.
(** The addresses of [iomem_resource], [ioport_resource] and of the array
    [reserve]. *)
Context (iomem ioport : Z) (reserve : Z → Z).

(** The [while] loop; [reserved] is the static counter. *)
Fixpoint reserve_loop (fuel : nat) (h : heap) (reserved : Z) (str : option (list Z))
    (io_start io_num : Z) : outcome (heap * Z) :=
  match fuel with
  | O => Trap Fuel
  | S fuel =>
      let x := reserved in
      let '(o1, str, io_start) := get_option str io_start in
      if negb (o1 =? 2) then Ok (h, reserved)
      else
        let '(o2, str, io_num) := get_option str io_num in
        if o2 =? 0 then Ok (h, reserved)
        else if x <? MAXRESERVE then
          let res := reserve x in
          old ← rget h res;
          let s := u32 io_start in
          let h := <[res := Resource (Some reserved_name) s (u32 (io_start + io_num - 1))
                              (flags old) (parent old) (sibling old) 0]> h in
          '(h, r) ← request_resource h (if 0x10000 <=? s then iomem else ioport) res;
          reserve_loop fuel h (if r =? 0 then x + 1 else reserved) str io_start io_num
        else reserve_loop fuel h reserved str io_start io_num
  end.

(** [io_start] and [io_num] are uninitialised at first. *)
Definition reserve_setup (h : heap) (reserved : Z) (str : list Z) (io_start io_num : Z)
    : outcome (heap * Z * Z) :=
  '(h, reserved) ← reserve_loop (S (length str)) h reserved (Some str) io_start io_num;
  Ok (h, reserved, 1).
End reserve.

(** ** The report in /proc *)

(** The text of the entries from [entry] on, at most as long as there is room;
    [room] is [end - buf]. *)
Fixpoint do_resource_list (fuel : nat) (h : heap) (entry : Z) (fmt : list Z) (offset room : Z)
    : outcome (list Z) :=
  match fuel with
  | O => Trap Fuel
  | S fuel =>
      let offset := if offset <? 0 then 0 else offset in
      if entry =? 0 then Ok []
      else if room <? 80 then Ok []
      else
        r ← rget h entry;
        let nm := default [60; 66; 65; 68; 62] (name r) in
        '(out1, n1, _) ← sprintf (drop (Z.to_nat offset) fmt)
                           [VWord (start r); VWord (end_ r); VStr (Some nm)];
        out2 ← (if c_true (child r)
                then do_resource_list fuel h (child r) fmt (offset - 2) (room - n1)
                else Ok []);
        out3 ← do_resource_list fuel h (sibling r) fmt offset (room - n1 - zlen out2);
        Ok (out1 ++ out2 ++ out3)
  end.

(** ["        %08lx-%08lx : %s\n"] and the four-digit version *)
Definition list_fmt (width : Z) : list Z :=
  replicate 8 32 ++ [37; 48; width; 108; 120; 45; 37; 48; width; 108; 120; 32; 58; 32; 37; 115; 10].

Definition get_resource_list (h : heap) (root size : Z) : outcome (list Z * Z) :=
  r ← rget h root;
  let fmt := if end_ r <? 0x10000 then list_fmt 52 else list_fmt 56 in
  out ← do_resource_list (hfuel h) h (child r) fmt 8 size;
  Ok (out, zlen out).

(** ** Well-formed trees *)

(** [kids h a lo hi p l]: the sibling list from [p] holds the resources [l], all
    children of [a], with ranges inside [lo..hi], disjoint and increasing. *)
Fixpoint kids (h : heap) (a lo hi p : Z) (l : list Z) : Prop :=
  match l with
  | [] => p = 0
  | c :: l => p = c ∧ c ≠ 0 ∧ ∃ rc, h !! c = Some rc ∧ parent rc = a ∧
      lo <= start rc ∧ start rc <= end_ rc ∧ end_ rc <= hi ∧
      kids h a (end_ rc + 1) hi (sibling rc) l
  end.

Definition node_ok (h : heap) (a : Z) (r : resource) : Prop :=
  ∃ l, kids h a (start r) (end_ r) (child r) l.

(** Going up to the parent comes to an end. *)
Definition acyclic (h : heap) : Prop :=
  ∃ rk : Z → nat, ∀ c rc, h !! c = Some rc → parent rc ≠ 0 → (rk c < rk (parent rc))%nat.

Definition wf (h : heap) : Prop :=
  (∀ a r, h !! a = Some r → a ≠ 0 ∧ node_ok h a r) ∧ acyclic h.

(** Nobody's parent. *)
Definition leaf (h : heap) (a : Z) : Prop := ∀ c rc, h !! c = Some rc → parent rc ≠ a.

Lemma kids_frame h h' a lo hi p l :
  (∀ c, c ∈ l → h' !! c = h !! c) → kids h a lo hi p l → kids h' a lo hi p l.
Proof.
  revert lo p. induction l as [|c l IH]; intros lo p Hc H; simpl in *; [done|].
  destruct H as (-> & H0 & rc & Hrc & Hp & H1 & H2 & H3 & H4).
  split; [done|]. split; [done|]. exists rc. rewrite Hc by set_solver.
  repeat split; try done. apply IH; [set_solver|done].
Qed.

Lemma kids_lo h a lo lo' hi p l : lo' <= lo → kids h a lo hi p l → kids h a lo' hi p l.
Proof.
  destruct l as [|c l]; simpl; [done|]. intros Hlo (-> & H0 & rc & Hrc & Hp & H1 & H2 & H3 & H4).
  split; [done|]. split; [done|]. exists rc. repeat split; try done. lia.
Qed.

Lemma kids_elem h a lo hi p l c :
  kids h a lo hi p l → c ∈ l →
  ∃ rc, h !! c = Some rc ∧ parent rc = a ∧ c ≠ 0 ∧
    lo <= start rc ∧ start rc <= end_ rc ∧ end_ rc <= hi.
Proof.
  revert lo p. induction l as [|d l IH]; intros lo p H Hc; [set_solver|].
  simpl in H. destruct H as (-> & H0 & rd & Hrd & Hp & H1 & H2 & H3 & H4).
  apply elem_of_cons in Hc as [->|Hc]; [eauto 10|].
  destruct (IH _ _ H4 Hc) as (rc & ? & ? & ? & ? & ? & ?). exists rc. repeat split; try done; lia.
Qed.

Lemma kids_NoDup h a lo hi p l : kids h a lo hi p l → NoDup l.
Proof.
  revert lo p. induction l as [|c l IH]; intros lo p H; [constructor|].
  simpl in H. destruct H as (-> & H0 & rc & Hrc & Hp & H1 & H2 & H3 & H4).
  constructor; [|eauto]. intros Hc. destruct (kids_elem _ _ _ _ _ _ _ H4 Hc) as (rc' & ? & ?).
  simplify_eq. lia.
Qed.

Lemma NoDup_dom_length (h : heap) l :
  NoDup l → (∀ c, c ∈ l → is_Some (h !! c)) → (length l <= size h)%nat.
Proof.
  intros HN Hl. rewrite <- size_dom, <- (size_list_to_set (C := gset Z) l) by done.
  apply subseteq_size. intros c. rewrite elem_of_list_to_set, elem_of_dom. auto.
Qed.

Lemma kids_length h a lo hi p l : kids h a lo hi p l → (length l < hfuel h)%nat.
Proof.
  intros H. unfold hfuel. apply Nat.lt_succ_r, NoDup_dom_length; [by eapply kids_NoDup|].
  intros c Hc. destruct (kids_elem _ _ _ _ _ _ _ H Hc) as (rc & -> & _). eauto.
Qed.

(** The children of different parents are different. *)
Lemma kids_disjoint h a a' lo lo' hi hi' p p' l l' c :
  kids h a lo hi p l → kids h a' lo' hi' p' l' → c ∈ l → c ∈ l' → a = a'.
Proof.
  intros H H' Hc Hc'. destruct (kids_elem _ _ _ _ _ _ _ H Hc) as (r & ? & <- & _).
  destruct (kids_elem _ _ _ _ _ _ _ H' Hc') as (r' & ? & <- & _). congruence.
Qed.

Lemma kids_unlinked h a lo hi p l c rc :
  a ≠ 0 → kids h a lo hi p l → h !! c = Some rc → parent rc = 0 → c ∉ l.
Proof.
  intros Ha H Hc Hp Hin. destruct (kids_elem _ _ _ _ _ _ _ H Hin) as (r & ? & ? & _). congruence.
Qed.

(** [sim h h' c]: the record at [c] keeps what its parent's list depends on. *)
Definition sim (h h' : heap) (c : Z) : Prop :=
  ∀ r, h !! c = Some r → ∃ r', h' !! c = Some r' ∧ parent r' = parent r ∧
    start r' = start r ∧ end_ r' = end_ r ∧ sibling r' = sibling r.

Lemma sim_eq h h' c : h' !! c = h !! c → sim h h' c.
Proof. intros E r Hr. exists r. by rewrite E. Qed.

Lemma kids_sim h h' a lo hi p l :
  (∀ c, c ∈ l → sim h h' c) → kids h a lo hi p l → kids h' a lo hi p l.
Proof.
  revert lo p. induction l as [|c l IH]; intros lo p Hc H; simpl in *; [done|].
  destruct H as (-> & H0 & rc & Hrc & Hp & H1 & H2 & H3 & H4).
  split; [done|]. split; [done|].
  destruct (Hc c ltac:(set_solver) rc Hrc) as (r' & Hr' & E1 & E2 & E3 & E4).
  exists r'. rewrite E1, E2, E3, E4. repeat split; try done. apply IH; [set_solver|done].
Qed.

(** ** Linking a resource into a sibling list *)

Definition slot_owner (p : slot) : Z := match p with ChildOf a | SiblingOf a => a end.

Definition alter_slot (p : slot) (v : Z) (h : heap) : heap :=
  match p with
  | ChildOf a => alter (set_child v) a h
  | SiblingOf a => alter (set_sibling v) a h
  end.

(** The slot in front of the rest of the list after [l1]. *)
Fixpoint slot_at (p : slot) (l1 : list Z) : slot :=
  match l1 with [] => p | c :: l1 => slot_at (SiblingOf c) l1 end.

Definition head0 (l : list Z) : Z := match l with [] => 0 | c :: _ => c end.

(** The effect of the three stores of [__request_resource]. *)
Definition link (h : heap) (p : slot) (new root next : Z) : heap :=
  alter (set_parent root) new (alter_slot p new (alter (set_sibling next) new h)).

Lemma rupd_alter h a f : is_Some (h !! a) → rupd h a f = Ok (alter f a h).
Proof.
  intros [r Hr]. unfold rupd. rewrite Hr. f_equal. symmetry. by apply alter_alt_Some.
Qed.

Lemma alter_is_Some (h : heap) f a x : is_Some (alter f a h !! x) ↔ is_Some (h !! x).
Proof. by rewrite lookup_alter_is_Some. Qed.

Lemma slot_set_alter h p v : is_Some (h !! slot_owner p) → slot_set h p v = Ok (alter_slot p v h).
Proof. intros H. destruct p; by apply rupd_alter. Qed.

Lemma alter_slot_is_Some h p v x : is_Some (alter_slot p v h !! x) ↔ is_Some (h !! x).
Proof. destruct p; apply alter_is_Some. Qed.

Lemma slot_get_owner h p q : slot_get h p = Ok q → is_Some (h !! slot_owner p).
Proof.
  destruct p as [a|a]; simpl; unfold rget; destruct (h !! a); simpl; (eauto || done).
Qed.

Lemma link_ok h p new root next :
  is_Some (h !! new) → is_Some (h !! slot_owner p) →
  (h ← rupd h new (set_sibling next); h ← slot_set h p new; h ← rupd h new (set_parent root);
   Ok (h, 0)) = Ok (link h p new root next, 0).
Proof.
  intros Hn Hp. rewrite rupd_alter by done. cbn [mbind outcome_bind].
  rewrite slot_set_alter by (by rewrite alter_is_Some). cbn [mbind outcome_bind].
  by rewrite rupd_alter by (by rewrite alter_slot_is_Some, alter_is_Some).
Qed.

Lemma kids_sorted h a lo hi p l c rc :
  kids h a lo hi p l → c ∈ l → h !! c = Some rc → lo <= start rc.
Proof.
  intros H Hc Hrc. destruct (kids_elem _ _ _ _ _ _ _ H Hc) as (r & ? & ? & ? & ? & ?).
  by simplify_eq.
Qed.

Lemma rget_ok h a r : h !! a = Some r → rget h a = Ok r.
Proof. unfold rget. by intros ->. Qed.

Lemma request_loop_spec fuel h p root new s e lo hi q l :
  kids h root lo hi q l → slot_get h p = Ok q → is_Some (h !! new) → (length l < fuel)%nat →
  (∃ c rc, c ∈ l ∧ h !! c = Some rc ∧ start rc <= e ∧ s <= end_ rc ∧
     request_loop fuel h p root new s e = Ok (h, c)) ∨
  (∃ l1 l2, l = l1 ++ l2 ∧
     (∀ c rc, c ∈ l1 → h !! c = Some rc → end_ rc < s) ∧
     (∀ c rc, c ∈ l2 → h !! c = Some rc → e < start rc) ∧
     request_loop fuel h p root new s e = Ok (link h (slot_at p l1) new root (head0 l2), 0)).
Proof.
  revert fuel p lo q. induction l as [|c l IH]; intros [|fuel] p lo q H Hp Hn Hf;
    simpl in Hf; try lia; cbn [request_loop]; rewrite Hp; cbn [mbind outcome_bind].
  - right. exists [], []. split; [done|]. split; [set_solver|]. split; [set_solver|].
    simpl in H. subst q. cbn [slot_at head0]. rewrite <- link_ok by eauto using slot_get_owner.
    done.
  - simpl in H. destruct H as (-> & H0 & rc & Hrc & Hpa & H1 & H2 & H3 & H4).
    destruct (Z.eqb_spec c 0); [done|]. rewrite (rget_ok _ _ _ Hrc). cbn [mbind outcome_bind].
    destruct (Z.ltb_spec e (start rc)).
    + right. exists [], (c :: l). split; [done|]. split; [set_solver|]. split.
      { intros d rd Hd Hrd. apply elem_of_cons in Hd as [->|Hd]; [congruence|].
        pose proof (kids_sorted _ _ _ _ _ _ _ _ H4 Hd Hrd). lia. }
      cbn [slot_at head0]. rewrite <- link_ok by eauto using slot_get_owner. done.
    + destruct (Z.ltb_spec (end_ rc) s).
      * destruct (IH fuel (SiblingOf c) (end_ rc + 1) (sibling rc)) as
          [(d & rd & Hd & Hrd & ? & ? & Hr)|(l1 & l2 & -> & Hl1 & Hl2 & Hr)]; try done.
        { cbn. by rewrite (rget_ok _ _ _ Hrc). } { lia. }
        -- left. exists d, rd. rewrite Hr. repeat split; try done. set_solver.
        -- right. exists (c :: l1), l2. split; [done|]. split; [|split; [done|]].
           { intros d rd Hd Hrd. apply elem_of_cons in Hd as [->|Hd]; [|eauto].
             by simplify_eq. }
           by rewrite Hr.
      * left. exists c, rc. repeat split; try done. set_solver.
Qed.

(** The record of the slot's owner and of the new resource after linking. *)
Lemma link_new h p new root next n :
  h !! new = Some n → slot_owner p ≠ new →
  link h p new root next !! new = Some (set_parent root (set_sibling next n)).
Proof.
  intros Hn Hp. unfold link. rewrite lookup_alter_eq.
  destruct p as [a|a]; simpl in *; rewrite lookup_alter_ne by done;
    by rewrite lookup_alter_eq, Hn.
Qed.

Lemma link_other h p new root next x :
  x ≠ new → x ≠ slot_owner p → link h p new root next !! x = h !! x.
Proof.
  intros Hx Hp. unfold link. rewrite lookup_alter_ne by done.
  destruct p as [a|a]; simpl in *; by rewrite !lookup_alter_ne by done.
Qed.

Lemma link_sibling h a new root next r :
  a ≠ new → h !! a = Some r → link h (SiblingOf a) new root next !! a = Some (set_sibling new r).
Proof.
  intros Ha Hr. unfold link. rewrite lookup_alter_ne by done. cbn [alter_slot].
  rewrite lookup_alter_eq, lookup_alter_ne by done. by rewrite Hr.
Qed.

Lemma link_child h a new root next r :
  a ≠ new → h !! a = Some r → link h (ChildOf a) new root next !! a = Some (set_child new r).
Proof.
  intros Ha Hr. unfold link. rewrite lookup_alter_ne by done. cbn [alter_slot].
  rewrite lookup_alter_eq, lookup_alter_ne by done. by rewrite Hr.
Qed.

Lemma slot_at_owner p l1 : slot_owner (slot_at p l1) = slot_owner p ∨ slot_owner (slot_at p l1) ∈ l1.
Proof.
  revert p. induction l1 as [|c l1 IH]; intros p; simpl; [by left|].
  destruct (IH (SiblingOf c)) as [E|E]; right; [rewrite E; simpl|]; set_solver.
Qed.

Lemma slot_at_not p l1 x : slot_owner p ≠ x → x ∉ l1 → slot_owner (slot_at p l1) ≠ x.
Proof. intros Hp Hl E. destruct (slot_at_owner p l1); congruence. Qed.

Lemma kids_head h a lo hi p l : kids h a lo hi p l → p = head0 l.
Proof. destruct l; simpl; [done|]. by intros [-> _]. Qed.

(** Raising the lower bound above an inserted range. *)
Lemma kids_raise h a lo hi p l e :
  kids h a lo hi p l → (∀ c rc, c ∈ l → h !! c = Some rc → e < start rc) →
  kids h a (e + 1) hi p l.
Proof.
  destruct l as [|c l]; simpl; [done|].
  intros (-> & H0 & rc & Hrc & Hp & H1 & H2 & H3 & H4) He.
  split; [done|]. split; [done|]. exists rc. repeat split; try done.
  specialize (He c rc ltac:(set_solver) Hrc). lia.
Qed.

Lemma kids_link h p root new lo hi q l1 l2 n :
  kids h root lo hi q (l1 ++ l2) → h !! new = Some n → new ≠ 0 →
  new ∉ l1 ++ l2 → slot_owner p ∉ l1 ++ l2 → slot_owner p ≠ new →
  lo <= start n → start n <= end_ n → end_ n <= hi →
  (∀ c rc, c ∈ l1 → h !! c = Some rc → end_ rc < start n) →
  (∀ c rc, c ∈ l2 → h !! c = Some rc → end_ n < start rc) →
  kids (link h (slot_at p l1) new root (head0 l2)) root lo hi
    (head0 (l1 ++ new :: l2)) (l1 ++ new :: l2).
Proof.
  intros H Hn Hn0. revert p lo q H.
  induction l1 as [|c l1 IH]; intros p lo q H Hnew Hp Hpn Hlo Hse Hhi H1 H2.
  - cbn [app slot_at head0] in *. cbn [kids]. split; [done|]. split; [done|].
    eexists. split; [by apply link_new|]. cbn [parent start end_ sibling set_parent set_sibling].
    do 4 (split; [done|]). rewrite <- (kids_head _ _ _ _ _ _ H).
    apply (kids_frame h); [|by apply kids_raise with lo].
    intros c Hc. apply link_other; set_solver.
  - cbn [app slot_at] in *. cbn [kids] in H.
    destruct H as (-> & H0 & rc & Hrc & Hpa & Hl & Hl2 & Hl3 & Hk).
    assert (c ∉ l1 ++ l2) as Hc.
    { intros Hc. destruct (kids_elem _ _ _ _ _ _ _ Hk Hc) as (? & ? & ? & ? & ? & ?).
      simplify_eq. lia. }
    assert (c ≠ new) as Hcn by set_solver.
    assert (end_ rc < start n) by (apply (H1 c); [set_solver|done]).
    specialize (IH (SiblingOf c) (end_ rc + 1) (sibling rc) Hk).
    cbn [head0 kids]. split; [done|]. split; [done|].
    assert (∃ rc', link h (slot_at (SiblingOf c) l1) new root (head0 l2) !! c = Some rc' ∧
      parent rc' = parent rc ∧ start rc' = start rc ∧ end_ rc' = end_ rc ∧
      sibling rc' = head0 (l1 ++ new :: l2)) as (rc' & Hrc' & E1 & E2 & E3 & E4).
    { destruct l1 as [|d l1]; cbn [slot_at].
      - eexists. split; [by apply link_sibling|]. done.
      - exists rc. split; [rewrite link_other; [done|done|]|].
        + destruct (slot_at_owner (SiblingOf d) l1) as [E|E]; simpl in E; set_solver.
        + repeat split. apply kids_head in Hk. done. }
    exists rc'. rewrite E1, E2, E3, E4. do 5 (split; [done || lia|]).
    apply IH; [set_solver|set_solver|done|lia|done|done| |done].
    intros d rd Hd. apply H1. set_solver.
Qed.

(** Linking keeps what every other list depends on. *)
Lemma link_sim h root new next l1 l2 lo hi q x :
  kids h root lo hi q (l1 ++ l2) → x ≠ new → x ∉ l1 ++ l2 →
  sim h (link h (slot_at (ChildOf root) l1) new root next) x.
Proof.
  intros H Hx Hl r Hr.
  destruct (slot_at_owner (ChildOf root) l1) as [E|E]; simpl in E; last first.
  { exists r. split; [|done]. rewrite link_other; [done|done|set_solver]. }
  destruct (decide (x = root)) as [->|Hroot].
  - destruct l1 as [|c l1]; cbn [slot_at] in *.
    + eexists. split; [by apply link_child|]. done.
    + exists r. split; [|done]. rewrite link_other; [done|done|].
      intros Ex. destruct (slot_at_owner (SiblingOf c) l1) as [E'|E']; simpl in E'; set_solver.
  - exists r. split; [|done]. rewrite link_other; [done|done|congruence].
Qed.

(** Only the record of [root] changes its [child], only when it comes first. *)
Lemma link_child_of h root new next l1 x r' :
  root ∉ l1 → x ≠ new → link h (slot_at (ChildOf root) l1) new root next !! x = Some r' →
  ∃ r, h !! x = Some r ∧ start r' = start r ∧ end_ r' = end_ r ∧ flags r' = flags r ∧
    parent r' = parent r ∧ (x ≠ root → child r' = child r).
Proof.
  intros Hroot Hx. unfold link. rewrite lookup_alter_ne by done.
  destruct (slot_at (ChildOf root) l1) as [a|a] eqn:E; cbn [alter_slot];
    rewrite lookup_alter; case_decide as Ea; subst; rewrite lookup_alter_ne by done;
    destruct (h !! _) as [r|]; simpl; intros [= <-]; exists r; repeat split; try done.
  intros Hxr. exfalso.
  destruct l1 as [|c l1]; cbn [slot_at] in E; [congruence|].
  assert (∀ l p b, slot_at (SiblingOf b) l ≠ ChildOf p) as Hs.
  { intros l. induction l; simpl; [done|]. intros. by apply IHl. }
  by apply Hs in E.
Qed.

(** [s..e] overlaps none of the resources [l]. *)
Definition apart (h : heap) (l : list Z) (s e : Z) : Prop :=
  ∀ c rc, c ∈ l → h !! c = Some rc → end_ rc < s ∨ e < start rc.

Lemma kids_not_self h a lo hi p l : acyclic h → a ≠ 0 → kids h a lo hi p l → a ∉ l.
Proof.
  intros [rk Hrk] Ha H Hin. destruct (kids_elem _ _ _ _ _ _ _ H Hin) as (r & Hr & Hp & _).
  specialize (Hrk a r Hr ltac:(congruence)). rewrite Hp in Hrk. lia.
Qed.

Lemma acyclic_link h root new l1 next n r :
  acyclic h → h !! root = Some r → h !! new = Some n → root ≠ new → root ∉ l1 → new ∉ l1 →
  leaf h new → acyclic (link h (slot_at (ChildOf root) l1) new root next).
Proof.
  intros [rk Hrk] Hr Hn Hne Hroot Hnl Hleaf.
  exists (λ x, if decide (x = new) then 0%nat else S (rk x)).
  intros c rc' Hc Hp. destruct (decide (c = new)) as [->|Hcn].
  - rewrite (link_new _ _ _ _ _ n) in Hc; [|done|].
    + injection Hc as <-. cbn [parent set_parent]. rewrite decide_False by done. lia.
    + destruct (slot_at_owner (ChildOf root) l1) as [E|E]; simpl in E; [congruence|set_solver].
  - apply link_child_of in Hc as (rc & Hrc & _ & _ & _ & E & _); [|done|done].
    rewrite E in *. rewrite decide_False by eauto. specialize (Hrk c rc Hrc Hp). lia.
Qed.

(** The list of children after linking [new] into it. *)
Lemma link_kids h root r new n l1 l2 :
  h !! root = Some r → h !! new = Some n → root ≠ new → new ≠ 0 →
  new ∉ l1 ++ l2 → root ∉ l1 ++ l2 →
  kids h root (start r) (end_ r) (child r) (l1 ++ l2) →
  start r <= start n → start n <= end_ n → end_ n <= end_ r →
  (∀ c rc, c ∈ l1 → h !! c = Some rc → end_ rc < start n) →
  (∀ c rc, c ∈ l2 → h !! c = Some rc → end_ n < start rc) →
  let h' := link h (slot_at (ChildOf root) l1) new root (head0 l2) in
  ∃ r', h' !! root = Some r' ∧ start r' = start r ∧ end_ r' = end_ r ∧
    kids h' root (start r) (end_ r) (child r') (l1 ++ new :: l2).
Proof.
  intros Hr Hn Hne Hnew0 Hnl Hrl Hk Hs1 Hs2 Hs3 Hl1 Hl2 h'.
  assert (kids h' root (start r) (end_ r) (head0 (l1 ++ new :: l2)) (l1 ++ new :: l2)) as HK
    by (by apply (kids_link h (ChildOf root) root new _ _ (child r) l1 l2 n)).
  destruct l1 as [|c l1]; cbn [slot_at app head0] in *.
  - eexists. split; [by apply link_child|]. done.
  - exists r. assert (child r = c) as -> by (by apply kids_head in Hk).
    split; [|done]. unfold h'. rewrite link_other; [done|done|].
    apply not_eq_sym, slot_at_not; cbn [slot_owner]; clear -Hrl; set_solver.
Qed.

Lemma wf_link h root r new n l1 l2 :
  wf h → h !! root = Some r → h !! new = Some n → parent n = 0 → root ≠ new → leaf h new →
  kids h root (start r) (end_ r) (child r) (l1 ++ l2) →
  start r <= start n → start n <= end_ n → end_ n <= end_ r →
  (∀ c rc, c ∈ l1 → h !! c = Some rc → end_ rc < start n) →
  (∀ c rc, c ∈ l2 → h !! c = Some rc → end_ n < start rc) →
  let h' := link h (slot_at (ChildOf root) l1) new root (head0 l2) in
  wf h' ∧ ∃ r', h' !! root = Some r' ∧ start r' = start r ∧ end_ r' = end_ r ∧
    kids h' root (start r) (end_ r) (child r') (l1 ++ new :: l2).
Proof.
  intros [W A] Hr Hn Hpn Hne Hleaf Hk Hs1 Hs2 Hs3 Hl1 Hl2 h'.
  destruct (W root r Hr) as [Hroot0 _]. destruct (W new n Hn) as [Hnew0 Hokn].
  assert (new ∉ l1 ++ l2) as Hnl by (by apply (kids_unlinked h root _ _ _ _ new n Hroot0 Hk)).
  assert (root ∉ l1 ++ l2) as Hrl by (by eapply kids_not_self).
  destruct (link_kids h root r new n l1 l2) as (r' & Hr' & E1 & E2 & HK); try done. fold h' in Hr', HK.
  assert (∀ a lo hi p l, a ≠ 0 → a ≠ root → kids h a lo hi p l → kids h' a lo hi p l) as Hoth.
  { intros a lo hi p l Ha0 Ha Hl. apply (kids_sim h); [|done]. intros c Hc.
    eapply link_sim; [done| |].
    - intros ->. by apply (kids_unlinked h a _ _ _ _ new n Ha0 Hl Hn Hpn).
    - intros Hc'. apply Ha. by eapply kids_disjoint. }
  split; [split|].
  - intros a ra Ha. destruct (decide (a = root)) as [->|Har]; [|destruct (decide (a = new)) as [->|Han]].
    + split; [done|]. exists (l1 ++ new :: l2). simplify_eq. by rewrite E1, E2.
    + split; [done|]. destruct Hokn as [ln Hkn]. exists ln.
      unfold h' in Ha. rewrite (link_new _ _ _ _ _ n) in Ha; [|done|].
      * injection Ha as <-. by apply Hoth.
      * apply slot_at_not; [done|]. clear -Hnl. set_solver.
    + apply link_child_of in Ha as (r0 & Hr0 & F1 & F2 & _ & _ & F4); [|clear -Hrl; set_solver|done].
      destruct (W a r0 Hr0) as [Ha0 [la Hla]]. split; [done|]. exists la.
      rewrite F1, F2, F4 by done. by apply Hoth.
  - eapply acyclic_link; try done; clear -Hrl Hnl; set_solver.
  - by exists r'.
Qed.

(** The whole of [__request_resource]: it links the new resource between its
    neighbours exactly when its range lies inside [root] and overlaps no child;
    otherwise it changes nothing and returns [root] (the range is not a range
    inside it) or a child that is in the way. *)
Lemma request_core h root r new n l :
  h !! root = Some r → h !! new = Some n → root ≠ 0 → root ≠ new → new ≠ 0 →
  new ∉ l → root ∉ l → kids h root (start r) (end_ r) (child r) l →
  (∃ c, c ≠ 0 ∧ __request_resource h root new = Ok (h, c) ∧
     ((c = root ∧ (end_ n < start n ∨ start n < start r ∨ end_ r < end_ n)) ∨
      (∃ rc, c ∈ l ∧ h !! c = Some rc ∧ start rc <= end_ n ∧ start n <= end_ rc))) ∨
  (∃ l1 l2, l = l1 ++ l2 ∧
     start r <= start n ∧ start n <= end_ n ∧ end_ n <= end_ r ∧
     (∀ c rc, c ∈ l1 → h !! c = Some rc → end_ rc < start n) ∧
     (∀ c rc, c ∈ l2 → h !! c = Some rc → end_ n < start rc) ∧
     let h' := link h (slot_at (ChildOf root) l1) new root (head0 l2) in
     __request_resource h root new = Ok (h', 0) ∧
     ∃ r', h' !! root = Some r' ∧ start r' = start r ∧ end_ r' = end_ r ∧
       kids h' root (start r) (end_ r) (child r') (l1 ++ new :: l2)).
Proof.
  intros Hr Hn Hroot0 Hne Hnew0 Hnl Hrl Hk. unfold __request_resource.
  rewrite (rget_ok _ _ _ Hn), (rget_ok _ _ _ Hr). cbn [mbind outcome_bind].
  destruct (Z.ltb_spec (end_ n) (start n)); [left; exists root; eauto 10|].
  destruct (Z.ltb_spec (start n) (start r)); [left; exists root; eauto 10|].
  destruct (Z.ltb_spec (end_ r) (end_ n)); [left; exists root; eauto 10|].
  destruct (request_loop_spec (hfuel h) h (ChildOf root) root new (start n) (end_ n)
    (start r) (end_ r) (child r) l) as [(c & rc & Hc & Hrc & ? & ? & Hq)|(l1 & l2 & -> & Hl1 & Hl2 & Hq)];
    [done|cbn; by rewrite (rget_ok _ _ _ Hr)|by eexists|by eapply kids_length| |].
  - left. exists c. destruct (kids_elem _ _ _ _ _ _ _ Hk Hc) as (? & ? & ? & ? & ?).
    split; [done|]. split; [done|]. right. eauto 10.
  - right. exists l1, l2. split; [done|]. do 5 (split; [done|]).
    split; [done|]. by eapply link_kids.
Qed.

Lemma between_apart h l1 l2 s e :
  (∀ c rc, c ∈ l1 → h !! c = Some rc → end_ rc < s) →
  (∀ c rc, c ∈ l2 → h !! c = Some rc → e < start rc) → apart h (l1 ++ l2) s e.
Proof. intros H1 H2 c rc Hc Hrc. apply elem_of_app in Hc as [Hc|Hc]; eauto. Qed.

(** The same on a well-formed tree, which stays well-formed. *)
Lemma request_spec h root r new n l :
  wf h → h !! root = Some r → h !! new = Some n → parent n = 0 → root ≠ new → leaf h new →
  kids h root (start r) (end_ r) (child r) l →
  (∃ c, c ≠ 0 ∧ __request_resource h root new = Ok (h, c) ∧
     ((c = root ∧ (end_ n < start n ∨ start n < start r ∨ end_ r < end_ n)) ∨
      (∃ rc, c ∈ l ∧ h !! c = Some rc ∧ start rc <= end_ n ∧ start n <= end_ rc))) ∨
  (∃ l1 l2, l = l1 ++ l2 ∧
     start r <= start n ∧ start n <= end_ n ∧ end_ n <= end_ r ∧ apart h l (start n) (end_ n) ∧
     let h' := link h (slot_at (ChildOf root) l1) new root (head0 l2) in
     __request_resource h root new = Ok (h', 0) ∧
     wf h' ∧ ∃ r', h' !! root = Some r' ∧ start r' = start r ∧ end_ r' = end_ r ∧
       kids h' root (start r) (end_ r) (child r') (l1 ++ new :: l2)).
Proof.
  intros W Hr Hn Hpn Hne Hleaf Hk. destruct (proj1 W root r Hr) as [Hroot0 _].
  destruct (proj1 W new n Hn) as [Hnew0 _].
  destruct (request_core h root r new n l) as
    [Hc|(l1 & l2 & -> & ? & ? & ? & Hl1 & Hl2 & Hq & _)]; try done.
  - by apply (kids_unlinked h root _ _ _ _ new n Hroot0 Hk).
  - by eapply kids_not_self; [apply W| |].
  - by left.
  - right. exists l1, l2. split; [done|]. do 3 (split; [done|]).
    split; [by apply between_apart|]. split; [done|]. by eapply wf_link.
Qed.

(** ** Unlinking *)

Definition unlink (h : heap) (p : slot) (old next : Z) : heap :=
  alter (set_parent 0) old (alter_slot p next h).

Lemma release_loop_spec fuel h p a old ro lo hi q l1 l2 :
  kids h a lo hi q (l1 ++ old :: l2) → slot_get h p = Ok q → h !! old = Some ro →
  old ∉ l1 → slot_owner p ≠ old → (length l1 < fuel)%nat →
  release_loop fuel h p old = Ok (unlink h (slot_at p l1) old (sibling ro), 0).
Proof.
  intros H Hp Ho Hl1 Hpo Hf. revert fuel p lo q H Hp Hl1 Hpo Hf.
  induction l1 as [|c l1 IH]; intros [|fuel] p lo q H Hp Hl1 Hpo Hf; simpl in Hf; try lia;
    cbn [release_loop]; rewrite Hp; cbn [mbind outcome_bind app kids] in *.
  - destruct H as (-> & H0 & _). destruct (Z.eqb_spec old 0); [done|].
    rewrite Z.eqb_refl, (rget_ok _ _ _ Ho). cbn [mbind outcome_bind].
    rewrite slot_set_alter by (by eapply slot_get_owner). cbn [mbind outcome_bind].
    by rewrite rupd_alter by (rewrite alter_slot_is_Some; eauto).
  - destruct H as (-> & H0 & rc & Hrc & Hpa & H1 & H2 & H3 & H4).
    destruct (Z.eqb_spec c 0); [done|].
    destruct (Z.eqb_spec c old) as [->|Hco]; [set_solver|].
    eapply IH; [done|cbn; by rewrite (rget_ok _ _ _ Hrc)|set_solver|done|lia].
Qed.

Lemma slot_get_at h a lo hi p q l1 l2 :
  kids h a lo hi q (l1 ++ l2) → slot_get h p = Ok q → slot_get h (slot_at p l1) = Ok (head0 l2).
Proof.
  revert p lo q. induction l1 as [|c l1 IH]; intros p lo q H Hp; cbn [app slot_at kids] in *.
  - by rewrite <- (kids_head _ _ _ _ _ _ H).
  - destruct H as (-> & H0 & rc & Hrc & Hpa & H1 & H2 & H3 & H4).
    eapply IH; [done|]. cbn. by rewrite (rget_ok _ _ _ Hrc).
Qed.

(** Putting back what a slot held undoes a write to it. *)
Lemma alter_slot_back h p v w :
  slot_get h p = Ok v → alter_slot p v (alter_slot p w h) = h.
Proof.
  intros Hg. destruct p as [a|a]; simpl in *; unfold rget in Hg;
    destruct (h !! a) as [r|] eqn:Hr; try done; injection Hg as <-;
    apply map_eq; intros x; (destruct (decide (a = x)) as [<-|];
    [rewrite !lookup_alter_eq, Hr; by destruct r | by rewrite !lookup_alter_ne]).
Qed.

Lemma alter_slot_ne h p v x : slot_owner p ≠ x → alter_slot p v h !! x = h !! x.
Proof. intros. destruct p; simpl in *; by rewrite lookup_alter_ne by done. Qed.

Lemma alter_ne_eq (h : heap) f new : ∀ x, x ≠ new → alter f new h !! x = h !! x.
Proof. intros x Hx. by rewrite lookup_alter_ne. Qed.

Lemma alter_slot_cong h h' p v new :
  slot_owner p ≠ new → (∀ x, x ≠ new → h !! x = h' !! x) →
  ∀ x, x ≠ new → alter_slot p v h !! x = alter_slot p v h' !! x.
Proof.
  intros Hp H x Hx. destruct p as [a|a]; simpl in *; rewrite !lookup_alter;
    case_decide; subst; by rewrite H.
Qed.

(** Linking and unlinking at the same place changes only the resource moved. *)
Lemma unlink_link h p new root next v :
  slot_get h p = Ok next → slot_owner p ≠ new →
  ∀ x, x ≠ new → unlink (link h p new root v) p new next !! x = h !! x.
Proof.
  intros Hg Hp x Hx. unfold unlink, link. rewrite alter_ne_eq by done.
  rewrite (alter_slot_cong _ (alter_slot p new h) p next new Hp); [|clear x Hx; intros x Hx|done].
  - by rewrite alter_slot_back.
  - rewrite alter_ne_eq by done. apply alter_slot_cong with new; [done| |done].
    intros y Hy. by apply alter_ne_eq.
Qed.

(** [release_resource] of a child just linked. *)
Lemma release_link h root r new n l1 l2 r' lo hi :
  root ≠ new → h !! root = Some r → h !! new = Some n → new ∉ l1 → root ∉ l1 →
  kids h root lo hi (child r) (l1 ++ l2) →
  let h' := link h (slot_at (ChildOf root) l1) new root (head0 l2) in
  h' !! root = Some r' → kids h' root lo hi (child r') (l1 ++ new :: l2) →
  ∃ h'', __release_resource h' new = Ok (h'', 0) ∧ (∀ x, x ≠ new → h'' !! x = h !! x) ∧
    ∃ n'', h'' !! new = Some n'' ∧ parent n'' = 0 ∧ start n'' = start n ∧ end_ n'' = end_ n.
Proof.
  intros Hne Hr Hn Hnl Hrl Hk h' Hr' Hk'.
  assert (slot_owner (slot_at (ChildOf root) l1) ≠ new) as Hso by (by apply slot_at_not).
  pose proof (link_new h _ new root (head0 l2) n Hn Hso) as Hn'. fold h' in Hn'.
  unfold __release_resource. rewrite (rget_ok _ _ _ Hn').
  cbn [mbind outcome_bind parent set_parent].
  erewrite (release_loop_spec _ h' (ChildOf root) root new _ _ _ _ l1 l2); first last.
  - apply kids_length in Hk'. rewrite length_app in Hk'. simpl in Hk'. lia.
  - done.
  - done.
  - exact Hn'.
  - cbn. by rewrite (rget_ok _ _ _ Hr').
  - exact Hk'.
  - cbn [sibling set_parent set_sibling]. eexists. split; [done|]. split.
    + apply unlink_link; [|done].
      eapply slot_get_at; [done|]. cbn. by rewrite (rget_ok _ _ _ Hr).
    + eexists. split; [|split; [|split]].
      * unfold unlink. rewrite lookup_alter_eq, alter_slot_ne by done. by rewrite Hn'.
      * done.
      * done.
      * done.
Qed.

(** ** Regions *)

Lemma wf_insert_fresh h res R :
  wf h → h !! res = None → res ≠ 0 → leaf h res → child R = 0 → parent R = 0 →
  wf (<[res := R]> h).
Proof.
  intros [W [rk Hrk]] Hres Hres0 Hleaf Hc Hp. split.
  - intros a r Ha. apply lookup_insert_Some in Ha as [[<- <-]|[Hne Ha]].
    + split; [done|]. by exists [].
    + destruct (W a r Ha) as [Ha0 [l Hl]]. split; [done|]. exists l.
      apply (kids_frame h); [|done]. intros c Hcl. apply lookup_insert_ne. intros <-.
      destruct (kids_elem _ _ _ _ _ _ _ Hl Hcl) as (? & ? & _). congruence.
  - exists rk. intros c rc Hrc Hpc. apply lookup_insert_Some in Hrc as [[<- <-]|[Hne Hrc]]; [done|].
    by apply Hrk.
Qed.

(** An unlinked record without children may be overwritten by another one. *)
Lemma wf_replace h new n R :
  wf h → h !! new = Some n → parent n = 0 → parent R = 0 → child R = 0 → wf (<[new := R]> h).
Proof.
  intros [W [rk Hrk]] Hn Hpn HpR HcR. split.
  - intros a r Ha. apply lookup_insert_Some in Ha as [[<- <-]|[Hne Ha]].
    + split; [by apply (W _ _ Hn)|]. by exists [].
    + destruct (W a r Ha) as [Ha0 [l Hl]]. split; [done|]. exists l.
      apply (kids_frame h); [|done]. intros c Hcl. apply lookup_insert_ne. intros <-.
      destruct (kids_elem _ _ _ _ _ _ _ Hl Hcl) as (? & ? & ? & _). congruence.
  - exists rk. intros c rc Hrc Hpc. apply lookup_insert_Some in Hrc as [[<- <-]|[Hne Hrc]]; [done|].
    by apply Hrk.
Qed.

Lemma region_loop_spec fuel h a res n (V : gset Z) rk :
  wf h → (∀ c rc, h !! c = Some rc → parent rc ≠ 0 → (rk c < rk (parent rc))%nat) →
  is_Some (h !! a) → h !! res = Some n → parent n = 0 → leaf h res → a ≠ res →
  V ⊆ dom h → a ∉ V → (∀ v, v ∈ V → (rk a < rk v)%nat) →
  (size h < fuel + size V)%nat →
  region_loop fuel h a res = Ok (delete res h, 0) ∨
  (∃ h' p n', region_loop fuel h a res = Ok (h', res) ∧ wf h' ∧
     h' !! res = Some n' ∧ parent n' = p ∧ is_Some (h' !! p) ∧
     start n' = start n ∧ end_ n' = end_ n ∧ flags n' = flags n).
Proof.
  intros W Hrk Ha Hn Hpn Hleaf. revert a V Ha.
  induction fuel as [|fuel IH]; intros a V Ha Hne HV HaV HVr Hf.
  { exfalso. apply subseteq_size in HV as HV'. rewrite size_dom in HV'. lia. }
  destruct Ha as [r Hr]. destruct (proj1 W a r Hr) as [Ha0 [l Hk]].
  cbn [region_loop].
  destruct (request_spec h a r res n l) as
    [(c & Hc0 & -> & Hc)|(l1 & l2 & -> & Hs1 & Hs2 & Hs3 & Hap & -> & Wh' & r' & Hr' & _ & _ & _)];
    try done; cbn [mbind outcome_bind].
  - destruct (Z.eqb_spec c 0); [done|].
    destruct Hc as [[-> _]|(rc & Hc & Hrc & _)]; [rewrite Z.eqb_refl; by left|].
    destruct (kids_elem _ _ _ _ _ _ _ Hk Hc) as (rc' & ? & Hpc & _). simplify_eq.
    assert (rk c < rk (parent rc))%nat as Hlt by (apply Hrk; done).
    destruct (Z.eqb_spec c (parent rc)) as [E|Hca]; [rewrite <- E in Hlt; lia|]. cbn [negb].
    rewrite (rget_ok _ _ _ Hrc). cbn [mbind outcome_bind].
    destruct (Z.land (flags rc) IORESOURCE_BUSY =? 0); [|by left].
    apply (IH c ({[parent rc]} ∪ V)).
    + eauto.
    + intros ->. simplify_eq.
    + apply union_subseteq. split; [|done]. apply singleton_subseteq_l, elem_of_dom. eauto.
    + intros Hin. apply elem_of_union in Hin as [Hin%elem_of_singleton|Hin]; [done|].
      specialize (HVr c Hin). lia.
    + intros v Hv. apply elem_of_union in Hv as [->%elem_of_singleton|Hv]; [done|].
      specialize (HVr v Hv). lia.
    + rewrite size_union by (apply disjoint_singleton_l; done). rewrite size_singleton. lia.
  - right. set (h' := link _ _ _ _ _) in *. exists h', a.
    assert (slot_owner (slot_at (ChildOf a) l1) ≠ res) as Hso.
    { apply slot_at_not; [done|]. pose proof (kids_unlinked h a _ _ _ _ res n Ha0 Hk Hn Hpn) as Hx.
      clear -Hx. set_solver. }
    eexists. cbn [Z.eqb]. split; [done|]. split; [done|].
    split; [by apply link_new|]. cbn. eauto 10.
Qed.

Lemma request_region_spec h root s n nm res :
  wf h → is_Some (h !! root) → h !! res = None → res ≠ 0 → leaf h res →
  __request_region h root s n nm res = Ok (h, 0) ∨
  (∃ h' p r, __request_region h root s n nm res = Ok (h', res) ∧ wf h' ∧
     h' !! res = Some r ∧ parent r = p ∧ is_Some (h' !! p) ∧
     start r = s ∧ end_ r = u32 (s + n - 1) ∧ flags r = IORESOURCE_BUSY).
Proof.
  intros W Hroot Hres Hres0 Hleaf. unfold __request_region.
  destruct (Z.eqb_spec res 0); [done|].
  set (R := Resource nm s (u32 (s + n - 1)) IORESOURCE_BUSY 0 0 0).
  assert (wf (<[res := R]> h)) as W' by (by apply wf_insert_fresh).
  assert (root ≠ res) as Hne by (intros ->; rewrite Hres in Hroot; by destruct Hroot).
  destruct (proj2 W') as [rk Hrk].
  destruct (region_loop_spec (hfuel (<[res := R]> h)) (<[res := R]> h) root res R ∅ rk) as
    [->|(h' & p & n' & -> & Wh' & Hn' & Hp & Hps & Hs & He & Hfl)]; try done.
  - by rewrite lookup_insert_ne.
  - apply lookup_insert_eq.
  - intros c rc Hc. apply lookup_insert_Some in Hc as [[_ <-]|[_ Hc]]; [done|eauto].
  - unfold hfuel. rewrite size_empty. lia.
  - left. by rewrite delete_insert_id by done.
  - right. exists h', p, n'. done.
Qed.

(** ** Allocation *)

(** Without a callback, a range proposed by [find_resource] is aligned, has the
    requested size and respects [min] and [max], when rounding up does not
    overflow. *)
Lemma find_loop_spec fuel h root r this new sz mn mx k lo l :
  h !! root = Some r → kids h root lo (end_ r) this l → (length l < fuel)%nat →
  0 <= k → 0 <= mn → mn + 2 ^ k <= 2 ^ 32 → end_ r + 1 + 2 ^ k <= 2 ^ 32 →
  0 <= start r → 0 <= lo → 0 <= start new → start new <= end_ r + 1 →
  1 <= sz < 2 ^ 32 → 0 <= mx < 2 ^ 32 →
  ∃ new' err, find_loop fuel h root this new sz mn mx (2 ^ k) None = Ok (new', err) ∧
    child new' = child new ∧ parent new' = parent new ∧
    (err = - EBUSY ∨
     (err = 0 ∧ mn <= start new' ∧ (2 ^ k | start new') ∧
      end_ new' = start new' + sz - 1 ∧ end_ new' <= mx)).
Proof.
  intros Hr. revert fuel this new lo. induction l as [|c l IH];
    intros [|fuel] this new lo Hk Hf Hk0 Hmn Hmnk Hend Hr0 Hlo Hs0 Hs1 Hsz Hmx;
    simpl in Hf; try lia; cbn [find_loop kids] in *.
  all: set (s1 := if start new <? mn then mn else start new).
  all: assert (0 <= s1 ∧ mn <= s1 ∧ s1 + 2 ^ k <= 2 ^ 32) as (Hs1a & Hs1b & Hs1c)
    by (unfold s1; destruct (Z.ltb_spec (start new) mn); lia).
  all: pose proof (align_up s1 k Hk0 Hs1a Hs1c) as [Hal Hdiv].
  - subst this. change (c_true 0) with false. cbv iota. rewrite (rget_ok _ _ _ Hr).
    cbn [mbind outcome_bind]. unfold find_gap. fold s1. cbn [start end_ set_range child parent].
    set (y := Z.land _ _) in *. set (e := if mx <? end_ r then mx else end_ r).
    assert (e <= mx) by (unfold e; destruct (Z.ltb_spec mx (end_ r)); lia).
    destruct (Z.ltb_spec y e); cbn [andb]; [|eexists _, _; repeat split; by left].
    rewrite (wrap_small 32 (e - y + 1)) by (unfold e in *; destruct (Z.ltb_spec mx (end_ r)); lia).
    destruct (Z.leb_spec sz (e - y + 1)); [|eexists _, _; repeat split; by left].
    rewrite wrap_small by lia. eexists _, _. repeat split. right.
    cbn [start end_ set_range]. repeat split; try done; lia.
  - destruct Hk as (-> & Hc0 & rc & Hrc & Hpa & H1 & H2 & H3 & H4).
    assert (c_true c = true) as -> by (by apply c_true_spec).
    rewrite (rget_ok _ _ _ Hrc). cbn [mbind outcome_bind]. unfold find_gap. fold s1.
    cbn [start end_ set_range child parent negb].
    set (y := Z.land _ _) in *. set (e := if mx <? start rc then mx else start rc).
    assert (e <= mx) by (unfold e; destruct (Z.ltb_spec mx (start rc)); lia).
    assert (∀ nw, child nw = child new → parent nw = parent new → ∃ new' err,
      find_loop fuel h root (sibling rc) (set_range (u32 (end_ rc + 1)) e nw) sz mn mx (2 ^ k) None
        = Ok (new', err) ∧ child new' = child new ∧ parent new' = parent new ∧
      (err = - EBUSY ∨ (err = 0 ∧ mn <= start new' ∧ (2 ^ k | start new') ∧
        end_ new' = start new' + sz - 1 ∧ end_ new' <= mx))) as Hrec.
    { intros nw <- <-. rewrite wrap_small by lia.
      destruct (IH fuel (sibling rc) (set_range (end_ rc + 1) e nw) (end_ rc + 1)) as
        (new' & err & ? & ? & ? & ?); cbn [start set_range] in *; try done; try lia.
      eauto 10. }
    destruct (Z.ltb_spec y e); cbn [andb]; [|by apply Hrec].
    rewrite (wrap_small 32 (e - y + 1)) by (unfold e in *; destruct (Z.ltb_spec mx (start rc)); lia).
    destruct (Z.leb_spec sz (e - y + 1)); [|by apply Hrec].
    rewrite wrap_small by lia. eexists _, _. repeat split. right.
    cbn [start end_ set_range]. repeat split; try done; lia.
Qed.

(** ** Properties *)

(** C6: On a well-formed resource tree [request_resource] of an unlinked [new]
    either refuses with [-EBUSY], leaving the store untouched, and then the range
    is empty, not inside [root], or overlaps one of its children; or it returns 0,
    and then the range is inside [root], overlaps none of the children, [new] is
    linked among them in order, and the tree is well-formed again. *)
Theorem request_resource_correct h root r new n l :
  wf h → h !! root = Some r → h !! new = Some n → parent n = 0 → root ≠ new → leaf h new →
  kids h root (start r) (end_ r) (child r) l →
  (request_resource h root new = Ok (h, - EBUSY) ∧
   (end_ n < start n ∨ start n < start r ∨ end_ r < end_ n ∨
    ∃ c rc, c ∈ l ∧ h !! c = Some rc ∧ start rc <= end_ n ∧ start n <= end_ rc)) ∨
  (∃ h' r' l1 l2, request_resource h root new = Ok (h', 0) ∧ wf h' ∧
     start r <= start n ∧ start n <= end_ n ∧ end_ n <= end_ r ∧
     apart h l (start n) (end_ n) ∧
     l = l1 ++ l2 ∧ h' !! root = Some r' ∧
     kids h' root (start r) (end_ r) (child r') (l1 ++ new :: l2)).
Proof.
  intros W Hr Hn Hp Hne Hlf Hk. unfold request_resource.
  destruct (request_spec h root r new n l W Hr Hn Hp Hne Hlf Hk) as
    [(c & Hc & -> & Hwhy)|(l1 & l2 & -> & ? & ? & ? & ? & -> & W' & r' & ? & ? & ? & ?)];
    cbn [mbind outcome_bind].
  - left. rewrite (proj2 (c_true_spec c) Hc). split; [done|].
    destruct Hwhy as [[-> Hw]|(rc & ? & ? & ? & ?)]; [tauto|]. eauto 10.
  - right. eexists _, r', l1, l2. change (c_true 0) with false. eauto 15.
Qed.

(** A [release_resource] after a successful [request_resource] succeeds and
    undoes it: every other record of the store is what it was before, and [new]
    keeps its range and has no parent. *)
Theorem request_release_roundtrip h root r new n l h1 :
  wf h → h !! root = Some r → h !! new = Some n → parent n = 0 → root ≠ new → leaf h new →
  kids h root (start r) (end_ r) (child r) l →
  request_resource h root new = Ok (h1, 0) →
  ∃ h2 n2, release_resource h1 new = Ok (h2, 0) ∧ (∀ x, x ≠ new → h2 !! x = h !! x) ∧
    h2 !! new = Some n2 ∧ parent n2 = 0 ∧ start n2 = start n ∧ end_ n2 = end_ n.
Proof.
  intros W Hr Hn Hp Hne Hlf Hk. unfold request_resource, release_resource.
  destruct (request_spec h root r new n l W Hr Hn Hp Hne Hlf Hk) as
    [(c & Hc & -> & _)|(l1 & l2 & -> & ? & ? & ? & ? & -> & W' & r' & ? & ? & ? & Hk')];
    cbn [mbind outcome_bind].
  - rewrite (proj2 (c_true_spec c) Hc). done.
  - intros [= <-]. destruct (proj1 W root r Hr) as [Hroot0 _].
    pose proof (kids_not_self _ _ _ _ _ _ (proj2 W) Hroot0 Hk) as Hroot.
    pose proof (kids_unlinked _ _ _ _ _ _ new n Hroot0 Hk Hn Hp) as Hnew.
    destruct (release_link h root r new n l1 l2 r' (start r) (end_ r)) as
      (h2 & ? & ? & n2 & ?); [set_solver..|]. naive_solver.
Qed.

(** [check_resource] is exact and pure: it returns 0 precisely when the range
    is non-empty, inside [root] and overlaps no child, [-EBUSY] otherwise, and the
    store is unchanged in both cases. *)
Theorem check_resource_exact h root r s len tmp garbage l :
  wf h → h !! root = Some r → kids h root (start r) (end_ r) (child r) l →
  tmp ≠ 0 → h !! tmp = None →
  let e := u32 (s + len - 1) in
  (check_resource h root s len tmp garbage = Ok (h, 0) ∧
     start r <= s ∧ s <= e ∧ e <= end_ r ∧ apart h l s e) ∨
  (check_resource h root s len tmp garbage = Ok (h, - EBUSY) ∧
     (e < s ∨ s < start r ∨ end_ r < e ∨ ¬ apart h l s e)).
Proof.
  intros W Hr Hk Ht0 Ht e. unfold check_resource. fold e.
  set (g := set_range s e garbage). set (h0 := <[tmp := g]> h).
  assert (root ≠ tmp) as Hne by congruence.
  assert (h0 !! root = Some r) as Hr0 by (unfold h0; by rewrite lookup_insert_ne).
  assert (h0 !! tmp = Some g) as Hg by (unfold h0; by rewrite lookup_insert_eq).
  assert (∀ c, c ≠ tmp → h0 !! c = h !! c) as Hsame by (intros; unfold h0; by rewrite lookup_insert_ne).
  assert (∀ c, c ∈ l → c ≠ tmp) as Hl.
  { intros c Hc ->. destruct (kids_elem _ _ _ _ _ _ _ Hk Hc) as (? & ? & _). congruence. }
  assert (kids h0 root (start r) (end_ r) (child r) l) as Hk0.
  { apply (kids_frame h); [|done]. intros c Hc. by apply Hsame, Hl. }
  destruct (proj1 W root r Hr) as [Hroot0 _].
  pose proof (kids_not_self _ _ _ _ _ _ (proj2 W) Hroot0 Hk) as Hroot.
  assert (tmp ∉ l) as Htl by naive_solver.
  destruct (request_core h0 root r tmp g l Hr0 Hg Hroot0 Hne Ht0 Htl Hroot Hk0) as
    [(c & Hc & -> & Hwhy)|(l1 & l2 & -> & ? & ? & ? & H1 & H2 & -> & r' & Hr' & ? & ? & Hk')];
    cbn [mbind outcome_bind].
  - right. rewrite (proj2 (c_true_spec c) Hc). cbn [mbind outcome_bind].
    unfold h0. rewrite delete_insert_id by done. split; [done|]. simpl in Hwhy.
    destruct Hwhy as [[_ Hw]|(rc & Hin & Hrc & ? & ?)]; [tauto|].
    do 3 right. intros Hap. rewrite Hsame in Hrc by auto. destruct (Hap c rc Hin Hrc); lia.
  - left. change (c_true 0) with false. cbv iota.
    destruct (release_link h0 root r tmp g l1 l2 r' (start r) (end_ r)) as
      (h2 & -> & Hh2 & _); [done|done|done|set_solver|set_solver|done|done|done|].
    cbn [mbind outcome_bind]. split; [|repeat split; try done].
    + f_equal. f_equal. apply map_eq. intros x. destruct (decide (x = tmp)) as [->|Hx].
      * by rewrite lookup_delete_eq.
      * rewrite lookup_delete_ne by done. rewrite Hh2 by done. by apply Hsame.
    + intros c rc Hin Hrc. apply (between_apart h0 l1 l2 s e H1 H2 c rc Hin). rewrite Hsame; auto.
Qed.



(** ** A concrete tree *)

(** I/O ports 0..0xffff with two children (0x20..0x3f busy, 0x60..0x6f) and an
    unlinked record at address 4. *)
Definition demo_new : resource := Resource None 0x40 0x5f 0 0 0 0.
Definition demo_root : resource :=
  Resource (Some [80; 67; 73; 32; 73; 79]) 0 IO_SPACE_LIMIT IORESOURCE_IO 0 0 2.
Definition demo : heap :=
  list_to_map [(1, demo_root);
               (2, Resource None 0x20 0x3f IORESOURCE_BUSY 1 3 0);
               (3, Resource None 0x60 0x6f 0 1 0 0);
               (4, demo_new)].

Lemma demo_cases c rc : demo !! c = Some rc →
  (c, rc) ∈ [(1, demo_root); (2, Resource None 0x20 0x3f IORESOURCE_BUSY 1 3 0);
             (3, Resource None 0x60 0x6f 0 1 0 0); (4, demo_new)].
Proof. apply elem_of_list_to_map_2. Qed.

Ltac demo_split H := apply demo_cases in H; rewrite !elem_of_cons, elem_of_nil in H;
  destruct H as [[= -> ->]|[[= -> ->]|[[= -> ->]|[[= -> ->]|[]]]]].

Lemma demo_kids : kids demo 1 0 IO_SPACE_LIMIT 2 [2; 3].
Proof.
  split; [done|]. split; [done|]. eexists. split; [reflexivity|]. do 4 (split; [done|]).
  split; [done|]. split; [done|]. eexists. split; [reflexivity|]. done.
Qed.

Lemma demo_wf : wf demo.
Proof.
  split.
  - intros c rc H. demo_split H; split; try done; [by exists [2; 3]; apply demo_kids|by exists []..].
  - exists (λ c, if c =? 1 then 1%nat else 0%nat). intros c rc H Hp.
    demo_split H; cbn in *; try done; lia.
Qed.

Lemma demo_leaf a : a ≠ 0 → a ≠ 1 → leaf demo a.
Proof. intros H0 H1 c rc H. demo_split H; cbn; congruence. Qed.

Lemma request_resource_correct_witness :
  ∃ h', request_resource demo 1 4 = Ok (h', 0) ∧ wf h'.
Proof.
  destruct (request_resource_correct demo 1 demo_root 4 demo_new [2; 3] demo_wf eq_refl eq_refl
    eq_refl ltac:(done) (demo_leaf 4 ltac:(done) ltac:(done)) demo_kids) as
    [[H _]|(h' & _ & _ & _ & H & W & _)].
  - vm_compute in H. discriminate H.
  - by exists h'.
Defined.

Lemma request_release_roundtrip_witness :
  ∃ h1 h2, request_resource demo 1 4 = Ok (h1, 0) ∧ release_resource h1 4 = Ok (h2, 0) ∧
    ∀ x, x ≠ 4 → h2 !! x = demo !! x.
Proof.
  destruct (request_resource demo 1 4) as [[h1 e]|] eqn:E; [|vm_compute in E; discriminate E].
  assert (e = 0) as -> by (vm_compute in E; congruence).
  destruct (request_release_roundtrip demo 1 demo_root 4 demo_new [2; 3] h1 demo_wf eq_refl eq_refl
    eq_refl ltac:(done) (demo_leaf 4 ltac:(done) ltac:(done)) demo_kids E) as (h2 & _ & H & Hx & _).
  by exists h1, h2.
Defined.

Lemma check_resource_exact_witness :
  check_resource demo 1 0x40 0x20 9 demo_root = Ok (demo, 0) ∧
  check_resource demo 1 0x40 0x21 9 demo_root = Ok (demo, - EBUSY).
Proof.
  split.
  - destruct (check_resource_exact demo 1 demo_root 0x40 0x20 9 demo_root [2; 3] demo_wf eq_refl
      demo_kids ltac:(done) eq_refl) as [[H _]|[H _]]; [done|vm_compute in H; discriminate H].
  - destruct (check_resource_exact demo 1 demo_root 0x40 0x21 9 demo_root [2; 3] demo_wf eq_refl
      demo_kids ltac:(done) eq_refl) as [[H _]|[H _]]; [vm_compute in H; discriminate H|done].
Defined.



(** A request whose size equals a gap plus the first unit of the next child is
    proposed for that gap and refused, although there is room further on: the gap
    in front of a child is taken to include the child's first unit. *)
Example allocate_touches_child :
  (∃ h', allocate_resource demo 1 4 0x21 0x40 0xffff 1 None = Ok (h', - EBUSY)) ∧
  check_resource demo 1 0x70 0x21 9 demo_root = Ok (demo, 0).
Proof.
  split; [eexists; vm_compute; reflexivity|].
  destruct (check_resource demo 1 0x70 0x21 9 demo_root) as [[h e]|] eqn:E;
    vm_compute in E; [|done]. by injection E as <- <-.
Qed.
