(* ===== verification/Bootmem.v ===== *)
(** * Bootmem: the boot-time allocator ([mmnommu/bootmem.c])

    The allocation bitmap of a node is the list of its bits, the one of page 0
    first; [node_bootmem_map] is its address, and a bit outside the map faults.
    [unsigned long] is 32 bits wide and pages have 4 KB ([asm/page.h]);
    [phys_to_virt] is the identity ([asm/virtconvert.h]).  The [memset] of a new
    allocation and the [__free_page] calls are returned as the range cleared and
    the list of pages freed; a [printk] leaves no trace.

    The scan loops run at most once per page of the node, the walk over the
    nodes at most once per node. *)

From S2P Require Import Prelude.

Definition PAGE_SHIFT : Z := 12.
Definition PAGE_SIZE : Z := Z.shiftl 1 PAGE_SHIFT.
Definition PAGE_MASK : Z := u32 (Z.lnot (PAGE_SIZE - 1)).
Definition sizeof_long : Z := 4.

Definition phys_to_virt (address : Z) : Z := address.

Record bootmem_data := BootmemData {
  node_boot_start : Z;
  node_low_pfn : Z;
  node_bootmem_map : Z;
  map_bits : list bool;
  last_offset : Z;
  last_pos : Z
}.

Definition set_bits (v : list bool) (b : bootmem_data) : bootmem_data :=
  BootmemData (node_boot_start b) (node_low_pfn b) (node_bootmem_map b) v
    (last_offset b) (last_pos b).
Definition set_last (pos off : Z) (b : bootmem_data) : bootmem_data :=
  BootmemData (node_boot_start b) (node_low_pfn b) (node_bootmem_map b) (map_bits b) off pos.

Definition test_bit (i : Z) (bits : list bool) : outcome bool :=
  match bits !! Z.to_nat i with Some v => Ok v | None => Trap Fault end.

(** [test_and_set_bit] and [test_and_clear_bit]: the old bit and the new map *)
Definition test_and_put_bit (v : bool) (i : Z) (bits : list bool) : outcome (bool * list bool) :=
  match bits !! Z.to_nat i with
  | Some o => Ok (o, <[Z.to_nat i := v]> bits)
  | None => Trap Fault
  end.

(** ** Size of the bitmap *)

Definition bootmem_bootmap_pages (pages : Z) : Z :=
  let mapsize := u32 (pages + 7) / 8 in
  let mapsize := Z.land (u32 (mapsize + u32 (Z.lnot PAGE_MASK))) PAGE_MASK in
  Z.shiftr mapsize PAGE_SHIFT.

(** ** One node *)

(** The node part of [init_bootmem_core]; [last_offset] and [last_pos] keep their values. *)
Definition init_bootmem_bdata (bdata : bootmem_data) (mapstart start end_ : Z)
    : bootmem_data * Z :=
  let mapsize := u32 (u32 (end_ - start) + 7) / 8 in
  let mapsize := Z.land (u32 (mapsize + (sizeof_long - 1))) (u32 (Z.lnot (sizeof_long - 1))) in
  (BootmemData (u32 (Z.shiftl start PAGE_SHIFT)) end_
     (phys_to_virt (u32 (Z.shiftl mapstart PAGE_SHIFT)))
     (replicate (Z.to_nat (8 * mapsize)) true)
     (last_offset bdata) (last_pos bdata),
   mapsize).

(** [n] rounds of the reserving loop of [reserve_bootmem_core]. *)
Fixpoint reserve_run (n : nat) (i : Z) (bits : list bool) : outcome (list bool) :=
  match n with
  | O => Ok bits
  | S n => '(_, bits) ← test_and_put_bit true i bits; reserve_run n (i + 1) bits
  end.

Definition reserve_bootmem_core (bdata : bootmem_data) (addr size : Z) : outcome bootmem_data :=
  let sidx := u32 (addr - node_boot_start bdata) / PAGE_SIZE in
  let eidx := u32 (addr + size - node_boot_start bdata + PAGE_SIZE - 1) / PAGE_SIZE in
  let end_ := u32 (addr + size + PAGE_SIZE - 1) / PAGE_SIZE in
  BUG_if (size =? 0) (BUG_if (node_low_pfn bdata <? end_)
    (bits ← reserve_run (Z.to_nat (eidx - sidx)) sidx (map_bits bdata);
     Ok (set_bits bits bdata))).

(** The loops that [BUG()] on a bit that already has its new value: [free_bootmem_core]
    clears, [__alloc_bootmem_core] sets. *)
Fixpoint put_run (v : bool) (n : nat) (i : Z) (bits : list bool) : outcome (list bool) :=
  match n with
  | O => Ok bits
  | S n => '(o, bits) ← test_and_put_bit v i bits; BUG_if (eqb o v) (put_run v n (i + 1) bits)
  end.

Definition free_bootmem_core (bdata : bootmem_data) (addr size : Z) : outcome bootmem_data :=
  let eidx := u32 (addr + size - node_boot_start bdata) / PAGE_SIZE in
  let end_ := u32 (addr + size) / PAGE_SIZE in
  BUG_if (size =? 0) (BUG_if (node_low_pfn bdata <? end_)
    (let start := u32 (addr + PAGE_SIZE - 1) / PAGE_SIZE in
     let sidx := u32 (start - node_boot_start bdata / PAGE_SIZE) in
     bits ← put_run false (Z.to_nat (eidx - sidx)) sidx (map_bits bdata);
     Ok (set_bits bits bdata))).

(** [n] rounds of the inner loop of the scan: are the pages from [j] on free? *)
Fixpoint block_free (n : nat) (j eidx : Z) (bits : list bool) : outcome bool :=
  match n with
  | O => Ok true
  | S n =>
      if eidx <=? j then Ok false
      else
        b ← test_bit j bits;
        if (b : bool) then Ok false else block_free n (j + 1) eidx bits
  end.

(** The [for] loop after [restart_scan]: the first suitable page, if any. *)
Fixpoint scan (fuel : nat) (i eidx areasize incr : Z) (bits : list bool) : outcome (option Z) :=
  match fuel with
  | O => Trap Fuel
  | S fuel =>
      if i <? eidx then
        b ← test_bit i bits;
        if (b : bool) then scan fuel (u32 (i + incr)) eidx areasize incr bits
        else
          ok ← block_free (Z.to_nat (u32 (i + areasize) - (i + 1))) (i + 1) eidx bits;
          if (ok : bool) then Ok (Some i) else scan fuel (u32 (i + incr)) eidx areasize incr bits
      else Ok None
  end.

(** Both passes of the scan: from [preferred], then from 0; [start] is still 0
    when neither finds a block. *)
Definition scan_start (preferred eidx areasize incr : Z) (bits : list bool) : outcome Z :=
  let fuel := S (Z.to_nat eidx) in
  r ← scan fuel preferred eidx areasize incr bits;
  match r with
  | Some start => Ok start
  | None =>
      if c_true preferred then
        r ← scan fuel 0 eidx areasize incr bits;
        Ok (default 0 r)
      else Ok 0
  end.

(** Where the allocation goes: its address, the pages from [start] to reserve
    and the new [last_pos] and [last_offset]. *)
Definition place (bdata : bootmem_data) (size align start areasize : Z)
    : outcome (Z * Z * Z * Z) :=
  if (align <=? PAGE_SIZE) && c_true (last_offset bdata) && (u32 (last_pos bdata + 1) =? start) then
    let offset := Z.land (u32 (last_offset bdata + align - 1)) (u32 (Z.lnot (align - 1))) in
    BUG_if (PAGE_SIZE <? offset)
      (let remaining_size := PAGE_SIZE - offset in
       let ret := phys_to_virt (u32 (last_pos bdata * PAGE_SIZE + offset + node_boot_start bdata)) in
       if size <? remaining_size then
         Ok (ret, 0, last_pos bdata, Z.land (u32 (offset + size)) (u32 (Z.lnot PAGE_MASK)))
       else
         let remaining_size := u32 (size - remaining_size) in
         let areasize := u32 (remaining_size + PAGE_SIZE - 1) / PAGE_SIZE in
         Ok (ret, areasize, u32 (start + areasize - 1),
             Z.land remaining_size (u32 (Z.lnot PAGE_MASK))))
  else
    Ok (phys_to_virt (u32 (start * PAGE_SIZE + node_boot_start bdata)), areasize,
        u32 (start + areasize - 1), Z.land size (u32 (Z.lnot PAGE_MASK))).

(** The node, the address and the range cleared. *)
Definition __alloc_bootmem_core (bdata : bootmem_data) (size align goal : Z)
    : outcome (bootmem_data * Z * (Z * Z)) :=
  let eidx := u32 (node_low_pfn bdata - Z.shiftr (node_boot_start bdata) PAGE_SHIFT) in
  BUG_if (size =? 0)
    (let preferred :=
       if c_true goal && (node_boot_start bdata <=? goal)
          && (Z.shiftr goal PAGE_SHIFT <? node_low_pfn bdata)
       then u32 (goal - node_boot_start bdata) else 0 in
     let preferred :=
       Z.shiftr (Z.land (u32 (preferred + align - 1)) (u32 (Z.lnot (align - 1)))) PAGE_SHIFT in
     let areasize := u32 (size + PAGE_SIZE - 1) / PAGE_SIZE in
     let incr := let k := Z.shiftr align PAGE_SHIFT in if c_true k then k else 1 in
     start ← scan_start preferred eidx areasize incr (map_bits bdata);
     BUG_if (eidx <=? start)
       ('(ret, areasize, pos, off) ← place bdata size align start areasize;
        bits ← put_run true (Z.to_nat areasize) start (map_bits bdata);
        Ok (set_bits bits (set_last pos off bdata), ret, (ret, size)))).

(** Indices, relative to [i], of the free pages. *)
Fixpoint free_pages_run (n : nat) (i : Z) (bits : list bool) : outcome (list Z) :=
  match n with
  | O => Ok []
  | S n =>
      b ← test_bit i bits;
      l ← free_pages_run n (i + 1) bits;
      Ok (if (b : bool) then l else i :: l)
  end.

Definition map_pages (bdata : bootmem_data) : Z :=
  u32 (u32 (node_low_pfn bdata - Z.shiftr (node_boot_start bdata) PAGE_SHIFT) / 8 + PAGE_SIZE - 1)
    / PAGE_SIZE.

(** The node without its map, the pages of [mem_map] handed to [__free_page] and their
    number; [node_mem_map] is the index of the node's first page. *)
Definition free_all_bdata (bdata : bootmem_data) (node_mem_map : Z)
    : outcome (bootmem_data * list Z * Z) :=
  BUG_if (node_bootmem_map bdata =? 0)
    (let idx := u32 (node_low_pfn bdata - Z.shiftr (node_boot_start bdata) PAGE_SHIFT) in
     l ← free_pages_run (Z.to_nat idx) 0 (map_bits bdata);
     let page := Z.shiftr (node_bootmem_map bdata) PAGE_SHIFT in
     let m := (λ i, page + Z.of_nat i) <$> seq 0 (Z.to_nat (map_pages bdata)) in
     Ok (BootmemData (node_boot_start bdata) (node_low_pfn bdata) 0 []
           (last_offset bdata) (last_pos bdata),
         ((λ i, node_mem_map + i) <$> l) ++ m, zlen l + zlen m)).

(** ** The list of nodes *)

Record pg_data := PgData {
  node_next : Z;
  node_mem_map : Z;
  bdata : bootmem_data
}.

Record boot := Boot {
  pgdat_list : Z;
  pgdats : gmap Z pg_data;
  max_low_pfn : Z;
  min_low_pfn : Z
}.

Definition pget (s : boot) (p : Z) : outcome pg_data :=
  match pgdats s !! p with Some d => Ok d | None => Trap Fault end.

Definition put_bdata (s : boot) (p : Z) (b : bootmem_data) : boot :=
  Boot (pgdat_list s) (alter (λ d, PgData (node_next d) (node_mem_map d) b) p (pgdats s))
    (max_low_pfn s) (min_low_pfn s).

(** The node becomes the head of [pgdat_list]. *)
Definition init_bootmem_core (s : boot) (pgdat mapstart start end_ : Z) : outcome (boot * Z) :=
  d ← pget s pgdat;
  let '(b, mapsize) := init_bootmem_bdata (bdata d) mapstart start end_ in
  Ok (Boot pgdat (<[pgdat := PgData (pgdat_list s) (node_mem_map d) b]> (pgdats s))
        (max_low_pfn s) (min_low_pfn s), mapsize).

Definition free_all_bootmem_core (s : boot) (pgdat : Z) : outcome (boot * list Z * Z) :=
  d ← pget s pgdat;
  '(b, freed, total) ← free_all_bdata (bdata d) (node_mem_map d);
  Ok (put_bdata s pgdat b, freed, total).

Definition init_bootmem_node (s : boot) (pgdat freepfn startpfn endpfn : Z) : outcome (boot * Z) :=
  init_bootmem_core s pgdat freepfn startpfn endpfn.

Definition reserve_bootmem_node (s : boot) (pgdat physaddr size : Z) : outcome boot :=
  d ← pget s pgdat;
  b ← reserve_bootmem_core (bdata d) physaddr size;
  Ok (put_bdata s pgdat b).

Definition free_bootmem_node (s : boot) (pgdat physaddr size : Z) : outcome boot :=
  d ← pget s pgdat;
  b ← free_bootmem_core (bdata d) physaddr size;
  Ok (put_bdata s pgdat b).

Definition free_all_bootmem_node (s : boot) (pgdat : Z) : outcome (boot * list Z * Z) :=
  free_all_bootmem_core s pgdat.

Definition __alloc_bootmem_node (s : boot) (pgdat size align goal : Z)
    : outcome (boot * Z * (Z * Z)) :=
  d ← pget s pgdat;
  '(b, ptr, cl) ← __alloc_bootmem_core (bdata d) size align goal;
  BUG_if (ptr =? 0) (Ok (put_bdata s pgdat b, ptr, cl)).

(** The loop of [__alloc_bootmem]; the ranges cleared are collected. *)
Fixpoint alloc_nodes (fuel : nat) (s : boot) (pgdat size align goal : Z)
    : outcome (boot * Z * list (Z * Z)) :=
  match fuel with
  | O => Trap Fuel
  | S fuel =>
      if pgdat =? 0 then Trap Bug
      else
        d ← pget s pgdat;
        '(b, ptr, cl) ← __alloc_bootmem_core (bdata d) size align goal;
        let s := put_bdata s pgdat b in
        if c_true ptr then Ok (s, ptr, [cl])
        else
          '(s, ptr, cls) ← alloc_nodes fuel s (node_next d) size align goal;
          Ok (s, ptr, cl :: cls)
  end.

Definition __alloc_bootmem (s : boot) (size align goal : Z)
    : outcome (boot * Z * list (Z * Z)) :=
  alloc_nodes (S (stdpp.base.size (pgdats s))) s (pgdat_list s) size align goal.

(** The single node of the system, [contig_page_data], at address [contig]. *)
Section contig.
Context (contig : Z).

Definition init_bootmem (s : boot) (start pages : Z) : outcome (boot * Z) :=
  init_bootmem_core (Boot (pgdat_list s) (pgdats s) pages start) contig start 0 pages.

Definition reserve_bootmem (s : boot) (addr size : Z) : outcome boot :=
  reserve_bootmem_node s contig addr size.

Definition free_bootmem (s : boot) (addr size : Z) : outcome boot :=
  free_bootmem_node s contig addr size.

Definition free_all_bootmem (s : boot) : outcome (boot * list Z * Z) :=
  free_all_bootmem_core s contig.
End contig.

(** ** Runs of bits *)

(** [bits'] is [bits] with [v] at the positions [i], ..., [i + n - 1]. *)
Definition filled (v : bool) (i n : Z) (bits bits' : list bool) : Prop :=
  length bits' = length bits ∧
  ∀ k, 0 <= k → bits' !! Z.to_nat k =
    if (i <=? k) && (k <? i + n) then Some v else bits !! Z.to_nat k.

Lemma filled_step v i n bits bits' o :
  0 <= i → 0 <= n → bits !! Z.to_nat i = Some o →
  filled v (i + 1) n (<[Z.to_nat i := v]> bits) bits' → filled v i (n + 1) bits bits'.
Proof.
  intros Hi Hn Ho [Hl Hb]. split; [by rewrite Hl, length_insert|].
  intros k Hk. rewrite Hb by done. destruct (decide (k = i)) as [->|Hne].
  - rewrite (proj2 (Z.leb_gt (i + 1) i)) by lia. cbn [andb].
    rewrite list_lookup_insert_eq by (by eapply lookup_lt_Some).
    rewrite (proj2 (Z.leb_le i i)), (proj2 (Z.ltb_lt i (i + (n + 1)))) by lia. done.
  - rewrite list_lookup_insert_ne by (intros E; apply Z2Nat.inj in E; lia).
    destruct (Z.leb_spec (i + 1) k), (Z.leb_spec i k), (Z.ltb_spec k (i + 1 + n)),
      (Z.ltb_spec k (i + (n + 1))); done || lia.
Qed.

Lemma filled_nil v i bits : filled v i 0 bits bits.
Proof.
  split; [done|]. intros k Hk.
  destruct (Z.leb_spec i k), (Z.ltb_spec k (i + 0)); done || lia.
Qed.

Lemma reserve_run_spec n i bits :
  0 <= i → i + Z.of_nat n <= zlen bits →
  ∃ bits', reserve_run n i bits = Ok bits' ∧ filled true i (Z.of_nat n) bits bits'.
Proof.
  unfold zlen. revert i bits. induction n as [|n IH]; intros i bits Hi Hn.
  - exists bits. split; [done|apply filled_nil].
  - cbn [reserve_run]. unfold test_and_put_bit.
    destruct (lookup_lt_is_Some_2 bits (Z.to_nat i) ltac:(lia)) as [o Ho]. rewrite Ho.
    cbn [mbind outcome_bind].
    destruct (IH (i + 1) (<[Z.to_nat i := true]> bits)) as (bits' & -> & Hf);
      [lia|rewrite length_insert; lia|].
    exists bits'. split; [done|]. replace (Z.of_nat (S n)) with (Z.of_nat n + 1) by lia.
    eapply filled_step; [lia|lia|done|done].
Qed.

(** Setting or clearing a run succeeds exactly when every bit has the other value. *)
Lemma put_run_spec v n i bits :
  0 <= i →
  (∀ k, i <= k < i + Z.of_nat n → bits !! Z.to_nat k = Some (negb v)) →
  ∃ bits', put_run v n i bits = Ok bits' ∧ filled v i (Z.of_nat n) bits bits'.
Proof.
  revert i bits. induction n as [|n IH]; intros i bits Hi Hall.
  - exists bits. split; [done|apply filled_nil].
  - cbn [put_run]. unfold test_and_put_bit. rewrite (Hall i) by lia.
    cbn [mbind outcome_bind]. unfold BUG_if. assert (eqb (negb v) v = false) as -> by (by destruct v).
    destruct (IH (i + 1) (<[Z.to_nat i := v]> bits)) as (bits' & -> & Hf); [lia| |].
    { intros k Hk. rewrite list_lookup_insert_ne by (intros E; apply Z2Nat.inj in E; lia).
      apply Hall. lia. }
    exists bits'. split; [done|]. replace (Z.of_nat (S n)) with (Z.of_nat n + 1) by lia.
    eapply filled_step; [lia|lia|by apply Hall; lia|done].
Qed.

Lemma put_run_inv v n i bits bits' :
  0 <= i → put_run v n i bits = Ok bits' →
  ∀ k, i <= k < i + Z.of_nat n → bits !! Z.to_nat k = Some (negb v).
Proof.
  revert i bits. induction n as [|n IH]; intros i bits Hi; [lia|].
  cbn [put_run]. unfold test_and_put_bit. destruct (bits !! Z.to_nat i) as [o|] eqn:E; [|done].
  cbn [mbind outcome_bind]. unfold BUG_if. destruct (eqb o v) eqn:Ev; [done|].
  intros H k Hk. destruct (decide (k = i)) as [->|Hne].
  - rewrite E. apply eqb_false_iff in Ev. by destruct o, v.
  - specialize (IH (i + 1) _ ltac:(lia) H k ltac:(lia)).
    rewrite list_lookup_insert_ne in IH by (intros F; apply Z2Nat.inj in F; lia). done.
Qed.

Lemma put_run_terminates v n i bits : terminates (put_run v n i bits).
Proof.
  revert i bits. induction n as [|n IH]; intros i bits; cbn [put_run]; [done|].
  unfold test_and_put_bit. destruct (_ !! _); [|done]. cbn. unfold BUG_if. by case_match.
Qed.

(** ** The scan *)

(** [n] free pages of the node start at page [i]. *)
Definition free_run (bits : list bool) (eidx i n : Z) : Prop :=
  ∀ k, i <= k < i + n → k < eidx ∧ bits !! Z.to_nat k = Some false.

Lemma block_free_spec n j eidx bits :
  0 <= j → eidx <= zlen bits →
  ∃ r, block_free n j eidx bits = Ok r ∧ (r = true ↔ free_run bits eidx j (Z.of_nat n)).
Proof.
  unfold zlen. revert j. induction n as [|n IH]; intros j Hj He; cbn [block_free].
  - exists true. split; [done|]. split; [|done]. intros _ k Hk. lia.
  - destruct (Z.leb_spec eidx j) as [Hle|Hlt].
    + exists false. split; [done|]. split; [done|]. intros H. destruct (H j); lia.
    + unfold test_bit. destruct (lookup_lt_is_Some_2 bits (Z.to_nat j) ltac:(lia)) as [b Hb].
      rewrite Hb. cbn [mbind outcome_bind]. destruct b.
      * exists false. split; [done|]. split; [done|]. intros H. destruct (H j); [lia|congruence].
      * destruct (IH (j + 1)) as (r & -> & Hr); [lia|lia|]. exists r. split; [done|].
        rewrite Hr. split; intros H k Hk.
        -- destruct (decide (k = j)) as [->|]; [done|]. apply H. lia.
        -- apply H. lia.
Qed.

Section scanning.
Context (eidx areasize incr : Z) (bits : list bool).
Context (Heidx : 0 <= eidx < 2 ^ 20) (Harea : 1 <= areasize <= 2 ^ 20) (Hincr : 1 <= incr <= 2 ^ 20).
Context (Hbits : eidx <= zlen bits).

Lemma scan_spec fuel i :
  0 <= i → eidx - i < Z.of_nat fuel → 0 < Z.of_nat fuel →
  (∃ s, scan fuel i eidx areasize incr bits = Ok (Some s) ∧ i <= s < eidx ∧ (incr | s - i) ∧
     free_run bits eidx s areasize) ∨
  (scan fuel i eidx areasize incr bits = Ok None ∧
     ∀ s, i <= s → (incr | s - i) → ¬ free_run bits eidx s areasize).
Proof.
  revert i. induction fuel as [|fuel IH]; intros i Hi Hf Hf0; [lia|]. cbn [scan].
  destruct (Z.ltb_spec i eidx) as [Hlt|Hge].
  2: { right. split; [done|]. intros s Hs _ H. destruct (H s); lia. }
  unfold test_bit. destruct (lookup_lt_is_Some_2 bits (Z.to_nat i)) as [b Hb].
  { unfold zlen in Hbits. lia. }
  rewrite Hb. cbn [mbind outcome_bind]. rewrite !wrap_small by lia.
  assert (¬ free_run bits eidx i areasize →
    (∃ s, scan fuel (i + incr) eidx areasize incr bits = Ok (Some s) ∧ i <= s < eidx ∧
       (incr | s - i) ∧ free_run bits eidx s areasize) ∨
    (scan fuel (i + incr) eidx areasize incr bits = Ok None ∧
       ∀ s, i <= s → (incr | s - i) → ¬ free_run bits eidx s areasize)) as Hstep.
  { intros Hno. destruct (IH (i + incr)) as [(s & Hs & ? & [q Hq] & ?)|[Hs Hnone]]; [lia..| |].
    - left. exists s. split; [done|]. split; [lia|]. split; [exists (q + 1); lia|done].
    - right. split; [done|]. intros s Hle [q Hq] H. destruct (decide (s = i)) as [->|Hne]; [done|].
      assert (0 < q) by (destruct (Z.le_gt_cases q 0); [nia|lia]).
      apply (Hnone s); [nia|exists (q - 1); lia|done]. }
  destruct b.
  - apply Hstep. intros H. destruct (H i); [lia|congruence].
  - destruct (block_free_spec (Z.to_nat (i + areasize - (i + 1))) (i + 1) eidx bits) as
      (r & -> & Hr); [lia|done|]. cbn [mbind outcome_bind].
    assert (r = true ↔ free_run bits eidx i areasize) as Hr'.
    { rewrite Hr. split; intros H k Hk.
      - destruct (decide (k = i)) as [->|]; [done|]. apply H. lia.
      - apply H. lia. }
    destruct r.
    + left. exists i. split; [done|]. split; [lia|]. split; [exists 0; lia|]. by apply Hr'.
    + apply Hstep. intros H. apply Hr' in H. done.
Qed.

(** A suitable page: where a free run of [areasize] pages starts. *)
Definition suitable (s : Z) : Prop := 0 <= s ∧ (incr | s) ∧ free_run bits eidx s areasize.

Lemma scan_start_spec preferred :
  0 <= preferred → (incr | preferred) →
  (∃ s, scan_start preferred eidx areasize incr bits = Ok s ∧ s < eidx ∧ suitable s) ∨
  (scan_start preferred eidx areasize incr bits = Ok 0 ∧ ∀ s, ¬ suitable s).
Proof.
  intros Hp [qp Hqp]. unfold scan_start.
  destruct (scan_spec (S (Z.to_nat eidx)) preferred) as [(s & -> & ? & [q Hq] & ?)|[-> H1]]; [lia..| |];
    cbn [mbind outcome_bind].
  - left. exists s. split; [done|]. split; [lia|]. split; [lia|]. split; [exists (q + qp); lia|done].
  - destruct (Z.eqb_spec preferred 0) as [->|Hne]; cbn [c_true].
    + right. split; [done|]. intros s (Hs & [q Hq] & H). apply (H1 s); [done|exists q; lia|done].
    + rewrite (proj2 (c_true_spec preferred) Hne).
      destruct (scan_spec (S (Z.to_nat eidx)) 0) as [(s & -> & ? & [q Hq] & ?)|[-> H2]]; [lia..| |];
        cbn [mbind outcome_bind default].
      * left. exists s. split; [done|]. split; [lia|]. split; [lia|]. split; [exists q; lia|done].
      * right. split; [done|]. intros s (Hs & [q Hq] & H). apply (H2 s); [done|exists q; lia|done].
Qed.
End scanning.

(** ** The allocator's contract *)

Lemma page_offset x : Z.land x (u32 (Z.lnot PAGE_MASK)) = x mod 4096.
Proof. change (u32 (Z.lnot PAGE_MASK)) with (Z.ones 12). by rewrite Z.land_ones. Qed.

Lemma page_number x : Z.shiftr x PAGE_SHIFT = x / 4096.
Proof. by rewrite Z.shiftr_div_pow2. Qed.

(** Number of pages of a node. *)
Definition npages (b : bootmem_data) : Z := node_low_pfn b - node_boot_start b / 4096.

(** The node is page aligned, lies below 4 GB, and its map covers it; bits behind
    the last page are set (the map is rounded up to words). *)
Definition node_wf (b : bootmem_data) : Prop :=
  0 <= node_boot_start b ∧ (4096 | node_boot_start b) ∧
  node_boot_start b / 4096 <= node_low_pfn b < 2 ^ 20 ∧
  npages b <= zlen (map_bits b) ∧
  (∀ k, npages b <= k < zlen (map_bits b) → map_bits b !! Z.to_nat k = Some true).

(** A region [a..a+s) inside the node whose pages are all reserved and that does
    not reach into the free rest of the last page. *)
Definition owned (b : bootmem_data) (a s : Z) : Prop :=
  0 < s ∧ node_boot_start b <= a ∧ a + s <= node_low_pfn b * 4096 ∧
  (∀ p, node_boot_start b + p * 4096 < a + s → a < node_boot_start b + (p + 1) * 4096 →
        map_bits b !! Z.to_nat p = Some true) ∧
  (last_offset b ≠ 0 →
     a + s <= node_boot_start b + last_pos b * 4096 + last_offset b ∨
     node_boot_start b + (last_pos b + 1) * 4096 <= a).

(** The rest of the last page may be handed out. *)
Definition last_ok (b : bootmem_data) : Prop :=
  last_offset b ≠ 0 →
  0 < last_offset b < 4096 ∧ 0 <= last_pos b < npages b ∧
  map_bits b !! Z.to_nat (last_pos b) = Some true.

Definition separate (r1 r2 : Z * Z) : Prop := r1.1 + r1.2 <= r2.1 ∨ r2.1 + r2.2 <= r1.1.

(** The state with the regions handed out so far. *)
Definition binv (b : bootmem_data) (regs : list (Z * Z)) : Prop :=
  node_wf b ∧ last_ok b ∧ Forall (λ r, owned b r.1 r.2) regs ∧ ForallOrdPairs separate regs.

(** Does the allocation continue the last page? *)
Definition merged (b : bootmem_data) (align start : Z) : bool :=
  (align <=? PAGE_SIZE) && c_true (last_offset b) && (u32 (last_pos b + 1) =? start).

Lemma place_spec b size k start :
  node_wf b → last_ok b → 1 <= size <= 2 ^ 32 - 4096 → 0 <= k <= 31 →
  let n := (size + 4095) / 4096 in
  0 <= start → start + n <= npages b →
  ∃ ret n' pos off, place b size (2 ^ k) start n = Ok (ret, n', pos, off) ∧
    0 <= n' <= n ∧ ret + size <= node_boot_start b + (start + n') * 4096 ∧
    (off ≠ 0 → 0 < off < 4096 ∧ ret + size = node_boot_start b + pos * 4096 + off) ∧
    ((merged b (2 ^ k) start = false ∧ ret = node_boot_start b + start * 4096 ∧ n' = n ∧
      pos = start + n - 1) ∨
     (merged b (2 ^ k) start = true ∧ last_offset b ≠ 0 ∧ start = last_pos b + 1 ∧
      node_boot_start b + last_pos b * 4096 + last_offset b <= ret ∧
      (2 ^ k | ret - node_boot_start b - last_pos b * 4096) ∧ 2 ^ k <= 4096 ∧
      (off ≠ 0 → (pos = last_pos b ∧ n' = 0) ∨ (1 <= n' ∧ pos = start + n' - 1)))).
Proof.
  intros (Hb0 & [B HB] & Hlow & _) Hlast Hsize Hk n Hs0 Hsn. unfold npages in *.
  rewrite HB, Z.div_mul in * by lia.
  assert (n = (size + 4095) / 4096) as Hn by done.
  pose proof (Z.div_mod (size + 4095) 4096 ltac:(lia)) as Hdm.
  pose proof (Z.mod_pos_bound (size + 4095) 4096 ltac:(lia)) as Hmb.
  rewrite <- Hn in Hdm.
  unfold place. fold (merged b (2 ^ k) start). unfold phys_to_virt. cbv zeta. rewrite HB.
  destruct (merged b (2 ^ k) start) eqn:Hm.
  - unfold merged in Hm. apply andb_prop in Hm as [Hm Hst]. apply andb_prop in Hm as [Hal Hoff].
    apply c_true_spec in Hoff. apply Z.leb_le in Hal. apply Z.eqb_eq in Hst.
    change PAGE_SIZE with 4096 in *. destruct (Hlast Hoff) as (Ho & Hp & _).
    unfold npages in Hp. rewrite HB, Z.div_mul in Hp by lia.
    rewrite wrap_small in Hst by lia.
    pose proof (align_up (last_offset b) k ltac:(lia) ltac:(lia) ltac:(lia)) as [Hup Hdiv].
    set (o := Z.land _ _) in *.
    assert (o <= 4096) as Ho4.
    { assert ((2 ^ k | 4096)) as [c Hc].
      { change 4096 with (2 ^ 12). exists (2 ^ (12 - k)). rewrite <- Z.pow_add_r; [f_equal; lia| |lia].
        change 4096 with (2 ^ 12) in Hal. apply Z.pow_le_mono_r_iff in Hal; lia. }
      destruct Hdiv as [d Hd]. rewrite Hc in *. assert (d < c + 1) by nia. nia. }
    unfold BUG_if. destruct (Z.ltb_spec 4096 o); [lia|].
    rewrite (wrap_small 32 (last_pos b * 4096 + o + B * 4096)) by lia.
    assert (2 ^ k | last_pos b * 4096 + o + B * 4096 - B * 4096 - last_pos b * 4096) as Hdv.
    { replace (_ - _) with o by lia. done. }
    destruct (Z.ltb_spec size (4096 - o)).
    + do 4 eexists. split; [done|]. rewrite page_offset, wrap_small, Z.mod_small by lia.
      split; [lia|]. split; [lia|]. split; [lia|]. right. repeat split; try done; lia.
    + rewrite (wrap_small 32 (size - (4096 - o))), page_offset by lia.
      set (rem := size - (4096 - o)) in *. rewrite (wrap_small 32 (rem + 4096 - 1)) by lia.
      pose proof (Z.div_mod rem 4096 ltac:(lia)). pose proof (Z.mod_pos_bound rem 4096 ltac:(lia)).
      pose proof (Z.div_mod (rem + 4096 - 1) 4096 ltac:(lia)).
      pose proof (Z.mod_pos_bound (rem + 4096 - 1) 4096 ltac:(lia)).
      set (n' := (rem + 4096 - 1) / 4096) in *. set (q := rem / 4096) in *.
      set (f := rem mod 4096) in *. set (f' := (rem + 4096 - 1) mod 4096) in *.
      assert (0 <= n' <= n) by (unfold rem in *; nia). rewrite (wrap_small 32 (start + n' - 1)) by lia.
      destruct (Z.eq_dec n' 0) as [Hz|Hz].
      * do 4 eexists. split; [done|]. split; [lia|]. split; [unfold rem in *; lia|].
        split; [lia|]. right. repeat split; try done; lia.
      * do 4 eexists. split; [done|]. split; [lia|].
        split; [unfold rem in *; lia|]. split; [unfold rem in *; nia|].
        right. repeat split; try done; lia.
  - change PAGE_SIZE with 4096. rewrite !wrap_small by lia. rewrite page_offset.
    pose proof (Z.div_mod size 4096 ltac:(lia)). pose proof (Z.mod_pos_bound size 4096 ltac:(lia)).
    do 4 eexists. split; [done|]. split; [lia|]. split; [lia|].
    split; [|left; repeat split; lia]. intros ?. split; [lia|]. nia.
Qed.

(** The step of the scan and the number of pages asked for. *)
Definition stride (align : Z) : Z :=
  let k := Z.shiftr align PAGE_SHIFT in if c_true k then k else 1.

Lemma stride_spec k :
  0 <= k <= 31 → 1 <= stride (2 ^ k) <= 2 ^ 20 ∧
  (∀ s, (stride (2 ^ k) | s) → (2 ^ k | s * 4096)) ∧
  (∀ x, 0 <= x < 2 ^ 32 →
     (stride (2 ^ k) | Z.shiftr (Z.land x (u32 (Z.lnot (2 ^ k - 1)))) PAGE_SHIFT)).
Proof.
  intros Hk. unfold stride. rewrite page_number. destruct (Z.ltb_spec k 12) as [Hlt|Hge].
  - assert (2 ^ k <= 2 ^ 11) by (apply Z.pow_le_mono_r; lia).
    assert (0 < 2 ^ k) by lia. rewrite Z.div_small by lia. cbn [c_true Z.eqb negb].
    split; [lia|]. split; [|intros; apply Z.divide_1_l].
    intros s _. apply Z.divide_mul_r. change 4096 with (2 ^ 12). exists (2 ^ (12 - k)).
    rewrite <- Z.pow_add_r by lia. f_equal. lia.
  - assert (2 ^ k = 2 ^ (k - 12) * 4096) as E.
    { change 4096 with (2 ^ 12). rewrite <- Z.pow_add_r by lia. f_equal. lia. }
    assert (1 <= 2 ^ (k - 12)) by lia.
    assert (2 ^ (k - 12) <= 2 ^ 20) by (apply Z.pow_le_mono_r; lia).
    rewrite E, Z.div_mul by lia. rewrite (proj2 (c_true_spec _)) by lia.
    split; [lia|]. split; [intros s Hs; by apply Z.mul_divide_mono_r|].
    intros x Hx. rewrite <- E, land_align, page_number, E by lia.
    replace (2 ^ (k - 12) * 4096 * (x / (2 ^ (k - 12) * 4096))) with
      (2 ^ (k - 12) * (x / (2 ^ (k - 12) * 4096)) * 4096) by lia.
    rewrite Z.div_mul by lia. apply Z.divide_factor_l.
Qed.

(** Handing out [n'] clear pages from [start] keeps a region owned. *)
Lemma owned_alloc b a s start n' bits' pos off :
  node_wf b → owned b a s → 0 <= start →
  filled true start n' (map_bits b) bits' →
  (off ≠ 0 → a + s <= node_boot_start b + pos * 4096 + off ∨
             node_boot_start b + (pos + 1) * 4096 <= a) →
  owned (set_bits bits' (set_last pos off b)) a s.
Proof.
  intros W (Hs & Ha & He & Hp & _) Hst [_ Hf] Hlast.
  split; [done|]. split; [done|]. split; [done|]. split; [|done]. cbn.
  intros p H1 H2. rewrite Hf by lia. case_match; [done|]. by apply Hp.
Qed.

(** A region and a run of clear pages are apart. *)
Lemma owned_clear b a s start n :
  owned b a s → 0 <= start → 1 <= n → free_run (map_bits b) (npages b) start n →
  a + s <= node_boot_start b + start * 4096 ∨ node_boot_start b + (start + n) * 4096 <= a.
Proof.
  intros (Hs & Ha & He & Hp & _) Hst Hn Hfree.
  destruct (Z.le_gt_cases (a + s) (node_boot_start b + start * 4096)) as [|H1]; [by left|].
  destruct (Z.le_gt_cases (node_boot_start b + (start + n) * 4096) a) as [|H2]; [by right|].
  exfalso. set (p := Z.max start ((a - node_boot_start b) / 4096)).
  pose proof (Z.div_mod (a - node_boot_start b) 4096 ltac:(lia)).
  pose proof (Z.mod_pos_bound (a - node_boot_start b) 4096 ltac:(lia)).
  assert (map_bits b !! Z.to_nat p = Some true) as Ht by (apply Hp; lia).
  destruct (Hfree p); [lia|congruence].
Qed.

(** The state after handing out [ret..ret+size). *)
Lemma binv_step b regs ret size start n' pos off bits' :
  node_wf b → last_ok b → Forall (λ r, owned b r.1 r.2) regs → ForallOrdPairs separate regs →
  0 <= start → 0 <= n' → start + n' <= npages b → 0 < size →
  node_boot_start b <= ret → ret + size <= node_low_pfn b * 4096 →
  filled true start n' (map_bits b) bits' →
  (∀ a s, owned b a s → separate (ret, size) (a, s) ∧
    (off ≠ 0 → a + s <= node_boot_start b + pos * 4096 + off ∨
               node_boot_start b + (pos + 1) * 4096 <= a)) →
  ret + size <= node_boot_start b + (start + n') * 4096 →
  (node_boot_start b + start * 4096 <= ret ∨
   (last_offset b ≠ 0 ∧ start = last_pos b + 1 ∧ node_boot_start b + last_pos b * 4096 <= ret)) →
  (off ≠ 0 → 0 < off < 4096 ∧ ret + size = node_boot_start b + pos * 4096 + off ∧
    ((last_offset b ≠ 0 ∧ pos = last_pos b) ∨ (1 <= n' ∧ pos = start + n' - 1))) →
  binv (set_bits bits' (set_last pos off b)) ((ret, size) :: regs).
Proof.
  intros W L Ho Hsep Hs0 Hn0 Hsn Hsz Hge Hle Hfill Hold Hend Hbeg Hoff.
  pose proof Hfill as [Hlen Hbits]. pose proof W as (Hb0 & Hdiv & Hlow & Hmap & Hbeyond).
  assert (∀ p, 0 <= p → (start <= p < start + n' ∨ map_bits b !! Z.to_nat p = Some true) →
    bits' !! Z.to_nat p = Some true) as Hset.
  { intros p Hp0 Hp. rewrite Hbits by done.
    destruct (Z.leb_spec start p), (Z.ltb_spec p (start + n')); cbn; try done; destruct Hp; try done; lia. }
  split; [|split; [|split]].
  - split; [done|]. split; [done|]. split; [done|]. unfold npages, zlen in *. cbn. rewrite Hlen.
    split; [done|]. intros p Hp. apply Hset; [lia|]. right. by apply Hbeyond.
  - unfold last_ok. cbn. intros Hoff0. destruct (Hoff Hoff0) as (? & He & Hpos). unfold npages in *. cbn.
    split; [done|]. destruct Hpos as [[Hlo ->]|[? ->]].
    + destruct (L Hlo) as (? & ? & ?). unfold npages in *. split; [done|]. apply Hset; [lia|]. by right.
    + split; [lia|]. apply Hset; lia.
  - constructor.
    + cbn. split; [done|]. split; [done|]. split; [done|]. cbn. split.
      * intros p H1 H2. destruct Hbeg as [Hbeg|(Hlo & -> & Hbeg)]; [apply Hset; lia|].
        destruct (L Hlo) as (? & ? & ?). apply Hset; [lia|].
        destruct (Z.eq_dec p (last_pos b)) as [->|]; [by right|]. left. lia.
      * intros Hoff0. destruct (Hoff Hoff0) as (? & He & _). lia.
    + apply Forall_forall. intros [a s] Hin. rewrite Forall_forall in Ho.
      apply (owned_alloc b a s start n'); [done|by apply (Ho (a, s))|done|done|]. by apply Hold, (Ho (a, s)).
  - constructor; [|done]. apply Forall_forall. intros [a s] Hin. rewrite Forall_forall in Ho.
    by apply Hold, (Ho (a, s)).
Qed.

Lemma alloc_found b regs size k start :
  binv b regs → 1 <= size <= 2 ^ 32 - 4096 → 0 <= k <= 31 → 0 <= start →
  let n := (size + 4095) / 4096 in
  free_run (map_bits b) (npages b) start n → (2 ^ k | start * 4096) →
  ∃ ret n' pos off bits', place b size (2 ^ k) start n = Ok (ret, n', pos, off) ∧
    put_run true (Z.to_nat n') start (map_bits b) = Ok bits' ∧
    (2 ^ k | ret - node_boot_start b) ∧ node_boot_start b <= ret ∧
    ret + size <= node_low_pfn b * 4096 ∧ Forall (separate (ret, size)) regs ∧
    binv (set_bits bits' (set_last pos off b)) ((ret, size) :: regs).
Proof.
  intros (W & L & Ho & Hsep) Hsize Hk Hs0 n Hfree Hdiv.
  pose proof (Z.div_mod (size + 4095) 4096 ltac:(lia)) as Hdm.
  pose proof (Z.mod_pos_bound (size + 4095) 4096 ltac:(lia)) as Hmb. fold n in Hdm.
  assert (1 <= n) as Hn by lia.
  assert (start + n <= npages b) as Hin by (destruct (Hfree (start + n - 1)); lia).
  destruct (place_spec b size k start W L Hsize Hk Hs0 Hin) as
    (ret & n' & pos & off & Hpl & Hn' & Hend & Hoff & Hcase). fold n in Hpl.
  destruct (put_run_spec true (Z.to_nat n') start (map_bits b)) as (bits' & Hput & Hfill); [done| |].
  { intros p Hp. apply Hfree. lia. }
  rewrite Z2Nat.id in Hfill by lia.
  assert (free_run (map_bits b) (npages b) start n') as Hfree' by (intros p Hp; apply Hfree; lia).
  destruct W as (Hb0 & [B HB] & Hlow & Hlen & Hbeyond).
  assert (npages b = node_low_pfn b - B) as Hnp by (unfold npages; rewrite HB, Z.div_mul; lia).
  assert (∀ a s, owned b a s → separate (ret, size) (a, s) ∧
    (off ≠ 0 → a + s <= node_boot_start b + pos * 4096 + off ∨
               node_boot_start b + (pos + 1) * 4096 <= a)) as Hold.
  { intros a s Has. unfold separate; cbn. pose proof Has as (? & ? & ? & _ & Hl).
    destruct Hcase as [(_ & -> & -> & ->)|(_ & Hlo & -> & Hret & _ & _ & Hpos)].
    - destruct (owned_clear b a s start n); try done; lia.
    - specialize (Hl Hlo).
      destruct (Z.eq_dec n' 0) as [->|Hn0]; [lia|].
      destruct (owned_clear b a s (last_pos b + 1) n'); try done; lia. }
  assert (node_boot_start b <= ret ∧ ret + size <= node_low_pfn b * 4096) as [Hge Hle].
  { destruct Hcase as [(_ & -> & -> & ->)|(_ & Hlo & -> & Hret & _)]; [lia|].
    destruct (L Hlo) as (? & ? & _). lia. }
  exists ret, n', pos, off, bits'. split; [done|]. split; [done|]. split; [|split; [done|split; [done|split]]].
  - destruct Hcase as [(_ & -> & _)|(_ & Hlo & -> & _ & Hd & H4 & _)].
    + replace (_ - _) with (start * 4096) by lia. done.
    + replace (ret - _) with (ret - node_boot_start b - last_pos b * 4096 + last_pos b * 4096) by lia.
      apply Z.divide_add_r; [done|].
      replace (last_pos b * 4096) with ((last_pos b + 1) * 4096 - 4096) by lia.
      apply Z.divide_sub_r; [done|]. change 4096 with (2 ^ 12) in *.
      apply Z.pow_le_mono_r_iff in H4; [|lia..].
      exists (2 ^ (12 - k)). rewrite <- Z.pow_add_r by lia. f_equal. lia.
  - apply Forall_forall. intros [a s] Hin'. rewrite Forall_forall in Ho.
    by apply Hold, (Ho (a, s)).
  - apply (binv_step b regs ret size start n'); try done; try lia.
    + repeat split; try done; [by exists B|..]; lia.
    + destruct Hcase as [(_ & -> & _)|(_ & Hlo & -> & Hret & _)]; [left; lia|right].
      destruct (L Hlo) as (? & _). repeat split; [done|lia].
Qed.

(** Pages asked for, and the pages at which an allocation may start. *)
Definition pages_of (size : Z) : Z := (size + 4095) / 4096.

Definition fits (b : bootmem_data) (size align s : Z) : Prop :=
  suitable (npages b) (pages_of size) (stride align) (map_bits b) s.

Lemma alloc_core_spec b regs size k goal :
  binv b regs → 1 <= size <= 2 ^ 32 - 4096 → 0 <= k <= 31 → 0 <= goal < 2 ^ 32 →
  (∃ s b' ret, fits b size (2 ^ k) s ∧
     __alloc_bootmem_core b size (2 ^ k) goal = Ok (b', ret, (ret, size)) ∧
     (2 ^ k | ret - node_boot_start b) ∧ node_boot_start b <= ret ∧
     ret + size <= node_low_pfn b * 4096 ∧ Forall (separate (ret, size)) regs ∧
     binv b' ((ret, size) :: regs)) ∨
  ((∀ s, ¬ fits b size (2 ^ k) s) ∧
   ∃ t, __alloc_bootmem_core b size (2 ^ k) goal = Trap t ∧ t ≠ Fuel).
Proof.
  intros Hinv Hsize Hk Hgoal. pose proof Hinv as ((Hb0 & [B HB] & Hlow & Hlen & Hbeyond) & L & _).
  destruct (stride_spec k Hk) as (Hst & Hstd & Hpref).
  assert (1 <= pages_of size <= 2 ^ 20) as Hpg.
  { unfold pages_of. pose proof (Z.div_mod (size + 4095) 4096 ltac:(lia)).
    pose proof (Z.mod_pos_bound (size + 4095) 4096 ltac:(lia)). lia. }
  assert (npages b = node_low_pfn b - B) as Hnp by (unfold npages; rewrite HB, Z.div_mul; lia).
  assert (0 <= npages b < 2 ^ 20) as Hnp2.
  { rewrite HB, Z.div_mul in Hlow by lia. lia. }
  unfold __alloc_bootmem_core. fold (stride (2 ^ k)). rewrite (page_number (node_boot_start b)).
  fold (npages b). rewrite (wrap_small 32 (npages b)) by lia.
  change PAGE_SIZE with 4096. rewrite (wrap_small 32 (size + 4096 - 1)) by lia.
  replace ((size + 4096 - 1) / 4096) with (pages_of size) by (unfold pages_of; f_equal; lia).
  unfold BUG_if at 1. destruct (Z.eqb_spec size 0); [lia|].
  set (pref := Z.shiftr (Z.land _ _) PAGE_SHIFT).
  assert (0 <= pref ∧ (stride (2 ^ k) | pref)) as [Hp0 Hpd].
  { split; [|apply Hpref, wrap_bound; lia]. unfold pref. rewrite page_number.
    apply Z.div_pos; [|lia]. apply Z.land_nonneg. left. apply wrap_bound. lia. }
  destruct (scan_start_spec (npages b) (pages_of size) (stride (2 ^ k)) (map_bits b)
    Hnp2 Hpg Hst Hlen pref Hp0 Hpd) as [(s & -> & Hs & Hfit)|[-> Hnone]]; cbn [mbind outcome_bind].
  - left. pose proof Hfit as (Hs0 & Hsd & Hfree).
    destruct (alloc_found b regs size k s Hinv Hsize Hk Hs0 Hfree (Hstd s Hsd)) as
      (ret & n' & pos & off & bits' & Hpl & Hput & ? & ? & ? & ? & ?).
    fold (pages_of size) in Hpl. exists s. unfold BUG_if. destruct (Z.leb_spec (npages b) s); [lia|].
    rewrite Hpl. cbn [mbind outcome_bind]. rewrite Hput. cbn [mbind outcome_bind].
    eexists _, ret. split; [done|]. split; [done|]. done.
  - right. split; [done|]. unfold BUG_if. destruct (Z.leb_spec (npages b) 0); [by eexists|].
    unfold place. assert (merged b (2 ^ k) 0 = false) as Hm.
    { unfold merged. destruct (c_true (last_offset b)) eqn:E; [|by rewrite andb_false_r].
      apply c_true_spec in E. destruct (L E) as (_ & ? & _). rewrite wrap_small by lia.
      apply andb_false_intro2. apply Z.eqb_neq. lia. }
    unfold merged in Hm. rewrite Hm. cbn [mbind outcome_bind].
    destruct (put_run true (Z.to_nat (pages_of size)) 0 (map_bits b)) as [bits'|t] eqn:Hput;
      cbn [mbind outcome_bind].
    + exfalso. apply (Hnone 0). split; [lia|]. split; [apply Z.divide_0_r|].
      intros p Hp. assert (map_bits b !! Z.to_nat p = Some false) as Hf
        by (apply (put_run_inv true _ 0 _ bits' ltac:(lia) Hput); lia).
      split; [|done]. destruct (Z.lt_ge_cases p (npages b)) as [|Hge]; [done|].
      rewrite Hbeyond in Hf; [done|]. apply lookup_lt_Some in Hf. unfold zlen. lia.
    + exists t. split; [done|]. intros ->. by apply (put_run_terminates true
        (Z.to_nat (pages_of size)) 0 (map_bits b)).
Qed.

(** Reserved bits stay and the rest of the node is the same: regions stay owned. *)
Lemma binv_bits b bits' regs :
  binv b regs → zlen bits' = zlen (map_bits b) →
  (∀ k, npages b <= k < zlen (map_bits b) → bits' !! Z.to_nat k = Some true) →
  (∀ r p, r ∈ regs → node_boot_start b + p * 4096 < r.1 + r.2 →
     r.1 < node_boot_start b + (p + 1) * 4096 → bits' !! Z.to_nat p = Some true) →
  (last_offset b ≠ 0 → bits' !! Z.to_nat (last_pos b) = Some true) →
  binv (set_bits bits' b) regs.
Proof.
  intros ((? & ? & ? & ? & _) & L & Ho & ?) Hlen Hbey Hreg Hlast.
  split; [|split; [|split; [|done]]].
  - repeat split; try done; cbn; try lia; [by rewrite Hlen|]. by rewrite Hlen.
  - intros Hl. destruct (L Hl) as (? & ? & _). split; [done|]. split; [done|]. by apply Hlast.
  - rewrite Forall_forall in Ho. apply Forall_forall. intros r Hr.
    destruct (Ho r Hr) as (? & ? & ? & _ & ?). repeat split; try done. cbn.
    intros p ? ?. apply (Hreg r p); try done. by apply list_elem_of_In.
Qed.

Definition overlaps (b : bootmem_data) (addr size p : Z) : Prop :=
  node_boot_start b + p * 4096 < addr + size ∧ addr < node_boot_start b + (p + 1) * 4096.

Definition inside (b : bootmem_data) (addr size p : Z) : Prop :=
  addr <= node_boot_start b + p * 4096 ∧ node_boot_start b + (p + 1) * 4096 <= addr + size.

(** The pages [sidx], ..., [eidx - 1] of [reserve_bootmem_core] are those that
    overlap the range, those of [free_bootmem_core] those inside it. *)
Lemma pages_overlapping B addr size p :
  0 <= B → B * 4096 <= addr →
  (addr - B * 4096) / 4096 <= p < (addr - B * 4096) / 4096 +
      ((addr + size - B * 4096 + 4095) / 4096 - (addr - B * 4096) / 4096) ↔
  B * 4096 + p * 4096 < addr + size ∧ addr < B * 4096 + (p + 1) * 4096.
Proof.
  intros. pose proof (Z.div_mod (addr - B * 4096) 4096 ltac:(lia)).
  pose proof (Z.mod_pos_bound (addr - B * 4096) 4096 ltac:(lia)).
  pose proof (Z.div_mod (addr + size - B * 4096 + 4095) 4096 ltac:(lia)).
  pose proof (Z.mod_pos_bound (addr + size - B * 4096 + 4095) 4096 ltac:(lia)). lia.
Qed.

Lemma pages_inside B addr size p :
  0 <= B → B * 4096 <= addr →
  ((addr + 4095) / 4096 - B) <= p < (addr + size - B * 4096) / 4096 ↔
  addr <= B * 4096 + p * 4096 ∧ B * 4096 + (p + 1) * 4096 <= addr + size.
Proof.
  intros. pose proof (Z.div_mod (addr + 4095) 4096 ltac:(lia)).
  pose proof (Z.mod_pos_bound (addr + 4095) 4096 ltac:(lia)).
  pose proof (Z.div_mod (addr + size - B * 4096) 4096 ltac:(lia)).
  pose proof (Z.mod_pos_bound (addr + size - B * 4096) 4096 ltac:(lia)). lia.
Qed.

Lemma filled_lookup v i n bits bits' k :
  filled v i n bits bits' → 0 <= k →
  (i <= k < i + n → bits' !! Z.to_nat k = Some v) ∧
  (¬ (i <= k < i + n) → bits' !! Z.to_nat k = bits !! Z.to_nat k).
Proof.
  intros [_ H] Hk. rewrite H by done.
  destruct (Z.leb_spec i k), (Z.ltb_spec k (i + n)); split; intros; cbn; done || lia.
Qed.

Lemma reserve_core_spec b regs addr size :
  binv b regs → 1 <= size → node_boot_start b <= addr → addr + size <= node_low_pfn b * 4096 →
  ∃ bits', reserve_bootmem_core b addr size = Ok (set_bits bits' b) ∧
    binv (set_bits bits' b) regs ∧
    ∀ p, 0 <= p → (overlaps b addr size p → bits' !! Z.to_nat p = Some true) ∧
                  (¬ overlaps b addr size p → bits' !! Z.to_nat p = map_bits b !! Z.to_nat p).
Proof.
  intros Hinv Hs Ha He. pose proof Hinv as ((Hb0 & [B HB] & Hlow & Hlen & Hbey) & L & Ho & _).
  unfold reserve_bootmem_core, BUG_if, overlaps, npages in *. rewrite HB, Z.div_mul in * by lia.
  change PAGE_SIZE with 4096. rewrite !wrap_small by lia. destruct (Z.eqb_spec size 0); [lia|].
  destruct (Z.ltb_spec (node_low_pfn b) ((addr + size + 4096 - 1) / 4096)) as [Hlt|_].
  { exfalso. pose proof (Z.div_mod (addr + size + 4096 - 1) 4096 ltac:(lia)).
    pose proof (Z.mod_pos_bound (addr + size + 4096 - 1) 4096 ltac:(lia)). lia. }
  replace (addr + size - B * 4096 + 4096 - 1) with (addr + size - B * 4096 + 4095) by lia.
  pose proof (pages_overlapping B addr size) as Hpg.
  set (si := (addr - B * 4096) / 4096) in *. set (ei := (addr + size - B * 4096 + 4095) / 4096) in *.
  assert (0 <= si) by (apply Z.div_pos; lia).
  assert (si < ei) by (pose proof (Hpg si ltac:(lia) ltac:(lia));
    pose proof (Z.div_mod (addr - B * 4096) 4096 ltac:(lia));
    pose proof (Z.mod_pos_bound (addr - B * 4096) 4096 ltac:(lia)); lia).
  assert (ei <= node_low_pfn b - B) by (pose proof (Hpg (ei - 1) ltac:(lia) ltac:(lia)); lia).
  destruct (reserve_run_spec (Z.to_nat (ei - si)) si (map_bits b)) as (bits' & -> & Hf); [lia..|].
  rewrite Z2Nat.id in Hf by lia. cbn [mbind outcome_bind]. exists bits'. split; [done|].
  assert (∀ p, 0 <= p → map_bits b !! Z.to_nat p = Some true → bits' !! Z.to_nat p = Some true) as Hk.
  { intros p Hp Ht. destruct (filled_lookup _ _ _ _ _ p Hf Hp) as [Hin Hout].
    destruct (decide (si <= p < si + (ei - si))); [auto|]. by rewrite Hout. }
  split; [apply binv_bits|].
  - done.
  - unfold zlen. by rewrite (proj1 Hf).
  - unfold npages. rewrite HB, Z.div_mul by lia. intros p Hp. apply Hk; [lia|]. by apply Hbey.
  - intros r p Hr ? ?. rewrite Forall_forall in Ho. apply list_elem_of_In in Hr.
    destruct (Ho r Hr) as (? & ? & ? & Hpp & _). apply Hk; [lia|]. by apply Hpp.
  - intros Hl. destruct (L Hl) as (? & ? & ?). apply Hk; [lia|done].
  - intros p Hp. specialize (Hpg p ltac:(lia) ltac:(lia)).
    destruct (filled_lookup _ _ _ _ _ p Hf Hp). rewrite <- Hpg. done.
Qed.

(** Outcome of clearing a run of bits. *)
Lemma put_run_cases v n i bits :
  0 <= i →
  (∃ bits', put_run v n i bits = Ok bits' ∧ filled v i (Z.of_nat n) bits bits' ∧
     ∀ k, i <= k < i + Z.of_nat n → bits !! Z.to_nat k = Some (negb v)) ∨
  (∃ t k, put_run v n i bits = Trap t ∧ t ≠ Fuel ∧ i <= k < i + Z.of_nat n ∧
     bits !! Z.to_nat k ≠ Some (negb v)).
Proof.
  intros Hi. destruct (decide (Forall (λ k, bits !! Z.to_nat k = Some (negb v)) (seqZ i (Z.of_nat n))))
    as [Hall|Hno].
  - left. rewrite Forall_seqZ in Hall. destruct (put_run_spec v n i bits Hi Hall) as (bits' & ? & ?).
    eauto.
  - right. apply not_Forall_Exists, Exists_exists in Hno as (k & Hk & Hb); [|apply _].
    destruct (put_run v n i bits) as [bits'|t] eqn:E.
    + exfalso. apply Hb. apply (put_run_inv _ _ _ _ _ Hi E).
      apply list_elem_of_In, elem_of_seqZ in Hk. lia.
    + exists t, k. split; [done|]. split; [intros ->; by apply (put_run_terminates v n i bits)|].
      apply list_elem_of_In, elem_of_seqZ in Hk. split; [lia|done].
Qed.

Lemma free_core_spec b regs addr size :
  binv b regs → 1 <= size → node_boot_start b <= addr → addr + size <= node_low_pfn b * 4096 →
  Forall (separate (addr, size)) regs → (last_offset b ≠ 0 → ¬ inside b addr size (last_pos b)) →
  (∃ bits', free_bootmem_core b addr size = Ok (set_bits bits' b) ∧
    binv (set_bits bits' b) regs ∧
    ∀ p, 0 <= p →
      (inside b addr size p → map_bits b !! Z.to_nat p = Some true ∧ bits' !! Z.to_nat p = Some false) ∧
      (¬ inside b addr size p → bits' !! Z.to_nat p = map_bits b !! Z.to_nat p)) ∨
  (∃ t p, free_bootmem_core b addr size = Trap t ∧ t ≠ Fuel ∧ 0 <= p ∧ inside b addr size p ∧
     map_bits b !! Z.to_nat p ≠ Some true).
Proof.
  intros Hinv Hs Ha He Hsep Hlast.
  pose proof Hinv as ((Hb0 & [B HB] & Hlow & Hlen & Hbey) & L & Ho & _).
  unfold free_bootmem_core, BUG_if, inside, npages in *. rewrite HB, Z.div_mul in * by lia.
  change PAGE_SIZE with 4096. destruct (Z.eqb_spec size 0); [lia|].
  rewrite (wrap_small 32 (addr + size)) by lia.
  destruct (Z.ltb_spec (node_low_pfn b) ((addr + size) / 4096)) as [Hlt|_].
  { exfalso. pose proof (Z.div_mod (addr + size) 4096 ltac:(lia)).
    pose proof (Z.mod_pos_bound (addr + size) 4096 ltac:(lia)). lia. }
  rewrite (wrap_small 32 (addr + 4096 - 1)), (wrap_small 32 (addr + size - B * 4096)) by lia.
  rewrite Z.div_mul by lia.
  replace (addr + 4096 - 1) with (addr + 4095) by lia.
  pose proof (Z.div_mod (addr + 4095) 4096 ltac:(lia)).
  pose proof (Z.mod_pos_bound (addr + 4095) 4096 ltac:(lia)).
  rewrite (wrap_small 32 ((addr + 4095) / 4096 - B)) by lia.
  pose proof (pages_inside B addr size) as Hpg.
  set (si := (addr + 4095) / 4096 - B) in *. set (ei := (addr + size - B * 4096) / 4096) in *.
  assert (0 <= si) as Hsi by lia.
  assert (∀ p, si <= p < si + Z.of_nat (Z.to_nat (ei - si)) ↔
    addr <= B * 4096 + p * 4096 ∧ B * 4096 + (p + 1) * 4096 <= addr + size) as Hpg'.
  { intros p. rewrite <- Hpg by lia. lia. }
  destruct (put_run_cases false (Z.to_nat (ei - si)) si (map_bits b) Hsi) as
    [(bits' & -> & Hf & Hwas)|(t & k & -> & Ht & Hk & Hb)]; cbn [mbind outcome_bind].
  - left. exists bits'. split; [done|].
    assert (∀ p, 0 <= p → ¬ (addr <= B * 4096 + p * 4096 ∧ B * 4096 + (p + 1) * 4096 <= addr + size) →
      bits' !! Z.to_nat p = map_bits b !! Z.to_nat p) as Hk.
    { intros p Hp Hn. rewrite <- Hpg' in Hn. by apply (filled_lookup _ _ _ _ _ p Hf Hp). }
    split; [apply binv_bits|].
    + done.
    + unfold zlen. by rewrite (proj1 Hf).
    + unfold npages. rewrite HB, Z.div_mul by lia. intros p Hp. rewrite Hk; [by apply Hbey|lia|].
      intros [? ?]. lia.
    + intros r p Hr ? ?. rewrite Forall_forall in Ho, Hsep. apply list_elem_of_In in Hr.
      destruct (Ho r Hr) as (? & ? & ? & Hpp & _). destruct (Hsep r Hr) as [?|?]; cbn in *;
        (rewrite Hk; [by apply Hpp|lia|lia]).
    + intros Hl. destruct (L Hl) as (? & ? & ?). rewrite Hk; [done|lia|auto].
    + intros p Hp. split; [|auto]. intros Hin. apply Hpg' in Hin. split; [by apply Hwas|].
      by apply (filled_lookup _ _ _ _ _ p Hf Hp).
  - right. exists t, k. split; [done|]. split; [done|]. split; [lia|].
    split; [by apply Hpg'|done].
Qed.

(** The pages freed are exactly those with a clear bit, in increasing order. *)
Lemma free_pages_run_spec n i bits :
  0 <= i → i + Z.of_nat n <= zlen bits →
  free_pages_run n i bits =
    Ok (filter (λ k, bits !! Z.to_nat k = Some false) (seqZ i (Z.of_nat n))).
Proof.
  unfold zlen. revert i. induction n as [|n IH]; intros i Hi Hn; [done|].
  cbn [free_pages_run]. unfold test_bit.
  destruct (lookup_lt_is_Some_2 bits (Z.to_nat i) ltac:(lia)) as [o Ho]. rewrite Ho.
  cbn [mbind outcome_bind]. rewrite IH by lia. cbn [mbind outcome_bind].
  rewrite (seqZ_cons i) by lia. replace (Z.pred (Z.of_nat (S n))) with (Z.of_nat n) by lia.
  replace (Z.succ i) with (i + 1) by lia. rewrite filter_cons, Ho. by destruct o; case_decide.
Qed.

(** A freshly initialised node: every page reserved, nothing handed out. *)
Lemma init_ready b mapstart start end_ :
  0 <= start <= end_ → end_ < 2 ^ 20 → last_offset b = 0 →
  let '(b', mapsize) := init_bootmem_bdata b mapstart start end_ in
  binv b' [] ∧ npages b' = end_ - start ∧ end_ - start <= 8 * mapsize ∧
  ∀ k, 0 <= k < end_ - start → map_bits b' !! Z.to_nat k = Some true.
Proof.
  intros Hs He Hl. unfold init_bootmem_bdata. rewrite (wrap_small 32 (end_ - start)) by lia.
  rewrite (wrap_small 32 (end_ - start + 7)) by lia.
  pose proof (Z.div_mod (end_ - start + 7) 8 ltac:(lia)).
  pose proof (Z.mod_pos_bound (end_ - start + 7) 8 ltac:(lia)).
  set (m := (end_ - start + 7) / 8) in *.
  pose proof (align_up m 2 ltac:(lia) ltac:(lia) ltac:(lia)) as [Hup _].
  replace (m + 2 ^ 2 - 1) with (m + (sizeof_long - 1)) in Hup by (unfold sizeof_long; lia).
  change (2 ^ 2 - 1) with (sizeof_long - 1) in Hup.
  set (ms := Z.land _ _) in *.
  assert (u32 (Z.shiftl start PAGE_SHIFT) = start * 4096) as E.
  { rewrite Z.shiftl_mul_pow2 by done. change (2 ^ PAGE_SHIFT) with 4096. apply wrap_small. lia. }
  rewrite E.
  assert (∀ k, 0 <= k < 8 * ms → replicate (Z.to_nat (8 * ms)) true !! Z.to_nat k = Some true) as Hrep.
  { intros k Hk. apply lookup_replicate_2. lia. }
  split; [|split; [|split]].
  - split; [|split; [|split]]; [| |constructor..].
    + unfold node_wf, npages, zlen. cbn. rewrite Z.div_mul, length_replicate by lia.
      repeat split; try lia; [by exists start|]. intros k Hk. apply Hrep. lia.
    + unfold last_ok. cbn. lia.
  - unfold npages. cbn. rewrite Z.div_mul; lia.
  - lia.
  - intros k Hk. cbn. apply Hrep. lia.
Qed.

(** ** Properties *)

(** C2: The boot-time allocator never hands out memory twice.  With the regions
    [regs] handed out so far, [__alloc_bootmem_core] for a power-of-two alignment
    succeeds exactly when some suitably placed run of free pages is long enough;
    the range it returns is aligned (relative to the node), lies inside the node,
    is apart from every earlier region even when it shares a page with the previous
    one, is the range that is cleared, and the state is good for the next call.
    Otherwise the call does not return: it ends in [BUG()] or leaves the map. *)
Theorem alloc_bootmem_core_correct b regs size k goal :
  binv b regs → 1 <= size <= 2 ^ 32 - 4096 → 0 <= k <= 31 → 0 <= goal < 2 ^ 32 →
  (∃ s b' ret, fits b size (2 ^ k) s ∧
     __alloc_bootmem_core b size (2 ^ k) goal = Ok (b', ret, (ret, size)) ∧
     (2 ^ k | ret - node_boot_start b) ∧ node_boot_start b <= ret ∧
     ret + size <= node_low_pfn b * 4096 ∧ Forall (separate (ret, size)) regs ∧
     binv b' ((ret, size) :: regs)) ∨
  ((∀ s, ¬ fits b size (2 ^ k) s) ∧
   ∃ t, __alloc_bootmem_core b size (2 ^ k) goal = Trap t ∧ t ≠ Fuel).
Proof. apply alloc_core_spec. Qed.

(** [reserve_bootmem_core] marks exactly the pages that overlap the range
    (partly covered pages included), leaves the others alone, and no region
    handed out is lost; a range that ends behind the node is a [BUG()]. *)
Theorem reserve_bootmem_core_exact b regs addr size :
  binv b regs → 1 <= size → node_boot_start b <= addr → addr + size + 4095 < 2 ^ 32 →
  (node_low_pfn b * 4096 < addr + size → reserve_bootmem_core b addr size = Trap Bug) ∧
  (addr + size <= node_low_pfn b * 4096 →
   ∃ bits', reserve_bootmem_core b addr size = Ok (set_bits bits' b) ∧
     binv (set_bits bits' b) regs ∧
     ∀ p, 0 <= p → (overlaps b addr size p → bits' !! Z.to_nat p = Some true) ∧
                   (¬ overlaps b addr size p → bits' !! Z.to_nat p = map_bits b !! Z.to_nat p)).
Proof.
  intros Hinv Hs Ha Hov. split; [|by apply reserve_core_spec].
  intros He. pose proof Hinv as ((Hb0 & _ & Hlow & _) & _).
  unfold reserve_bootmem_core, BUG_if. change PAGE_SIZE with 4096.
  rewrite (wrap_small 32 (addr + size + 4096 - 1)) by lia.
  destruct (Z.eqb_spec size 0); [lia|].
  destruct (Z.ltb_spec (node_low_pfn b) ((addr + size + 4096 - 1) / 4096)) as [_|Hge]; [done|].
  exfalso. pose proof (Z.div_mod (addr + size + 4096 - 1) 4096 ltac:(lia)).
  pose proof (Z.mod_pos_bound (addr + size + 4096 - 1) 4096 ltac:(lia)). lia.
Qed.

(** [free_bootmem_core] frees exactly the pages that lie entirely inside the
    range, provided all of them were reserved, and never returns otherwise (freeing
    a free page is a [BUG()]); ranges that touch no region handed out keep them. *)
Theorem free_bootmem_core_exact b regs addr size :
  binv b regs → 1 <= size → node_boot_start b <= addr → addr + size <= node_low_pfn b * 4096 →
  Forall (separate (addr, size)) regs → (last_offset b ≠ 0 → ¬ inside b addr size (last_pos b)) →
  (∃ bits', free_bootmem_core b addr size = Ok (set_bits bits' b) ∧
    binv (set_bits bits' b) regs ∧
    ∀ p, 0 <= p →
      (inside b addr size p → map_bits b !! Z.to_nat p = Some true ∧ bits' !! Z.to_nat p = Some false) ∧
      (¬ inside b addr size p → bits' !! Z.to_nat p = map_bits b !! Z.to_nat p)) ∨
  (∃ t p, free_bootmem_core b addr size = Trap t ∧ t ≠ Fuel ∧ 0 <= p ∧ inside b addr size p ∧
     map_bits b !! Z.to_nat p ≠ Some true).
Proof. apply free_core_spec. Qed.

(** [free_all_bootmem_core] hands to the page allocator each page of the node
    whose bit is clear, once and in order, then the pages of the bitmap, and
    returns their number. *)
Theorem free_all_bootmem_exact s pgdat d :
  pgdats s !! pgdat = Some d → node_wf (bdata d) → node_bootmem_map (bdata d) ≠ 0 →
  ∃ s' free bm,
    free_all_bootmem_core s pgdat =
      Ok (s', ((λ i, node_mem_map d + i) <$> free) ++ bm, zlen free + zlen bm) ∧
    (∀ i, i ∈ free ↔ 0 <= i < npages (bdata d) ∧ map_bits (bdata d) !! Z.to_nat i = Some false) ∧
    NoDup free ∧ zlen bm = map_pages (bdata d) ∧
    ∃ d', pgdats s' !! pgdat = Some d' ∧ node_bootmem_map (bdata d') = 0.
Proof.
  intros Hd (Hb0 & _ & Hlow & Hlen & _) Hmap.
  unfold free_all_bootmem_core, pget. rewrite Hd. cbn [mbind outcome_bind].
  unfold free_all_bdata, BUG_if. destruct (Z.eqb_spec (node_bootmem_map (bdata d)) 0); [done|].
  rewrite (page_number (node_boot_start (bdata d))). fold (npages (bdata d)).
  assert (0 <= npages (bdata d) < 2 ^ 32) as Hnp.
  { pose proof (Z.div_pos (node_boot_start (bdata d)) 4096 Hb0 ltac:(lia)). unfold npages. lia. }
  rewrite wrap_small, free_pages_run_spec by lia. cbn [mbind outcome_bind].
  rewrite Z2Nat.id by lia. eexists _, _, _. split; [reflexivity|]. split; [|split; [|split]].
  - intros i. rewrite list_elem_of_filter, elem_of_seqZ. naive_solver lia.
  - apply list.NoDup_filter, NoDup_seqZ.
  - unfold zlen. rewrite length_fmap, length_seq, Z2Nat.id; [done|].
    unfold map_pages. apply Z.div_pos; [apply wrap_bound; lia|done].
  - cbn. rewrite lookup_alter_eq, Hd. by eexists.
Qed.

(** ** A concrete node: 40 pages from page 0, the first 8 of them not free *)

Definition demo_node : bootmem_data :=
  set_bits (replicate 8 true ++ replicate 32 false ++ replicate 24 true)
    (fst (init_bootmem_bdata (BootmemData 0 0 0 [] 0 0) 4 0 40)).

Ltac pages := unfold overlaps, inside; change (node_boot_start demo_node) with 0;
  change (node_low_pfn demo_node) with 40; change (last_offset demo_node) with 0; lia.

Lemma demo_node_inv : binv demo_node [].
Proof.
  assert (∀ k, 40 <= k < 64 → map_bits demo_node !! Z.to_nat k = Some true) as Hrep.
  { intros k Hk. cbn [map_bits demo_node set_bits].
    assert (k = 40 + Z.of_nat (Z.to_nat (k - 40))) as -> by lia.
    assert (Z.to_nat (k - 40) < 24)%nat as Hlt by lia.
    rewrite !lookup_app_r; rewrite ?length_replicate; [|lia..]. apply lookup_replicate_2. lia. }
  split; [|split; [by intros []|split; constructor]].
  split; [done|]. split; [by exists 0|]. split; [by split; cbn|]. split; [done|]. exact Hrep.
Qed.

Lemma alloc_bootmem_core_correct_witness :
  ∃ b1 r1 b2 r2, __alloc_bootmem_core demo_node 100 (2 ^ 4) 0 = Ok (b1, r1, (r1, 100)) ∧
    __alloc_bootmem_core b1 5000 (2 ^ 4) 0 = Ok (b2, r2, (r2, 5000)) ∧
    r1 = 32768 ∧ r2 = 32880 ∧ separate (r2, 5000) (r1, 100).
Proof.
  destruct (alloc_bootmem_core_correct demo_node [] 100 4 0 demo_node_inv) as
    [(s & b1 & r1 & _ & H1 & _ & _ & _ & _ & I1)|[_ (t & H1 & _)]]; try lia;
    [|vm_compute in H1; discriminate H1].
  pose proof H1 as E1. vm_compute in E1. injection E1 as Eb1 Er1.
  destruct (alloc_bootmem_core_correct b1 [(r1, 100)] 5000 4 0 I1) as
    [(s2 & b2 & r2 & _ & H2 & _ & _ & _ & Hsep & I2)|[_ (t & H2 & _)]]; try lia.
  - exists b1, r1, b2, r2. split; [done|]. split; [done|].
    pose proof H2 as E2. rewrite <- Eb1 in E2. vm_compute in E2. injection E2 as _ Er2.
    split; [done|]. split; [done|]. by inversion Hsep.
  - rewrite <- Eb1 in H2. vm_compute in H2. discriminate H2.
Defined.

Lemma reserve_bootmem_core_exact_witness :
  ∃ bits', reserve_bootmem_core demo_node 40000 5000 = Ok (set_bits bits' demo_node) ∧
    bits' !! 9%nat = Some true ∧ bits' !! 10%nat = Some true ∧ bits' !! 11%nat = Some false.
Proof.
  destruct (reserve_bootmem_core_exact demo_node [] 40000 5000 demo_node_inv) as
    [_ (bits' & H & _ & Hb)]; [pages..|]. exists bits'. split; [done|].
  destruct (Hb 9) as [H9 _]; [lia|]. destruct (Hb 10) as [H10 _]; [lia|].
  destruct (Hb 11) as [_ H11]; [lia|].
  split; [apply H9; pages|]. split; [apply H10; pages|].
  exact (H11 ltac:(pages)).
Defined.

Lemma free_bootmem_core_exact_witness :
  ∃ bits', free_bootmem_core demo_node 4097 12287 = Ok (set_bits bits' demo_node) ∧
    bits' !! 1%nat = Some true ∧ bits' !! 2%nat = Some false ∧ bits' !! 3%nat = Some false.
Proof.
  destruct (free_bootmem_core_exact demo_node [] 4097 12287 demo_node_inv) as
    [(bits' & H & _ & Hb)|(t & p & H & _)]; try pages; [constructor| |vm_compute in H; discriminate H].
  exists bits'. split; [done|].
  destruct (Hb 1) as [_ H1]; [lia|]. destruct (Hb 2) as [H2 _]; [lia|]. destruct (Hb 3) as [H3 _]; [lia|].
  split; [exact (H1 ltac:(pages))|].
  split; [apply H2; pages|apply H3; pages].
Defined.

Lemma free_all_bootmem_exact_witness :
  ∃ s' l, free_all_bootmem_core (Boot 1 {[1 := PgData 0 0 demo_node]} 40 4) 1 = Ok (s', l, 33).
Proof.
  destruct (free_all_bootmem_exact (Boot 1 {[1 := PgData 0 0 demo_node]} 40 4) 1
    (PgData 0 0 demo_node) ltac:(by vm_compute) (proj1 demo_node_inv) ltac:(done)) as
    (s' & free & bm & H & _). eexists _, _. rewrite H. f_equal. f_equal.
  vm_compute in H. by injection H as _ _ Ht.
Defined.

(** With 7 pages the bitmap takes a page, but no page is given back for it. *)
Example bitmap_page_lost :
  bootmem_bootmap_pages 7 = 1 ∧
  map_pages (fst (init_bootmem_bdata (BootmemData 0 0 0 [] 0 0) 4 0 7)) = 0.
Proof. done. Qed.
