(* ===== verification/Buddy.v ===== *)
(** * Buddy: the buddy system ([mmnommu/page_alloc.c])

    Freeing and allocating blocks of [2^order] pages in one zone:
    [__free_pages_ok], [expand] and [rmqueue], with the wrappers that free pages.

    A [struct page *] is the index of the page in [mem_map].  The [list_head]s that
    chain free blocks are the lists of page numbers, head first; unlinking a page
    that is not on the list it is taken from faults.  The bitmap of an area is the
    list of its bits; a bit outside of it faults.  [zone->lock] and interrupt
    masking are not modelled. *)

From S2P Require Import Prelude Bootmem.

Definition MAX_ORDER : Z := 10.

(** [page->flags] *)
Definition PG_locked : Z := 0.
Definition PG_referenced : Z := 2.
Definition PG_dirty : Z := 4.
Definition PG_decr_after : Z := 5.
Definition PG_active : Z := 6.
Definition PG_inactive_dirty : Z := 7.
Definition PG_swap_cache : Z := 9.
Definition PG_inactive_clean : Z := 11.
Definition PG_reserved : Z := 31.
Definition PAGE_AGE_START : Z := 2.
Definition NR_CPUS : Z := 1.

Record page := Page {
  mapping : Z;
  count : Z;
  flags : Z;
  age : Z;
  buffers : Z;
  virtual : Z;
  page_zone : Z
}.

Record free_area_t := FreeArea {
  free_list : list Z;
  map : list bool
}.

Record zone_t := Zone {
  offset : Z;
  free_pages : Z;
  inactive_clean_pages : Z;
  pages_min : Z;
  pages_low : Z;
  pages_high : Z;
  free_area : list free_area_t;
  size : Z
}.

(** The memory manager's state: the zones by address. *)
Record vm := Vm {
  mem_map : gmap Z page;
  max_mapnr : Z;
  zones : gmap Z zone_t;
  memory_pressure : Z
}.

Definition set_free_pages (v : Z) (z : zone_t) : zone_t :=
  Zone (offset z) v (inactive_clean_pages z) (pages_min z) (pages_low z) (pages_high z)
    (free_area z) (size z).
Definition set_free_area (v : list free_area_t) (z : zone_t) : zone_t :=
  Zone (offset z) (free_pages z) (inactive_clean_pages z) (pages_min z) (pages_low z)
    (pages_high z) v (size z).
Definition set_count (v : Z) (p : page) : page :=
  Page (mapping p) v (flags p) (age p) (buffers p) (virtual p) (page_zone p).

Definition put_zone (s : vm) (a : Z) (z : zone_t) : vm :=
  Vm (mem_map s) (max_mapnr s) (<[a := z]> (zones s)) (memory_pressure s).
Definition put_page (s : vm) (a : Z) (p : page) : vm :=
  Vm (<[a := p]> (mem_map s)) (max_mapnr s) (zones s) (memory_pressure s).

Definition get_page (s : vm) (a : Z) : outcome page :=
  match mem_map s !! a with Some p => Ok p | None => Trap Fault end.
Definition get_zone (s : vm) (a : Z) : outcome zone_t :=
  match zones s !! a with Some z => Ok z | None => Trap Fault end.

(** [zone->free_area + order] *)
Definition area_get (z : zone_t) (o : Z) : outcome free_area_t :=
  match free_area z !! Z.to_nat o with Some a => Ok a | None => Trap Fault end.
Definition area_put (z : zone_t) (o : Z) (a : free_area_t) : zone_t :=
  set_free_area (<[Z.to_nat o := a]> (free_area z)) z.

Definition memlist_add_head (x o : Z) (z : zone_t) : outcome zone_t :=
  a ← area_get z o;
  Ok (area_put z o (FreeArea (x :: free_list a) (map a))).

Definition memlist_del (x o : Z) (z : zone_t) : outcome zone_t :=
  a ← area_get z o;
  if decide (x ∈ free_list a)
  then Ok (area_put z o (FreeArea (filter (λ y, y ≠ x) (free_list a)) (map a)))
  else Trap Fault.

Definition test_and_change_bit (index o : Z) (z : zone_t) : outcome (bool * zone_t) :=
  a ← area_get z o;
  match map a !! Z.to_nat index with
  | Some b => Ok (b, area_put z o (FreeArea (free_list a) (<[Z.to_nat index := negb b]> (map a))))
  | None => Trap Fault
  end.

Definition BAD_RANGE (s : vm) (zone : Z) (z : zone_t) (x : Z) : outcome bool :=
  p ← get_page s x;
  Ok (negb (zone =? page_zone p) || (x <? offset z) || (offset z + size z <=? x)).

(** [BUG()] on a page outside of the zone *)
Definition check_range {A} (s : vm) (zone : Z) (z : zone_t) (x : Z) (k : outcome A) : outcome A :=
  bad ← BAD_RANGE s zone z x;
  BUG_if bad k.

(** ** Freeing *)

(** The states in which a page must not be freed. *)
Definition unfreeable (s : vm) (pg : Z) (p : page) : bool :=
  c_true (buffers p) || c_true (mapping p) || negb (pg <? max_mapnr s)
  || Z.testbit (flags p) PG_swap_cache || Z.testbit (flags p) PG_locked
  || Z.testbit (flags p) PG_decr_after || Z.testbit (flags p) PG_dirty
  || Z.testbit (flags p) PG_active || Z.testbit (flags p) PG_inactive_dirty
  || Z.testbit (flags p) PG_inactive_clean.

(** The merging loop: the zone, the index of the block and its order. *)
Fixpoint merge_loop (fuel : nat) (s : vm) (zone : Z) (z : zone_t)
    (page_idx index mask area : Z) : outcome (zone_t * Z * Z) :=
  match fuel with
  | O => Trap Fuel
  | S fuel =>
      if u32 (mask + Z.shiftl 1 (MAX_ORDER - 1)) =? 0 then Ok (z, page_idx, area)
      else BUG_if (MAX_ORDER <=? area)
        ('(old, z) ← test_and_change_bit index area z;
         if negb old then Ok (z, page_idx, area)
         else
           let buddy1 := offset z + Z.lxor page_idx (u32 (- mask)) in
           let buddy2 := offset z + page_idx in
           check_range s zone z buddy1 (check_range s zone z buddy2
             (z ← memlist_del buddy1 area z;
              let mask := u32 (Z.shiftl mask 1) in
              merge_loop fuel s zone z (Z.land page_idx mask) (Z.shiftr index 1) mask (area + 1))))
  end.

Definition __free_pages_ok (s : vm) (page order : Z) : outcome vm :=
  p ← get_page s page;
  if Z.testbit (flags p) PG_reserved then Ok s
  else BUG_if (unfreeable s page p)
    (let p := Page (mapping p) (count p) (Z.clearbit (flags p) PG_referenced) PAGE_AGE_START
                (buffers p) (virtual p) (page_zone p) in
     let s := put_page s page p in
     let zone := page_zone p in
     z ← get_zone s zone;
     let mask := u32 (Z.shiftl (2 ^ 32 - 1) order) in
     let page_idx := u32 (page - offset z) in
     BUG_if (c_true (Z.land page_idx (u32 (Z.lnot mask))))
       (let index := Z.shiftr page_idx (1 + order) in
        let z := set_free_pages (u32 (free_pages z - mask)) z in
        '(z, page_idx, area) ← merge_loop (S (Z.to_nat MAX_ORDER)) s zone z page_idx index mask order;
        z ← memlist_add_head (offset z + page_idx) area z;
        let s := put_zone s zone z in
        Ok (Vm (mem_map s) (max_mapnr s) (zones s)
              (if NR_CPUS <? memory_pressure s then memory_pressure s - 1 else memory_pressure s)))).

(** [put_page_testzero] decrements the count. *)
Definition __free_pages (s : vm) (page order : Z) : outcome vm :=
  p ← get_page s page;
  let c := s32 (count p - 1) in
  let s := put_page s page (set_count c p) in
  if c =? 0 then __free_pages_ok s page order else Ok s.

(** [free_pages]; [virt_to_page] and [VALID_PAGE] *)
Definition free_pages_addr (s : vm) (addr order : Z) : outcome vm :=
  let fpage := Z.shiftr addr PAGE_SHIFT in
  if fpage <? max_mapnr s then __free_pages s fpage order else Ok s.

(** ** Allocating *)

Definition MARK_USED (index o area : Z) (z : zone_t) : outcome zone_t :=
  '(_, z) ← test_and_change_bit (Z.shiftr index (1 + o)) area z;
  Ok z.

(** [n] is [high - low]. *)
Fixpoint expand (n : nat) (s : vm) (zone : Z) (z : zone_t) (page index high size area : Z)
    : outcome (zone_t * Z) :=
  match n with
  | O => check_range s zone z page (Ok (z, page))
  | S n =>
      check_range s zone z page
        (let area := area - 1 in
         let high := high - 1 in
         let size := Z.shiftr size 1 in
         z ← memlist_add_head page area z;
         z ← MARK_USED index high area z;
         expand n s zone z (page + size) (index + size) high size area)
  end.

(** [n] rounds of the [do] loop of [rmqueue]. *)
Fixpoint rmqueue_loop (n : nat) (s : vm) (zone : Z) (z : zone_t) (order curr_order : Z)
    : outcome (vm * option Z) :=
  match n with
  | O => Ok (s, None)
  | S n =>
      a ← area_get z curr_order;
      match free_list a with
      | page :: _ =>
          check_range s zone z page
            (z ← memlist_del page curr_order z;
             let index := u32 (page - offset z) in
             z ← MARK_USED index curr_order curr_order z;
             let z := set_free_pages (u32 (free_pages z - Z.shiftl 1 order)) z in
             '(z, page) ← expand (Z.to_nat (curr_order - order)) s zone z page index curr_order
                            (Z.shiftl 1 curr_order) curr_order;
             p ← get_page s page;
             let s := put_page (put_zone s zone z) page (set_count 1 p) in
             check_range s zone z page (Ok (s, Some page)))
      | [] => rmqueue_loop n s zone z order (curr_order + 1)
      end
  end.

(** The loop body runs at least once. *)
Definition rmqueue (s : vm) (zone order : Z) : outcome (vm * option Z) :=
  z ← get_zone s zone;
  rmqueue_loop (S (Z.to_nat (MAX_ORDER - 1 - order))) s zone z order order.

(** ** The invariant of a zone *)

(** Free blocks: [blk z o i] is a free block of [2^o] pages at index [i]. *)
Definition fl (z : zone_t) (o : Z) : list Z :=
  match free_area z !! Z.to_nat o with Some a => free_list a | None => [] end.
Definition bm (z : zone_t) (o : Z) : list bool :=
  match free_area z !! Z.to_nat o with Some a => map a | None => [] end.
Definition blk (z : zone_t) (o i : Z) : Prop := 0 <= o < MAX_ORDER ∧ offset z + i ∈ fl z o.

(** The buddy of the block at [i]. *)
Definition buddy (o i : Z) : Z := Z.lxor i (2 ^ o).

(** A place for a block: aligned and inside the zone. *)
Definition fits_in (z : zone_t) (o i : Z) : Prop :=
  0 <= o < MAX_ORDER ∧ 0 <= i ∧ (2 ^ o | i) ∧ i + 2 ^ o <= size z.

Definition clear_of (o i o' j : Z) : Prop := i + 2 ^ o <= j ∨ j + 2 ^ o' <= i.

(** Pages in free blocks, by the lengths of the lists; [w] is the block size of the
    first list. *)
Fixpoint areas_total (l : list free_area_t) (w : Z) : Z :=
  match l with [] => 0 | a :: l => w * zlen (free_list a) + areas_total l (2 * w) end.

Record zinv (z : zone_t) : Prop := {
  zi_areas : length (free_area z) = Z.to_nat MAX_ORDER;
  zi_range : 0 <= offset z ∧ 0 <= size z ∧ offset z + size z <= 2 ^ 20;
  zi_maps : ∀ o, 0 <= o < MAX_ORDER → size z <= zlen (bm z o) * 2 ^ (o + 1);
  zi_fits : ∀ o i, blk z o i → fits_in z o i;
  zi_nodup : ∀ o, 0 <= o < MAX_ORDER → NoDup (fl z o);
  zi_apart : ∀ o i o' j, blk z o i → blk z o' j → (o = o' ∧ i = j) ∨ clear_of o i o' j;
  (* two free buddies have been merged *)
  zi_merged : ∀ o i, o < MAX_ORDER - 1 → blk z o i → ¬ blk z o (buddy o i);
  (* the bit of a pair of buddies tells whether one of them is free *)
  zi_bits : ∀ o i b, o < MAX_ORDER - 1 → fits_in z o i →
    bm z o !! Z.to_nat (i / 2 ^ (o + 1)) = Some b → b = true ↔ blk z o i ∨ blk z o (buddy o i)
}.

(** [free_pages] counts the free pages and [d] more. *)
Definition counted (z : zone_t) (d : Z) : Prop :=
  free_pages z = u32 (areas_total (free_area z) 1 + d).

(** The pages of the zone know it. *)
Definition pages_ok (s : vm) (zone : Z) (z : zone_t) : Prop :=
  ∀ x, offset z <= x < offset z + size z → ∃ p, mem_map s !! x = Some p ∧ page_zone p = zone.

(** [i] is a block in use (or being moved): apart from all free blocks. *)
Definition hole (z : zone_t) (o i : Z) : Prop :=
  fits_in z o i ∧ ∀ o' j, blk z o' j → clear_of o i o' j.

(** ** Buddies *)

Lemma pow2_succ o : 0 <= o → 2 ^ (o + 1) = 2 * 2 ^ o.
Proof. intros. rewrite Z.pow_add_r by lia. lia. Qed.

(** A block and its buddy are the two halves of the block above. *)
Lemma buddy_halves o i :
  0 <= o → 0 <= i → (2 ^ o | i) →
  let m := 2 ^ (o + 1) * (i / 2 ^ (o + 1)) in
  (i = m ∧ buddy o i = m + 2 ^ o) ∨ (i = m + 2 ^ o ∧ buddy o i = m).
Proof.
  intros Ho Hi [q ->]. cbv zeta. assert (0 < 2 ^ o) by lia. rewrite pow2_succ by done. unfold buddy.
  assert (q * 2 ^ o / (2 * 2 ^ o) = q / 2) as -> by (apply Z.div_mul_cancel_r; lia).
  assert (∀ k, 0 <= k → Z.lxor (k * 2 * 2 ^ o) (2 ^ o) = k * 2 * 2 ^ o + 2 ^ o) as Hx.
  { intros k Hk. rewrite Z.add_nocarry_lxor; [done|].
    rewrite <- (Z.shiftl_mul_pow2 (k * 2)), <- Z.shiftl_1_l, <- Z.shiftl_land by lia.
    change 1 with (Z.ones 1). rewrite Z.land_ones, Z.mod_mul, Z.shiftl_0_l; lia. }
  destruct (Z.Even_or_Odd q) as [[k ->]|[k ->]].
  - left. assert (0 <= k) by nia. rewrite (Z.mul_comm 2 k), Z.div_mul, Hx by lia. lia.
  - right. assert (0 <= k) by nia. rewrite (Z.mul_comm 2 k), Z.div_add_l by lia.
    replace ((k * 2 + 1) * 2 ^ o) with (k * 2 * 2 ^ o + 2 ^ o) by lia. change (1 / 2) with 0.
    split; [lia|]. rewrite <- (Hx k), Z.lxor_assoc, Z.lxor_nilpotent, Z.lxor_0_r by lia. lia.
Qed.

Lemma buddy_facts o i :
  0 <= o → 0 <= i → (2 ^ o | i) →
  0 <= buddy o i ∧ (2 ^ o | buddy o i) ∧ buddy o i / 2 ^ (o + 1) = i / 2 ^ (o + 1) ∧
  buddy o (buddy o i) = i ∧ buddy o i ≠ i.
Proof.
  intros Ho Hi Hd. assert (0 < 2 ^ o) by lia. pose proof (pow2_succ o Ho) as Hp.
  pose proof (Z.div_pos i (2 ^ (o + 1)) Hi ltac:(lia)) as Hq.
  assert (buddy o (buddy o i) = i) as Hb.
  { unfold buddy. by rewrite Z.lxor_assoc, Z.lxor_nilpotent, Z.lxor_0_r. }
  assert ((2 ^ o | 2 ^ (o + 1) * (i / 2 ^ (o + 1)))) as Hdm.
  { rewrite Hp. exists (2 * (i / (2 * 2 ^ o))). lia. }
  destruct (buddy_halves o i Ho Hi Hd) as [[E1 E2]|[E1 E2]]; rewrite E2 at 1 2 3 5.
  - split; [nia|]. split; [apply Z.divide_add_r; [done|by exists 1; lia]|].
    split; [|split; [done|lia]].
    rewrite (Z.mul_comm (2 ^ (o + 1))), Z.div_add_l, (Z.div_small (2 ^ o)) by lia. lia.
  - split; [nia|]. split; [done|]. split; [|split; [done|lia]].
    rewrite Z.mul_comm, Z.div_mul by lia. done.
Qed.

Lemma same_pair o i j :
  0 <= o → 0 <= i → (2 ^ o | i) → 0 <= j → (2 ^ o | j) →
  j / 2 ^ (o + 1) = i / 2 ^ (o + 1) → j = i ∨ j = buddy o i.
Proof.
  intros Ho Hi Hdi Hj Hdj E.
  destruct (buddy_halves o i Ho Hi Hdi) as [[E1 E2]|[E1 E2]];
    destruct (buddy_halves o j Ho Hj Hdj) as [[F1 F2]|[F1 F2]]; rewrite E in *; lia.
Qed.

(** The buddy of a block is inside the zone if any of the pair above is. *)
Lemma buddy_merge o i z :
  fits_in z o i → fits_in z o (buddy o i) → o < MAX_ORDER - 1 →
  fits_in z (o + 1) (2 ^ (o + 1) * (i / 2 ^ (o + 1))).
Proof.
  intros (Ho & Hi & Hd & He) (_ & _ & _ & He') Hlt. pose proof (pow2_succ o ltac:(lia)) as Hp.
  pose proof (Z.div_pos i (2 ^ (o + 1)) Hi ltac:(lia)) as Hq.
  split; [lia|]. split; [nia|]. split; [apply Z.divide_factor_l|].
  destruct (buddy_halves o i ltac:(lia) Hi Hd) as [[E1 E2]|[E1 E2]]; lia.
Qed.

(** ** Updating one area *)

Lemma area_get_ok z o :
  zinv z → 0 <= o < MAX_ORDER → area_get z o = Ok (FreeArea (fl z o) (bm z o)).
Proof.
  intros Hz Ho. unfold area_get, fl, bm.
  destruct (lookup_lt_is_Some_2 (free_area z) (Z.to_nat o)) as [[l m] Ha].
  { rewrite (zi_areas z Hz). lia. }
  by rewrite Ha.
Qed.

Lemma area_put_put z o a a' : area_put (area_put z o a) o a' = area_put z o a'.
Proof. unfold area_put, set_free_area. cbn. by rewrite list_insert_insert_eq. Qed.

Section update.
Context (z : zone_t) (o : Z) (l : list Z) (bits : list bool).
Context (Hz : zinv z) (Ho : 0 <= o < MAX_ORDER).

Let z' := area_put z o (FreeArea l bits).

Lemma put_fl o' : 0 <= o' → fl z' o' = if decide (o' = o) then l else fl z o'.
Proof.
  intros Ho'. unfold fl, z', area_put. cbn. destruct (decide (o' = o)) as [->|Hne].
  - rewrite list_lookup_insert_eq; [done|]. rewrite (zi_areas z Hz). lia.
  - rewrite list_lookup_insert_ne; [done|]. intros E. apply Z2Nat.inj in E; lia.
Qed.

Lemma put_bm o' : 0 <= o' → bm z' o' = if decide (o' = o) then bits else bm z o'.
Proof.
  intros Ho'. unfold bm, z', area_put. cbn. destruct (decide (o' = o)) as [->|Hne].
  - rewrite list_lookup_insert_eq; [done|]. rewrite (zi_areas z Hz). lia.
  - rewrite list_lookup_insert_ne; [done|]. intros E. apply Z2Nat.inj in E; lia.
Qed.

Lemma put_blk o' i : blk z' o' i ↔ 0 <= o' < MAX_ORDER ∧
  if decide (o' = o) then offset z + i ∈ l else blk z o' i.
Proof.
  unfold blk. change (offset z') with (offset z). split.
  - intros [? H]. rewrite put_fl in H by lia. split; [done|]. by case_decide.
  - intros [? H]. rewrite put_fl by lia. split; [done|]. case_decide; [done|]. apply H.
Qed.
End update.

Lemma areas_total_insert l n a a' w :
  l !! n = Some a →
  areas_total (<[n := a']> l) w =
    areas_total l w + w * 2 ^ Z.of_nat n * (zlen (free_list a') - zlen (free_list a)).
Proof.
  revert n w. induction l as [|b l IH]; intros [|n] w Ha; simpl in *; try done.
  - injection Ha as ->. lia.
  - rewrite IH by done. rewrite Nat2Z.inj_succ, Z.pow_succ_r by lia. lia.
Qed.

Lemma put_total z o l bits d :
  zinv z → 0 <= o < MAX_ORDER →
  counted z d → counted (area_put z o (FreeArea l bits)) (d - 2 ^ o * (zlen l - zlen (fl z o))).
Proof.
  intros Hz Ho. unfold counted, area_put. cbn. unfold fl.
  destruct (lookup_lt_is_Some_2 (free_area z) (Z.to_nat o)) as [a Ha].
  { rewrite (zi_areas z Hz). lia. }
  rewrite (areas_total_insert _ _ a), Ha by done. rewrite Z2Nat.id by lia. cbn [free_list].
  intros ->. f_equal. lia.
Qed.

Lemma blk_dec z o i : Decision (blk z o i).
Proof. unfold blk. apply _. Defined.
#[local] Existing Instance blk_dec.

(** The bitmap of an area after the bit of the pair of [i] is set to [b]. *)
Definition bit_put (z : zone_t) (o i : Z) (b : bool) : list bool :=
  <[Z.to_nat (i / 2 ^ (o + 1)) := b]> (bm z o).

(** What an update of one area must respect to keep the invariant. *)
Lemma zinv_put z o i l b :
  zinv z → fits_in z o i → NoDup l →
  let z' := area_put z o (FreeArea l (bit_put z o i b)) in
  (∀ j, offset z + j ∈ l → j = i ∨ blk z o j) →
  (∀ j, j ≠ i → blk z o j → offset z + j ∈ l) →
  (offset z + i ∈ l → ∀ o' j, blk z o' j → (o = o' ∧ i = j) ∨ clear_of o i o' j) →
  (o < MAX_ORDER - 1 → ¬ blk z o (buddy o i)) →
  (o < MAX_ORDER - 1 → b = true ↔ offset z + i ∈ l) →
  zinv z'.
Proof.
  intros Hz Hfit Hnd z' Hsub Hkeep Hap Hbud Hb. destruct Hfit as (Ho & Hi & Hdiv & Hend).
  assert (∀ o' j, blk z' o' j → (o' = o ∧ j = i ∧ offset z + i ∈ l) ∨ blk z o' j) as Hblk.
  { intros o' j H. apply put_blk in H as [Ho' H]; [|done..].
    case_decide; [subst o'|by right]. destruct (Hsub j H) as [->|]; [by left|by right]. }
  assert (∀ o' j, (o' = o → j ≠ i) → blk z o' j → blk z' o' j) as Hblk'.
  { intros o' j Hne H. apply put_blk; [done..|]. split; [apply H|].
    case_decide; [subst o'|done]. by apply Hkeep; [apply Hne|]. }
  assert (∀ j, offset z + j ∈ l → blk z' o j) as Hblk3.
  { intros j H. apply put_blk; [done..|]. split; [done|]. by case_decide. }
  destruct (buddy_facts o i ltac:(lia) Hi Hdiv) as (Hb0 & Hbd & Hbq & Hbb & Hbn).
  constructor; try apply Hz; change (offset z') with (offset z); change (size z') with (size z).
  - unfold z', area_put. cbn. rewrite length_insert. apply Hz.
  - intros o' Ho'. unfold z'. rewrite put_bm by (done || lia). case_decide; [subst o'|by apply Hz].
    unfold bit_put, zlen. rewrite length_insert. by apply (zi_maps z Hz).
  - intros o' j H. apply Hblk in H as [(-> & -> & _)|H]; [done|]. by apply (zi_fits z Hz).
  - intros o' Ho'. unfold z'. rewrite put_fl by (done || lia). case_decide; [done|]. by apply Hz.
  - intros o1 i1 o2 j2 H1 H2.
    apply Hblk in H1 as [(? & ? & H1)|H1]; apply Hblk in H2 as [(? & ? & H2)|H2]; subst.
    + by left.
    + by apply Hap.
    + destruct (Hap H2 _ _ H1) as [[-> ->]|[?|?]]; [by left|right; by right|right; by left].
    + by apply (zi_apart z Hz).
  - intros o' j Hlt H1 H2. apply Hblk in H1 as [(? & ? & H1)|H1];
      apply Hblk in H2 as [(? & E & H2)|H2]; subst; try done; try by apply (Hbud Hlt).
    + pose proof (zi_fits z Hz _ _ H1) as (? & ? & ? & _).
      destruct (buddy_facts o j) as (_ & _ & _ & Hjj & _); try done; try lia.
      apply (Hbud Hlt). by rewrite Hjj.
    + by apply (zi_merged z Hz o' j).
  - intros o' j bj Hlt (Ho' & Hj & Hdj & Hej) Hbit. unfold z' in Hbit.
    change (size z') with (size z) in Hej.
    rewrite put_bm in Hbit by (done || lia). destruct (decide (o' = o)) as [->|Hne].
    + unfold bit_put in Hbit.
      destruct (decide (j / 2 ^ (o + 1) = i / 2 ^ (o + 1))) as [E|E].
      * rewrite E in Hbit. rewrite list_lookup_insert_eq in Hbit.
        2:{ apply lookup_lt_Some in Hbit. by rewrite length_insert in Hbit. }
        injection Hbit as <-. rewrite (Hb Hlt).
        assert (blk z' o i ↔ offset z + i ∈ l) as HI.
        { split; [|apply Hblk3]. intros H. apply put_blk in H as [_ H]; [|done..]. by case_decide. }
        destruct (same_pair o i j) as [->| ->]; try done; try lia.
        -- rewrite HI. split; [by left|]. intros [H|H]; [done|].
           apply Hblk in H as [(_ & ? & _)|H]; [done|]. by destruct (Hbud Hlt).
        -- rewrite Hbb, HI. split; [by right|]. intros [H|H]; [|done].
           apply Hblk in H as [(_ & ? & _)|H]; [done|]. by destruct (Hbud Hlt).
      * rewrite list_lookup_insert_ne in Hbit.
        2:{ intros F. apply Z2Nat.inj in F; [done|apply Z.div_pos; lia..]. }
        rewrite (zi_bits z Hz o j bj Hlt ltac:(done) Hbit).
        destruct (buddy_facts o j ltac:(lia) Hj Hdj) as (_ & _ & Hq & _).
        assert (∀ j', j' / 2 ^ (o + 1) = j / 2 ^ (o + 1) → blk z' o j' ↔ blk z o j') as HE.
        { intros j' Hj'. assert (j' ≠ i) as Hne by (intros ->; congruence). split; intros H.
          - apply Hblk in H as [(_ & ? & _)|H]; done.
          - by apply Hblk'. }
        rewrite !HE; [done|done|done].
    + rewrite (zi_bits z Hz o' j bj Hlt ltac:(done) Hbit).
      assert (∀ j', blk z' o' j' ↔ blk z o' j') as HE.
      { intros j'. split; intros H; [apply Hblk in H as [(? & _)|H]; done|by apply Hblk']. }
      by rewrite !HE.
Qed.

(** ** Adding and removing a block *)

Lemma hole_not_blk z o i : hole z o i → ¬ blk z o i.
Proof. intros [_ H] Hb. destruct (H o i Hb); assert (0 < 2 ^ o) by (destruct Hb; lia); lia. Qed.

Lemma zinv_add z o i b d :
  zinv z → hole z o i → (o < MAX_ORDER - 1 → b = true ∧ ¬ blk z o (buddy o i)) →
  counted z (d + 2 ^ o) →
  let z' := area_put z o (FreeArea (offset z + i :: fl z o) (bit_put z o i b)) in
  zinv z' ∧ counted z' d ∧ ∀ o' j, blk z' o' j ↔ blk z o' j ∨ (o' = o ∧ j = i).
Proof.
  intros Hz Hh Hb Hc z'. pose proof Hh as [Hfit Hclear]. pose proof Hfit as (Ho & _).
  pose proof (hole_not_blk _ _ _ Hh) as Hnb. split; [|split].
  - apply zinv_put; try done.
    + constructor; [|by apply Hz]. intros H. by apply Hnb.
    + intros j Hj. apply elem_of_cons in Hj as [Hj|Hj]; [left; lia|right; by split].
    + intros j _ [_ Hj]. by apply elem_of_cons; right.
    + intros _ o' j Hj. right. by apply Hclear.
    + intros Hlt. apply (Hb Hlt).
    + intros Hlt. destruct (Hb Hlt) as [-> _]. split; [|done]. intros _. apply elem_of_cons. by left.
  - replace d with (d + 2 ^ o - 2 ^ o * (zlen (offset z + i :: fl z o) - zlen (fl z o)))
      by (rewrite zlen_cons; lia). by apply put_total.
  - intros o' j. unfold z'. rewrite put_blk by done. case_decide as E.
    + subst o'. rewrite elem_of_cons. unfold blk. split.
      * intros [_ [H|H]]; [right; lia|by left].
      * intros [[_ H]|[_ ->]]; tauto.
    + unfold blk. naive_solver.
Qed.

Lemma zinv_del z o i b d :
  zinv z → blk z o i → (o < MAX_ORDER - 1 → b = false) → counted z d →
  let z' := area_put z o (FreeArea (filter (λ y, y ≠ offset z + i) (fl z o)) (bit_put z o i b)) in
  zinv z' ∧ counted z' (d + 2 ^ o) ∧ hole z' o i ∧
  ∀ o' j, blk z' o' j ↔ blk z o' j ∧ ¬ (o' = o ∧ j = i).
Proof.
  intros Hz Hbk Hb Hc z'. pose proof (zi_fits z Hz _ _ Hbk) as Hfit. pose proof Hfit as (Ho & _).
  assert (∀ o' j, blk z' o' j ↔ blk z o' j ∧ ¬ (o' = o ∧ j = i)) as Hblk.
  { intros o' j. unfold z'. rewrite put_blk by done. case_decide as E.
    - subst o'. rewrite list_elem_of_filter. unfold blk. split.
      + intros [? [Hne ?]]. split; [done|]. intros [_ ->]. by apply Hne.
      + intros [[? ?] Hn]. split; [done|]. split; [|done]. intros ?. apply Hn. split; [done|lia].
    - unfold blk. naive_solver. }
  split; [|split; [|split; [|done]]].
  - apply zinv_put; try done.
    + apply list.NoDup_filter. by apply Hz.
    + intros j Hj. apply list_elem_of_filter in Hj as [_ Hj]. right. by split.
    + intros j Hne [_ Hj]. apply list_elem_of_filter. split; [lia|done].
    + intros H. apply list_elem_of_filter in H as [H _]. done.
    + intros Hlt. by apply (zi_merged z Hz).
    + intros Hlt. rewrite (Hb Hlt). split; [done|]. intros H.
      apply list_elem_of_filter in H as [H _]. done.
  - replace (d + 2 ^ o) with (d - 2 ^ o * (zlen (filter (λ y, y ≠ offset z + i) (fl z o)) - zlen (fl z o))).
    + by apply put_total.
    + rewrite filter_ne_length; [lia|by apply Hz|apply Hbk].
  - split; [done|]. intros o' j Hj. apply Hblk in Hj as [Hj Hne].
    destruct (zi_apart z Hz o i o' j Hbk Hj) as [[-> ->]|?]; [|done]. by destruct Hne.
Qed.

Lemma area_get_put z o a :
  zinv z → 0 <= o < MAX_ORDER → area_get (area_put z o a) o = Ok a.
Proof.
  intros Hz Ho. unfold area_get, area_put. cbn.
  rewrite list_lookup_insert_eq; [done|]. rewrite (zi_areas z Hz). lia.
Qed.

(** The bit of a place in the zone is inside the map. *)
Lemma bit_in_map z o i :
  zinv z → fits_in z o i → ∃ b, bm z o !! Z.to_nat (i / 2 ^ (o + 1)) = Some b.
Proof.
  intros Hz (Ho & Hi & _ & He). pose proof (zi_maps z Hz o Ho) as Hm.
  apply lookup_lt_is_Some_2. assert (0 < 2 ^ o) by lia. pose proof (pow2_succ o ltac:(lia)) as Hp.
  assert (i / 2 ^ (o + 1) < zlen (bm z o)) by (apply Z.div_lt_upper_bound; lia).
  pose proof (Z.div_pos i (2 ^ (o + 1)) Hi ltac:(lia)). unfold zlen in *. lia.
Qed.

Lemma change_bit_ok z o i b :
  zinv z → fits_in z o i → bm z o !! Z.to_nat (i / 2 ^ (o + 1)) = Some b →
  test_and_change_bit (i / 2 ^ (o + 1)) o z =
    Ok (b, area_put z o (FreeArea (fl z o) (bit_put z o i (negb b)))).
Proof.
  intros Hz (Ho & _) Hb. unfold test_and_change_bit. rewrite (area_get_ok z o Hz Ho).
  cbn [mbind outcome_bind map free_list]. by rewrite Hb.
Qed.

Lemma check_range_ok {A} s zone z x (k : outcome A) :
  pages_ok s zone z → offset z <= x < offset z + size z → check_range s zone z x k = k.
Proof.
  intros Hp Hx. unfold check_range, BAD_RANGE, get_page.
  destruct (Hp x Hx) as (p & -> & Hz). cbn [mbind outcome_bind]. rewrite Hz, Z.eqb_refl.
  destruct (Z.ltb_spec x (offset z)); [lia|]. destruct (Z.leb_spec (offset z + size z) x); [lia|]. done.
Qed.

(** ** The count of free pages is exact *)

(** The free blocks as a list of orders and pages. *)
Fixpoint areas_blocks (l : list free_area_t) (o : Z) : list (Z * Z) :=
  match l with
  | [] => []
  | a :: l => ((λ x, (o, x)) <$> free_list a) ++ areas_blocks l (o + 1)
  end.

Lemma elem_of_areas_blocks l o o' x :
  (o', x) ∈ areas_blocks l o ↔
  o <= o' ∧ ∃ a, l !! Z.to_nat (o' - o) = Some a ∧ x ∈ free_list a.
Proof.
  revert o. induction l as [|a l IH]; intros o; cbn [areas_blocks].
  - rewrite elem_of_nil. split; [done|]. intros (_ & a & H & _). by rewrite lookup_nil in H.
  - rewrite elem_of_app, IH, list_elem_of_fmap. split.
    + intros [(y & [= -> ->] & Hy)|(Hle & b & Hb & Hx)].
      * split; [lia|]. exists a. by rewrite Z.sub_diag.
      * split; [lia|]. exists b. replace (Z.to_nat (o' - o)) with (S (Z.to_nat (o' - (o + 1)))) by lia. done.
    + intros (Hle & b & Hb & Hx). destruct (decide (o' = o)) as [->|Hne].
      * left. rewrite Z.sub_diag in Hb. cbn in Hb. injection Hb as ->. by exists x.
      * right. split; [lia|]. exists b.
        replace (Z.to_nat (o' - o)) with (S (Z.to_nat (o' - (o + 1)))) in Hb by lia. done.
Qed.

Lemma areas_blocks_NoDup l o :
  (∀ a, a ∈ l → NoDup (free_list a)) → NoDup (areas_blocks l o).
Proof.
  revert o. induction l as [|a l IH]; intros o H; cbn [areas_blocks]; [constructor|].
  apply list.NoDup_app. split; [|split].
  - apply NoDup_fmap_2; [intros x y; congruence|]. apply H. by apply elem_of_cons; left.
  - intros [o' x] Hx Hx'. apply list_elem_of_fmap in Hx as (y & [= -> ->] & _).
    apply elem_of_areas_blocks in Hx' as [? _]. lia.
  - apply IH. intros b Hb. apply H. by apply elem_of_cons; right.
Qed.

Lemma areas_pages_length l o :
  0 <= o → zlen (areas_blocks l o ≫= λ b, seqZ b.2 (2 ^ b.1)) = areas_total l (2 ^ o).
Proof.
  revert o. induction l as [|a l IH]; intros o Ho; cbn [areas_blocks areas_total]; [done|].
  rewrite bind_app, zlen_app, IH by lia. rewrite pow2_succ by done. f_equal.
  induction (free_list a) as [|x k IHk]; [unfold zlen; cbn; lia|].
  cbn [fmap list_fmap list_bind mbind] in *. rewrite zlen_app, IHk, zlen_cons.
  unfold zlen. rewrite length_seqZ. assert (0 < 2 ^ o) by lia. cbn [fst]. lia.
Qed.

Lemma total_le_size z : zinv z → 0 <= areas_total (free_area z) 1 <= size z.
Proof.
  intros Hz. change 1 with (2 ^ 0). rewrite <- areas_pages_length by lia.
  set (bl := areas_blocks (free_area z) 0). set (pl := bl ≫= _).
  assert (∀ o x, (o, x) ∈ bl → blk z o (x - offset z)) as Hbl.
  { intros o x Hx. apply elem_of_areas_blocks in Hx as (Ho & a & Ha & Hx).
    rewrite Z.sub_0_r in Ha. split.
    - apply lookup_lt_Some in Ha. rewrite (zi_areas z Hz) in Ha. unfold MAX_ORDER in *. lia.
    - unfold fl. rewrite Ha. by replace (offset z + (x - offset z)) with x by lia. }
  assert (NoDup pl) as Hnd.
  { apply NoDup_bind.
    - intros [o x] [o' x'] p H1 H2 Hp1 Hp2. apply elem_of_seqZ in Hp1, Hp2. cbn in *.
      destruct (zi_apart z Hz _ _ _ _ (Hbl _ _ H1) (Hbl _ _ H2)) as [[-> ?]|[?|?]]; [|lia..].
      f_equal. lia.
    - intros [o x] _. apply NoDup_seqZ.
    - apply areas_blocks_NoDup. intros a Ha. apply list_elem_of_lookup in Ha as [k Hk].
      pose proof (lookup_lt_Some _ _ _ Hk) as Hlt. rewrite (zi_areas z Hz) in Hlt.
      pose proof (zi_nodup z Hz (Z.of_nat k) ltac:(unfold MAX_ORDER in *; lia)) as H.
      unfold fl in H. by rewrite Nat2Z.id, Hk in H. }
  assert (pl ⊆ seqZ (offset z) (size z)) as Hsub.
  { intros p Hp. apply list_elem_of_bind in Hp as ([o x] & Hp & Hb). apply elem_of_seqZ in Hp. cbn in Hp.
    destruct (zi_fits z Hz _ _ (Hbl _ _ Hb)) as (_ & ? & _ & ?). apply elem_of_seqZ. lia. }
  pose proof (submseteq_length _ _ (NoDup_submseteq _ _ Hnd Hsub)) as Hlen.
  rewrite length_seqZ in Hlen. pose proof (zi_range z Hz). unfold zlen. lia.
Qed.

(** Free pages, counted exactly. *)
Lemma counted_exact z : zinv z → counted z 0 → free_pages z = areas_total (free_area z) 1.
Proof.
  intros Hz Hc. pose proof (total_le_size z Hz). pose proof (zi_range z Hz).
  unfold counted in Hc. rewrite Hc, Z.add_0_r, wrap_small; [done|lia].
Qed.

(** ** Freeing a block *)

(** Page [p] of the zone is in a free block. *)
Definition covered (z : zone_t) (p : Z) : Prop := ∃ o i, blk z o i ∧ i <= p < i + 2 ^ o.

(** Only [free_pages] and [free_area] differ. *)
Definition same_zone (z z' : zone_t) : Prop :=
  z' = set_free_pages (free_pages z') (set_free_area (free_area z') z).

Lemma same_zone_put z o a z' : same_zone (area_put z o a) z' → same_zone z z'.
Proof. unfold same_zone. intros ->. done. Qed.

Lemma same_zone_trans z1 z2 z3 : same_zone z1 z2 → same_zone z2 z3 → same_zone z1 z3.
Proof.
  destruct z1, z2, z3. unfold same_zone, set_free_pages, set_free_area. cbn. congruence.
Qed.

(** The mask of an order, as the code keeps it. *)
Definition omask (o : Z) : Z := 2 ^ 32 - 2 ^ o.

Lemma omask_facts o :
  0 <= o < MAX_ORDER →
  u32 (Z.shiftl (2 ^ 32 - 1) o) = omask o ∧
  (u32 (omask o + Z.shiftl 1 (MAX_ORDER - 1)) =? 0) = (o =? MAX_ORDER - 1) ∧
  u32 (- omask o) = 2 ^ o ∧ u32 (Z.shiftl (omask o) 1) = omask (o + 1) ∧
  (∀ x, 0 <= x < 2 ^ 32 → Z.land x (omask o) = 2 ^ o * (x / 2 ^ o)).
Proof.
  intros Ho. unfold omask. change MAX_ORDER with 10 in *. change (Z.shiftl 1 (10 - 1)) with 512.
  assert (1 <= 2 ^ o <= 2 ^ 9) as Hp by (split; [lia|apply Z.pow_le_mono_r; lia]).
  assert (∀ k v, v = 2 ^ 32 * k + (v - 2 ^ 32 * k)) as Hk by lia.
  assert (∀ k v, 0 <= v - k * 2 ^ 32 < 2 ^ 32 → u32 v = v - k * 2 ^ 32) as Hw.
  { intros k v Hv. unfold wrap. symmetry. apply (Z.mod_unique_pos _ _ k); lia. }
  split; [|split; [|split; [|split]]].
  - rewrite Z.shiftl_mul_pow2 by lia. rewrite (Hw (2 ^ o - 1)); lia.
  - destruct (Z.eqb_spec o (10 - 1)) as [->|Hne]; [done|].
    assert (2 ^ o <= 2 ^ 8) by (apply Z.pow_le_mono_r; lia).
    rewrite (Hw 1) by lia. apply Z.eqb_neq. lia.
  - rewrite (Hw (-1)); lia.
  - rewrite Z.shiftl_mul_pow2, (Hw 1), pow2_succ by lia. lia.
  - intros x Hx. rewrite <- land_align by lia. f_equal. rewrite (Hw (-1)); unfold Z.lnot; lia.
Qed.

Lemma hole_merge z z2 o i :
  hole z o i → blk z o (buddy o i) → o < MAX_ORDER - 1 → zinv z →
  (∀ o' j, blk z2 o' j → blk z o' j) → hole z2 o (buddy o i) → size z2 = size z →
  hole z2 (o + 1) (2 ^ (o + 1) * (i / 2 ^ (o + 1))).
Proof.
  intros [Hfit Hc] Hb Hlt Hz Hsub [_ Hc2] Hsz. pose proof (zi_fits z Hz _ _ Hb) as Hfb.
  pose proof (buddy_merge o i z Hfit Hfb Hlt) as Hm. pose proof Hfit as (Ho & Hi & Hd & _).
  split; [unfold fits_in in *; by rewrite Hsz|]. intros o' j Hj.
  pose proof (Hc o' j (Hsub _ _ Hj)) as H1. pose proof (Hc2 o' j Hj) as H2. unfold clear_of in *.
  destruct Hj as [? _]. assert (0 < 2 ^ o') by lia. assert (0 < 2 ^ o) by lia.
  rewrite (pow2_succ o) in * by lia.
  destruct (buddy_halves o i ltac:(lia) Hi Hd) as [[E1 E2]|[E1 E2]];
    rewrite (pow2_succ o) in * by lia; lia.
Qed.

Lemma merge_spec n s zone : ∀ z o i,
  Z.of_nat n = MAX_ORDER - o → zinv z → pages_ok s zone z → hole z o i → counted z (2 ^ o) →
  ∃ z1 i' o' z2,
    merge_loop n s zone z i (i / 2 ^ (o + 1)) (omask o) o = Ok (z1, i', o') ∧
    memlist_add_head (offset z1 + i') o' z1 = Ok z2 ∧ same_zone z z2 ∧
    free_pages z2 = free_pages z ∧ zinv z2 ∧ counted z2 0 ∧
    ∀ p, covered z2 p ↔ covered z p ∨ i <= p < i + 2 ^ o.
Proof.
  induction n as [|n IH]; intros z o i Hn Hz Hp Hh Hc.
  { pose proof Hh as [(? & _) _]. lia. }
  pose proof Hh as [Hfit Hclear]. pose proof Hfit as (Ho & Hi & Hd & He).
  destruct (omask_facts o Ho) as (_ & Htop & Hneg & Hshl & _). assert (0 < 2 ^ o) by lia.
  cbn [merge_loop]. rewrite Htop. destruct (bit_in_map z o i Hz Hfit) as [b Hb].
  assert (∀ b', (o < MAX_ORDER - 1 → b' = true ∧ ¬ blk z o (buddy o i)) →
    let z2 := area_put z o (FreeArea (offset z + i :: fl z o) (bit_put z o i b')) in
    zinv z2 ∧ counted z2 0 ∧ ∀ p, covered z2 p ↔ covered z p ∨ i <= p < i + 2 ^ o) as Hadd.
  { intros b' Hb'. destruct (zinv_add z o i b' 0 Hz Hh Hb' Hc) as (? & ? & Hblk).
    split; [done|]. split; [done|]. intros p. unfold covered. split.
    - intros (o' & j & Hj & ?). apply Hblk in Hj as [Hj|[-> ->]]; [left; eauto|by right].
    - intros [(o' & j & Hj & ?)|?]; [exists o', j|exists o, i]; (split; [apply Hblk|done]); tauto. }
  destruct (Z.eqb_spec o (MAX_ORDER - 1)) as [Heq|Hne].
  - exists z, i, o. unfold memlist_add_head. rewrite (area_get_ok z o Hz Ho). cbn [mbind outcome_bind].
    eexists. do 4 (split; [done|]).
    assert (bm z o = bit_put z o i b) as E by (unfold bit_put; by rewrite list_insert_id).
    cbn [free_list map]. rewrite E. apply Hadd. lia.
  - destruct (Z.leb_spec MAX_ORDER o); [lia|]. unfold BUG_if.
    rewrite (change_bit_ok z o i b Hz Hfit Hb). cbn [mbind outcome_bind].
    pose proof (zi_bits z Hz o i b ltac:(lia) Hfit Hb) as Hbit.
    pose proof (hole_not_blk _ _ _ Hh) as Hnb. destruct b; cbn [negb].
    + assert (blk z o (buddy o i)) as Hbud by (destruct (proj1 Hbit eq_refl); done).
      pose proof (zi_fits z Hz _ _ Hbud) as (_ & ? & _ & ?).
      rewrite Hneg. fold (buddy o i).
      set (za := area_put z o _).
      assert (pages_ok s zone za) as Hpa by done.
      do 2 (rewrite check_range_ok;
        [|done|change (offset za) with (offset z); change (size za) with (size z); lia]).
      unfold memlist_del, za. rewrite area_get_put by done. cbn [mbind outcome_bind free_list map].
      change (offset (area_put _ _ _)) with (offset z).
      rewrite decide_True by (apply Hbud). cbn [mbind outcome_bind]. rewrite area_put_put.
      destruct (buddy_facts o i ltac:(lia) Hi Hd) as (_ & _ & Hq & _).
      assert (bit_put z o i false = bit_put z o (buddy o i) false) as ->
        by (unfold bit_put; by rewrite Hq).
      destruct (zinv_del z o (buddy o i) false (2 ^ o) Hz Hbud (λ _, eq_refl) Hc) as (Hz2 & Hc2 & Hh2 & Hblk).
      clear Hpa za. set (z2 := area_put z o (FreeArea (filter _ _) _)) in *.
      assert (hole z2 (o + 1) (2 ^ (o + 1) * (i / 2 ^ (o + 1)))) as Hm.
      { apply (hole_merge z z2 o i); [done|done|lia|done| |exact Hh2|done]. intros o' j H'. by apply Hblk in H' as [H' _]. }
      destruct (omask_facts (o + 1) ltac:(lia)) as (_ & _ & _ & _ & Hland).
      rewrite Hshl, Hland by (pose proof (zi_range z Hz); lia).
      assert (Z.shiftr (i / 2 ^ (o + 1)) 1 =
        2 ^ (o + 1) * (i / 2 ^ (o + 1)) / 2 ^ (o + 1 + 1)) as ->.
      { rewrite Z.shiftr_div_pow2, (pow2_succ (o + 1)) by lia.
        rewrite (Z.mul_comm (2 ^ (o + 1))), (Z.div_mul_cancel_r _ 2); [done|lia|lia]. }
      destruct (IH z2 (o + 1) _ ltac:(lia) Hz2 Hp Hm) as
        (z1 & i' & o' & z3 & ? & ? & ? & ? & ? & ? & Hcov).
      { rewrite pow2_succ by lia. by replace (2 * 2 ^ o) with (2 ^ o + 2 ^ o) by lia. }
      exists z1, i', o', z3. split; [done|]. split; [done|].
      split; [by eapply same_zone_put|]. do 3 (split; [done|]).
      intros p. rewrite Hcov. rewrite pow2_succ by lia.
      assert (covered z p ↔ covered z2 p ∨ buddy o i <= p < buddy o i + 2 ^ o) as ->.
      { unfold covered. split.
        - intros (o2 & j & Hj & ?). destruct (decide (o2 = o ∧ j = buddy o i)) as [[-> ->]|Hd2]; [by right|].
          left. exists o2, j. split; [apply Hblk|]; done.
        - intros [(o2 & j & Hj & ?)|?]; [|by exists o, (buddy o i)].
          exists o2, j. apply Hblk in Hj as [? _]. done. }
      destruct (buddy_halves o i ltac:(lia) Hi Hd) as [[E1 E2]|[E1 E2]];
        rewrite (pow2_succ o) in * by lia; rewrite E2; intuition lia.
    + set (za := area_put z o _). exists za, i, o. unfold memlist_add_head, za.
      rewrite area_get_put by done. cbn [mbind outcome_bind free_list map]. rewrite area_put_put.
      eexists. do 4 (split; [done|]).
      change (offset (area_put _ _ _)) with (offset z). apply Hadd. intros _. split; [done|].
      intros Hbud. discriminate (proj2 Hbit (or_intror Hbud)).
Qed.

(** More fuel does not change the result of the loop. *)
Lemma merge_loop_mono n m s zone z i ix mask area r :
  (n <= m)%nat → merge_loop n s zone z i ix mask area = Ok r →
  merge_loop m s zone z i ix mask area = Ok r.
Proof.
  revert m z i ix mask area. induction n as [|n IH]; intros [|m] z i ix mask area Hle H;
    try done; [lia|]. cbn [merge_loop] in *. case_match; [done|]. unfold BUG_if, check_range in *.
  case_match; [done|]. destruct (test_and_change_bit ix area z) as [[old z1]|]; [|done].
  cbn [mbind outcome_bind] in *. destruct old; cbn [negb] in *; [|done].
  destruct (BAD_RANGE _ _ _ (_ + Z.lxor _ _)) as [[]|]; try done. cbn [mbind outcome_bind] in *.
  destruct (BAD_RANGE _ _ _ (offset z1 + i)) as [[]|]; try done. cbn [mbind outcome_bind] in *.
  destruct (memlist_del _ _ _) as [z2|]; [|done]. cbn [mbind outcome_bind] in *.
  apply IH; [lia|done].
Qed.

(** A zone of the system in a consistent state. *)
Definition vinv (s : vm) (zone : Z) (z : zone_t) : Prop :=
  zones s !! zone = Some z ∧ zinv z ∧ counted z 0 ∧ pages_ok s zone z.

Lemma pages_ok_put s zone z x p p' :
  pages_ok s zone z → mem_map s !! x = Some p → page_zone p' = page_zone p →
  pages_ok (put_page s x p') zone z.
Proof.
  intros Hp Hx E y Hy. destruct (Hp y Hy) as (q & Hq & Hz). cbn.
  destruct (decide (y = x)) as [->|Hne].
  - rewrite lookup_insert_eq. exists p'. split; [done|]. congruence.
  - rewrite lookup_insert_ne by done. eauto.
Qed.

Lemma free_ok_spec s zone z page p order :
  vinv s zone z → mem_map s !! page = Some p → page_zone p = zone →
  hole z order (page - offset z) → Z.testbit (flags p) PG_reserved = false →
  unfreeable s page p = false →
  ∃ s' z', __free_pages_ok s page order = Ok s' ∧ vinv s' zone z' ∧ same_zone z z' ∧
    free_pages z' = free_pages z + 2 ^ order ∧
    (∀ q, covered z' q ↔ covered z q ∨ page - offset z <= q < page - offset z + 2 ^ order) ∧
    (∀ x, x ≠ page → mem_map s' !! x = mem_map s !! x) ∧
    (∀ zo, zo ≠ zone → zones s' !! zo = zones s !! zo).
Proof.
  intros (Hzone & Hz & Hc & Hp) Hpg Hpz Hh Hres Hfree. unfold __free_pages_ok.
  unfold get_page. rewrite Hpg. cbn [mbind outcome_bind]. rewrite Hres, Hfree. unfold BUG_if at 1.
  cbn [page_zone]. rewrite Hpz. set (s1 := put_page s page _). unfold get_zone.
  change (zones s1) with (zones s). rewrite Hzone.
  cbn [mbind outcome_bind]. pose proof Hh as [(Ho & Hi & Hd & He) _].
  destruct (omask_facts order Ho) as (-> & _ & _ & _ & _). pose proof (zi_range z Hz) as (? & ? & ?).
  assert (0 < 2 ^ order) by lia. rewrite (wrap_small 32 (page - offset z)) by lia.
  assert (Z.land (page - offset z) (u32 (Z.lnot (omask order))) = 0) as ->.
  { assert (2 ^ order <= 2 ^ 10) by (apply Z.pow_le_mono_r; unfold MAX_ORDER in *; lia).
    assert (u32 (Z.lnot (omask order)) = Z.ones order) as ->.
    { rewrite Z.ones_equiv. unfold wrap, omask, Z.lnot. symmetry. apply (Z.mod_unique_pos _ _ (-1)); lia. }
    rewrite Z.land_ones by lia. by apply Z.mod_divide; [lia|]. }
  unfold BUG_if. cbn [c_true Z.eqb negb].
  rewrite Z.shiftr_div_pow2, (Z.add_comm 1 order) by lia.
  set (zf := set_free_pages _ z).
  assert (zinv zf) as Hzf by (destruct Hz; by constructor).
  assert (counted zf (2 ^ order)) as Hcf.
  { unfold counted in *. cbn. rewrite Hc. unfold omask, wrap. rewrite Zminus_mod_idemp_l.
    replace (areas_total (free_area z) 1 + 0 - (2 ^ 32 - 2 ^ order)) with
      (areas_total (free_area z) 1 + 2 ^ order + (-1) * 2 ^ 32) by lia.
    by rewrite Z.mod_add by lia. }
  assert (pages_ok s1 zone zf) as Hp1 by (by apply (pages_ok_put s zone z page p)).
  destruct (merge_spec (S (Z.to_nat MAX_ORDER) - Z.to_nat (order + 1)) s1 zone zf order (page - offset z)) as
    (z1 & i' & o' & z2 & Hm1 & Hm2 & Hm3 & Hfp & Hm4 & Hm5 & Hcov); try done.
  { unfold MAX_ORDER in *. lia. }
  apply (merge_loop_mono _ (S (Z.to_nat MAX_ORDER))) in Hm1; [|lia].
  rewrite Hm1. cbn [mbind outcome_bind]. rewrite Hm2. cbn [mbind outcome_bind].
  eexists _, z2. split; [reflexivity|]. split; [|split; [|split; [|split; [|split]]]].
  - split; [cbn; by rewrite lookup_insert_eq|]. split; [done|]. split; [done|].
    unfold same_zone in Hm3. rewrite Hm3. exact Hp1.
  - exact Hm3.
  - pose proof (counted_exact z Hz Hc). pose proof (total_le_size z Hz).
    assert (2 ^ order <= 2 ^ 10) by (apply Z.pow_le_mono_r; unfold MAX_ORDER in *; lia).
    rewrite Hfp. cbn. unfold wrap, omask. symmetry. apply (Z.mod_unique_pos _ _ (-1)); lia.
  - exact Hcov.
  - intros x Hx. cbn. by rewrite lookup_insert_ne.
  - intros zo Hzo. cbn. by rewrite lookup_insert_ne.
Qed.

(** ** Allocating a block *)

(** The lower half of a block in use is a place for a block too, and its buddy, the
    upper half, is not free. *)
Lemma hole_lower z o i :
  hole z (o + 1) i → 0 <= o → hole z o i ∧ buddy o i = i + 2 ^ o ∧ ¬ blk z o (buddy o i) ∧
  i / 2 ^ (o + 1) * 2 ^ (o + 1) = i ∧ fits_in z o (i + 2 ^ o).
Proof.
  intros [(Ho & Hi & [q Hq] & He) Hc] Ho0. rewrite pow2_succ in * by lia. assert (0 < 2 ^ o) by lia.
  assert ((2 ^ o | i)) as Hd by (exists (q * 2); lia).
  assert (2 * 2 ^ o * (i / (2 * 2 ^ o)) = i) as Em by (rewrite Hq, Z.div_mul by lia; lia).
  destruct (buddy_halves o i Ho0 Hi Hd) as [[E1 E2]|[E1 E2]]; rewrite pow2_succ in * by lia; [|lia].
  assert (fits_in z o i ∧ fits_in z o (i + 2 ^ o)) as [? ?].
  { split; (split; [lia|]); (split; [lia|]); (split; [|lia]); [done|].
    apply Z.divide_add_r; [done|]. by exists 1; lia. }
  split; [|split; [lia|split; [|split; [lia|done]]]].
  - split; [done|]. intros o' j Hj. unfold clear_of in *. destruct (Hc o' j Hj); rewrite ?pow2_succ in *; lia.
  - rewrite E2. intros Hb. unfold clear_of in *. destruct (Hc _ _ Hb); rewrite ?pow2_succ in * by lia; lia.
Qed.

Lemma expand_spec n s zone : ∀ z i low d,
  let high := low + Z.of_nat n in
  0 <= low → zinv z → pages_ok s zone z → hole z high i → counted z d →
  ∃ z' i', expand n s zone z (offset z + i) i high (2 ^ high) high = Ok (z', offset z + i') ∧
    same_zone z z' ∧ free_pages z' = free_pages z ∧ zinv z' ∧ hole z' low i' ∧ i <= i' ∧ i' + 2 ^ low <= i + 2 ^ high ∧
    counted z' (d - 2 ^ high + 2 ^ low) ∧
    ∀ p, covered z' p ↔ covered z p ∨ (i <= p < i + 2 ^ high ∧ ¬ i' <= p < i' + 2 ^ low).
Proof.
  induction n as [|n IH]; intros z i low d high Hlow Hz Hp Hh Hc; pose proof Hh as [(Ho & Hi & Hd & He) _];
    assert (0 < 2 ^ high) by (unfold high in *; lia); cbn [expand];
    rewrite check_range_ok by (done || lia).
  - exists z, i. assert (high = low) as E by lia. rewrite E in *. split; [done|].
    split; [by destruct z|]. do 3 (split; [done|]). split; [lia|]. split; [lia|].
    split; [by replace (d - 2 ^ low + 2 ^ low) with d by lia|].
    intros p. split; [by left|]. intros [?|?]; [done|lia].
  - set (o := high - 1). assert (high = o + 1) as Eh by lia.
    rewrite Eh in Hh. destruct (hole_lower z o i Hh ltac:(lia)) as (Hl & Eb & Hnb & Ei & Hfu).
    pose proof Hl as [Hfl _]. pose proof Hfl as (Ho' & _).
    destruct (bit_in_map z o i Hz Hfl) as [b Hb].
    assert (b = false) as ->.
    { pose proof (zi_bits z Hz o i b ltac:(lia) Hfl Hb) as Hbit. destruct b; [|done].
      destruct (proj1 Hbit eq_refl) as [?|?]; [by destruct (hole_not_blk _ _ _ Hl)|done]. }
    unfold memlist_add_head at 1. rewrite (area_get_ok z o Hz Ho'). cbn [mbind outcome_bind free_list map].
    unfold MARK_USED, test_and_change_bit. rewrite area_get_put by done.
    cbn [mbind outcome_bind free_list map].
    assert (Z.shiftr i (1 + o) = i / 2 ^ (o + 1)) as ->
      by (rewrite Z.shiftr_div_pow2, Z.add_comm by lia; done).
    rewrite Hb. cbn [mbind outcome_bind negb]. rewrite area_put_put.
    destruct (zinv_add z o i true (d - 2 ^ o) Hz Hl) as (Hz2 & Hc2 & Hblk); [done| |].
    { by replace (d - 2 ^ o + 2 ^ o) with d by lia. }
    fold (bit_put z o i true). set (z2 := area_put z o _) in *.
    assert (hole z2 o (i + 2 ^ o)) as Hh2.
    { split; [done|]. intros o' j Hj. apply Hblk in Hj as [Hj|[-> ->]]; [|right; lia].
      destruct Hh as [_ Hcl]. specialize (Hcl _ _ Hj). unfold clear_of in *.
      rewrite pow2_succ in Hcl by lia. destruct Hj as [? _]. lia. }
    assert (Z.shiftr (2 ^ high) 1 = 2 ^ o) as ->.
    { rewrite Eh, pow2_succ, Z.shiftr_div_pow2, Z.mul_comm by lia. by rewrite Z.div_mul. }
    assert (o = low + Z.of_nat n) as Eo by lia. rewrite Eo in Hh2 |- *.
    rewrite <- Z.add_assoc.
    destruct (IH z2 (i + 2 ^ (low + Z.of_nat n)) low (d - 2 ^ o) Hlow Hz2 Hp Hh2 Hc2) as
      (z' & i' & Hex & Hs & Hfp & Hz' & Hh' & Hi1 & Hi2 & Hc' & Hcov).
    change (offset z2) with (offset z) in Hex. rewrite Hex.
    exists z', i'. rewrite <- Eo in *. assert (2 ^ high = 2 * 2 ^ o) as E2 by (rewrite Eh; apply pow2_succ; lia).
    split; [done|]. split; [by eapply same_zone_put|]. do 3 (split; [done|]).
    split; [lia|]. split; [lia|]. split.
    { replace (d - 2 ^ high + 2 ^ low) with (d - 2 ^ o - 2 ^ o + 2 ^ low) by lia. done. }
    intros p. rewrite Hcov, E2.
    assert (covered z2 p ↔ covered z p ∨ i <= p < i + 2 ^ o) as ->.
    { unfold covered. split.
      - intros (o2 & j & Hj & ?). apply Hblk in Hj as [Hj|[-> ->]]; [left; eauto|by right].
      - intros [(o2 & j & Hj & ?)|?]; [exists o2, j|exists o, i]; (split; [apply Hblk|done]); tauto. }
    intuition lia.
Qed.

(** Taking the block at the head of the list of order [o]. *)
Lemma take_block z o i b0 :
  zinv z → counted z 0 → blk z o i → bm z o !! Z.to_nat (i / 2 ^ (o + 1)) = Some b0 →
  ∃ z2, memlist_del (offset z + i) o z ≫= MARK_USED i o o = Ok z2 ∧ same_zone z z2 ∧
    zinv z2 ∧ counted z2 (2 ^ o) ∧ hole z2 o i ∧ free_pages z2 = free_pages z ∧
    ∀ p, covered z p ↔ covered z2 p ∨ i <= p < i + 2 ^ o.
Proof.
  intros Hz Hc Hb Hbit. pose proof (zi_fits z Hz _ _ Hb) as Hfit. pose proof Hfit as (Ho & Hi & _).
  unfold memlist_del. rewrite (area_get_ok z o Hz Ho). cbn [mbind outcome_bind free_list map].
  rewrite decide_True by (apply Hb). cbn [mbind outcome_bind].
  unfold MARK_USED, test_and_change_bit. rewrite area_get_put by done. cbn [mbind outcome_bind free_list map].
  assert (Z.shiftr i (1 + o) = i / 2 ^ (o + 1)) as ->
    by (rewrite Z.shiftr_div_pow2, Z.add_comm by lia; done).
  rewrite Hbit. cbn [mbind outcome_bind]. rewrite area_put_put. fold (bit_put z o i (negb b0)).
  destruct (zinv_del z o i (negb b0) 0 Hz Hb) as (Hz2 & Hc2 & Hh & Hblk); [|done|].
  { intros Hlt. pose proof (zi_bits z Hz o i b0 Hlt Hfit Hbit) as Hbt.
    by rewrite (proj2 Hbt (or_introl Hb)). }
  eexists. split; [done|]. split; [done|]. split; [done|]. split; [by rewrite Z.add_0_l in Hc2|].
  split; [done|]. split; [done|]. intros p. unfold covered. split.
  - intros (o2 & j & Hj & ?). destruct (decide (o2 = o ∧ j = i)) as [[-> ->]|Hd]; [by right|].
    left. exists o2, j. split; [apply Hblk|]; done.
  - intros [(o2 & j & Hj & ?)|?]; [|by exists o, i]. exists o2, j. apply Hblk in Hj as [? _]. done.
Qed.

Lemma rmqueue_found n s zone z order c i l :
  vinv s zone z → 0 <= order <= c → c < MAX_ORDER → fl z c = offset z + i :: l →
  ∃ s' z' i', rmqueue_loop (S n) s zone z order c = Ok (s', Some (offset z + i')) ∧
    vinv s' zone z' ∧ same_zone z z' ∧ free_pages z' = free_pages z - 2 ^ order ∧ hole z' order i' ∧
    (∀ q, covered z q ↔ covered z' q ∨ i' <= q < i' + 2 ^ order) ∧
    (∃ p, mem_map s' !! (offset z + i') = Some p ∧ count p = 1) ∧
    (∀ x, x ≠ offset z + i' → mem_map s' !! x = mem_map s !! x) ∧
    (∀ zo, zo ≠ zone → zones s' !! zo = zones s !! zo).
Proof.
  intros (Hzone & Hz & Hc & Hp) Ho Hlt Hfl. cbn [rmqueue_loop].
  rewrite (area_get_ok z c Hz ltac:(lia)). cbn [mbind outcome_bind free_list]. rewrite Hfl.
  assert (blk z c i) as Hb by (split; [lia|]; rewrite Hfl; by apply elem_of_cons; left).
  pose proof (zi_fits z Hz _ _ Hb) as Hfit. pose proof Hfit as (_ & Hi & _ & He).
  assert (0 < 2 ^ c) by lia. rewrite check_range_ok by (done || lia).
  destruct (bit_in_map z c i Hz Hfit) as [b0 Hb0].
  destruct (take_block z c i b0 Hz Hc Hb Hb0) as (z2 & Ht & Hs & Hz2 & Hc2 & Hh & Hfp & Hcov).
  destruct (memlist_del (offset z + i) c z) as [z1|] eqn:Hd; [|done]. cbn [mbind outcome_bind] in *.
  assert (offset z1 = offset z) as Eo.
  { unfold memlist_del in Hd. rewrite (area_get_ok z c Hz ltac:(lia)) in Hd.
    cbn [mbind outcome_bind] in Hd. case_decide; [|done]. by injection Hd as <-. }
  pose proof (zi_range z Hz) as (? & ? & ?).
  rewrite Eo, wrap_small by lia. replace (offset z + i - offset z) with i by lia.
  rewrite Ht. cbn [mbind outcome_bind]. set (zf := set_free_pages _ z2).
  assert (zinv zf) as Hzf by (destruct Hz2; by constructor).
  assert (counted zf (2 ^ c - 2 ^ order)) as Hcf.
  { unfold counted in *. cbn. rewrite Hc2. rewrite Z.shiftl_1_l. unfold wrap.
    rewrite Zminus_mod_idemp_l. f_equal. lia. }
  assert (offset z2 = offset z ∧ size z2 = size z) as [Eo2 Es2] by (unfold same_zone in Hs; by rewrite Hs).
  assert (pages_ok s zone zf) as Hpf by (unfold pages_ok; cbn; by rewrite Eo2, Es2).
  destruct (expand_spec (Z.to_nat (c - order)) s zone zf i order (2 ^ c - 2 ^ order)) as
    (z' & i' & Hex & Hs' & Hfp' & Hz' & Hh' & Hi1 & Hi2 & Hc' & Hcov'); try done.
  { lia. }
  { by replace (order + Z.of_nat (Z.to_nat (c - order))) with c by lia. }
  replace (order + Z.of_nat (Z.to_nat (c - order))) with c in * by lia.
  change (offset zf) with (offset z2) in Hex. rewrite Eo2 in Hex. rewrite Z.shiftl_1_l, Hex.
  cbn [mbind outcome_bind].
  assert (0 < 2 ^ order) by lia. unfold get_page. destruct (Hp (offset z + i')) as (p & Hpp & Hpz); [lia|].
  rewrite Hpp. cbn [mbind outcome_bind].
  set (s' := put_page (put_zone s zone z') (offset z + i') (set_count 1 p)).
  assert (offset z' = offset z ∧ size z' = size z) as [Eo' Es'].
  { unfold same_zone in Hs'. rewrite Hs'. cbn. done. }
  assert (pages_ok s' zone z') as Hps'.
  { apply (pages_ok_put (put_zone s zone z') zone z' _ p); [|done|done].
    intros x Hx. rewrite Eo', Es' in Hx. by apply Hp. }
  rewrite check_range_ok; [|done|lia].
  assert (counted z' 0) as Hc0 by (by replace 0 with (2 ^ c - 2 ^ order - 2 ^ c + 2 ^ order) by lia).
  exists s', z', i'. split; [done|]. split; [split; [cbn; by rewrite lookup_insert_eq|]|].
  { split; [done|]. split; [|done]. done. }
  split; [by apply (same_zone_trans _ z2); [|apply (same_zone_trans _ zf)]|].
  split.
  { pose proof (counted_exact z Hz Hc). pose proof (counted_exact z' Hz' Hc0).
    pose proof (total_le_size z Hz). pose proof (total_le_size z' Hz').
    assert (2 ^ order <= 2 ^ 10) by (apply Z.pow_le_mono_r; unfold MAX_ORDER in *; lia).
    rewrite Hfp' in *. cbn in *. rewrite Hfp, Z.shiftl_1_l in *. unfold wrap in *.
    assert (∀ v, - 2 ^ 20 <= v <= 2 ^ 20 → 0 <= v mod 2 ^ 32 <= 2 ^ 20 → v mod 2 ^ 32 = v) as Hmod.
    { intros v Hv Hm. destruct (Z.le_gt_cases 0 v); [apply Z.mod_small; lia|].
      rewrite <- (Z.mod_unique_pos v (2 ^ 32) (-1) (v + 2 ^ 32)) in Hm; lia. }
    apply Hmod; lia. }
  split; [done|]. split.
  { intros q. rewrite Hcov, Hcov'. change (covered zf q) with (covered z2 q). intuition lia. }
  split. { cbn. rewrite lookup_insert_eq. by eexists. }
  split; [intros x Hx; cbn; by rewrite lookup_insert_ne|].
  intros zo Hzo. cbn. by rewrite lookup_insert_ne.
Qed.

Lemma rmqueue_spec s zone z order :
  vinv s zone z → 0 <= order < MAX_ORDER →
  (rmqueue s zone order = Ok (s, None) ∧ ∀ o i, order <= o → ¬ blk z o i) ∨
  (∃ s' z' i, rmqueue s zone order = Ok (s', Some (offset z + i)) ∧
    vinv s' zone z' ∧ same_zone z z' ∧ free_pages z' = free_pages z - 2 ^ order ∧ hole z' order i ∧
    (∀ q, covered z q ↔ covered z' q ∨ i <= q < i + 2 ^ order) ∧
    (∃ p, mem_map s' !! (offset z + i) = Some p ∧ count p = 1) ∧
    (∀ x, x ≠ offset z + i → mem_map s' !! x = mem_map s !! x) ∧
    (∀ zo, zo ≠ zone → zones s' !! zo = zones s !! zo)).
Proof.
  intros Hv Ho. unfold rmqueue, get_zone. pose proof Hv as (Hzone & Hz & _). rewrite Hzone.
  cbn [mbind outcome_bind].
  assert (∀ n c, order <= c → c < MAX_ORDER → Z.of_nat n = MAX_ORDER - c →
    (∀ o i, order <= o < c → ¬ blk z o i) →
    (rmqueue_loop n s zone z order c = Ok (s, None) ∧ ∀ o i, order <= o → ¬ blk z o i) ∨
    ∃ c' i l m, c <= c' < MAX_ORDER ∧ fl z c' = offset z + i :: l ∧
      rmqueue_loop n s zone z order c = rmqueue_loop (S m) s zone z order c') as Hloop.
  { induction n as [|n IH]; intros c Hc1 Hc2 Hn Hno; [lia|].
    destruct (fl z c) as [|x l] eqn:Hfl.
    - assert (∀ o i, order <= o < c + 1 → ¬ blk z o i) as Hno'.
      { intros o i Hoi [? Hb]. destruct (decide (o = c)) as [->|Hne].
        - rewrite Hfl in Hb. by apply elem_of_nil in Hb.
        - apply (Hno o i); [lia|by split]. }
      cbn [rmqueue_loop]. rewrite (area_get_ok z c Hz ltac:(lia)). cbn [mbind outcome_bind free_list].
      rewrite Hfl. destruct (decide (c + 1 < MAX_ORDER)) as [Hlt|Hge].
      + destruct (IH (c + 1)) as [[? ?]|(c' & i & l & m & ? & ? & ?)]; [lia..|done| |].
        * by left.
        * right. exists c', i, l, m. split; [lia|]. done.
      + assert (n = O) as -> by lia. left. split; [done|].
        intros o i Hoi Hb. apply (Hno' o i); [|done]. destruct Hb. lia.
    - right. exists c, (x - offset z), l, n. split; [lia|]. split; [rewrite Hfl; f_equal; lia|done]. }
  destruct (Hloop (S (Z.to_nat (MAX_ORDER - 1 - order))) order) as
    [[? ?]|(c' & i & l & m & Hc' & Hfl & ->)]; [lia..|intros; lia| |].
  - by left.
  - right. by eapply rmqueue_found; [|lia..|].
Qed.

(** ** Properties *)

(** C1: Freeing a block.  If the block of [2^order] pages at [page] is aligned,
    inside its zone and apart from all free blocks, and the page is in a freeable
    state, [__free_pages_ok] succeeds; exactly the pages of the block become free in
    addition to those that were, whatever merging with buddies took place, the
    zone is consistent again (blocks aligned, apart, buddies merged, bitmaps right)
    and [free_pages] grows by [2^order]; other pages and zones are untouched. *)
Theorem free_pages_ok_correct s zone z page p order :
  vinv s zone z → mem_map s !! page = Some p → page_zone p = zone →
  hole z order (page - offset z) → Z.testbit (flags p) PG_reserved = false →
  unfreeable s page p = false →
  ∃ s' z', __free_pages_ok s page order = Ok s' ∧ vinv s' zone z' ∧ same_zone z z' ∧
    free_pages z' = free_pages z + 2 ^ order ∧
    (∀ q, covered z' q ↔ covered z q ∨ page - offset z <= q < page - offset z + 2 ^ order) ∧
    (∀ x, x ≠ page → mem_map s' !! x = mem_map s !! x) ∧
    (∀ zo, zo ≠ zone → zones s' !! zo = zones s !! zo).
Proof. apply free_ok_spec. Qed.

(** C3: Allocating a block.  [rmqueue] on a consistent zone returns NULL, with the
    state unchanged, exactly when there is no free block of the order or larger;
    otherwise it returns an aligned block inside the zone, apart from all blocks that
    stay free; the pages free before are the pages free now and those of the block,
    the zone is consistent, [free_pages] shrinks by [2^order], and the first page's
    count is 1. *)
Theorem rmqueue_correct s zone z order :
  vinv s zone z → 0 <= order < MAX_ORDER →
  (rmqueue s zone order = Ok (s, None) ∧ ∀ o i, order <= o → ¬ blk z o i) ∨
  (∃ s' z' i, rmqueue s zone order = Ok (s', Some (offset z + i)) ∧
    vinv s' zone z' ∧ same_zone z z' ∧ free_pages z' = free_pages z - 2 ^ order ∧ hole z' order i ∧
    (∀ q, covered z q ↔ covered z' q ∨ i <= q < i + 2 ^ order) ∧
    (∃ p, mem_map s' !! (offset z + i) = Some p ∧ count p = 1) ∧
    (∀ x, x ≠ offset z + i → mem_map s' !! x = mem_map s !! x) ∧
    (∀ zo, zo ≠ zone → zones s' !! zo = zones s !! zo)).
Proof. apply rmqueue_spec. Qed.

(** The state of a page that may be freed, its count aside. *)
Definition idle (s : vm) (pg : Z) (p : page) : Prop :=
  Z.testbit (flags p) PG_reserved = false ∧ unfreeable s pg p = false.

(** C22: A block allocated by [rmqueue] and given back with [__free_pages] leaves
    the zone with the same free pages and the same [free_pages] as before. *)
Theorem alloc_free_roundtrip s zone z order s1 pg :
  vinv s zone z → 0 <= order < MAX_ORDER → rmqueue s zone order = Ok (s1, Some pg) →
  (∀ p, mem_map s1 !! pg = Some p → idle s1 pg p) →
  ∃ s2 z2, __free_pages s1 pg order = Ok s2 ∧ vinv s2 zone z2 ∧ same_zone z z2 ∧
    free_pages z2 = free_pages z ∧ ∀ q, covered z2 q ↔ covered z q.
Proof.
  intros Hv Ho Hr Hid. destruct (rmqueue_spec s zone z order Hv Ho) as
    [[H _]|(s' & z' & i & H & Hv' & Hs' & Hfp & Hh & Hcov & (p & Hp & Hcnt) & _)]; [congruence|].
  rewrite Hr in H. injection H as -> ->. unfold __free_pages, get_page. rewrite Hp.
  cbn [mbind outcome_bind]. rewrite Hcnt. change (s32 (1 - 1) =? 0) with true. cbv iota.
  change (s32 (1 - 1)) with 0. set (s1 := put_page s' _ _).
  destruct (Hid p Hp) as [Hres Hfree]. pose proof Hv' as (Hzone & Hz' & Hc' & Hpok).
  assert (offset z' = offset z ∧ size z' = size z) as [Eo Es] by (unfold same_zone in Hs'; by rewrite Hs').
  pose proof Hh as [(_ & ? & _ & ?) _]. assert (0 < 2 ^ order) by lia.
  assert (page_zone p = zone) as Hpz by (destruct (Hpok (offset z + i)) as (? & ? & ?); [lia|congruence]).
  destruct (free_ok_spec s1 zone z' (offset z + i) (set_count 0 p) order) as
    (s2 & z2 & H2 & Hv2 & Hs2 & Hfp2 & Hcov2 & _); try done.
  - split; [done|]. split; [done|]. split; [done|]. by apply (pages_ok_put s' zone z' _ p).
  - cbn. by rewrite lookup_insert_eq.
  - by replace (offset z + i - offset z') with i by lia.
  - exists s2, z2. split; [done|]. split; [done|]. split; [by eapply same_zone_trans|].
    split; [lia|]. intros q. rewrite Hcov2, Hcov, Eo.
    replace (offset z + i - offset z) with i by lia. done.
Qed.

(** ** A concrete zone *)

(** A zone without free pages is consistent: the state in which
    [free_area_init_core] leaves it. *)
Lemma zinv_empty off icp mn lo hi sz n :
  0 <= off → 0 <= sz → off + sz <= 2 ^ 20 → sz <= Z.of_nat n * 2 →
  let z := Zone off 0 icp mn lo hi (replicate 10 (FreeArea [] (replicate n false))) sz in
  zinv z ∧ counted z 0 ∧ ∀ o i, ¬ blk z o i.
Proof.
  intros Hoff Hsz Hr Hn z.
  assert (∀ o, fl z o = []) as Hfl.
  { intros o. unfold fl, z. cbn [free_area]. destruct (_ !! _) as [a|] eqn:E; [|done].
    by apply lookup_replicate_1 in E as [-> _]. }
  assert (∀ o i, ¬ blk z o i) as Hno by (intros o i [_ H]; rewrite Hfl in H; by apply elem_of_nil in H).
  assert (∀ o, 0 <= o < MAX_ORDER → bm z o = replicate n false) as Hbm.
  { intros o Ho. unfold bm, z. cbn [free_area].
    rewrite lookup_replicate_2 by (unfold MAX_ORDER in *; lia). done. }
  split; [|split; [reflexivity|done]]. constructor; try done.
  - intros o Ho. rewrite Hbm by done. unfold zlen. rewrite length_replicate, pow2_succ by lia.
    assert (1 <= 2 ^ o) by lia. change (size z) with sz. nia.
  - intros o i H. by destruct (Hno o i).
  - intros o _. rewrite Hfl. constructor.
  - intros o i o' j H. by destruct (Hno o i).
  - intros o i b Hlt (Ho & _) Hb. rewrite Hbm in Hb by lia. apply lookup_replicate_1 in Hb as [-> _].
    split; [done|]. intros [H|H]; by apply Hno in H.
Qed.

Definition demo_page : page := Page 0 0 4 0 0 0 1.
Definition demo_zone : zone_t :=
  Zone 0 0 0 0 0 0 (replicate 10 (FreeArea [] (replicate 8 false))) 16.
Definition demo : vm :=
  Vm (list_to_map ((λ i, (i, demo_page)) <$> seqZ 0 16)) 16
    {[1 := demo_zone]} 0.

Lemma demo_vinv : vinv demo 1 demo_zone.
Proof.
  destruct (zinv_empty 0 0 0 0 0 16 8) as (Hz & Hc & _); [lia..|].
  split; [by vm_compute|]. split; [done|]. split; [done|].
  intros x Hx. exists demo_page. split; [|done]. unfold demo. cbn [mem_map].
  apply elem_of_list_to_map_1.
  - rewrite <- list_fmap_compose. apply NoDup_fmap_2; [intros a b; done|apply NoDup_seqZ].
  - apply list_elem_of_fmap. exists x. split; [done|]. apply elem_of_seqZ. cbn in Hx. lia.
Qed.

Lemma demo_hole o i :
  fits_in demo_zone o i →
  hole demo_zone o i.
Proof.
  destruct (zinv_empty 0 0 0 0 0 16 8) as (_ & _ & Hno); [lia..|].
  intros Hf. split; [done|]. intros o' j H. by destruct (Hno o' j).
Qed.

Lemma demo_8 : mem_map demo !! 8 = Some demo_page.
Proof. by vm_compute. Qed.

Lemma demo_hole8 : hole demo_zone 3 (8 - offset demo_zone).
Proof. apply demo_hole. split; [done|]. split; [done|]. split; [by exists 1|done]. Qed.

Lemma free_pages_ok_correct_witness :
  ∃ s' z', __free_pages_ok demo 8 3 = Ok s' ∧ vinv s' 1 z' ∧ free_pages z' = 8 ∧ covered z' 9.
Proof.
  destruct (free_pages_ok_correct demo 1 demo_zone 8 demo_page 3 demo_vinv demo_8 eq_refl demo_hole8 eq_refl eq_refl) as
    (s' & z' & H & Hv & _ & Hf & Hcov & _).
  exists s', z'. split; [done|]. split; [done|]. split; [done|]. apply Hcov. right. done.
Defined.

(** The zone with the upper half free. *)
Definition demo1 : vm := match __free_pages_ok demo 8 3 with Ok s => s | Trap _ => demo end.

Lemma demo1_vinv : ∃ z, vinv demo1 1 z ∧ offset z = 0.
Proof.
  destruct (free_ok_spec demo 1 demo_zone 8 demo_page 3 demo_vinv demo_8 eq_refl demo_hole8 eq_refl eq_refl) as
    (s' & z' & H & Hv & Hs & _).
  exists z'. unfold demo1. rewrite H. split; [done|]. unfold same_zone in Hs. by rewrite Hs.
Qed.

Lemma rmqueue_correct_witness :
  ∃ s' z', rmqueue demo1 1 1 = Ok (s', Some 14) ∧ vinv s' 1 z' ∧ hole z' 1 14.
Proof.
  destruct demo1_vinv as (z & Hv & Eo).
  destruct (rmqueue_correct demo1 1 z 1 Hv) as [[H _]|(s' & z' & i & H & Hv' & _ & _ & Hh & _)].
  - done.
  - vm_compute in H. discriminate H.
  - rewrite Eo in H. assert (i = 14) as -> by (vm_compute in H; congruence).
    exists s', z'. exact (conj H (conj Hv' Hh)).
Defined.

Lemma alloc_free_roundtrip_witness :
  ∃ s1 s2 z z2, rmqueue demo1 1 1 = Ok (s1, Some 14) ∧ __free_pages s1 14 1 = Ok s2 ∧
    vinv demo1 1 z ∧ vinv s2 1 z2 ∧ free_pages z2 = free_pages z.
Proof.
  destruct demo1_vinv as (z & Hv & Eo).
  destruct (rmqueue demo1 1 1) as [[s1 o]|] eqn:E; [|vm_compute in E; discriminate E].
  assert (o = Some 14) as -> by (vm_compute in E; congruence).
  destruct (alloc_free_roundtrip demo1 1 z 1 s1 14 Hv ltac:(done) E) as (s2 & z2 & H2 & Hv2 & _ & Hf & _).
  - intros p Hp. assert (mem_map s1 !! 14 = Some (set_count 1 demo_page)) as Hp'.
    { vm_compute in E. injection E as <-. by vm_compute. }
    rewrite Hp in Hp'. injection Hp' as ->.
    assert (max_mapnr s1 = 16) as Em by (vm_compute in E; by injection E as <-).
    split; [done|]. unfold unfreeable. by rewrite Em.
  - exists s1, s2, z, z2. exact (conj eq_refl (conj H2 (conj Hv (conj Hv2 Hf)))).
Defined.
