(* ===== verification/PageAlloc.v ===== *)
(** * PageAlloc: the zoned page allocator ([mmnommu/page_alloc.c])

    [__alloc_pages] with its fallback zones and watermarks, the wrappers, and the
    zone lists.  A zone list is the list of its zones' addresses, without the final
    NULL.

    Reclaim ([mmnommu/vmscan.c]), the daemons and the scheduler are behind the
    interface [VmEnv]: functions on the state, since another thread may change it
    while this one waits.  [VmEnvOk] says what the allocator relies on: the zones
    stay consistent, and a page that [reclaim_page] hands out belongs to its zone
    and to nobody else.

    [goto try_again] carries fuel: how often it is taken depends on the daemons. *)

From S2P Require Import Prelude Bootmem Buddy.

Definition __GFP_WAIT : Z := 0x01.
Definition __GFP_IO : Z := 0x04.
Definition __GFP_DMA : Z := 0x08.
(** [CONFIG_HIGHMEM] is off. *)
Definition __GFP_HIGHMEM : Z := 0x0.

Definition ZONE_DMA : Z := 0.
Definition ZONE_NORMAL : Z := 1.
Definition ZONE_HIGHMEM : Z := 2.
Definition MAX_NR_ZONES : Z := 3.

Inductive limit_t := PAGES_MIN | PAGES_LOW | PAGES_HIGH.

Record zonelist_t := Zonelist {
  zl_zones : list Z;
  gfp_mask : Z
}.

(** The rest of the memory manager, as the allocator sees it. *)
Class VmEnv := {
  (* [current->flags & PF_MEMALLOC] *)
  pf_memalloc : vm → bool;
  inactive_shortage : vm → Z;
  free_shortage : vm → Z;
  inactive_target : vm → Z;
  nr_inactive_dirty_pages : vm → Z;
  freepages_high : vm → Z;
  kreclaimd_waiting : vm → bool;
  wakeup_kswapd : Z → vm → vm;
  wakeup_bdflush : Z → vm → vm;
  wake_up_kreclaimd : vm → vm;
  schedule : vm → vm;
  page_launder : Z → Z → vm → vm;
  try_to_free_pages : Z → vm → vm;
  reclaim_page : vm → Z → vm * option Z
}.

Definition add_pressure (s : vm) : vm :=
  Vm (mem_map s) (max_mapnr s) (zones s) (s32 (memory_pressure s + 1)).

Section alloc.
Context `{VmEnv}.

(** ** Zones above a watermark *)

Fixpoint __alloc_pages_limit (zl : list Z) (s : vm) (order : Z) (limit : limit_t)
    (direct_reclaim : bool) : outcome (vm * option Z) :=
  match zl with
  | [] => Ok (s, None)
  | zo :: zl =>
      z ← get_zone s zo;
      BUG_if (size z =? 0)
        (let water_mark :=
           match limit with
           | PAGES_MIN => pages_min z | PAGES_LOW => pages_low z | PAGES_HIGH => pages_high z
           end in
         if water_mark <? u32 (free_pages z + inactive_clean_pages z) then
           let '(s, page) :=
             if direct_reclaim && (free_pages z <? u32 (pages_min z + 8))
             then reclaim_page s zo else (s, None) in
           '(s, page) ← match page with None => rmqueue s zo order | Some _ => Ok (s, page) end;
           match page with
           | Some _ => Ok (s, page)
           | None => __alloc_pages_limit zl s order limit direct_reclaim
           end
         else __alloc_pages_limit zl s order limit direct_reclaim)
  end.

(** ** The phases of [__alloc_pages] *)

(** "First, see if we have any zones with lots of free memory." *)
Fixpoint alloc_lots (zl : list Z) (s : vm) (order : Z) : outcome (vm * option Z) :=
  match zl with
  | [] => Ok (s, None)
  | zo :: zl =>
      z ← get_zone s zo;
      BUG_if (size z =? 0)
        (if pages_low z <=? free_pages z then
           '(s, page) ← rmqueue s zo order;
           match page with Some _ => Ok (s, page) | None => alloc_lots zl s order end
         else
           alloc_lots zl
             (if (free_pages z <? pages_min z) && kreclaimd_waiting s
              then wake_up_kreclaimd s else s) order)
  end.

(** The [while (z->inactive_clean_pages)] loop for one zone. *)
Fixpoint alloc_clean (fuel : nat) (s : vm) (zo order : Z) : outcome (vm * option Z) :=
  match fuel with
  | O => Trap Fuel
  | S fuel =>
      z ← get_zone s zo;
      if inactive_clean_pages z =? 0 then Ok (s, None)
      else
        let '(s, page) := reclaim_page s zo in
        match page with
        | None => Ok (s, None)
        | Some page =>
            s ← __free_pages s page 0;
            '(s, page) ← rmqueue s zo order;
            match page with Some _ => Ok (s, page) | None => alloc_clean fuel s zo order end
        end
  end.

(** "Move pages from the inactive_clean to the free list" for all zones *)
Fixpoint alloc_move (zl : list Z) (s : vm) (order : Z) : outcome (vm * option Z) :=
  match zl with
  | [] => Ok (s, None)
  | zo :: zl =>
      z ← get_zone s zo;
      if size z =? 0 then alloc_move zl s order
      else
        '(s, page) ← alloc_clean (S (Z.to_nat (inactive_clean_pages z))) s zo order;
        match page with Some _ => Ok (s, page) | None => alloc_move zl s order end
  end.

(** "Final phase: allocate anything we can!" *)
Fixpoint alloc_final (zl : list Z) (s : vm) (order : Z) (direct_reclaim : bool)
    : outcome (vm * option Z) :=
  match zl with
  | [] => Ok (s, None)
  | zo :: zl =>
      z ← get_zone s zo;
      BUG_if (size z =? 0)
        (let '(s, page) := if direct_reclaim then reclaim_page s zo else (s, None) in
         match page with
         | Some _ => Ok (s, page)
         | None =>
             z ← get_zone s zo;
             if (free_pages z <? pages_min z / 4) && negb (pf_memalloc s)
             then alloc_final zl s order direct_reclaim
             else
               '(s, page) ← rmqueue s zo order;
               match page with
               | Some _ => Ok (s, page)
               | None => alloc_final zl s order direct_reclaim
               end
         end)
  end.

(** From [try_again] on. *)
Fixpoint alloc_try (fuel : nat) (zl : list Z) (gfp : Z) (s : vm) (order : Z)
    (direct_reclaim : bool) : outcome (vm * option Z) :=
  match fuel with
  | O => Trap Fuel
  | S fuel =>
      '(s, page) ← alloc_lots zl s order;
      match page with Some _ => Ok (s, page) | None =>
      '(s, page) ← __alloc_pages_limit zl s order PAGES_HIGH direct_reclaim;
      match page with Some _ => Ok (s, page) | None =>
      '(s, page) ← __alloc_pages_limit zl s order PAGES_LOW direct_reclaim;
      match page with Some _ => Ok (s, page) | None =>
      let s := wakeup_kswapd 0 s in
      let s := if c_true (Z.land gfp __GFP_WAIT) then schedule s else s in
      '(s, page) ← __alloc_pages_limit zl s order PAGES_MIN direct_reclaim;
      match page with Some _ => Ok (s, page) | None =>
      let final s := alloc_final zl s order direct_reclaim in
      if negb (pf_memalloc s) then
        '(s, page) ← (if (0 <? order) && c_true (Z.land gfp __GFP_WAIT)
                      then alloc_move zl (page_launder gfp 1 s) order else Ok (s, None));
        match page with Some _ => Ok (s, page) | None =>
        if Z.land gfp (Z.lor __GFP_WAIT __GFP_IO) =? Z.lor __GFP_WAIT __GFP_IO then
          let s := add_pressure (wakeup_kswapd 1 s) in
          if order =? 0 then alloc_try fuel zl gfp s order direct_reclaim else final s
        else if c_true (Z.land gfp __GFP_WAIT) then
          let s := add_pressure (try_to_free_pages gfp s) in
          if order =? 0 then alloc_try fuel zl gfp s order direct_reclaim else final s
        else final s
        end
      else final s
      end end end end
  end.

Definition __alloc_pages (fuel : nat) (s : vm) (zonelist : zonelist_t) (order : Z)
    : outcome (vm * option Z) :=
  let gfp := gfp_mask zonelist in
  let s := add_pressure s in
  let direct_reclaim := (order =? 0) && c_true (Z.land gfp __GFP_WAIT) && negb (pf_memalloc s) in
  let s :=
    if (Z.quot (inactive_target s) 2 <? inactive_shortage s) && c_true (free_shortage s)
    then wakeup_kswapd 0 s
    else if c_true (free_shortage s) && (free_shortage s <? nr_inactive_dirty_pages s)
            && (freepages_high s <=? nr_inactive_dirty_pages s)
    then wakeup_bdflush 0 s else s in
  alloc_try fuel (zl_zones zonelist) gfp s order direct_reclaim.

(** ** The wrappers *)

Definition alloc_pages (fuel : nat) (s : vm) (node_zonelists : Z → zonelist_t) (gfp order : Z)
    : outcome (vm * option Z) :=
  if MAX_ORDER <=? order then Ok (s, None)
  else __alloc_pages fuel s (node_zonelists gfp) order.

(** The address, [page_address] being [page->virtual]. *)
Definition __get_free_pages (fuel : nat) (s : vm) (node_zonelists : Z → zonelist_t) (gfp order : Z)
    : outcome (vm * Z) :=
  '(s, page) ← alloc_pages fuel s node_zonelists gfp order;
  match page with
  | None => Ok (s, 0)
  | Some pg => p ← get_page s pg; Ok (s, virtual p)
  end.

(** The address, and the page that was cleared. *)
Definition get_zeroed_page (fuel : nat) (s : vm) (node_zonelists : Z → zonelist_t) (gfp : Z)
    : outcome (vm * Z * option Z) :=
  '(s, page) ← alloc_pages fuel s node_zonelists gfp 0;
  match page with
  | None => Ok (s, 0, None)
  | Some pg => p ← get_page s pg; Ok (s, virtual p, Some (virtual p))
  end.
End alloc.

(** ** Totals *)

(** Sum over the zones of all nodes ([node_zones] of each node on [pgdat_list]). *)
Fixpoint sum_zones (f : zone_t → Z) (s : vm) (l : list Z) : outcome Z :=
  match l with
  | [] => Ok 0
  | zo :: l => z ← get_zone s zo; r ← sum_zones f s l; Ok (u32 (f z + r))
  end.

Definition nr_free_pages (s : vm) (nodes : list (list Z)) : outcome Z :=
  sum_zones free_pages s (concat nodes).
Definition nr_inactive_clean_pages (s : vm) (nodes : list (list Z)) : outcome Z :=
  sum_zones inactive_clean_pages s (concat nodes).

(** [nr_active_pages] is an [int] that is never negative. *)
Definition nr_free_buffer_pages (s : vm) (nodes : list (list Z))
    (nr_inactive_dirty_pages freepages_high inactive_target nr_active_pages : Z) : outcome Z :=
  a ← nr_free_pages s nodes;
  b ← nr_inactive_clean_pages s nodes;
  let sum := u32 (u32 (a + b) + nr_inactive_dirty_pages) in
  let target := u32 (freepages_high + inactive_target) in
  let sum := if sum <? target then target else sum in
  Ok (u32 (sum + Z.shiftr nr_active_pages 4)).

(** ** Zone lists *)

(** The list for one [gfp] index; the zones of the node in the order DMA, normal, high. *)
Definition build_zonelist (s : vm) (node_zones : Z → Z) (i : Z) : outcome zonelist_t :=
  let k := ZONE_NORMAL in
  let k := if c_true (Z.land i __GFP_HIGHMEM) then ZONE_HIGHMEM else k in
  let k := if c_true (Z.land i __GFP_DMA) then ZONE_DMA else k in
  let add t := z ← get_zone s (node_zones t);
               Ok (if c_true (size z) then [node_zones t] else []) in
  let dma := add ZONE_DMA in
  let normal := l ← add ZONE_NORMAL; l' ← dma; Ok (l ++ l') in
  let high :=
    z ← get_zone s (node_zones ZONE_HIGHMEM);
    BUG_if (c_true (size z)) normal in
  l ← (if k =? ZONE_DMA then dma else if k =? ZONE_NORMAL then normal
       else if k =? ZONE_HIGHMEM then high else Trap Bug);
  Ok (Zonelist l i).

(** ** What the allocator relies on *)

(** Every consistent zone stays one, in its place. *)
Definition keep (s s' : vm) : Prop :=
  ∀ zo z, vinv s zo z → ∃ z', vinv s' zo z' ∧ offset z' = offset z ∧ size z' = size z.

#[export] Instance keep_preorder : PreOrder keep.
Proof.
  split.
  - intros s zo z Hv. eauto.
  - intros s1 s2 s3 H12 H23 zo z Hv. destruct (H12 zo z Hv) as (z2 & Hv2 & E1 & E2).
    destruct (H23 zo z2 Hv2) as (z3 & Hv3 & E3 & E4). exists z3. split; [done|]. split; congruence.
Qed.

Class VmEnvOk `{VmEnv} : Prop := {
  wakeup_kswapd_keep n s : keep s (wakeup_kswapd n s);
  wakeup_bdflush_keep n s : keep s (wakeup_bdflush n s);
  wake_up_kreclaimd_keep s : keep s (wake_up_kreclaimd s);
  schedule_keep s : keep s (schedule s);
  page_launder_keep g n s : keep s (page_launder g n s);
  try_to_free_pages_keep g s : keep s (try_to_free_pages g s);
  reclaim_keep s zo : keep s (reclaim_page s zo).1;
  (* a reclaimed page is in its zone, in no free block, unused, and taken off the
     inactive_clean list *)
  reclaim_page_ok s zo pg z z' :
    (reclaim_page s zo).2 = Some pg → vinv s zo z → vinv (reclaim_page s zo).1 zo z' →
    hole z' 0 (pg - offset z') ∧
    (∃ p, mem_map (reclaim_page s zo).1 !! pg = Some p ∧ count p = 1 ∧
       idle (reclaim_page s zo).1 pg p) ∧
    0 <= inactive_clean_pages z' < inactive_clean_pages z
}.

(** The page [pg] starts a block that is in a zone of the list and in no free block. *)
Definition got (zl : list Z) (order : Z) (s : vm) (pg : Z) : Prop :=
  ∃ zo z, zo ∈ zl ∧ vinv s zo z ∧ hole z order (pg - offset z).

Definition usable (s : vm) (zl : list Z) : Prop :=
  ∀ zo, zo ∈ zl → ∃ z, vinv s zo z ∧ size z ≠ 0.

(** A phase that ends: the zones stay consistent, and a page returned is a block. *)
Definition good (zl : list Z) (order : Z) (s : vm) (o : outcome (vm * option Z)) : Prop :=
  ∃ s' r, o = Ok (s', r) ∧ keep s s' ∧ ∀ pg, r = Some pg → got zl order s' pg.

Lemma usable_keep s s' zl : keep s s' → usable s zl → usable s' zl.
Proof.
  intros Hk Hu zo Hzo. destruct (Hu zo Hzo) as (z & Hv & Hs).
  destruct (Hk zo z Hv) as (z' & Hv' & _ & E). exists z'. split; [done|]. congruence.
Qed.

Lemma good_keep zl order s s1 o : keep s s1 → good zl order s1 o → good zl order s o.
Proof. intros Hk (s' & r & -> & Hk' & Hg). exists s', r. split; [done|]. split; [by etransitivity|done]. Qed.

Lemma good_sub zl zl' order s o : (∀ x, x ∈ zl → x ∈ zl') → good zl order s o → good zl' order s o.
Proof.
  intros Hsub (s' & r & -> & Hk & Hg). exists s', r. split; [done|]. split; [done|].
  intros pg E. destruct (Hg pg E) as (zo & z & ? & ?). exists zo, z. auto.
Qed.

(** Sequencing: stop with a page, or go on with the next phase. *)
Lemma good_seq zl order s o (k : vm → outcome (vm * option Z)) :
  good zl order s o → (∀ s', keep s s' → good zl order s' (k s')) →
  good zl order s ('(s, page) ← o; match page with Some _ => Ok (s, page) | None => k s end).
Proof.
  intros (s' & r & -> & Hk & Hg) Hn. cbn [mbind outcome_bind]. destruct r as [pg|].
  - exists s', (Some pg). done.
  - eapply good_keep; [done|]. by apply Hn.
Qed.

Lemma good_none zl order s : good zl order s (Ok (s, None)).
Proof. exists s, None. split; [done|]. split; [reflexivity|done]. Qed.

Lemma vinv_get s zo z : vinv s zo z → get_zone s zo = Ok z.
Proof. intros (H & _). unfold get_zone. by rewrite H. Qed.

(** A change of one page and of its zone leaves the other zones alone. *)
Lemma keep_change s s' zo z z' pg p :
  vinv s zo z → vinv s' zo z' → offset z' = offset z → size z' = size z →
  mem_map s !! pg = Some p → page_zone p = zo →
  (∀ x, x ≠ pg → mem_map s' !! x = mem_map s !! x) →
  (∀ zx, zx ≠ zo → zones s' !! zx = zones s !! zx) → keep s s'.
Proof.
  intros Hv Hv' E1 E2 Hpg Hpz Hm Hzs zx zz Hz. destruct (decide (zx = zo)) as [->|Hne].
  - destruct Hv as (Hl & _), Hz as (Hl' & _). rewrite Hl in Hl'. injection Hl' as ->. eauto.
  - exists zz. split; [|done]. destruct Hz as (Hl & ? & ? & Hp).
    split; [by rewrite Hzs|]. split; [done|]. split; [done|].
    intros x Hx. destruct (Hp x Hx) as (q & Hq & Hqz).
    assert (x ≠ pg) by (intros ->; congruence). exists q. by rewrite Hm.
Qed.

Lemma same_zone_geom z z' : same_zone z z' → offset z' = offset z ∧ size z' = size z ∧
  inactive_clean_pages z' = inactive_clean_pages z.
Proof. unfold same_zone. by intros ->. Qed.

(** [rmqueue] as a phase, with the zone's state before and after. *)
Lemma rmqueue_keep s zo z order :
  vinv s zo z → 0 <= order < MAX_ORDER →
  ∃ s' r z', rmqueue s zo order = Ok (s', r) ∧ keep s s' ∧ vinv s' zo z' ∧ same_zone z z' ∧
    (∀ pg, r = Some pg → hole z' order (pg - offset z')) ∧
    (r = None → s' = s ∧ ∀ o i, order <= o → ¬ blk z o i).
Proof.
  intros Hv Ho. destruct (rmqueue_spec s zo z order Hv Ho) as
    [[H Hno]|(s' & z' & i & H & Hv' & Hs & _ & Hh & _ & (p & Hp & _) & Hm & Hz)].
  - exists s, None, z. split; [done|]. split; [reflexivity|]. split; [done|].
    split; [by destruct z|]. split; [done|]. done.
  - destruct (same_zone_geom z z' Hs) as (Eo & Es & _). exists s', (Some (offset z + i)), z'.
    split; [done|]. split; [|split; [done|split; [done|split; [|done]]]].
    + pose proof Hh as [(_ & ? & _ & ?) _]. assert (0 < 2 ^ order) by lia.
      destruct Hv as (Hl & Hzi & Hc & Hpo). destruct (Hpo (offset z + i)) as (q & Hq & Hqz); [lia|].
      by apply (keep_change s s' zo z z' (offset z + i) q).
    + intros pg [= <-]. by replace (offset z + i - offset z') with i by lia.
Qed.

Lemma rmqueue_good zo s order z :
  vinv s zo z → 0 <= order < MAX_ORDER → good [zo] order s (rmqueue s zo order).
Proof.
  intros Hv Ho. destruct (rmqueue_keep s zo z order Hv Ho) as (s' & r & z' & H & Hk & Hv' & _ & Hg & _).
  exists s', r. split; [done|]. split; [done|]. intros pg E. exists zo, z'.
  split; [by apply list_elem_of_singleton|]. auto.
Qed.

(** Freeing an unused single page. *)
Lemma free_one s zo z pg p :
  vinv s zo z → hole z 0 (pg - offset z) → mem_map s !! pg = Some p → count p = 1 → idle s pg p →
  ∃ s2 z2, __free_pages s pg 0 = Ok s2 ∧ keep s s2 ∧ vinv s2 zo z2 ∧ same_zone z z2.
Proof.
  intros Hv Hh Hp Hcnt [Hres Hfree]. unfold __free_pages, get_page. rewrite Hp.
  cbn [mbind outcome_bind]. rewrite Hcnt. change (s32 (1 - 1) =? 0) with true. cbv iota.
  change (s32 (1 - 1)) with 0. set (s1 := put_page s pg _).
  pose proof Hv as (Hzone & Hz & Hc & Hpok). pose proof Hh as [(_ & ? & _ & ?) _].
  assert (page_zone p = zo) as Hpz by (destruct (Hpok pg) as (? & ? & ?); [lia|congruence]).
  destruct (free_ok_spec s1 zo z pg (set_count 0 p) 0) as
    (s2 & z2 & H2 & Hv2 & Hs2 & _ & _ & Hm & Hzs); try done.
  - split; [done|]. split; [done|]. split; [done|]. by apply (pages_ok_put s zo z _ p).
  - cbn. by rewrite lookup_insert_eq.
  - exists s2, z2. split; [done|]. destruct (same_zone_geom z z2 Hs2) as (? & ? & _).
    split; [|done]. apply (keep_change s s2 zo z z2 pg p); try done.
    intros x Hx. rewrite Hm by done. cbn. by rewrite lookup_insert_ne.
Qed.

Section correct.
Context `{VmEnvOk} (order : Z) (Hord : 0 <= order < MAX_ORDER).

Lemma usable_cons s zo zl :
  usable s (zo :: zl) → (∃ z, vinv s zo z ∧ size z ≠ 0) ∧ usable s zl.
Proof.
  intros Hu. split; [apply Hu; by apply elem_of_cons; left|].
  intros x Hx. apply Hu. by apply elem_of_cons; right.
Qed.

Lemma good_head zo zl s o : good [zo] order s o → good (zo :: zl) order s o.
Proof. apply good_sub. intros x Hx. apply list_elem_of_singleton in Hx as ->. by apply elem_of_cons; left. Qed.

Lemma good_tail zo zl s o : good zl order s o → good (zo :: zl) order s o.
Proof. apply good_sub. intros x Hx. by apply elem_of_cons; right. Qed.

Lemma reclaim_good s zo z :
  order = 0 → vinv s zo z → good [zo] order s (Ok (reclaim_page s zo)).
Proof.
  intros E Hv. destruct (reclaim_page s zo) as [s' r] eqn:Er. exists s', r.
  pose proof (reclaim_keep s zo) as Hk. rewrite Er in Hk. split; [done|]. split; [done|].
  intros pg ->. destruct (Hk zo z Hv) as (z' & Hv' & _). exists zo, z'.
  split; [by apply list_elem_of_singleton|]. split; [done|]. rewrite E.
  pose proof (reclaim_page_ok s zo pg z z') as Hr. rewrite Er in Hr. by apply Hr.
Qed.

Lemma alloc_lots_good zl s : usable s zl → good zl order s (alloc_lots zl s order).
Proof.
  revert s. induction zl as [|zo zl IH]; intros s Hu; cbn [alloc_lots]; [apply good_none|].
  apply usable_cons in Hu as [(z & Hv & Hs) Hu]. rewrite (vinv_get s zo z Hv).
  cbn [mbind outcome_bind]. unfold BUG_if. rewrite (proj2 (Z.eqb_neq _ _) Hs).
  destruct (pages_low z <=? free_pages z).
  - apply good_seq; [by eapply good_head, rmqueue_good|].
    intros s' Hk. apply good_tail, IH. by eapply usable_keep.
  - apply good_tail. case_match; [|by apply IH].
    eapply good_keep; [apply wake_up_kreclaimd_keep|]. apply IH.
    eapply usable_keep; [apply wake_up_kreclaimd_keep|done].
Qed.

Lemma limit_good zl s limit direct :
  (direct = true → order = 0) → usable s zl →
  good zl order s (__alloc_pages_limit zl s order limit direct).
Proof.
  intros Hd. revert s. induction zl as [|zo zl IH]; intros s Hu; cbn [__alloc_pages_limit]; [apply good_none|].
  apply usable_cons in Hu as [(z & Hv & Hs) Hu]. rewrite (vinv_get s zo z Hv).
  cbn [mbind outcome_bind]. unfold BUG_if. rewrite (proj2 (Z.eqb_neq _ _) Hs).
  destruct (_ <? u32 (free_pages z + _)); [|by apply good_tail, IH].
  assert (∀ s1, keep s s1 → good (zo :: zl) order s1
    ('(s, page) ← rmqueue s1 zo order;
     match page with Some _ => Ok (s, page) | None => __alloc_pages_limit zl s order limit direct end)) as Hrm.
  { intros s1 Hk1. destruct (Hk1 zo z Hv) as (z1 & Hv1 & _). apply good_seq.
    - by eapply good_head, rmqueue_good.
    - intros s2 Hk2. apply good_tail, IH. eapply usable_keep; [|done]. by etransitivity. }
  destruct (direct && _) eqn:Ed.
  - apply andb_prop in Ed as [-> _].
    destruct (reclaim_good s zo z (Hd eq_refl) Hv) as (s1 & r & E & Hk1 & Hg). injection E as E. rewrite E.
    destruct r as [pg|]; cbn [mbind outcome_bind].
    + apply good_head. exists s1, (Some pg). done.
    + eapply good_keep; [done|]. by apply Hrm.
  - apply Hrm. reflexivity.
Qed.

Lemma alloc_final_good zl s direct :
  (direct = true → order = 0) → usable s zl →
  good zl order s (alloc_final zl s order direct).
Proof.
  intros Hd. revert s. induction zl as [|zo zl IH]; intros s Hu; cbn [alloc_final]; [apply good_none|].
  apply usable_cons in Hu as [(z & Hv & Hs) Hu]. rewrite (vinv_get s zo z Hv).
  cbn [mbind outcome_bind]. unfold BUG_if. rewrite (proj2 (Z.eqb_neq _ _) Hs).
  assert (∀ s1, keep s s1 → good (zo :: zl) order s1
    (z ← get_zone s1 zo;
     if (free_pages z <? pages_min z / 4) && negb (pf_memalloc s1)
     then alloc_final zl s1 order direct
     else '(s, page) ← rmqueue s1 zo order;
          match page with Some _ => Ok (s, page) | None => alloc_final zl s order direct end)) as Hrm.
  { intros s1 Hk1. destruct (Hk1 zo z Hv) as (z1 & Hv1 & _). rewrite (vinv_get s1 zo z1 Hv1).
    cbn [mbind outcome_bind]. case_match.
    - apply good_tail, IH. by eapply usable_keep.
    - apply good_seq; [by eapply good_head, rmqueue_good|].
      intros s2 Hk2. apply good_tail, IH. eapply usable_keep; [|done]. by etransitivity. }
  destruct direct.
  - destruct (reclaim_good s zo z (Hd eq_refl) Hv) as (s1 & r & E & Hk1 & Hg). injection E as E. rewrite E.
    destruct r as [pg|].
    + apply good_head. exists s1, (Some pg). done.
    + eapply good_keep; [done|]. by apply Hrm.
  - apply Hrm. reflexivity.
Qed.

Lemma alloc_clean_good n s zo z :
  vinv s zo z → inactive_clean_pages z < Z.of_nat n → (0 < n)%nat →
  good [zo] order s (alloc_clean n s zo order).
Proof.
  revert s z. induction n as [|n IH]; intros s z Hv Hn Hn0; [lia|]. cbn [alloc_clean].
  rewrite (vinv_get s zo z Hv). cbn [mbind outcome_bind]. case_match; [apply good_none|].
  pose proof (reclaim_keep s zo) as Hk. pose proof (reclaim_page_ok s zo) as Hr.
  destruct (reclaim_page s zo) as [s1 [pg|]]; cbn [fst snd] in *; eapply good_keep; try done; [|apply good_none].
  destruct (Hk zo z Hv) as (z1 & Hv1 & _).
  destruct (Hr pg z z1 eq_refl Hv Hv1) as (Hh & (p & Hp & Hc & Hid) & Hdec).
  destruct (free_one s1 zo z1 pg p Hv1 Hh Hp Hc Hid) as (s2 & z2 & -> & Hk2 & Hv2 & Hs2).
  cbn [mbind outcome_bind]. eapply good_keep; [done|].
  destruct (rmqueue_keep s2 zo z2 order Hv2 Hord) as (s3 & r & z3 & -> & Hk3 & Hv3 & Hs3 & Hg & _).
  cbn [mbind outcome_bind]. destruct r as [pg'|].
  - exists s3, (Some pg'). split; [done|]. split; [done|]. intros pg2 E. exists zo, z3.
    split; [by apply list_elem_of_singleton|]. auto.
  - eapply good_keep; [done|].
    destruct (same_zone_geom _ _ Hs2) as (_ & _ & ?). destruct (same_zone_geom _ _ Hs3) as (_ & _ & ?).
    apply (IH s3 z3); [done|lia|lia].
Qed.

Lemma alloc_move_good zl s : usable s zl → good zl order s (alloc_move zl s order).
Proof.
  revert s. induction zl as [|zo zl IH]; intros s Hu; cbn [alloc_move]; [apply good_none|].
  apply usable_cons in Hu as [(z & Hv & Hs) Hu]. rewrite (vinv_get s zo z Hv).
  cbn [mbind outcome_bind]. rewrite (proj2 (Z.eqb_neq _ _) Hs).
  apply good_seq; [apply good_head, (alloc_clean_good _ s zo z); [done|lia|lia]|].
  intros s' Hk. apply good_tail, IH. by eapply usable_keep.
Qed.

Lemma add_pressure_keep s : keep s (add_pressure s).
Proof. intros zo z Hv. exists z. done. Qed.

(** The whole of [__alloc_pages]: only waiting for single pages can take
    arbitrarily many rounds. *)
Lemma alloc_try_good n zl gfp s direct :
  (direct = true → order = 0) → usable s zl →
  good zl order s (alloc_try (S n) zl gfp s order direct) ∨
  (order = 0 ∧ c_true (Z.land gfp __GFP_WAIT) = true ∧
   alloc_try (S n) zl gfp s order direct = Trap Fuel).
Proof.
  intros Hd. set (P s o := good zl order s o ∨
    (order = 0 ∧ c_true (Z.land gfp __GFP_WAIT) = true ∧ o = Trap Fuel)).
  assert (∀ s s1 o, keep s s1 → P s1 o → P s o) as Hkeep.
  { intros s0 s1 o Hk [Hg|Hg]; [left; by eapply good_keep|by right]. }
  assert (∀ s o k, good zl order s o → (∀ s', keep s s' → P s' (k s')) →
    P s ('(s, page) ← o; match page with Some _ => Ok (s, page) | None => k s end)) as Hseq.
  { intros s0 o k (s' & r & -> & Hk & Hg) Hn. cbn [mbind outcome_bind]. destruct r as [pg|].
    - left. exists s', (Some pg). done.
    - eapply Hkeep; [done|]. by apply Hn. }
  enough (∀ s, usable s zl → P s (alloc_try (S n) zl gfp s order direct)) as Hall by (intros; by apply Hall).
  assert (∀ s, usable s zl → P s (alloc_final zl s order direct)) as Hfin
    by (intros s0 Hu; left; by apply alloc_final_good).
  assert (∀ k s, usable s zl →
    (order = 0 → c_true (Z.land gfp __GFP_WAIT) = true →
     ∀ s, usable s zl → P s (alloc_try k zl gfp s order direct)) →
    P s (alloc_try (S k) zl gfp s order direct)) as Hround.
  { clear s. intros k s Hu Hrec. cbn [alloc_try].
    apply Hseq; [by apply alloc_lots_good|]. intros s1 Hk1. apply (usable_keep _ _ _ Hk1) in Hu.
    apply Hseq; [by apply limit_good|]. intros s2 Hk2. apply (usable_keep _ _ _ Hk2) in Hu.
    apply Hseq; [by apply limit_good|]. intros s3 Hk3. apply (usable_keep _ _ _ Hk3) in Hu.
    set (s4 := if c_true (Z.land gfp __GFP_WAIT) then _ else _).
    assert (keep s3 s4) as Hk4.
    { unfold s4. case_match; [etransitivity; [apply wakeup_kswapd_keep|apply schedule_keep]|apply wakeup_kswapd_keep]. }
    apply (Hkeep _ _ _ Hk4). apply (usable_keep _ _ _ Hk4) in Hu.
    apply Hseq; [by apply limit_good|]. intros s5 Hk5. apply (usable_keep _ _ _ Hk5) in Hu.
    destruct (negb (pf_memalloc s5)); [|by apply Hfin].
    apply Hseq.
    { case_match; [|apply good_none]. eapply good_keep; [apply page_launder_keep|].
      apply alloc_move_good. eapply usable_keep; [apply page_launder_keep|done]. }
    intros s6 Hk6. apply (usable_keep _ _ _ Hk6) in Hu.
    assert (∀ s7, keep s6 s7 → c_true (Z.land gfp __GFP_WAIT) = true →
      P s6 (if order =? 0 then alloc_try k zl gfp s7 order direct else alloc_final zl s7 order direct)) as Hend.
    { intros s7 Hk7 Hw. apply (Hkeep _ _ _ Hk7). apply (usable_keep _ _ _ Hk7) in Hu.
      destruct (Z.eqb_spec order 0); [by apply Hrec|by apply Hfin]. }
    destruct (Z.eqb_spec (Z.land gfp (Z.lor __GFP_WAIT __GFP_IO)) (Z.lor __GFP_WAIT __GFP_IO)) as [Eg|_].
    - apply Hend; [etransitivity; [apply wakeup_kswapd_keep|apply add_pressure_keep]|].
      apply c_true_spec. intros E0. apply (f_equal (λ v, Z.land v __GFP_WAIT)) in Eg.
      rewrite <- Z.land_assoc in Eg. change (Z.land (Z.lor __GFP_WAIT __GFP_IO) __GFP_WAIT) with __GFP_WAIT in Eg.
      by rewrite E0 in Eg.
    - destruct (c_true (Z.land gfp __GFP_WAIT)) eqn:Ew; [|by apply Hfin].
      apply Hend; [|done]. etransitivity; [apply try_to_free_pages_keep|apply add_pressure_keep]. }
  clear s. induction n as [|m IH]; intros s Hu; apply Hround; try done.
  intros E Hw s0 Hu0. right. done.
Qed.
End correct.

(** ** Properties *)

(** C4: [__alloc_pages] is safe against any behaviour of reclaim and of the
    daemons that keeps the zones consistent: when it returns, all zones are consistent
    and a page it returns starts an aligned block of [2^order] pages inside a zone of
    the list that overlaps no free block.  It always returns, without running into a
    [BUG()], unless single pages are requested with [__GFP_WAIT]: only then can it
    wait for ever. *)
Theorem alloc_pages_correct `{VmEnvOk} n s zl order :
  0 <= order < MAX_ORDER → usable s (zl_zones zl) →
  (∃ s' r, __alloc_pages (S n) s zl order = Ok (s', r) ∧ keep s s' ∧
     ∀ pg, r = Some pg → got (zl_zones zl) order s' pg) ∨
  (order = 0 ∧ c_true (Z.land (gfp_mask zl) __GFP_WAIT) = true ∧
   __alloc_pages (S n) s zl order = Trap Fuel).
Proof.
  intros Ho Hu. unfold __alloc_pages.
  set (s2 := if (_ <? _) && _ then _ else _).
  assert (keep s s2) as Hk.
  { unfold s2. etransitivity; [apply (add_pressure_keep s)|].
    case_match; [apply wakeup_kswapd_keep|]. case_match; [apply wakeup_bdflush_keep|reflexivity]. }
  destruct (alloc_try_good order Ho n (zl_zones zl) (gfp_mask zl) s2
    ((order =? 0) && c_true (Z.land (gfp_mask zl) __GFP_WAIT) && negb (pf_memalloc (add_pressure s))))
    as [Hg|Hg].
  - intros E. apply andb_prop in E as [E _]. apply andb_prop in E as [E _]. by apply Z.eqb_eq.
  - by eapply usable_keep.
  - left. by apply (good_keep _ _ s s2).
  - right. done.
Qed.

(** In a zone that the last phase passes over there is too little left. *)
Definition exhausted `{VmEnv} (s : vm) (order zo : Z) : Prop :=
  ∃ z, vinv s zo z ∧
    ((free_pages z < pages_min z / 4 ∧ pf_memalloc s = false) ∨ ∀ o i, order <= o → ¬ blk z o i).

Lemma alloc_final_none `{VmEnvOk} zl s order s' :
  0 <= order < MAX_ORDER → usable s zl → alloc_final zl s order false = Ok (s', None) →
  s' = s ∧ ∀ zo, zo ∈ zl → exhausted s order zo.
Proof.
  intros Ho. induction zl as [|zo zl IH]; intros Hu; cbn [alloc_final].
  { intros [= ->]. split; [done|]. intros zo Hzo. by apply elem_of_nil in Hzo. }
  apply usable_cons in Hu as [(z & Hv & Hs) Hu]. rewrite (vinv_get s zo z Hv).
  cbn [mbind outcome_bind]. unfold BUG_if. rewrite (proj2 (Z.eqb_neq _ _) Hs).
  destruct ((free_pages z <? pages_min z / 4) && negb (pf_memalloc s)) eqn:Ec.
  - intros Hf. destruct (IH Hu Hf) as [-> Hex]. split; [done|].
    intros x Hx. apply elem_of_cons in Hx as [->|Hx]; [|auto]. exists z. split; [done|]. left.
    apply andb_prop in Ec as [E1 E2]. apply Z.ltb_lt in E1. by apply negb_true_iff in E2.
  - destruct (rmqueue_keep s zo z order Hv Ho) as (s1 & r & z1 & -> & _ & _ & _ & _ & Hnone).
    cbn [mbind outcome_bind]. destruct r as [pg|]; [done|]. destruct (Hnone eq_refl) as [-> Hno].
    intros Hf. destruct (IH Hu Hf) as [-> Hex]. split; [done|].
    intros x Hx. apply elem_of_cons in Hx as [->|Hx]; [|auto]. exists z. split; [done|]. by right.
Qed.

(** C34: An atomic request (without [__GFP_WAIT]) needs no second round, and it
    fails only when every zone of the list is exhausted: it has no block of the
    order or a larger one, or less than a quarter of [pages_min] free pages. *)
Theorem alloc_atomic_fails_exhausted `{VmEnvOk} s zl order s' :
  0 <= order < MAX_ORDER → usable s (zl_zones zl) → Z.land (gfp_mask zl) __GFP_WAIT = 0 →
  __alloc_pages 1 s zl order = Ok (s', None) →
  ∀ zo, zo ∈ zl_zones zl → exhausted s' order zo.
Proof.
  intros Ho Hu Hw. unfold __alloc_pages. rewrite Hw.
  change (c_true 0) with false. rewrite andb_false_r. cbn [andb].
  set (s2 := if (_ <? _) && _ then _ else _).
  assert (keep s s2) as Hk.
  { unfold s2. etransitivity; [apply (add_pressure_keep s)|].
    case_match; [apply wakeup_kswapd_keep|]. case_match; [apply wakeup_bdflush_keep|reflexivity]. }
  apply (usable_keep _ _ _ Hk) in Hu. clearbody s2. cbn [alloc_try]. rewrite Hw.
  change (c_true 0) with false.
  destruct (alloc_lots_good order Ho (zl_zones zl) s2 Hu) as (s3 & [?|] & -> & Hk3 & _);
    cbn [mbind outcome_bind]; [done|]. apply (usable_keep _ _ _ Hk3) in Hu.
  destruct (limit_good order Ho (zl_zones zl) s3 PAGES_HIGH false ltac:(done) Hu) as (s4 & [?|] & -> & Hk4 & _);
    cbn [mbind outcome_bind]; [done|]. apply (usable_keep _ _ _ Hk4) in Hu.
  destruct (limit_good order Ho (zl_zones zl) s4 PAGES_LOW false ltac:(done) Hu) as (s5 & [?|] & -> & Hk5 & _);
    cbn [mbind outcome_bind]; [done|]. apply (usable_keep _ _ _ Hk5) in Hu.
  apply (usable_keep _ _ _ (wakeup_kswapd_keep 0 s5)) in Hu.
  destruct (limit_good order Ho (zl_zones zl) (wakeup_kswapd 0 s5) PAGES_MIN false ltac:(done) Hu) as (s6 & [?|] & -> & Hk6 & _);
    cbn [mbind outcome_bind]; [done|]. apply (usable_keep _ _ _ Hk6) in Hu.
  rewrite andb_false_r. destruct (negb (pf_memalloc s6)); cbn [mbind outcome_bind].
  - destruct (Z.eqb_spec (Z.land (gfp_mask zl) (Z.lor __GFP_WAIT __GFP_IO)) (Z.lor __GFP_WAIT __GFP_IO)) as [Eg|_].
    + exfalso. apply (f_equal (λ v, Z.land v __GFP_WAIT)) in Eg. rewrite <- Z.land_assoc in Eg.
      change (Z.land (Z.lor __GFP_WAIT __GFP_IO) __GFP_WAIT) with __GFP_WAIT in Eg. by rewrite Hw in Eg.
    + intros Hf. by apply alloc_final_none in Hf as [-> ?].
  - intros Hf. by apply alloc_final_none in Hf as [-> ?].
Qed.

(** Every zone list that is built holds only zones with pages, a request with
    [__GFP_DMA] is served from the DMA zone alone, and others prefer the normal zone
    and fall back to DMA. *)
Theorem build_zonelist_sound s node_zones i zl :
  build_zonelist s node_zones i = Ok zl →
  gfp_mask zl = i ∧
  (∀ zo, zo ∈ zl_zones zl → ∃ z, zones s !! zo = Some z ∧ size z ≠ 0) ∧
  (∃ zd, zones s !! node_zones ZONE_DMA = Some zd ∧
     let dma := if c_true (size zd) then [node_zones ZONE_DMA] else [] in
     if c_true (Z.land i __GFP_DMA) then zl_zones zl = dma
     else ∃ zn, zones s !! node_zones ZONE_NORMAL = Some zn ∧
       zl_zones zl = (if c_true (size zn) then [node_zones ZONE_NORMAL] else []) ++ dma).
Proof.
  unfold build_zonelist, get_zone. unfold __GFP_HIGHMEM. rewrite Z.land_0_r. change (c_true 0) with false.
  cbv iota. destruct (zones s !! node_zones ZONE_DMA) as [zd|] eqn:Ed.
  2:{ destruct (c_true (Z.land i __GFP_DMA)); cbn [mbind outcome_bind Z.eqb ZONE_DMA ZONE_NORMAL]; [done|].
      by destruct (zones s !! node_zones ZONE_NORMAL). }
  assert (∀ t z, zones s !! node_zones t = Some z →
    ∀ zo, zo ∈ (if c_true (size z) then [node_zones t] else []) → ∃ z, zones s !! zo = Some z ∧ size z ≠ 0) as Hin.
  { intros t z Ht zo Hzo. destruct (c_true (size z)) eqn:Ec; [|by apply elem_of_nil in Hzo].
    apply list_elem_of_singleton in Hzo as ->. exists z. split; [done|]. by apply c_true_spec. }
  cbn [mbind outcome_bind]. destruct (c_true (Z.land i __GFP_DMA)).
  - cbn [Z.eqb ZONE_DMA mbind outcome_bind]. intros [= <-]. split; [done|]. split; [by apply (Hin ZONE_DMA)|].
    by exists zd.
  - cbn [Z.eqb ZONE_DMA ZONE_NORMAL Pos.eqb mbind outcome_bind].
    destruct (zones s !! node_zones ZONE_NORMAL) as [zn|] eqn:En; [|done]. cbn [mbind outcome_bind].
    intros [= <-]. split; [done|]. cbn [zl_zones]. split.
    + intros zo Hzo. apply elem_of_app in Hzo as [Hzo|Hzo]; [by apply (Hin ZONE_NORMAL zn)|by apply (Hin ZONE_DMA zd)].
    + exists zd. split; [done|]. by exists zn.
Qed.

(** ** A concrete environment: nothing to reclaim, nobody else running *)

Definition quiet : VmEnv :=
  {| pf_memalloc := λ _, false; inactive_shortage := λ _, 0; free_shortage := λ _, 0;
     inactive_target := λ _, 0; nr_inactive_dirty_pages := λ _, 0; freepages_high := λ _, 0;
     kreclaimd_waiting := λ _, false; wakeup_kswapd := λ _ s, s; wakeup_bdflush := λ _ s, s;
     wake_up_kreclaimd := λ s, s; schedule := λ s, s; page_launder := λ _ _ s, s;
     try_to_free_pages := λ _ s, s; reclaim_page := λ s _, (s, None) |}.

Lemma quiet_ok : @VmEnvOk quiet.
Proof. by constructor; intros; try reflexivity. Qed.

Lemma demo1_usable : usable demo1 [1].
Proof.
  intros zo Hzo. apply list_elem_of_singleton in Hzo as ->.
  destruct demo1_vinv as (z & Hv & Eo). exists z. split; [done|]. destruct Hv as (Hz & _).
  intros E. vm_compute in Hz. injection Hz as <-. discriminate E.
Qed.

Lemma alloc_pages_correct_witness :
  ∃ s', @__alloc_pages quiet 1 demo1 (Zonelist [1] 0) 2 = Ok (s', Some 12) ∧ got [1] 2 s' 12.
Proof.
  destruct (@alloc_pages_correct quiet quiet_ok 0 demo1 (Zonelist [1] 0) 2 ltac:(done) demo1_usable)
    as [(s' & r & H & _ & Hg)|(H & _)]; [|discriminate H].
  assert (r = Some 12) as -> by (vm_compute in H; congruence).
  exists s'. exact (conj H (Hg 12 eq_refl)).
Defined.

Lemma alloc_atomic_fails_exhausted_witness :
  ∃ s', @__alloc_pages quiet 1 demo1 (Zonelist [1] 2) 4 = Ok (s', None) ∧ @exhausted quiet s' 4 1.
Proof.
  destruct (@__alloc_pages quiet 1 demo1 (Zonelist [1] 2) 4) as [[s' r]|] eqn:E;
    [|vm_compute in E; discriminate E].
  assert (r = None) as -> by (vm_compute in E; congruence).
  exists s'. split; [reflexivity|].
  apply (@alloc_atomic_fails_exhausted quiet quiet_ok demo1 (Zonelist [1] 2) 4 s' ltac:(done)
    demo1_usable eq_refl E). by apply elem_of_cons; left.
Defined.

Lemma build_zonelist_sound_witness :
  ∃ zl, build_zonelist (Vm ∅ 0 {[0 := demo_zone; 1 := demo_zone]} 0) (λ i, i) 0 = Ok zl ∧
    gfp_mask zl = 0.
Proof.
  destruct (build_zonelist (Vm ∅ 0 {[0 := demo_zone; 1 := demo_zone]} 0) (λ i, i) 0) as [zl|] eqn:E;
    [|vm_compute in E; discriminate E].
  exists zl. split; [reflexivity|]. apply (build_zonelist_sound _ _ _ _ E).
Defined.
