(* ===== verification/Timer.v ===== *)
(** * Timer: the timer wheel ([kernel/timer.c])

    The five vectors [tv1], ..., [tv5] are levels 0, ..., 4: [vecs] maps a level and
    an index to the list of timers in that slot, in order, [index] maps a level to
    the vector's [index].  Timers are addresses; [timers] holds their fields, and
    [pending] tells whether [timer->list.next] is not NULL.

    A timer function gets the wheel and returns it changed: it may add, modify and
    delete timers.  [jiffies] does not change while [run_timer_list] runs;
    [timerlist_lock] is not modelled.

    [repeat:] may go on for ever if timer functions keep adding timers that have
    already expired; it carries fuel.  The loop over the ticks runs once per tick
    behind, cascading once per timer of the slot. *)

From S2P Require Import Prelude.

Definition TVN_BITS : Z := 6.
Definition TVR_BITS : Z := 8.
Definition TVN_SIZE : Z := Z.shiftl 1 TVN_BITS.
Definition TVR_SIZE : Z := Z.shiftl 1 TVR_BITS.
Definition TVN_MASK : Z := TVN_SIZE - 1.
Definition TVR_MASK : Z := TVR_SIZE - 1.
Definition NOOF_TVECS : Z := 5.

Record timer_list := TimerList {
  pending : bool;
  expires : Z
}.

Record wheel := Wheel {
  index : gmap Z Z;
  vecs : gmap (Z * Z) (list Z);
  timer_jiffies : Z;
  timers : gmap Z timer_list
}.

Definition set_vecs (v : gmap (Z * Z) (list Z)) (w : wheel) : wheel :=
  Wheel (index w) v (timer_jiffies w) (timers w).
Definition set_index (n i : Z) (w : wheel) : wheel :=
  Wheel (<[n := i]> (index w)) (vecs w) (timer_jiffies w) (timers w).
Definition set_timer (x : Z) (t : timer_list) (w : wheel) : wheel :=
  Wheel (index w) (vecs w) (timer_jiffies w) (<[x := t]> (timers w)).

Definition get_vec (w : wheel) (n i : Z) : outcome (list Z) :=
  match vecs w !! (n, i) with Some l => Ok l | None => Trap Fault end.
Definition put_vec (n i : Z) (l : list Z) (w : wheel) : wheel :=
  set_vecs (<[(n, i) := l]> (vecs w)) w.
Definition get_index (w : wheel) (n : Z) : outcome Z :=
  match index w !! n with Some i => Ok i | None => Trap Fault end.
Definition get_timer (w : wheel) (x : Z) : outcome timer_list :=
  match timers w !! x with Some t => Ok t | None => Trap Fault end.

(** All slots empty, all indices (static variables) 0. *)
Definition slots (n size : Z) : list (Z * Z * list Z) := (λ i, (n, i, [])) <$> seqZ 0 size.

Definition empty_vecs : gmap (Z * Z) (list Z) :=
  list_to_map (slots 4 TVN_SIZE ++ slots 3 TVN_SIZE ++ slots 2 TVN_SIZE ++ slots 1 TVN_SIZE
               ++ slots 0 TVR_SIZE).

Definition init_timervecs (w : wheel) : wheel := set_vecs empty_vecs w.

(** ** Adding, modifying, deleting *)

(** The slot [internal_add_timer] selects. *)
Definition timer_slot (expires timer_jiffies tv1_index : Z) : Z * Z :=
  let idx := u32 (expires - timer_jiffies) in
  if idx <? TVR_SIZE then (0, Z.land expires TVR_MASK)
  else if idx <? Z.shiftl 1 (TVR_BITS + TVN_BITS) then
    (1, Z.land (Z.shiftr expires TVR_BITS) TVN_MASK)
  else if idx <? Z.shiftl 1 (TVR_BITS + 2 * TVN_BITS) then
    (2, Z.land (Z.shiftr expires (TVR_BITS + TVN_BITS)) TVN_MASK)
  else if idx <? Z.shiftl 1 (TVR_BITS + 3 * TVN_BITS) then
    (3, Z.land (Z.shiftr expires (TVR_BITS + 2 * TVN_BITS)) TVN_MASK)
  else if s32 idx <? 0 then (0, tv1_index)
  else (4, Z.land (Z.shiftr expires (TVR_BITS + 3 * TVN_BITS)) TVN_MASK).

(** Timers are FIFO: the timer goes to the end of the slot. *)
Definition internal_add_timer (w : wheel) (x : Z) : outcome wheel :=
  t ← get_timer w x;
  i1 ← get_index w 0;
  let '(n, i) := timer_slot (expires t) (timer_jiffies w) i1 in
  l ← get_vec w n i;
  Ok (set_timer x (TimerList true (expires t)) (put_vec n i (l ++ [x]) w)).

(** The second component tells whether the timer was added; otherwise a message is
    printed. *)
Definition add_timer (w : wheel) (x : Z) : outcome (wheel * bool) :=
  t ← get_timer w x;
  if pending t then Ok (w, false)
  else w ← internal_add_timer w x; Ok (w, true).

(** [list_del] takes the timer out of the slot it is in. *)
Definition list_del (x : Z) (w : wheel) : wheel :=
  set_vecs (filter (λ y, y ≠ x) <$> vecs w) w.

Definition detach_timer (w : wheel) (x : Z) : outcome (wheel * Z) :=
  t ← get_timer w x;
  if negb (pending t) then Ok (w, 0) else Ok (list_del x w, 1).

Definition mod_timer (w : wheel) (x e : Z) : outcome (wheel * Z) :=
  t ← get_timer w x;
  let w := set_timer x (TimerList (pending t) e) w in
  '(w, ret) ← detach_timer w x;
  w ← internal_add_timer w x;
  Ok (w, ret).

Definition del_timer (w : wheel) (x : Z) : outcome (wheel * Z) :=
  '(w, ret) ← detach_timer w x;
  t ← get_timer w x;
  Ok (set_timer x (TimerList false (expires t)) w, ret).

(** ** Running *)

(** The successor of [x] in its slot. *)
Fixpoint next_of (x : Z) (l : list Z) : option Z :=
  match l with
  | [] => None
  | y :: l => if x =? y then head l else next_of x l
  end.

Fixpoint cascade_loop (fuel : nat) (w : wheel) (n i : Z) (curr : option Z) : outcome wheel :=
  match curr with
  | None => Ok w
  | Some x =>
      match fuel with
      | O => Trap Fuel
      | S fuel =>
          l ← get_vec w n i;
          let next := next_of x l in
          let w := list_del x w in
          w ← internal_add_timer w x;
          cascade_loop fuel w n i next
      end
  end.

Definition cascade_timers (w : wheel) (n : Z) : outcome wheel :=
  i ← get_index w n;
  l ← get_vec w n i;
  w ← cascade_loop (S (length l)) w n i (head l);
  let w := put_vec n i [] w in
  Ok (set_index n (Z.land (i + 1) TVN_MASK) w).

(** [do { cascade_timers(tvecs[n]); } while (tvecs[n]->index == 1 && ++n < NOOF_TVECS)];
    [k] more vectors may follow. *)
Fixpoint cascade_all (k : nat) (w : wheel) (n : Z) : outcome wheel :=
  w ← cascade_timers w n;
  i ← get_index w n;
  match k with
  | O => Ok w
  | S k => if i =? 1 then cascade_all k w (n + 1) else Ok w
  end.

(** A timer that ran: its address, its expiry time and the tick. *)
Record event := Event { ev_timer : Z; ev_expires : Z; ev_tick : Z }.

Section run.
(** [fn x w]: the function of timer [x] called in state [w]. *)
Context (fn : Z → wheel → wheel).

(** From [repeat] on: run the timers of the current slot. *)
Fixpoint run_slot (fuel : nat) (w : wheel) : outcome (wheel * list event) :=
  match fuel with
  | O => Trap Fuel
  | S fuel =>
      i ← get_index w 0;
      l ← get_vec w 0 i;
      match l with
      | [] => Ok (w, [])
      | x :: _ =>
          t ← get_timer w x;
          '(w, _) ← detach_timer w x;
          let w := set_timer x (TimerList false (expires t)) w in
          let e := Event x (expires t) (timer_jiffies w) in
          '(w, log) ← run_slot fuel (fn x w);
          Ok (w, e :: log)
      end
  end.

(** One round of the [while] loop. *)
Definition run_tick (fuel : nat) (w : wheel) : outcome (wheel * list event) :=
  i ← get_index w 0;
  w ← (if i =? 0 then cascade_all 3 w 1 else Ok w);
  '(w, log) ← run_slot fuel w;
  i ← get_index w 0;
  Ok (Wheel (<[0 := Z.land (i + 1) TVR_MASK]> (index w)) (vecs w)
        (u32 (timer_jiffies w + 1)) (timers w), log).

(** [n] bounds the number of ticks, [fuel] the number of timers per tick. *)
Fixpoint run_ticks (n fuel : nat) (jiffies : Z) (w : wheel) : outcome (wheel * list event) :=
  if s32 (jiffies - timer_jiffies w) <? 0 then Ok (w, [])
  else match n with
       | O => Trap Fuel
       | S n =>
           '(w, log) ← run_tick fuel w;
           '(w, log') ← run_ticks n fuel jiffies w;
           Ok (w, log ++ log')
       end.

Definition run_timer_list (fuel : nat) (jiffies : Z) (w : wheel) : outcome (wheel * list event) :=
  run_ticks (S (Z.to_nat (s32 (jiffies - timer_jiffies w)))) fuel jiffies w.
End run.

(** ** The invariant *)

(** Time is unbounded in the invariant: [t] is the tick that is to be processed
    next, [timer_jiffies] its low 32 bits.  The vectors of level [n] hold timers by
    bits [sh n], ..., [sh n + 5] of their expiry time. *)
Definition sh (n : Z) : Z := 8 + 6 * (n - 1).

(** [a] rounded down to the granularity of level [n]: when the timer is cascaded. *)
Definition floor_at (n a : Z) : Z := 2 ^ sh n * (a / 2 ^ sh n).

Definition valid (n i : Z) : Prop := (n = 0 ∧ 0 <= i < 256) ∨ (1 <= n <= 4 ∧ 0 <= i < 64).

(** A timer that expires at [a] belongs into slot [i] of level [n]; all slots of the
    level that are cascaded before tick [c] are done. *)
Definition placed (t c n i a : Z) : Prop :=
  if n =? 0 then (t <= a < t + 256 ∧ i = a mod 256) ∨ (t - 2 ^ 31 <= a < t ∧ i = t mod 256)
  else i = (a / 2 ^ sh n) mod 64 ∧ c <= floor_at n a ∧ floor_at n a < t + 2 ^ (sh n + 6) ∧
       t <= a < t + 2 ^ 31.

(** The timers in the wheel. *)
Definition all (w : wheel) : list Z := concat (snd <$> map_to_list (vecs w)).

(** [ex] may be marked as pending without being in a slot. *)
Record winv (t : Z) (c : Z → Z) (ex : option Z) (w : wheel) : Prop := {
  wi_time : timer_jiffies w = u32 t;
  wi_index0 : index w !! 0 = Some (t mod 256);
  wi_index n : 1 <= n <= 4 → index w !! n = Some ((c n + 2 ^ sh n - 1) / 2 ^ sh n mod 64);
  wi_slots n i : is_Some (vecs w !! (n, i)) ↔ valid n i;
  wi_placed n i l x : vecs w !! (n, i) = Some l → x ∈ l →
    ∃ tm a, timers w !! x = Some tm ∧ pending tm = true ∧ expires tm = u32 a ∧ placed t (c n) n i a;
  wi_nodup : NoDup (all w);
  wi_pending x tm : timers w !! x = Some tm → pending tm = true → ex ≠ Some x → x ∈ all w;
  wi_expires x tm : timers w !! x = Some tm → 0 <= expires tm < 2 ^ 32
}.

Lemma elem_of_all w x : x ∈ all w ↔ ∃ n i l, vecs w !! (n, i) = Some l ∧ x ∈ l.
Proof.
  unfold all. rewrite list_elem_of_In, in_concat. split.
  - intros (l & Hl & Hx). apply list_elem_of_In in Hl, Hx. apply list_elem_of_fmap in Hl as ([[n i] l'] & -> & Hl).
    apply elem_of_map_to_list in Hl. eauto.
  - intros (n & i & l & Hl & Hx). exists l. rewrite <- !list_elem_of_In. split; [|done]. apply list_elem_of_fmap.
    exists ((n, i), l). split; [done|]. by apply elem_of_map_to_list.
Qed.

(** Splitting off one slot. *)
Lemma all_split w n i l :
  vecs w !! (n, i) = Some l →
  ∃ r, all w ≡ₚ l ++ r ∧ ∀ l' w', vecs w' = <[(n, i) := l']> (vecs w) → all w' ≡ₚ l' ++ r.
Proof.
  intros Hl. exists (concat (snd <$> map_to_list (delete (n, i) (vecs w)))). unfold all.
  assert (∀ l', concat (snd <$> map_to_list (<[(n, i) := l']> (vecs w))) ≡ₚ
    l' ++ concat (snd <$> map_to_list (delete (n, i) (vecs w)))) as H.
  { intros l'. rewrite <- (insert_delete_eq (vecs w)).
    rewrite map_to_list_insert by (by rewrite lookup_delete_eq). done. }
  split.
  - rewrite <- (H l). by rewrite insert_id.
  - intros l' w' ->. apply H.
Qed.

Lemma concat_filter (P : Z → Prop) `{∀ x, Decision (P x)} (ls : list (list Z)) :
  concat (filter P <$> ls) = filter P (concat ls).
Proof.
  induction ls as [|l ls IH]; [done|]. cbn. rewrite list.filter_app. by rewrite <- IH.
Qed.

Lemma all_del x w : all (list_del x w) ≡ₚ filter (λ y, y ≠ x) (all w).
Proof.
  unfold all, list_del. cbn. rewrite map_to_list_fmap, <- list_fmap_compose.
  rewrite <- concat_filter. by rewrite <- list_fmap_compose.
Qed.

(** ** Arithmetic of slots *)

Lemma sh_range n : 1 <= n <= 4 → 8 <= sh n <= 26.
Proof. unfold sh. lia. Qed.

Lemma slot_bits a s : 0 <= s <= 26 → Z.land (Z.shiftr (u32 a) s) TVN_MASK = (a / 2 ^ s) mod 64.
Proof.
  intros Hs. change TVN_MASK with (Z.ones 6). rewrite Z.land_ones, Z.shiftr_div_pow2 by lia.
  unfold wrap. pose proof (Z.div_mod a (2 ^ 32) ltac:(lia)) as Hd.
  assert (2 ^ 32 = 2 ^ s * (64 * 2 ^ (26 - s))) as Hp.
  { change 64 with (2 ^ 6). rewrite <- !Z.pow_add_r by lia. f_equal. lia. }
  assert (0 < 2 ^ s) by lia. set (q := a / 2 ^ 32) in *. set (r := a mod 2 ^ 32) in *.
  assert (a / 2 ^ s = 64 * 2 ^ (26 - s) * q + r / 2 ^ s) as ->.
  { rewrite Hd, Hp. rewrite <- Z.mul_assoc, (Z.mul_comm (2 ^ s)), Z.div_add_l by lia. done. }
  change (2 ^ 6) with 64.
  replace (64 * 2 ^ (26 - s) * q + r / 2 ^ s) with (r / 2 ^ s + 2 ^ (26 - s) * q * 64) by lia.
  by rewrite Z.mod_add by lia.
Qed.

Lemma slot_bits0 a : Z.land (u32 a) TVR_MASK = a mod 256.
Proof.
  change TVR_MASK with (Z.ones 8). rewrite Z.land_ones by lia. unfold wrap.
  change (2 ^ 32) with (2 ^ 8 * 2 ^ 24). rewrite Z.rem_mul_r by lia.
  change (2 ^ 8) with 256. rewrite (Z.mul_comm 256 (_ mod _)), Z.mod_add by lia. by rewrite Z.mod_mod by lia.
Qed.

Lemma floor_at_bounds n a : 1 <= n <= 4 → floor_at n a <= a < floor_at n a + 2 ^ sh n.
Proof.
  intros Hn. unfold floor_at. pose proof (sh_range n Hn).
  pose proof (Z.div_mod a (2 ^ sh n) ltac:(lia)). pose proof (Z.mod_pos_bound a (2 ^ sh n) ltac:(lia)). lia.
Qed.

(** The time meant by [e], within [2^31] ticks of [t]. *)
Definition abs_time (t e : Z) : Z := t + s32 (e - t).

Lemma abs_time_spec t e : 0 <= e < 2 ^ 32 → e = u32 (abs_time t e) ∧ t - 2 ^ 31 <= abs_time t e < t + 2 ^ 31.
Proof.
  intros He. unfold abs_time, swrap, wrap. change (2 ^ (32 - 1)) with (2 ^ 31).
  pose proof (Z.mod_pos_bound (e - t + 2 ^ 31) (2 ^ 32) ltac:(lia)). split; [|lia].
  pose proof (Z.div_mod (e - t + 2 ^ 31) (2 ^ 32) ltac:(lia)) as Hd.
  set (q := (e - t + 2 ^ 31) / 2 ^ 32) in *.
  apply (Z.mod_unique_pos _ _ (- q)); lia.
Qed.

Lemma wrap_sub_eq w a b : 0 <= w → wrap w a = wrap w b → (2 ^ w | a - b).
Proof.
  intros Hw H. unfold wrap in H. pose proof (Z.div_mod a (2 ^ w) ltac:(lia)).
  pose proof (Z.div_mod b (2 ^ w) ltac:(lia)). exists (a / 2 ^ w - b / 2 ^ w). lia.
Qed.

Lemma abs_time_unique t e a :
  e = u32 a → t - 2 ^ 31 <= a < t + 2 ^ 31 → abs_time t e = a.
Proof.
  intros He Ha. assert (0 <= e < 2 ^ 32) as Hr by (subst; apply (wrap_bound 32); lia).
  destruct (abs_time_spec t e Hr) as [H1 H2]. rewrite He in H1.
  destruct (wrap_sub_eq 32 a (abs_time t e) ltac:(lia)) as [q Hq]; [by rewrite <- He in *|]. lia.
Qed.

(** The slot selected is a right place; a timer that expires within [2^sh n] ticks
    goes below level [n]. *)
Lemma timer_slot_spec t c e :
  0 <= e < 2 ^ 32 → (∀ n, 1 <= n <= 4 → c n <= t + 1) →
  let '(n, i) := timer_slot e (u32 t) (t mod 256) in
  valid n i ∧ placed t (c n) n i (abs_time t e) ∧
  (∀ m, 1 <= m → abs_time t e < t + 2 ^ sh m → n < m).
Proof.
  intros He Hc. destruct (abs_time_spec t e He) as [Ee Ha]. set (a := abs_time t e) in *.
  unfold timer_slot.
  assert (u32 (e - u32 t) = u32 (a - t)) as ->.
  { rewrite Ee at 1. unfold wrap. by rewrite <- Zminus_mod. }
  change TVR_SIZE with 256. change TVR_BITS with 8. change TVN_BITS with 6.
  change (Z.shiftl 1 (8 + 6)) with (2 ^ 14). change (Z.shiftl 1 (8 + 2 * 6)) with (2 ^ 20).
  change (Z.shiftl 1 (8 + 3 * 6)) with (2 ^ 26).
  assert (0 <= a mod 256 < 256 ∧ 0 <= t mod 256 < 256) by (split; apply Z.mod_pos_bound; lia).
  destruct (Z.lt_ge_cases a t) as [Hpast|Hfut].
  - assert (u32 (a - t) = a - t + 2 ^ 32) as ->.
    { unfold wrap. symmetry. apply (Z.mod_unique_pos _ _ (-1)); lia. }
    destruct (Z.ltb_spec (a - t + 2 ^ 32) 256); [lia|].
    destruct (Z.ltb_spec (a - t + 2 ^ 32) (2 ^ 14)); [lia|].
    destruct (Z.ltb_spec (a - t + 2 ^ 32) (2 ^ 20)); [lia|].
    destruct (Z.ltb_spec (a - t + 2 ^ 32) (2 ^ 26)); [lia|].
    assert (s32 (a - t + 2 ^ 32) = a - t) as ->.
    { unfold swrap. change (2 ^ (32 - 1)) with (2 ^ 31).
      rewrite <- (Z.mod_unique_pos _ _ 1 (a - t + 2 ^ 31)); lia. }
    destruct (Z.ltb_spec (a - t) 0); [|lia].
    split; [left; lia|]. split; [right; split; [lia|done]|]. lia.
  - rewrite wrap_small by lia.
    assert (∀ n, 1 <= n <= 4 → t + 2 ^ sh n <= a → (n = 4 ∨ a < t + 2 ^ (sh n + 6)) →
      valid n (Z.land (Z.shiftr e (sh n)) TVN_MASK) ∧
      placed t (c n) n (Z.land (Z.shiftr e (sh n)) TVN_MASK) a ∧
      (∀ m, 1 <= m → a < t + 2 ^ sh m → n < m)) as Hlev.
    { intros n Hn H1 H2. pose proof (sh_range n Hn). rewrite Ee, slot_bits by lia.
      pose proof (Z.mod_pos_bound (a / 2 ^ sh n) 64 ltac:(lia)).
      pose proof (floor_at_bounds n a Hn). specialize (Hc n Hn).
      split; [right; lia|]. split.
      - unfold placed. destruct (Z.eqb_spec n 0); [lia|]. split; [done|]. split; [lia|].
        split; [|lia]. destruct H2 as [->|?]; [|lia]. change (2 ^ (sh 4 + 6)) with (2 ^ 32). lia.
      - intros m Hm Hlt. destruct (Z.lt_ge_cases n m) as [|Hge]; [done|].
        assert (2 ^ sh m <= 2 ^ sh n) by (apply Z.pow_le_mono_r; unfold sh; lia). lia. }
    destruct (Z.ltb_spec (a - t) 256).
    { rewrite Ee, slot_bits0. split; [left; lia|]. split; [left; lia|]. lia. }
    destruct (Z.ltb_spec (a - t) (2 ^ 14)).
    { apply (Hlev 1); [lia|change (2 ^ sh 1) with 256; lia|change (2 ^ (sh 1 + 6)) with (2 ^ 14); lia]. }
    destruct (Z.ltb_spec (a - t) (2 ^ 20)).
    { apply (Hlev 2); [lia|change (2 ^ sh 2) with (2 ^ 14); lia|change (2 ^ (sh 2 + 6)) with (2 ^ 20); lia]. }
    destruct (Z.ltb_spec (a - t) (2 ^ 26)).
    { apply (Hlev 3); [lia|change (2 ^ sh 3) with (2 ^ 20); lia|change (2 ^ (sh 3 + 6)) with (2 ^ 26); lia]. }
    rewrite swrap_small by lia. destruct (Z.ltb_spec (a - t) 0); [lia|].
    apply (Hlev 4); [lia|change (2 ^ sh 4) with (2 ^ 26); lia|by left].
Qed.

Lemma get_index0 t c ex w : winv t c ex w → get_index w 0 = Ok (t mod 256).
Proof. intros Hw. unfold get_index. by rewrite (wi_index0 _ _ _ _ Hw). Qed.

(** [internal_add_timer] of a timer that is in no slot. *)
Lemma internal_add_spec t c w x tm :
  winv t c (Some x) w → (∀ n, 1 <= n <= 4 → c n <= t + 1) → timers w !! x = Some tm → x ∉ all w →
  ∃ n i l, vecs w !! (n, i) = Some l ∧
    let w' := set_timer x (TimerList true (expires tm)) (put_vec n i (l ++ [x]) w) in
    internal_add_timer w x = Ok w' ∧ winv t c None w' ∧ all w' ≡ₚ x :: all w ∧
    (∀ m, 1 <= m → abs_time t (expires tm) < t + 2 ^ sh m → n < m).
Proof.
  intros Hw Hc Hx Hnew. unfold internal_add_timer, get_timer. rewrite Hx. cbn [mbind outcome_bind].
  rewrite (get_index0 _ _ _ _ Hw). cbn [mbind outcome_bind]. rewrite (wi_time _ _ _ _ Hw).
  pose proof (wi_expires _ _ _ _ Hw x tm Hx) as He.
  pose proof (timer_slot_spec t c (expires tm) He Hc) as Hs.
  destruct (timer_slot _ _ _) as [n i]. destruct Hs as (Hv & Hp & Hlow).
  destruct (proj2 (wi_slots _ _ _ _ Hw n i) Hv) as [l Hl]. exists n, i, l. split; [done|].
  unfold get_vec. rewrite Hl. cbn [mbind outcome_bind]. split; [done|].
  destruct (all_split w n i l Hl) as (r & Hr & Hput).
  set (w' := set_timer _ _ _). assert (all w' ≡ₚ x :: all w) as Hall.
  { rewrite (Hput (l ++ [x]) w' eq_refl), Hr. rewrite <- app_assoc. cbn.
    by rewrite <- Permutation_middle. }
  split; [|done]. destruct (abs_time_spec t (expires tm) He) as [Ee _].
  constructor; try apply Hw.
  - intros n' i'. cbn. rewrite lookup_insert_is_Some. rewrite (wi_slots _ _ _ _ Hw).
    split; [intros [[= -> ->]|[_ ?]]; done|]. intros ?.
    destruct (decide ((n, i) = (n', i'))); [by left|by right].
  - intros n' i' l' y Hl' Hy. cbn in *. apply lookup_insert_Some in Hl' as [[[= <- <-] <-]|[_ Hl']].
    + apply elem_of_app in Hy as [Hy|Hy].
      * assert (y ≠ x) by (intros ->; apply Hnew, elem_of_all; eauto).
        rewrite lookup_insert_ne by done. by apply (wi_placed _ _ _ _ Hw n i l y).
      * apply list_elem_of_singleton in Hy as ->. rewrite lookup_insert_eq. by eexists _, _.
    + assert (y ≠ x) by (intros ->; apply Hnew, elem_of_all; eauto).
      rewrite lookup_insert_ne by done. by apply (wi_placed _ _ _ _ Hw n' i' l' y).
  - rewrite Hall. constructor; [done|apply Hw].
  - intros y tmy Hy Hpe _. rewrite Hall. cbn in Hy. destruct (decide (y = x)) as [->|Hne].
    + by apply elem_of_cons; left.
    + rewrite lookup_insert_ne in Hy by done. apply elem_of_cons. right.
      apply (wi_pending _ _ _ _ Hw y tmy); try done. congruence.
  - intros y tmy Hy. cbn in Hy. apply lookup_insert_Some in Hy as [[<- <-]|[_ Hy]]; [done|].
    by apply (wi_expires _ _ _ _ Hw y).
Qed.

(** Taking a timer out of its slot. *)
Lemma list_del_spec t c w x :
  winv t c None w → x ∈ all w →
  winv t c (Some x) (list_del x w) ∧ (x ∉ all (list_del x w)) ∧ all w ≡ₚ x :: all (list_del x w).
Proof.
  intros Hw Hx. pose proof (all_del x w) as Hd. pose proof (wi_nodup _ _ _ _ Hw) as Hnd.
  assert (x ∉ all (list_del x w)) as Hnot.
  { rewrite Hd. intros H. by apply list_elem_of_filter in H as [? _]. }
  assert (NoDup (all (list_del x w))) as Hnd'.
  { rewrite Hd. by apply list.NoDup_filter. }
  split; [|split; [done|]].
  - constructor; try apply Hw; [| |done|].
    + intros n i. cbn. rewrite lookup_fmap, fmap_is_Some. apply Hw.
    + intros n i l y Hl Hy. cbn in *. rewrite lookup_fmap in Hl.
      apply fmap_Some in Hl as (l0 & Hl & ->). apply list_elem_of_filter in Hy as [_ Hy].
      by apply (wi_placed _ _ _ _ Hw n i l0 y).
    + intros y tm Hy Hp Hne. rewrite Hd. apply list_elem_of_filter. split; [congruence|].
      by apply (wi_pending _ _ _ _ Hw y tm).
  - apply NoDup_Permutation; [done|by constructor|]. intros y. rewrite elem_of_cons, Hd, list_elem_of_filter.
    destruct (decide (y = x)) as [->|]; naive_solver.
Qed.

(** Changing a timer that is in no slot. *)
Lemma set_timer_spec t c w x tm ex :
  winv t c (Some x) w → x ∉ all w → 0 <= expires tm < 2 ^ 32 →
  (pending tm = true → ex = Some x) → (ex = None ∨ ex = Some x) →
  winv t c ex (set_timer x tm w).
Proof.
  intros Hw Hx He Hp Hex. constructor; try apply Hw.
  - intros n i l y Hl Hy. cbn in *. assert (y ≠ x) by (intros ->; apply Hx, elem_of_all; eauto).
    rewrite lookup_insert_ne by done. by apply (wi_placed _ _ _ _ Hw n i l y).
  - intros y tmy Hy Hpe Hne. cbn in Hy. change (all (set_timer x tm w)) with (all w).
    destruct (decide (y = x)) as [->|Hd].
    + rewrite lookup_insert_eq in Hy. injection Hy as <-. by destruct Hne; apply Hp.
    + rewrite lookup_insert_ne in Hy by done. apply (wi_pending _ _ _ _ Hw y tmy); try done. congruence.
  - intros y tmy Hy. cbn in Hy. apply lookup_insert_Some in Hy as [[<- <-]|[_ Hy]]; [done|].
    by apply (wi_expires _ _ _ _ Hw y).
Qed.

(** ** Cascading *)

Lemma next_of_head x l : next_of x (x :: l) = head l.
Proof. cbn. by rewrite Z.eqb_refl. Qed.

(** The expiry times are not touched. *)
Definition same_expiry (w w' : wheel) : Prop :=
  ∀ x, expires <$> timers w' !! x = expires <$> timers w !! x.

#[local] Instance same_expiry_preorder : PreOrder same_expiry.
Proof. split; [done|]. intros w1 w2 w3 H1 H2 x. by rewrite H2, H1. Qed.

(** Timers of the slot that is cascaded at [t] expire before the next one. *)
Definition due_slot (t n : Z) (w : wheel) (l : list Z) : Prop :=
  ∀ x, x ∈ l → ∃ tm, timers w !! x = Some tm ∧ abs_time t (expires tm) < t + 2 ^ sh n.

Lemma cascade_loop_spec fuel t c w n i l :
  winv t c None w → (∀ m, 1 <= m <= 4 → c m <= t + 1) → 1 <= n <= 4 →
  vecs w !! (n, i) = Some l → due_slot t n w l → (length l <= fuel)%nat →
  ∃ w', cascade_loop fuel w n i (head l) = Ok w' ∧ winv t c None w' ∧ vecs w' !! (n, i) = Some [] ∧
    all w' ≡ₚ all w ∧ same_expiry w w' ∧ index w' = index w.
Proof.
  revert w l. induction fuel as [|fuel IH]; intros w [|x l] Hw Hc Hn Hl Hdue Hf; cbn in Hf; try lia;
    cbn [cascade_loop head]; try (by exists w).
  unfold get_vec. rewrite Hl. cbn [mbind outcome_bind]. rewrite next_of_head.
  assert (x ∈ all w) as Hx by (apply elem_of_all; exists n, i, (x :: l); split; [done|]; by apply elem_of_cons; left).
  destruct (list_del_spec t c w x Hw Hx) as (Hw1 & Hx1 & Hall1). set (w1 := list_del x w) in *.
  destruct (Hdue x ltac:(by apply elem_of_cons; left)) as (tm & Htm & Hlt).
  destruct (internal_add_spec t c w1 x tm Hw1 Hc Htm Hx1) as (n2 & i2 & l2 & Hl2 & Hadd & Hw2 & Hall2 & Hlow).
  rewrite Hadd. cbn [mbind outcome_bind]. set (w2 := set_timer _ _ _) in *.
  assert (n2 < n) as Hn2 by (apply Hlow; [lia|done]).
  assert (x ∉ l) as Hxl.
  { pose proof (wi_nodup _ _ _ _ Hw) as Hnd. destruct (all_split w n i (x :: l) Hl) as (r & Hr & _).
    rewrite Hr in Hnd. cbn in Hnd. apply list.NoDup_cons in Hnd as [Hnd _]. intros ?. apply Hnd.
    apply elem_of_app. by left. }
  assert (vecs w1 !! (n, i) = Some l) as Hl1.
  { unfold w1, list_del. cbn [vecs set_vecs]. rewrite lookup_fmap, Hl. cbn [fmap option_fmap option_map].
    by rewrite filter_ne_head. }
  destruct (IH w2 l Hw2 Hc Hn) as (w' & Hrun & Hw' & Hl' & Hall' & Hexp & Hidx).
  - cbn. rewrite lookup_insert_ne by (intros [= -> ->]; lia). done.
  - intros y Hy. destruct (Hdue y ltac:(by apply elem_of_cons; right)) as (tmy & Hty & Hlty).
    exists tmy. split; [|done]. cbn. rewrite lookup_insert_ne; [done|]. intros ->. done.
  - lia.
  - exists w'. split; [done|]. split; [done|]. split; [done|]. split; [|split; [|done]].
    + by rewrite Hall', Hall2, <- Hall1.
    + etransitivity; [|exact Hexp]. intros y. cbn. destruct (decide (y = x)) as [->|Hne].
      * rewrite lookup_insert_eq. change (timers w1) with (timers w) in Htm. by rewrite Htm.
      * by rewrite lookup_insert_ne.
Qed.

(** Level [n] has been cascaded for tick [t]. *)
Definition bump (c : Z → Z) (n t : Z) : Z → Z := λ m, if m =? n then t + 1 else c m.

Lemma floor_at_divide n a : (2 ^ sh n | floor_at n a).
Proof. apply Z.divide_factor_l. Qed.

(** A slot whose time has come holds exactly the timers cascaded at [t]. *)
Lemma due_now n t a :
  1 <= n <= 4 → (2 ^ sh n | t) → t <= floor_at n a → floor_at n a < t + 2 ^ (sh n + 6) →
  (a / 2 ^ sh n) mod 64 = (t / 2 ^ sh n) mod 64 → floor_at n a = t.
Proof.
  intros Hn [q ->] H1 H2 Hm. pose proof (sh_range n Hn). unfold floor_at in *.
  rewrite Z.div_mul in Hm by lia. rewrite Z.pow_add_r in H2 by lia. change (2 ^ 6) with 64 in H2.
  set (p := a / 2 ^ sh n) in *. assert (0 < 2 ^ sh n) by lia. assert (q <= p < q + 64) by nia.
  pose proof (Z.div_mod p 64 ltac:(lia)). pose proof (Z.div_mod q 64 ltac:(lia)).
  assert (p = q) by lia. nia.
Qed.

(** Rounding up at a multiple and behind it. *)
Lemma round_up_mult p q : 0 < p → (q * p + p - 1) / p = q ∧ (q * p + 1 + p - 1) / p = q + 1.
Proof.
  intros Hp. split.
  - replace (q * p + p - 1) with (q * p + (p - 1)) by lia. rewrite Z.div_add_l, Z.div_small by lia. lia.
  - replace (q * p + 1 + p - 1) with ((q + 1) * p + 0) by lia. rewrite Z.div_add_l, Z.div_small by lia. lia.
Qed.

Lemma cascade_timers_spec t c w n :
  winv t c None w → (∀ m, 1 <= m <= 4 → c m <= t + 1) → 1 <= n <= 4 → c n = t → (2 ^ sh n | t) →
  ∃ w', cascade_timers w n = Ok w' ∧ winv t (bump c n t) None w' ∧ all w' ≡ₚ all w ∧
    same_expiry w w' ∧ index w' !! n = Some ((t / 2 ^ sh n + 1) mod 64).
Proof.
  intros Hw Hc Hn Hcn Hdiv. unfold cascade_timers, get_index. pose proof (sh_range n Hn).
  rewrite (wi_index _ _ _ _ Hw n Hn), Hcn. cbn [mbind outcome_bind].
  pose proof Hdiv as [q Hq].
  destruct (round_up_mult (2 ^ sh n) q ltac:(lia)) as [Hr1 Hr2]. rewrite <- Hq in Hr1, Hr2.
  assert (t / 2 ^ sh n = q) as Htq by (rewrite Hq, Z.div_mul; lia).
  rewrite Hr1. set (i := q mod 64). pose proof (Z.mod_pos_bound q 64 ltac:(lia)) as Hi.
  destruct (proj2 (wi_slots _ _ _ _ Hw n i)) as [l Hl]; [right; unfold i; lia|].
  unfold get_vec. rewrite Hl. cbn [mbind outcome_bind].
  destruct (cascade_loop_spec (S (length l)) t c w n i l Hw Hc Hn Hl) as
    (w1 & -> & Hw1 & Hl1 & Hall & Hexp & Hidx).
  { intros x Hx. destruct (wi_placed _ _ _ _ Hw n i l x Hl Hx) as (tm & a & Htm & _ & Ee & Hp).
    exists tm. split; [done|]. unfold placed in Hp. destruct (Z.eqb_spec n 0); [lia|].
    destruct Hp as (Hpi & Hp1 & Hp2 & Hp3). rewrite Hcn in Hp1.
    rewrite (abs_time_unique t (expires tm) a Ee) by lia.
    pose proof (due_now n t a Hn Hdiv Hp1 Hp2 ltac:(rewrite Htq; lia)) as E.
    pose proof (floor_at_bounds n a Hn). lia. }
  { lia. }
  cbn [mbind outcome_bind].
  assert (Z.land (i + 1) TVN_MASK = (q + 1) mod 64) as Hmask.
  { change TVN_MASK with (Z.ones 6). rewrite Z.land_ones by lia. unfold i. change (2 ^ 6) with 64.
    by rewrite Z.add_mod_idemp_l. }
  rewrite Hmask. set (w2 := set_index _ _ _). exists w2. split; [done|].
  assert (vecs w2 = vecs w1) as Hv by (cbn; by rewrite insert_id).
  assert (all w2 = all w1) as Ha by (unfold all; by rewrite Hv).
  split; [|split; [by rewrite Ha|split; [done|cbn; rewrite lookup_insert_eq; by rewrite Htq]]].
  constructor; try (rewrite ?Ha, ?Hv; by apply Hw1).
  - cbn. rewrite lookup_insert_ne by lia. apply Hw1.
  - intros m Hm. cbn. unfold bump. destruct (Z.eqb_spec m n) as [->|Hne].
    + rewrite lookup_insert_eq. by rewrite Hr2.
    + rewrite lookup_insert_ne by done. by apply Hw1.
  - intros m j k x Hk Hx. rewrite Hv in Hk.
    destruct (wi_placed _ _ _ _ Hw1 m j k x Hk Hx) as (tm & a & Htm & Hp & Ee & Hpl).
    exists tm, a. split; [done|]. split; [done|]. split; [done|]. unfold placed, bump in *.
    destruct (Z.eqb_spec m 0); [done|]. destruct (Z.eqb_spec m n) as [->|Hne]; [|done].
    destruct Hpl as (Hj & H1 & H2 & H3). rewrite Hcn in H1. split; [done|]. split; [|done].
    assert (floor_at n a ≠ t) as Hnt; [|lia]. intros E.
    assert (j = i) as ->.
    { rewrite Hj. unfold i, floor_at in *. f_equal. rewrite <- Htq, <- E.
      rewrite Z.mul_comm, Z.div_mul by lia. done. }
    rewrite Hl1 in Hk. injection Hk as <-. by apply elem_of_nil in Hx.
Qed.

(** Off the multiples of its granularity nothing is cascaded at a level. *)
Lemma winv_bump t c w n :
  winv t c None w → 1 <= n <= 4 → c n = t → ¬ (2 ^ sh n | t) → winv t (bump c n t) None w.
Proof.
  intros Hw Hn Hcn Hdiv. pose proof (sh_range n Hn). assert (1 < 2 ^ sh n) by (apply Z.pow_gt_1; lia).
  constructor; try apply Hw.
  - intros m Hm. rewrite (wi_index _ _ _ _ Hw m Hm). unfold bump.
    destruct (Z.eqb_spec m n) as [->|]; [|done]. rewrite Hcn. f_equal. f_equal.
    pose proof (Z.div_mod t (2 ^ sh n) ltac:(lia)). pose proof (Z.mod_pos_bound t (2 ^ sh n) ltac:(lia)).
    assert (t mod 2 ^ sh n ≠ 0) by (intros E; apply Hdiv; by apply Z.mod_divide; [lia|]).
    set (q := t / 2 ^ sh n) in *. set (r := t mod 2 ^ sh n) in *.
    transitivity (q + 1).
    + symmetry. apply (Z.div_unique _ _ _ (r - 1)); [left; lia|lia].
    + apply (Z.div_unique _ _ _ r); [left; lia|lia].
  - intros m j k x Hk Hx. destruct (wi_placed _ _ _ _ Hw m j k x Hk Hx) as (tm & a & Htm & Hp & Ee & Hpl).
    exists tm, a. split; [done|]. split; [done|]. split; [done|]. unfold placed, bump in *.
    destruct (Z.eqb_spec m 0); [done|]. destruct (Z.eqb_spec m n) as [->|Hne]; [|done].
    destruct Hpl as (Hj & H1 & H2 & H3). rewrite Hcn in H1. split; [done|]. split; [|done].
    assert (floor_at n a ≠ t); [|lia]. intros E. apply Hdiv. rewrite <- E. apply floor_at_divide.
Qed.

Lemma sh_succ n : sh (n + 1) = sh n + 6.
Proof. unfold sh. lia. Qed.

(** At the end of a chain of cascades every level is done for tick [t]. *)
Lemma bump_rest k t c w n :
  winv t c None w → (∀ m, 1 <= m <= 4 → c m = t ∨ c m = t + 1) →
  (∀ m, n <= m <= 4 → ¬ (2 ^ sh m | t)) → 1 <= n → Z.of_nat k = 5 - n →
  (∀ m, 1 <= m < n → c m = t + 1) → winv t (λ _, t + 1) None w.
Proof.
  revert c n. induction k as [|k IH]; intros c n Hw Hc Hdiv Hn Hk Hdone.
  - constructor; try apply Hw.
    + intros m Hm. rewrite (wi_index _ _ _ _ Hw m Hm). by rewrite Hdone by lia.
    + intros m j l x Hl Hx. destruct (wi_placed _ _ _ _ Hw m j l x Hl Hx) as (tm & a & ? & ? & ? & Hp).
      exists tm, a. split; [done|]. split; [done|]. split; [done|].
      unfold placed in *. destruct (Z.eqb_spec m 0); [done|].
      assert (1 <= m <= 4) by (destruct (proj1 (wi_slots _ _ _ _ Hw m j)) as [[? _]|[? _]]; [by eexists|lia|lia]).
      by rewrite Hdone in Hp by lia.
  - destruct (Hc n ltac:(lia)) as [Hcn|Hcn].
    + apply (IH (bump c n t) (n + 1)); try lia.
      * apply winv_bump; [done|lia|done|]. apply Hdiv. lia.
      * intros m Hm. unfold bump. destruct (Z.eqb_spec m n); [by right|]. by apply Hc.
      * intros m Hm. apply Hdiv. lia.
      * intros m Hm. unfold bump. destruct (Z.eqb_spec m n); [done|]. apply Hdone. lia.
    + apply (IH c (n + 1)); try done; try lia.
      * intros m Hm. apply Hdiv. lia.
      * intros m Hm. destruct (Z.eq_dec m n) as [->|]; [done|]. apply Hdone. lia.
Qed.

Lemma divide_up_tail n m t : 1 <= n <= m → m <= 4 → (2 ^ sh m | t) → (2 ^ sh n | t).
Proof.
  intros Hn Hm Hd. etransitivity; [|done]. exists (2 ^ (sh m - sh n)).
  rewrite <- Z.pow_add_r by (unfold sh; lia). f_equal. lia.
Qed.

Lemma cascade_all_spec k t c w n :
  winv t c None w → 1 <= n → Z.of_nat k = 4 - n →
  (∀ m, 1 <= m < n → c m = t + 1) → (∀ m, n <= m <= 4 → c m = t) → (2 ^ sh n | t) →
  ∃ w', cascade_all k w n = Ok w' ∧ winv t (λ _, t + 1) None w' ∧ all w' ≡ₚ all w ∧ same_expiry w w'.
Proof.
  revert c w n. induction k as [|k IH]; intros c w n Hw Hn Hk Hdone Hrest Hdiv.
  all: assert (∀ m, 1 <= m <= 4 → c m = t ∨ c m = t + 1) as Hc
    by (intros m Hm; destruct (Z.lt_ge_cases m n); [right; apply Hdone; lia|left; apply Hrest; lia]).
  all: destruct (cascade_timers_spec t c w n Hw) as (w1 & Hrun & Hw1 & Hall1 & Hexp1 & Hidx1);
    [intros m Hm; destruct (Hc m Hm); lia|lia|apply Hrest; lia|done|].
  all: assert (∀ m, 1 <= m < n + 1 → bump c n t m = t + 1) as Hb1
    by (intros m Hm; unfold bump; destruct (Z.eqb_spec m n); [done|apply Hdone; lia]).
  all: assert (∀ m, n + 1 <= m <= 4 → bump c n t m = t) as Hb2
    by (intros m Hm; unfold bump; destruct (Z.eqb_spec m n); [lia|apply Hrest; lia]).
  all: assert (∀ m, 1 <= m <= 4 → bump c n t m = t ∨ bump c n t m = t + 1) as Hb
    by (intros m Hm; destruct (Z.lt_ge_cases m (n + 1)); [right; apply Hb1; lia|left; apply Hb2; lia]).
  all: cbn [cascade_all]; rewrite Hrun; cbn [mbind outcome_bind]; unfold get_index; rewrite Hidx1;
    cbn [mbind outcome_bind].
  - exists w1. split; [done|]. split; [|done].
    apply (bump_rest 0 t (bump c n t) w1 (n + 1)); try done; lia.
  - pose proof (sh_range n ltac:(lia)). assert (0 < 2 ^ sh n) by lia.
    destruct Hdiv as [q Hq]. assert (t / 2 ^ sh n = q) as Htq by (rewrite Hq, Z.div_mul; lia).
    assert ((q + 1) mod 64 = 1 ↔ (2 ^ sh (n + 1) | t)) as Hone.
    { rewrite sh_succ, Z.pow_add_r by lia. change (2 ^ 6) with 64.
      pose proof (Z.div_mod (q + 1) 64 ltac:(lia)) as Hd. split.
      - intros E. exists ((q + 1) / 64). rewrite Hq. nia.
      - intros [p Hp]. assert (q = p * 64) as -> by nia. by rewrite Z.add_comm, Z.mod_add by lia. }
    rewrite Htq. destruct (Z.eqb_spec ((q + 1) mod 64) 1) as [E|E].
    + destruct (IH (bump c n t) w1 (n + 1)) as (w2 & H2 & Hw2 & Hall2 & Hexp2); try done; try lia.
      { by apply Hone. }
      exists w2. split; [done|]. split; [done|]. split; [by rewrite Hall2|by etransitivity].
    + exists w1. split; [done|]. split; [|done].
      apply (bump_rest (S k) t (bump c n t) w1 (n + 1)); try done; try lia.
      intros m Hm Hdm. apply E, Hone. apply (divide_up_tail (n + 1) m); [lia|lia|done].
Qed.

(** Before the timers of tick [t] run. *)
Lemma cascade_tick t w :
  winv t (λ _, t) None w →
  ∃ w', (i ← get_index w 0; if i =? 0 then cascade_all 3 w 1 else Ok w) = Ok w' ∧
    winv t (λ _, t + 1) None w' ∧ all w' ≡ₚ all w ∧ same_expiry w w'.
Proof.
  intros Hw. rewrite (get_index0 _ _ _ _ Hw). cbn [mbind outcome_bind].
  destruct (Z.eqb_spec (t mod 256) 0) as [E|E].
  - apply (cascade_all_spec 3 t (λ _, t) w 1); try done; try lia.
    change (2 ^ sh 1) with 256. by apply Z.mod_divide; [lia|].
  - exists w. split; [done|]. split; [|done].
    apply (bump_rest 4 t (λ _, t) w 1 Hw); [by left| |lia|lia|lia].
    intros m Hm Hd. apply E. apply Z.mod_divide; [lia|]. change 256 with (2 ^ sh 1).
    apply (divide_up_tail 1 m); [lia|lia|done].
Qed.

(** ** Running the timers of a tick *)

(** The state when the timers of tick [t] run, and between ticks. *)
Definition ready (t : Z) (w : wheel) : Prop := winv t (λ _, t + 1) None w.
Definition steady (t : Z) (w : wheel) : Prop := winv t (λ _, t) None w.

(** Not early: a timer runs in the tick it expires, or later if it was already
    overdue when it was added. *)
Definition not_early (e : event) : Prop :=
  ev_expires e = ev_tick e ∨ s32 (ev_expires e - ev_tick e) < 0.

(** A timer found in the current slot. *)
Lemma current_slot t w l x :
  ready t w → vecs w !! (0, t mod 256) = Some l → x ∈ l →
  ∃ tm, timers w !! x = Some tm ∧ pending tm = true ∧
    not_early (Event x (expires tm) (u32 t)) ∧
    (t <= abs_time t (expires tm) → expires tm = u32 t).
Proof.
  intros Hw Hl Hx. destruct (wi_placed _ _ _ _ Hw 0 _ l x Hl Hx) as (tm & a & Htm & Hp & Ee & Hpl).
  exists tm. split; [done|]. split; [done|]. unfold placed in Hpl. cbn in Hpl.
  destruct Hpl as [[Ha Hi]|[Ha _]].
  - assert (a = t) as ->.
    { pose proof (Z.div_mod a 256 ltac:(lia)). pose proof (Z.div_mod t 256 ltac:(lia)). lia. }
    split; [by left|]. done.
  - rewrite (abs_time_unique t _ a Ee) by lia. split; [|lia]. right. unfold ev_expires, ev_tick.
    rewrite Ee, swrap_sub_wrap, swrap_small by lia. lia.
Qed.

(** Taking the first timer off the current slot. *)
Lemma take_first t w l x :
  ready t w → vecs w !! (0, t mod 256) = Some (x :: l) →
  ∃ tm w1, timers w !! x = Some tm ∧ detach_timer w x = Ok (list_del x w, 1) ∧
    w1 = set_timer x (TimerList false (expires tm)) (list_del x w) ∧ ready t w1 ∧
    all w ≡ₚ x :: all w1 ∧ vecs w1 !! (0, t mod 256) = Some l ∧ same_expiry w w1 ∧
    not_early (Event x (expires tm) (u32 t)) ∧
    (t <= abs_time t (expires tm) → expires tm = u32 t).
Proof.
  intros Hw Hl. destruct (current_slot t w (x :: l) x Hw Hl) as (tm & Htm & Hp & Hne & Hex);
    [by apply elem_of_cons; left|].
  assert (x ∈ all w) as Hx by (apply elem_of_all; exists 0, (t mod 256), (x :: l); split; [done|];
    by apply elem_of_cons; left).
  destruct (list_del_spec t _ w x Hw Hx) as (Hw1 & Hx1 & Hall).
  exists tm, (set_timer x (TimerList false (expires tm)) (list_del x w)). split; [done|].
  split; [unfold detach_timer, get_timer; rewrite Htm; cbn [mbind outcome_bind]; by rewrite Hp|].
  split; [done|]. split.
  { apply set_timer_spec; try done; [exact (wi_expires _ _ _ _ Hw x tm Htm)|by left]. }
  split; [done|]. split; [|split; [|done]].
  - unfold list_del. cbn [vecs set_vecs set_timer]. rewrite lookup_fmap, Hl. cbn [fmap option_fmap option_map].
    rewrite filter_ne_head; [done|]. pose proof (wi_nodup _ _ _ _ Hw) as Hnd.
    destruct (all_split w _ _ _ Hl) as (r & Hr & _). rewrite Hr in Hnd.
    apply list.NoDup_cons in Hnd as [Hnd _]. set_solver.
  - intros y. cbn. destruct (decide (y = x)) as [->|Hd].
    + by rewrite lookup_insert_eq, Htm.
    + by rewrite lookup_insert_ne.
Qed.

(** The current slot is empty: on to the next tick. *)
Lemma next_tick t w :
  ready t w → vecs w !! (0, t mod 256) = Some [] →
  let w' := Wheel (<[0 := Z.land (t mod 256 + 1) TVR_MASK]> (index w)) (vecs w)
              (u32 (timer_jiffies w + 1)) (timers w) in
  steady (t + 1) w' ∧ ∀ x tm, x ∈ all w' → timers w' !! x = Some tm → t + 1 <= abs_time (t + 1) (expires tm).
Proof.
  intros Hw Hl w'.
  assert (∀ n i l x, vecs w !! (n, i) = Some l → x ∈ l →
    ∃ tm a, timers w !! x = Some tm ∧ pending tm = true ∧ expires tm = u32 a ∧
      placed (t + 1) (t + 1) n i a ∧ t + 1 <= a < t + 1 + 2 ^ 31) as Hpl.
  { intros n i l x Hv Hx. destruct (wi_placed _ _ _ _ Hw n i l x Hv Hx) as (tm & a & ? & ? & Ee & Hp).
    exists tm, a. split; [done|]. split; [done|]. split; [done|]. unfold placed in *.
    destruct (Z.eqb_spec n 0) as [->|Hn].
    - assert (i ≠ t mod 256) as Hi.
      { intros ->. rewrite Hl in Hv. injection Hv as <-. by apply elem_of_nil in Hx. }
      destruct Hp as [[Ha ->]|[_ ?]]; [|done]. assert (a ≠ t) by congruence. split; [left|]; lia.
    - assert (1 <= n <= 4) as Hn4 by (destruct (proj1 (wi_slots _ _ _ _ Hw n i)) as [[? _]|[? _]]; [by eexists|lia|lia]).
      pose proof (floor_at_bounds n a Hn4). destruct Hp as (? & ? & ? & ?). split; [|lia].
      split; [done|]. split; [lia|]. split; lia. }
  split.
  - constructor; try apply Hw.
    + cbn. rewrite (wi_time _ _ _ _ Hw). unfold wrap. by rewrite Zplus_mod_idemp_l.
    + cbn. rewrite lookup_insert_eq. f_equal. change TVR_MASK with (Z.ones 8).
      rewrite Z.land_ones by lia. change (2 ^ 8) with 256. by rewrite Zplus_mod_idemp_l.
    + intros n Hn. cbn. rewrite lookup_insert_ne by lia. by apply (wi_index _ _ _ _ Hw).
    + intros n i l x Hv Hx. destruct (Hpl n i l x Hv Hx) as (tm & a & ? & ? & ? & ? & _). eauto 10.
  - intros x tm Hx Htm. apply elem_of_all in Hx as (n & i & l & Hv & Hx).
    destruct (Hpl n i l x Hv Hx) as (tm' & a & Htm' & _ & Ee & _ & Ha).
    cbn in Htm. rewrite Htm in Htm'. injection Htm' as <-.
    rewrite (abs_time_unique (t + 1) _ a Ee) by lia. lia.
Qed.

Section running.
Context (fn : Z → wheel → wheel).
(** Timer functions use the wheel only through operations that keep it consistent. *)
Context (Hfn : ∀ t x w, ready t w → ready t (fn x w)).

Lemma run_slot_spec fuel t w :
  ready t w →
  run_slot fn fuel w = Trap Fuel ∨
  ∃ w' log, run_slot fn fuel w = Ok (w', log) ∧ ready t w' ∧ vecs w' !! (0, t mod 256) = Some [] ∧
    Forall (λ e, ev_tick e = u32 t ∧ not_early e) log.
Proof.
  revert w. induction fuel as [|fuel IH]; intros w Hw; [by left|]. cbn [run_slot].
  rewrite (get_index0 _ _ _ _ Hw). cbn [mbind outcome_bind]. unfold get_vec.
  destruct (proj2 (wi_slots _ _ _ _ Hw 0 (t mod 256))) as [l Hl].
  { left. pose proof (Z.mod_pos_bound t 256 ltac:(lia)). lia. }
  rewrite Hl. cbn [mbind outcome_bind]. destruct l as [|x l].
  - right. exists w, []. split; [done|]. split; [done|]. split; [done|constructor].
  - destruct (take_first t w l x Hw Hl) as (tm & w1 & Htm & Hdet & Ew1 & Hw1 & _ & _ & _ & Hne & _).
    unfold get_timer. rewrite Htm. cbn [mbind outcome_bind]. rewrite Hdet. cbn [mbind outcome_bind].
    rewrite <- Ew1. destruct (IH (fn x w1) (Hfn t x w1 Hw1)) as [->|(w' & log & -> & Hw' & Hl' & Hlog)].
    + by left.
    + right. cbn [mbind outcome_bind]. eexists w', _. split; [done|]. split; [done|]. split; [done|].
      constructor; [|done]. cbn. rewrite (wi_time _ _ _ _ Hw1). done.
Qed.

Lemma run_tick_spec fuel t w :
  steady t w →
  run_tick fn fuel w = Trap Fuel ∨
  ∃ w' log, run_tick fn fuel w = Ok (w', log) ∧ steady (t + 1) w' ∧
    Forall (λ e, ev_tick e = u32 t ∧ not_early e) log ∧
    ∀ x tm, x ∈ all w' → timers w' !! x = Some tm → t + 1 <= abs_time (t + 1) (expires tm).
Proof.
  intros Hw. unfold run_tick. destruct (cascade_tick t w Hw) as (w1 & Hrun & Hw1 & _).
  rewrite (get_index0 _ _ _ _ Hw) in Hrun |- *. cbn [mbind outcome_bind] in Hrun |- *. rewrite Hrun.
  cbn [mbind outcome_bind].
  destruct (run_slot_spec fuel t w1 Hw1) as [->|(w' & log & -> & Hw' & Hl' & Hlog)]; [by left|].
  right. cbn [mbind outcome_bind]. rewrite (get_index0 _ _ _ _ Hw'). cbn [mbind outcome_bind].
  destruct (next_tick t w' Hw' Hl') as [Hs Hfut]. eexists _, log. split; [done|]. done.
Qed.

(** The loop over the ticks up to [j]. *)
Lemma run_ticks_spec n fuel t j w :
  steady t w → t - 1 <= j < t + 2 ^ 31 → j - t < Z.of_nat n →
  (t <= j ∨ ∀ x tm, x ∈ all w → timers w !! x = Some tm → t <= abs_time t (expires tm)) →
  run_ticks fn n fuel (u32 j) w = Trap Fuel ∨
  ∃ w' log, run_ticks fn n fuel (u32 j) w = Ok (w', log) ∧ steady (j + 1) w' ∧
    Forall (λ e, (∃ k, t <= k <= j ∧ ev_tick e = u32 k) ∧ not_early e) log ∧
    ∀ x tm, x ∈ all w' → timers w' !! x = Some tm → j + 1 <= abs_time (j + 1) (expires tm).
Proof.
  revert t w. induction n as [|n IH]; intros t w Hw Hj Hn Hfut; cbn [run_ticks];
    rewrite (wi_time _ _ _ _ Hw), swrap_sub_wrap, swrap_small by lia.
  all: destruct (Z.ltb_spec (j - t) 0) as [Hlt|Hge].
  1, 3: right; exists w, []; split; [done|]; replace (j + 1) with t by lia;
    split; [done|]; split; [constructor|]; destruct Hfut as [?|Hfut]; [lia|done].
  - lia.
  - destruct (run_tick_spec fuel t w Hw) as [->|(w1 & log & -> & Hw1 & Hlog & Hfut1)]; [by left|].
    cbn [mbind outcome_bind].
    destruct (IH (t + 1) w1 Hw1) as [->|(w2 & log2 & -> & Hw2 & Hlog2 & Hfut2)];
      [lia|lia|by right|by left|].
    right. cbn [mbind outcome_bind]. exists w2, (log ++ log2). split; [done|]. split; [done|].
    split; [|done]. apply Forall_app. split.
    + eapply Forall_impl; [|exact Hlog]. intros e [He ?]. split; [|done]. exists t. split; [lia|done].
    + eapply Forall_impl; [|exact Hlog2]. intros e [(k & Hk & He) ?]. split; [|done]. exists k. split; [lia|done].
Qed.
End running.

(** The current tick, as [timer_jiffies] has it. *)
Lemma jiffies_abs t w jiffies :
  timer_jiffies w = u32 t → 0 <= jiffies < 2 ^ 32 →
  jiffies = u32 (t + s32 (jiffies - timer_jiffies w)) ∧
  - 2 ^ 31 <= s32 (jiffies - timer_jiffies w) < 2 ^ 31.
Proof.
  intros -> Hj. destruct (abs_time_spec t jiffies Hj) as [E H]. unfold abs_time in *.
  assert (s32 (jiffies - u32 t) = s32 (jiffies - t)) as ->.
  { rewrite <- (wrap_small 32 jiffies) at 1 by done. by rewrite swrap_sub_wrap. }
  split; [done|lia].
Qed.

(** ** Properties *)

(** C9: Timers never run early, and none that is due is left behind.  From a
    consistent wheel, with timer functions that keep it consistent,
    [run_timer_list] either goes on for ever within one tick (a timer function
    keeps re-adding an overdue timer) or returns a consistent wheel at tick
    [jiffies + 1] in which no timer is due before that tick; each timer that ran
    did so in the tick of its expiry time, or later only because it was overdue when
    it was added; the wrap-around of the 32-bit counters is no exception. *)
Theorem run_timer_list_on_time fn fuel t w jiffies :
  (∀ t x w, ready t w → ready t (fn x w)) → steady t w → 0 <= jiffies < 2 ^ 32 →
  0 <= s32 (jiffies - timer_jiffies w) →
  let j := t + s32 (jiffies - timer_jiffies w) in
  run_timer_list fn fuel jiffies w = Trap Fuel ∨
  ∃ w' log, run_timer_list fn fuel jiffies w = Ok (w', log) ∧ steady (j + 1) w' ∧
    timer_jiffies w' = u32 (jiffies + 1) ∧
    Forall (λ e, (∃ k, t <= k <= j ∧ ev_tick e = u32 k) ∧ not_early e) log ∧
    (∀ x tm, x ∈ all w' → timers w' !! x = Some tm →
      0 <= s32 (expires tm - timer_jiffies w')).
Proof.
  intros Hfn Hw Hj Hd j. destruct (jiffies_abs t w jiffies (wi_time _ _ _ _ Hw) Hj) as [Ej Hb].
  fold j in Ej. set (d := s32 (jiffies - timer_jiffies w)) in *.
  assert (run_timer_list fn fuel jiffies w = run_ticks fn (S (Z.to_nat d)) fuel (u32 j) w) as ->
    by (unfold run_timer_list; by rewrite <- Ej).
  destruct (run_ticks_spec fn Hfn (S (Z.to_nat d)) fuel t j w Hw) as
    [->|(w' & log & -> & Hw' & Hlog & Hfut)]; [unfold j; lia|unfold j; lia|left; unfold j; lia|by left|].
  right. exists w', log. split; [done|]. split; [done|]. split.
  { rewrite (wi_time _ _ _ _ Hw'), Ej. unfold wrap. by rewrite Zplus_mod_idemp_l. }
  split; [done|]. intros x tm Hx Htm. specialize (Hfut x tm Hx Htm).
  pose proof (wi_expires _ _ _ _ Hw' x tm Htm) as He.
  destruct (abs_time_spec (j + 1) (expires tm) He) as [Ee Ha].
  rewrite Ee, (wi_time _ _ _ _ Hw'), swrap_sub_wrap, swrap_small by lia. lia.
Qed.

(** *** Timer functions that leave the wheel alone *)

Definition quiet_fn (x : Z) (w : wheel) : wheel := w.

(** The event of a timer of [w] that ran in tick [k]. *)
Definition ran (w : wheel) (k : Z) (e : event) : Prop :=
  ev_tick e = u32 k ∧ expires <$> timers w !! ev_timer e = Some (ev_expires e) ∧
  (k <= abs_time k (ev_expires e) → ev_expires e = u32 k).

Lemma ran_same w w' k e : same_expiry w w' → ran w' k e → ran w k e.
Proof. intros Hs (? & H & ?). split; [done|]. split; [|done]. by rewrite <- Hs. Qed.

Lemma run_slot_quiet fuel t w l :
  ready t w → vecs w !! (0, t mod 256) = Some l → (length l < fuel)%nat →
  ∃ w' log, run_slot quiet_fn fuel w = Ok (w', log) ∧ ready t w' ∧
    vecs w' !! (0, t mod 256) = Some [] ∧ all w ≡ₚ (ev_timer <$> log) ++ all w' ∧
    same_expiry w w' ∧ Forall (ran w t) log.
Proof.
  revert w l. induction fuel as [|fuel IH]; intros w l Hw Hl Hf; [lia|]. cbn [run_slot].
  rewrite (get_index0 _ _ _ _ Hw). cbn [mbind outcome_bind]. unfold get_vec. rewrite Hl.
  cbn [mbind outcome_bind]. destruct l as [|x l].
  - exists w, []. repeat (split; [done|]). constructor.
  - destruct (take_first t w l x Hw Hl) as (tm & w1 & Htm & Hdet & Ew1 & Hw1 & Hall & Hl1 & Hs & _ & Hex).
    unfold get_timer. rewrite Htm. cbn [mbind outcome_bind]. rewrite Hdet. cbn [mbind outcome_bind].
    rewrite <- Ew1. cbn in Hf.
    destruct (IH w1 l Hw1 Hl1 ltac:(lia)) as (w' & log & H & Hw' & Hl' & Hall' & Hs' & Hlog).
    change (quiet_fn x w1) with w1. rewrite H. cbn [mbind outcome_bind]. eexists w', _. split; [done|].
    split; [done|]. split; [done|]. split; [|split].
    + cbn. by rewrite Hall, Hall'.
    + by etransitivity.
    + constructor.
      * split; [cbn; by rewrite (wi_time _ _ _ _ Hw1)|]. split; [cbn; by rewrite Htm|done].
      * eapply Forall_impl; [|exact Hlog]. intros e. by apply ran_same.
Qed.

Lemma run_tick_quiet fuel t w :
  steady t w → (length (all w) < fuel)%nat →
  ∃ w' log, run_tick quiet_fn fuel w = Ok (w', log) ∧ steady (t + 1) w' ∧
    all w ≡ₚ (ev_timer <$> log) ++ all w' ∧ same_expiry w w' ∧ Forall (ran w t) log ∧
    ∀ x tm, x ∈ all w' → timers w' !! x = Some tm → t + 1 <= abs_time (t + 1) (expires tm).
Proof.
  intros Hw Hf. unfold run_tick. destruct (cascade_tick t w Hw) as (w1 & Hrun & Hw1 & Hall1 & Hs1).
  rewrite (get_index0 _ _ _ _ Hw) in Hrun |- *. cbn [mbind outcome_bind] in Hrun |- *. rewrite Hrun.
  cbn [mbind outcome_bind].
  destruct (proj2 (wi_slots _ _ _ _ Hw1 0 (t mod 256))) as [l Hl].
  { left. pose proof (Z.mod_pos_bound t 256 ltac:(lia)). lia. }
  destruct (run_slot_quiet fuel t w1 l Hw1 Hl) as (w' & log & -> & Hw' & Hl' & Hall' & Hs' & Hlog).
  { destruct (all_split w1 _ _ _ Hl) as (r & Hr & _). apply Permutation_length in Hr, Hall1.
    rewrite length_app in Hr. lia. }
  cbn [mbind outcome_bind]. rewrite (get_index0 _ _ _ _ Hw'). cbn [mbind outcome_bind].
  destruct (next_tick t w' Hw' Hl') as [Hst Hfut]. eexists _, log. split; [done|]. split; [done|].
  split; [|split; [|split; [|done]]].
  - by rewrite <- Hall1, Hall'.
  - by etransitivity.
  - eapply Forall_impl; [|exact Hlog]. intros e. by apply ran_same.
Qed.

Lemma run_ticks_quiet n fuel t j w :
  steady t w → t - 1 <= j < t + 2 ^ 31 → j - t < Z.of_nat n → (length (all w) < fuel)%nat →
  (t <= j ∨ ∀ x tm, x ∈ all w → timers w !! x = Some tm → t <= abs_time t (expires tm)) →
  ∃ w' log, run_ticks quiet_fn n fuel (u32 j) w = Ok (w', log) ∧ steady (j + 1) w' ∧
    all w ≡ₚ (ev_timer <$> log) ++ all w' ∧ same_expiry w w' ∧
    Forall (λ e, ∃ k, t <= k <= j ∧ ran w k e ∧ (k = t ∨ k <= abs_time k (ev_expires e))) log ∧
    ∀ x tm, x ∈ all w' → timers w' !! x = Some tm → j + 1 <= abs_time (j + 1) (expires tm).
Proof.
  revert t w. induction n as [|n IH]; intros t w Hw Hj Hn Hf Hfut; cbn [run_ticks];
    rewrite (wi_time _ _ _ _ Hw), swrap_sub_wrap, swrap_small by lia.
  all: destruct (Z.ltb_spec (j - t) 0) as [Hlt|Hge].
  1, 3: exists w, []; split; [done|]; replace (j + 1) with t by lia;
    split; [done|]; split; [done|]; split; [done|]; split; [constructor|];
    destruct Hfut as [?|Hfut]; [lia|done].
  - lia.
  - destruct (run_tick_quiet fuel t w Hw Hf) as (w1 & log & -> & Hw1 & Hall1 & Hs1 & Hlog & Hfut1).
    cbn [mbind outcome_bind].
    destruct (IH (t + 1) w1 Hw1) as (w2 & log2 & -> & Hw2 & Hall2 & Hs2 & Hlog2 & Hfut2);
      [lia|lia| |by right|].
    { apply Permutation_length in Hall1. rewrite length_app in Hall1. lia. }
    cbn [mbind outcome_bind]. exists w2, (log ++ log2). split; [done|]. split; [done|].
    split; [by rewrite Hall1, Hall2, fmap_app, app_assoc|]. split; [by etransitivity|].
    split; [|done]. apply Forall_app. split.
    + eapply Forall_impl; [|exact Hlog]. intros e He. exists t. split; [lia|]. split; [done|by left].
    + apply Forall_forall. intros e Hin. rewrite Forall_forall in Hlog2.
      destruct (Hlog2 e Hin) as (k & Hk & He & Hor). exists k. split; [lia|].
      split; [by eapply ran_same|]. right. destruct Hor as [->|Hor]; [|done].
      destruct He as (_ & Hex & _). apply fmap_Some in Hex as (tm & Htm & ->).
      apply (Hfut1 (ev_timer e)); [|done]. rewrite Hall2. apply elem_of_app. left.
      apply list_elem_of_fmap. exists e. split; [done|]. by apply list_elem_of_In.
Qed.


(** *** The operations of the interface *)

Lemma winv_weaken t c w x : winv t c None w → winv t c (Some x) w.
Proof. intros Hw. constructor; try apply Hw. intros y tm Hy Hp _. by apply (wi_pending _ _ _ _ Hw y tm). Qed.

Lemma not_pending_out t c w x tm :
  winv t c None w → timers w !! x = Some tm → pending tm = false → x ∉ all w.
Proof.
  intros Hw Hx Hp H. apply elem_of_all in H as (n & i & l & Hl & Hin).
  destruct (wi_placed _ _ _ _ Hw n i l x Hl Hin) as (tm' & a & Htm & Hpe & _). congruence.
Qed.

(** A timer taken out of the wheel, if it was in. *)
Lemma detach_spec t c w x tm :
  winv t c None w → timers w !! x = Some tm →
  ∃ w1, detach_timer w x = Ok (w1, if pending tm then 1 else 0) ∧ winv t c (Some x) w1 ∧
    (x ∉ all w1) ∧ timers w1 = timers w ∧ ∀ y, y ∈ all w1 ↔ y ≠ x ∧ y ∈ all w.
Proof.
  intros Hw Hx. unfold detach_timer, get_timer. rewrite Hx. cbn [mbind outcome_bind].
  destruct (pending tm) eqn:Hp; cbn [negb].
  - pose proof (wi_pending _ _ _ _ Hw x tm Hx Hp ltac:(done)) as Hin.
    destruct (list_del_spec t c w x Hw Hin) as (Hw1 & Hx1 & Hall).
    exists (list_del x w). split; [done|]. split; [done|]. split; [done|]. split; [done|].
    intros y. rewrite Hall, elem_of_cons. split; [|naive_solver]. intros Hy. split; [|by right].
    intros ->. done.
  - pose proof (not_pending_out _ _ _ _ _ Hw Hx Hp) as Hout. exists w. split; [done|].
    split; [by apply winv_weaken|]. split; [done|]. split; [done|]. intros y. split; [|tauto].
    intros Hy. split; [|done]. by intros ->.
Qed.

(** C37: The operations on timers keep the wheel consistent, between ticks as well as
    from a timer function, and do what they say: [add_timer] puts in a timer that
    is not pending and refuses one that is, [mod_timer] leaves the timer in the wheel
    with the new expiry time, [del_timer] takes it out; the latter two return whether
    it was pending, and other timers are not affected. *)
Theorem timer_operations_correct t c w x tm e :
  winv t c None w → (∀ n, 1 <= n <= 4 → c n <= t + 1) → timers w !! x = Some tm → 0 <= e < 2 ^ 32 →
  (if pending tm then add_timer w x = Ok (w, false)
   else ∃ w', add_timer w x = Ok (w', true) ∧ winv t c None w' ∧ all w' ≡ₚ x :: all w ∧
          timers w' = <[x := TimerList true (expires tm)]> (timers w)) ∧
  (∃ w', mod_timer w x e = Ok (w', if pending tm then 1 else 0) ∧ winv t c None w' ∧
     (∀ y, y ∈ all w' ↔ y = x ∨ y ∈ all w) ∧
     timers w' = <[x := TimerList true e]> (timers w)) ∧
  (∃ w', del_timer w x = Ok (w', if pending tm then 1 else 0) ∧ winv t c None w' ∧
     (∀ y, y ∈ all w' ↔ y ≠ x ∧ y ∈ all w) ∧
     timers w' = <[x := TimerList false (expires tm)]> (timers w)).
Proof.
  intros Hw Hc Hx He. split; [|split].
  - unfold add_timer, get_timer. rewrite Hx. cbn [mbind outcome_bind].
    destruct (pending tm) eqn:Hp; [done|].
    destruct (internal_add_spec t c w x tm (winv_weaken _ _ _ x Hw) Hc Hx
      (not_pending_out _ _ _ _ _ Hw Hx Hp)) as (n & i & l & Hl & -> & Hw' & Hall & _).
    cbn [mbind outcome_bind]. by eexists.
  - destruct (detach_spec t c w x tm Hw Hx) as (w1 & Hdet & Hw1 & Hx1 & Ht1 & Hall1).
    set (tm1 := TimerList (pending tm) e).
    assert (detach_timer (set_timer x tm1 w) x = Ok (set_timer x tm1 w1, if pending tm then 1 else 0)) as Hdet1.
    { unfold detach_timer, get_timer in *. rewrite Hx in Hdet. cbn [timers set_timer].
      rewrite lookup_insert_eq. cbn [mbind outcome_bind] in *. unfold tm1. cbn [pending].
      destruct (pending tm); cbn [negb] in *; by injection Hdet as <-. }
    unfold mod_timer, get_timer. rewrite Hx. cbn [mbind outcome_bind]. fold tm1. rewrite Hdet1.
    cbn [mbind outcome_bind].
    assert (winv t c (Some x) (set_timer x tm1 w1)) as Hw2 by (apply set_timer_spec; try done; by right).
    destruct (internal_add_spec t c (set_timer x tm1 w1) x tm1 Hw2 Hc) as (n & i & l & Hl & -> & Hw' & Hall & _);
      [cbn; by rewrite lookup_insert_eq|done|].
    cbn [mbind outcome_bind]. eexists. split; [done|]. split; [done|]. split.
    + intros y. rewrite Hall, elem_of_cons. change (all (set_timer x tm1 w1)) with (all w1).
      rewrite Hall1. destruct (decide (y = x)); naive_solver.
    + cbn. rewrite insert_insert_eq. by rewrite Ht1.
  - destruct (detach_spec t c w x tm Hw Hx) as (w1 & Hdet & Hw1 & Hx1 & Ht1 & Hall1).
    unfold del_timer. rewrite Hdet. cbn [mbind outcome_bind]. unfold get_timer. rewrite Ht1, Hx.
    cbn [mbind outcome_bind]. eexists. split; [done|]. split; [|split; [done|cbn; by rewrite Ht1]].
    apply set_timer_spec; try done; [exact (wi_expires _ _ _ _ Hw x tm Hx)|by left].
Qed.

(** [mod_timer(x, e)] is equivalent to [del_timer(x); x->expires = e; add_timer(x)],
    as the header file promises, in every state of the wheel, and returns what
    [del_timer] returns. *)
Theorem mod_timer_equivalent w x e :
  mod_timer w x e =
    ('(w1, ret) ← del_timer w x;
     t ← get_timer w1 x;
     '(w2, _) ← add_timer (set_timer x (TimerList (pending t) e) w1) x;
     Ok (w2, ret)).
Proof.
  unfold mod_timer, del_timer, add_timer, detach_timer, get_timer.
  destruct (timers w !! x) as [tm|] eqn:Hx; [|done]. cbn [mbind outcome_bind timers set_timer].
  rewrite lookup_insert_eq. cbn [mbind outcome_bind pending].
  assert (∀ v, timers v !! x = Some tm →
    internal_add_timer (set_timer x (TimerList (pending tm) e) v) x =
    internal_add_timer (set_timer x (TimerList false e)
      (set_timer x (TimerList false (expires tm)) v)) x) as Heq.
  { intros v Hv. unfold internal_add_timer, get_timer. cbn [timers set_timer].
    rewrite !lookup_insert_eq. cbn [mbind outcome_bind expires].
    unfold get_index, get_vec. cbn [index vecs timer_jiffies set_timer].
    destruct (index v !! 0) as [i1|]; [|done]. cbn [mbind outcome_bind].
    destruct (timer_slot e (timer_jiffies v) i1) as [n i].
    destruct (vecs v !! (n, i)) as [l|]; [|done]. cbn [mbind outcome_bind].
    unfold set_timer, put_vec, set_vecs. cbn. by rewrite !insert_insert_eq. }
  destruct (pending tm) eqn:Hp; cbn [negb mbind outcome_bind timers set_timer].
  - change (timers (list_del x w)) with (timers w). rewrite Hx. cbn [mbind outcome_bind timers set_timer].
    rewrite !lookup_insert_eq. cbn [mbind outcome_bind pending].
    rewrite lookup_insert_eq. cbn [mbind outcome_bind pending].
    change (list_del x (set_timer x (TimerList true e) w)) with (set_timer x (TimerList true e) (list_del x w)).
    rewrite Heq by done. by destruct (internal_add_timer _ x).
  - rewrite Hx. cbn [mbind outcome_bind timers set_timer]. rewrite !lookup_insert_eq.
    cbn [mbind outcome_bind pending]. rewrite lookup_insert_eq. cbn [mbind outcome_bind pending].
    rewrite Heq by done. by destruct (internal_add_timer _ x).
Qed.

(** ** The initial wheel *)

Lemma slots_lookup n i l :
  empty_vecs !! (n, i) = Some l →
  l = [] ∧ valid n i.
Proof.
  unfold empty_vecs. intros H. apply elem_of_list_to_map_2 in H. unfold slots in H.
  change TVN_SIZE with 64 in H. change TVR_SIZE with 256 in H.
  rewrite !elem_of_app, !list_elem_of_fmap in H. unfold valid.
  destruct H as [H|[H|[H|[H|H]]]]; destruct H as (j & [= -> -> ->] & Hj); apply elem_of_seqZ in Hj;
    (split; [done|]); lia.
Qed.

Lemma slots_valid n i :
  valid n i → is_Some (empty_vecs !! (n, i)).
Proof.
  intros Hv. destruct (empty_vecs !! _) eqn:E; [by eexists|]. exfalso.
  unfold empty_vecs in E. apply not_elem_of_list_to_map in E. apply E. unfold slots.
  change TVN_SIZE with 64. change TVR_SIZE with 256.
  apply list_elem_of_fmap. exists (n, i, []). split; [done|].
  rewrite !elem_of_app, !list_elem_of_fmap. unfold valid in Hv.
  assert (n = 0 ∧ 0 <= i < 256 ∨ (n = 1 ∨ n = 2 ∨ n = 3 ∨ n = 4) ∧ 0 <= i < 64) as Hn by lia.
  destruct Hn as [[-> Hi]|[Hn Hi]].
  - do 4 right. exists i. split; [done|]. apply elem_of_seqZ. lia.
  - assert (i ∈ seqZ 0 64) by (apply elem_of_seqZ; lia).
    destruct Hn as [->|[->|[->| ->]]]; [do 3 right; left|do 2 right; left|right; left|left]; eauto.
Qed.

(** The static variables after [init_timervecs], with timers that are not pending. *)
Definition boot_wheel (ts : gmap Z timer_list) : wheel :=
  init_timervecs (Wheel (list_to_map [(0, 0); (1, 0); (2, 0); (3, 0); (4, 0)]) ∅ 0 ts).

Lemma boot_wheel_steady ts :
  (∀ x tm, ts !! x = Some tm → pending tm = false ∧ 0 <= expires tm < 2 ^ 32) →
  steady 0 (boot_wheel ts) ∧ all (boot_wheel ts) = [].
Proof.
  intros Hts. assert (vecs (boot_wheel ts) = empty_vecs) as Hv by reflexivity.
  assert (timers (boot_wheel ts) = ts) as Ht by reflexivity.
  assert (∀ x, ¬ x ∈ all (boot_wheel ts)) as Hall.
  { intros x H. apply elem_of_all in H as (n & i & l & Hl & Hx). rewrite Hv in Hl.
    apply slots_lookup in Hl as [-> _]. exact (proj1 (elem_of_nil x) Hx). }
  assert (all (boot_wheel ts) = []) as Hnil.
  { destruct (all (boot_wheel ts)) as [|y l]; [done|]. destruct (Hall y). by apply elem_of_cons; left. }
  split; [|exact Hnil]. constructor; rewrite ?Hv, ?Ht, ?Hnil; clear Hall Hnil.
  - reflexivity.
  - reflexivity.
  - intros n Hn. assert (n = 1 ∨ n = 2 ∨ n = 3 ∨ n = 4) as [->|[->|[->| ->]]] by lia; reflexivity.
  - intros n i. split; [|apply slots_valid]. intros [l Hl]. apply slots_lookup in Hl as [_ H]. exact H.
  - intros n i l x Hl Hx. apply slots_lookup in Hl as [-> _].
    destruct (proj1 (elem_of_nil x) Hx).
  - constructor.
  - intros x tm Hx Hp. destruct (Hts x tm Hx) as [E _]. rewrite E in Hp. discriminate Hp.
  - intros x tm Hx. exact (proj2 (Hts x tm Hx)).
Qed.

(** ** A concrete run: timers that expire at ticks 100, 300 and 20000 *)

Definition demo_timers : gmap Z timer_list :=
  list_to_map [(1, TimerList false 100); (2, TimerList false 300); (3, TimerList false 20000)].

Lemma demo_timers_ok x tm :
  demo_timers !! x = Some tm → pending tm = false ∧ 0 <= expires tm < 2 ^ 32.
Proof.
  intros H. apply elem_of_list_to_map_2 in H. rewrite !elem_of_cons, elem_of_nil in H.
  destruct H as [[= -> ->]|[[= -> ->]|[[= -> ->]|[]]]]; cbn; (split; [done|lia]).
Qed.

Definition add_all (w : wheel) (l : list Z) : wheel :=
  foldl (λ w x, match add_timer w x with Ok (w', _) => w' | Trap _ => w end) w l.
Definition demo_wheel : wheel := add_all (boot_wheel demo_timers) [1; 2; 3].

(** Adding a timer that exists keeps the wheel steady. *)
Lemma add_steady t w x tm :
  steady t w → timers w !! x = Some tm → pending tm = false →
  ∃ w', add_timer w x = Ok (w', true) ∧ steady t w' ∧ all w' ≡ₚ x :: all w ∧
    timers w' = <[x := TimerList true (expires tm)]> (timers w).
Proof.
  intros Hw Hx Hp. unfold add_timer, get_timer. rewrite Hx. cbn [mbind outcome_bind]. rewrite Hp.
  destruct (internal_add_spec t (λ _, t) w x tm (winv_weaken _ _ _ x Hw) ltac:(cbn; lia) Hx
    (not_pending_out _ _ _ _ _ Hw Hx Hp)) as (n & i & l & Hl & -> & Hw' & Hall & _).
  cbn [mbind outcome_bind]. by eexists.
Qed.

Lemma demo_steady : steady 0 demo_wheel ∧ all demo_wheel ≡ₚ [3; 2; 1] ∧
  timers demo_wheel = <[3 := TimerList true 20000]> (<[2 := TimerList true 300]>
    (<[1 := TimerList true 100]> demo_timers)).
Proof.
  destruct (boot_wheel_steady demo_timers demo_timers_ok) as [H0 A0].
  destruct (add_steady 0 _ 1 (TimerList false 100) H0 ltac:(reflexivity) ltac:(done)) as (w1 & E1 & H1 & A1 & T1).
  destruct (add_steady 0 w1 2 (TimerList false 300) H1 ltac:(by rewrite T1) ltac:(done)) as (w2 & E2 & H2 & A2 & T2).
  destruct (add_steady 0 w2 3 (TimerList false 20000) H2 ltac:(by rewrite T2, T1) ltac:(done)) as (w3 & E3 & H3 & A3 & T3).
  assert (demo_wheel = w3) as ->.
  { unfold demo_wheel, add_all. cbn [foldl]. by rewrite E1, E2, E3. }
  split; [done|]. split; [by rewrite A3, A2, A1, A0|]. by rewrite T3, T2, T1.
Qed.

#[local] Opaque demo_wheel.

Lemma demo_tick : timer_jiffies demo_wheel = 0.
Proof. destruct demo_steady as (Hs & _). exact (wi_time _ _ _ _ Hs). Qed.

Lemma demo_behind : 0 <= s32 (300 - timer_jiffies demo_wheel).
Proof. rewrite demo_tick. done. Qed.

Definition log_of (o : outcome (wheel * list event)) : list event :=
  match o with Ok (_, log) => log | Trap _ => [] end.

Lemma demo_log : log_of (run_timer_list quiet_fn 4 300 demo_wheel) = [Event 1 100 100; Event 2 300 300].
Proof. vm_compute. reflexivity. Qed.

Lemma run_timer_list_on_time_witness :
  ∃ w' log, run_timer_list quiet_fn 4 300 demo_wheel = Ok (w', log) ∧ Forall not_early log ∧
    log = [Event 1 100 100; Event 2 300 300].
Proof.
  pose proof demo_log as E.
  destruct (run_timer_list_on_time quiet_fn 4 0 demo_wheel 300 (λ t x w H, H) (proj1 demo_steady)
    ltac:(lia) demo_behind) as [H|(w' & log & H & _ & _ & Hlog & _)]; rewrite H in E.
  - discriminate E.
  - exists w', log. split; [exact H|]. split; [|exact E].
    eapply Forall_impl; [|exact Hlog]. intros e [_ He]. exact He.
Defined.


Lemma timer_operations_correct_witness :
  ∃ w', mod_timer demo_wheel 1 500 = Ok (w', 1) ∧ steady 0 w' ∧ 1 ∈ all w'.
Proof.
  destruct demo_steady as (Hs & Hall & Ht).
  destruct (timer_operations_correct 0 (λ _, 0) demo_wheel 1 (TimerList true 100) 500 Hs ltac:(cbn; lia)
    ltac:(by rewrite Ht) ltac:(lia)) as (_ & (w' & H & Hw & Hin & _) & _).
  exists w'. split; [exact H|]. split; [exact Hw|]. apply Hin. by left.
Defined.
