(* ===== verification/BuFsm.v ===== *)
(** The memory card protocol of [drivers/block/bu.c]: the ports of the
    controller, the state functions [bu_rd_state0] ... [bu_wr_data], the table
    [bu_rd_states], [bu_rd_routine] and the two initialisation functions.

    The controller with the card behind it is a parameter, a state machine
    that answers port reads and takes port writes ([PortDevice]); nothing is
    assumed of its answers.  Every port access is recorded in a log, and the
    theorems relate the log to what the driver believes to have transferred. *)

From S2P Require Import Prelude.

(** ** The controller *)

Class PortDevice (D : Type) := {
  port_in : D → Z → Z * D;          (* a read of a port *)
  port_out : D → Z → Z → D          (* a write of a value to a port *)
}.

Inductive port_event :=
| In (port v : Z)
| Out (port v : Z).

#[export] Instance port_event_eq_dec : EqDecision port_event.
Proof. solve_decision. Defined.

Record io (D : Type) := Io { dev : D; log : list port_event }.
Arguments Io {D} _ _.
Arguments dev {D} _.
Arguments log {D} _.

(** ** Constants and data of [bu.h] *)

Definition BU_BLK_SIZE : Z := 128.
Definition BU_BLK_SHIFT : Z := 7.
Definition BU_FIRST_BLOCKS : Z := 8.
Definition BU_MINORS : Z := 2.
Definition BU_BSIZE : Z := 1024.
Definition BU_HARDSECSIZE : Z := 512.
Definition BU_ID : Z := 0x1234.
Definition BU_NONE : Z := 0.
Definition BU_WAIT : Z := 1.
Definition BU_READY : Z := 2.
Definition BU_TIMEOUT : Z := 3.
Definition BU_DATA : Z := 0x1040.
Definition BU_STATUS : Z := 0x1044.
Definition BU_CONTROL : Z := 0x104A.
Definition BU_REG8 : Z := 0x1048.
Definition BU_REGE : Z := 0x104E.

(** The characters ['R'] and ['W']. *)
Definition cR : Z := 82.
Definition cW : Z := 87.

Record bu_request_t := Breq {
  floor : Z; block : Z; rcard : Z; buffer : list Z; mode : Z
}.

(** [bu_request] is a pointer in C; each [bu_t] points to a request of its
    own, which is kept inside it here. *)
Record bu_t := Bu {
  bu_request : bu_request_t;
  cs : Z; cnt : Z; state : Z; stop : Z; hw_state : Z; byte_ : Z
}.

Definition set_request (r : bu_request_t) (b : bu_t) : bu_t :=
  Bu r (cs b) (cnt b) (state b) (stop b) (hw_state b) (byte_ b).
Definition set_cs (v : Z) (b : bu_t) : bu_t :=
  Bu (bu_request b) v (cnt b) (state b) (stop b) (hw_state b) (byte_ b).
Definition set_cnt (v : Z) (b : bu_t) : bu_t :=
  Bu (bu_request b) (cs b) v (state b) (stop b) (hw_state b) (byte_ b).
Definition set_state (v : Z) (b : bu_t) : bu_t :=
  Bu (bu_request b) (cs b) (cnt b) v (stop b) (hw_state b) (byte_ b).
Definition set_stop (v : Z) (b : bu_t) : bu_t :=
  Bu (bu_request b) (cs b) (cnt b) (state b) v (hw_state b) (byte_ b).
Definition set_hw_state (v : Z) (b : bu_t) : bu_t :=
  Bu (bu_request b) (cs b) (cnt b) (state b) (stop b) v (byte_ b).
Definition set_byte (v : Z) (b : bu_t) : bu_t :=
  Bu (bu_request b) (cs b) (cnt b) (state b) (stop b) (hw_state b) v.
Definition set_buffer (l : list Z) (r : bu_request_t) : bu_request_t :=
  Breq (floor r) (block r) (rcard r) l (mode r).

Section fsm.
Context {D : Type} `{!PortDevice D}.

(** ** Port access *)

Definition inb (port : Z) (i : io D) : Z * io D :=
  let '(v, d) := port_in (dev i) port in
  (u8 v, Io d (log i ++ [In port (u8 v)])).

Definition inw (port : Z) (i : io D) : Z * io D :=
  let '(v, d) := port_in (dev i) port in
  (u16 v, Io d (log i ++ [In port (u16 v)])).

Definition outb (v port : Z) (i : io D) : io D :=
  Io (port_out (dev i) port (u8 v)) (log i ++ [Out port (u8 v)]).

Definition outw (v port : Z) (i : io D) : io D :=
  Io (port_out (dev i) port (u16 v)) (log i ++ [Out port (u16 v)]).

(** ** Initialisation of a transfer *)

Definition bu_hw_init (i : io D) : io D :=
  let i := outw 0x40 BU_CONTROL i in
  let i := outb 0x88 BU_REGE i in
  let i := outb 0x0d BU_REG8 i in
  let i := outw 0x00 BU_CONTROL i in
  let i := outw 0x02 BU_CONTROL i in
  let i := outw 0x2002 BU_CONTROL i in
  outw 0x00 BU_CONTROL i.

Definition bu_sw_init (b : bu_t) : Z * bu_t :=
  let b := set_cnt 0 b in
  let b := set_stop 0 b in
  let b := set_cs (u8 (Z.lxor (Z.land (block (bu_request b)) 0xff)
                              (Z.land (Z.shiftr (block (bu_request b)) 8) 0xff))) b in
  if mode (bu_request b) =? cR then (0, set_state 0 b)
  else if mode (bu_request b) =? cW then (0, set_state 0x10 b)
  else (-1, b).

(** ** The state functions

    Each returns the increment of the state, or [-1] when the card's answer
    is not the expected one. *)

Definition fsm_result : Type := outcome (Z * io D * bu_t).

Definition bu_rd_state0 (i : io D) (b : bu_t) : fsm_result :=
  let i := outw (Z.lor (Z.shiftl (Z.land (rcard (bu_request b)) 1) 13) 0x1003) BU_CONTROL i in
  let '(v, i) := inb BU_DATA i in
  let b := set_byte v b in
  let i := outb (0x81 + floor (bu_request b)) BU_DATA i in
  Ok (1, i, b).

Definition bu_rd_state1 (i : io D) (b : bu_t) : fsm_result :=
  let '(v, i) := inb BU_DATA i in
  let b := set_byte v b in
  let i := outb (mode (bu_request b)) BU_DATA i in
  Ok (1, i, b).

Definition bu_rd_state2 (i : io D) (b : bu_t) : fsm_result :=
  let '(v, i) := inb BU_DATA i in
  let b := set_byte v b in
  let i := outb 0 BU_DATA i in
  let b := set_hw_state (byte_ b) b in
  Ok (1, i, b).

Definition bu_rd_state3 (i : io D) (b : bu_t) : fsm_result :=
  let '(v, i) := inb BU_DATA i in
  let b := set_byte v b in
  let i := outb 0 BU_DATA i in
  if byte_ b =? 0x5a then Ok (1, i, b) else Ok (-1, i, b).

Definition bu_rd_state4 (i : io D) (b : bu_t) : fsm_result :=
  let '(v, i) := inb BU_DATA i in
  let b := set_byte v b in
  let i := outb (Z.land (Z.shiftr (block (bu_request b)) 8) 0xff) BU_DATA i in
  if byte_ b =? 0x5d then Ok (1, i, b) else Ok (-1, i, b).

Definition bu_rd_state5 (i : io D) (b : bu_t) : fsm_result :=
  let '(v, i) := inb BU_DATA i in
  let b := set_byte v b in
  let i := outb (Z.land (block (bu_request b)) 0xff) BU_DATA i in
  Ok (1, i, b).

Definition bu_rd_state6 (i : io D) (b : bu_t) : fsm_result :=
  let '(v, i) := inb BU_DATA i in
  let b := set_byte v b in
  let i := outb 0 BU_DATA i in
  Ok (1, i, b).

Definition bu_rd_state7 (i : io D) (b : bu_t) : fsm_result :=
  let '(v, i) := inb BU_DATA i in
  let b := set_byte v b in
  let i := outb 0 BU_DATA i in
  if byte_ b =? 0x5c then Ok (1, i, b) else Ok (-1, i, b).

Definition bu_rd_state8 (i : io D) (b : bu_t) : fsm_result :=
  let '(v, i) := inb BU_DATA i in
  let b := set_byte v b in
  let i := outb 0 BU_DATA i in
  if byte_ b =? 0x5d then Ok (1, i, b) else Ok (-1, i, b).

Definition bu_rd_state9 (i : io D) (b : bu_t) : fsm_result :=
  let '(v, i) := inb BU_DATA i in
  let b := set_byte v b in
  let i := outb 0 BU_DATA i in
  if byte_ b =? Z.land (Z.shiftr (block (bu_request b)) 8) 0xff
  then Ok (1, i, b) else Ok (-1, i, b).

Definition bu_rd_state10 (i : io D) (b : bu_t) : fsm_result :=
  let '(v, i) := inb BU_DATA i in
  let b := set_byte v b in
  let i := outb 0 BU_DATA i in
  if byte_ b =? Z.land (block (bu_request b)) 0xff then Ok (1, i, b) else Ok (-1, i, b).

(** [while ((inw (BU_STATUS) & 7) != 7) if (timeout++ > 10000) return -1;] *)
Fixpoint wait_status (fuel : nat) (timeout : Z) (i : io D) : outcome (bool * io D) :=
  match fuel with
  | O => Trap Fuel
  | S fuel =>
      let '(v, i) := inw BU_STATUS i in
      if Z.land v 7 =? 7 then Ok (true, i)
      else if 10000 <? timeout then Ok (false, i)
      else wait_status fuel (timeout + 1) i
  end.

Definition bu_rd_state12 (i : io D) (b : bu_t) : fsm_result :=
  let '(v, i) := inb BU_DATA i in
  let b := set_byte v b in
  let i := outb 0 BU_DATA i in
  if (mode (bu_request b) =? cR) && negb (byte_ b =? cs b) then Ok (-1, i, b) else
  '(ready, i) ← wait_status (Z.to_nat 10002) 0 i;
  if negb ready then Ok (-1, i, b) else
  let '(v, i) := inb BU_DATA i in
  let b := set_byte v b in
  let i := outb 0 BU_DATA i in
  if byte_ b =? 0x47 then Ok (1, i, set_stop 1 b) else Ok (-1, i, b).

Definition bu_wr_state7 (i : io D) (b : bu_t) : fsm_result :=
  let '(_, i) := inb BU_DATA i in
  let i := outb (cs b) BU_DATA i in
  Ok (1, i, b).

(** The buffer is indexed by [cnt]; an index outside it faults. *)
Definition bu_rd_data (i : io D) (b : bu_t) : fsm_result :=
  let '(v, i) := inb BU_DATA i in
  if (cnt b <? 0) || (zlen (buffer (bu_request b)) <=? cnt b) then Trap Fault else
  let b := set_request (set_buffer (<[Z.to_nat (cnt b) := v]> (buffer (bu_request b)))
                          (bu_request b)) b in
  let b := set_cs (u8 (Z.lxor (cs b) v)) b in
  let i := outb 0 BU_DATA i in
  let b := set_cnt (cnt b + 1) b in
  Ok (if cnt b =? BU_BLK_SIZE then 1 else 0, i, b).

Definition bu_wr_data (i : io D) (b : bu_t) : fsm_result :=
  if cnt b <? 0 then Trap Fault else
  match buffer (bu_request b) !! Z.to_nat (cnt b) with
  | None => Trap Fault
  | Some v =>
      let b := set_cs (u8 (Z.lxor (cs b) v)) b in
      let '(_, i) := inb BU_DATA i in
      let i := outb v BU_DATA i in
      let b := set_cnt (cnt b + 1) b in
      Ok (if cnt b =? BU_BLK_SIZE then 1 else 0, i, b)
  end.

(** A null entry of the table, or an index outside it, faults when called. *)
Definition bu_rd_states : list (option (io D → bu_t → fsm_result)) :=
  [ Some bu_rd_state0; Some bu_rd_state1; Some bu_rd_state2; Some bu_rd_state3;
    Some bu_rd_state4; Some bu_rd_state5; Some bu_rd_state6; Some bu_rd_state7;
    Some bu_rd_state8; Some bu_rd_state9; Some bu_rd_state10; Some bu_rd_data;
    Some bu_rd_state12; None; None; None;
    Some bu_rd_state0; Some bu_rd_state1; Some bu_rd_state2; Some bu_rd_state3;
    Some bu_rd_state4; Some bu_rd_state5; Some bu_wr_data; Some bu_wr_state7;
    Some bu_rd_state6; Some bu_rd_state7; Some bu_rd_state12 ].

Definition call_state (s : Z) (i : io D) (b : bu_t) : fsm_result :=
  if s <? 0 then Trap Fault else
  match bu_rd_states !! Z.to_nat s with
  | Some (Some f) => f i b
  | _ => Trap Fault
  end.

Definition bu_rd_routine (i : io D) (b : bu_t) : fsm_result :=
  let '(v, i) := inw BU_CONTROL i in
  let i := outw (Z.lor (Z.lor v 0x13) (Z.shiftl (Z.land (rcard (bu_request b)) 1) 13))
                BU_CONTROL i in
  '(status, i, b) ← call_state (state b) i b;
  if status <? 0 then Ok (-1, i, b)
  else Ok (0, i, set_state (state b + status) b).

(** ** The protocol as a dialogue

    A transfer is a sequence of exchanges on the data port: a byte received,
    then a byte sent.  [tx r p] is the byte sent in exchange number [p] of the
    transfer of [r], [reply_ok r p rx v] tells if [v] is an acceptable answer
    in exchange [p] after the answers [rx]. *)

Definition blk_hi (r : bu_request_t) : Z := Z.land (Z.shiftr (block r) 8) 0xff.
Definition blk_lo (r : bu_request_t) : Z := Z.land (block r) 0xff.

Definition checksum (r : bu_request_t) (l : list Z) : Z :=
  foldl Z.lxor (Z.lxor (blk_lo r) (blk_hi r)) l.

Definition reading (r : bu_request_t) : bool := mode r =? cR.

(** The exchanges before the data and the length of the whole transfer. *)
Definition hdr (r : bu_request_t) : nat := if reading r then 11 else 6.
Definition full (r : bu_request_t) : nat := if reading r then 141 else 139.

Definition tx (r : bu_request_t) (p : nat) : Z :=
  if (p =? 0)%nat then u8 (0x81 + floor r)
  else if (p =? 1)%nat then u8 (mode r)
  else if (p =? 4)%nat then blk_hi r
  else if (p =? 5)%nat then blk_lo r
  else if reading r then 0
  else if ((6 <=? p) && (p <? 134))%nat then nth (p - 6) (buffer r) 0
  else if (p =? 134)%nat then checksum r (buffer r)
  else 0.

(** The data bytes among the answers to a read. *)
Definition received (rx : list Z) : list Z := take 128 (drop 11 rx).

Definition reply_ok (r : bu_request_t) (p : nat) (rx : list Z) (v : Z) : bool :=
  if (p =? 3)%nat then v =? 0x5a
  else if (p =? 4)%nat then v =? 0x5d
  else if reading r then
    if (p =? 7)%nat then v =? 0x5c
    else if (p =? 8)%nat then v =? 0x5d
    else if (p =? 9)%nat then v =? blk_hi r
    else if (p =? 10)%nat then v =? blk_lo r
    else if (p =? 139)%nat then v =? checksum r (received rx)
    else if (p =? 140)%nat then v =? 0x47
    else true
  else
    if (p =? 136)%nat then v =? 0x5c
    else if (p =? 138)%nat then v =? 0x47
    else true.

Definition valid_replies (r : bu_request_t) (rx : list Z) : Prop :=
  ∀ p v, rx !! p = Some v → reply_ok r p (take p rx) v = true.

(** The traffic of the data port of a transfer with the answers [rx]. *)
Definition exchange (r : bu_request_t) (rx : list Z) : list port_event :=
  mjoin (imap (λ p v, [In BU_DATA v; Out BU_DATA (tx r p)]) rx).

Definition on_data (e : port_event) : bool :=
  match e with In p _ | Out p _ => p =? BU_DATA end.

Definition data_log (i : io D) : list port_event := filter (λ e, on_data e = true) (log i).

(** The controller did not report readiness in a full run of the status loop. *)
Definition not_ready (i : io D) : Prop :=
  ∃ before after vs, log i = before ++ (In BU_STATUS <$> vs) ++ after ∧
    length vs = Z.to_nat 10002 ∧ Forall (λ v, Z.land v 7 ≠ 7) vs.

(** The state of the automaton after the answers [rx]. *)
Definition state_of (r : bu_request_t) (p : nat) : Z :=
  let p := Z.of_nat p in
  if reading r then
    if p <=? 11 then p else if p <? 139 then 11 else if p =? 139 then 12 else 13
  else
    if p <=? 6 then 16 + p else if p <? 134 then 22
    else if p <=? 137 then p - 111 else 27.

Definition moved (r : bu_request_t) (rx : list Z) : list Z :=
  if reading r then received rx else take (length rx - 6) (buffer r).

Definition request_after (r : bu_request_t) (rx : list Z) : bu_request_t :=
  if reading r
  then set_buffer (received rx ++ drop (length (received rx)) (buffer r)) r
  else r.

Record wf_request (r : bu_request_t) : Prop := {
  wfr_mode : mode r = cR ∨ mode r = cW;
  wfr_len : length (buffer r) = 128%nat;
  wfr_bytes : Forall byte (buffer r)
}.

Record in_transfer (r : bu_request_t) (rx : list Z) (b : bu_t) : Prop := {
  it_request : bu_request b = request_after r rx;
  it_cs : cs b = checksum r (moved r rx);
  it_cnt : cnt b = zlen (moved r rx);
  it_state : state b = state_of r (length rx);
  it_stop : stop b = if (length rx =? full r)%nat then 1 else 0;
  it_pos : (length rx <= full r - 2)%nat ∨ length rx = full r;
  it_valid : valid_replies r rx;
  it_bytes : Forall byte rx
}.

(** ** Lemmas on bytes and dialogues *)

Lemma u8_lxor a b : u8 (Z.lxor a b) = Z.lxor (u8 a) (u8 b).
Proof.
  unfold wrap. rewrite <- !Z.land_ones by lia. apply Z.bits_inj'. intros n Hn.
  rewrite !Z.lxor_spec, !Z.land_spec, Z.lxor_spec. by destruct (Z.testbit a n), (Z.testbit b n), (Z.testbit (Z.ones 8) n).
Qed.

Lemma lxor_byte a b : byte a → byte b → byte (Z.lxor a b).
Proof. intros Ha Hb. rewrite <- (u8_id a), <- (u8_id b), <- u8_lxor by done. apply u8_byte. Qed.

Lemma land_255 x : Z.land x 255 = u8 x.
Proof. unfold wrap. by rewrite <- Z.land_ones by lia. Qed.

Lemma checksum_byte r l : Forall byte l → byte (checksum r l).
Proof.
  unfold checksum. intros Hl.
  assert (byte (Z.lxor (blk_lo r) (blk_hi r))) as H.
  { unfold blk_lo, blk_hi. rewrite !land_255. apply lxor_byte; apply u8_byte. }
  revert H. generalize (Z.lxor (blk_lo r) (blk_hi r)).
  induction Hl as [|v l Hv Hl IH]; intros c Hc; simpl; [done|]. apply IH. by apply lxor_byte.
Qed.

Lemma checksum_snoc r l v :
  Forall byte l → byte v → u8 (Z.lxor (checksum r l) v) = checksum r (l ++ [v]).
Proof.
  intros Hl Hv. rewrite u8_id by (apply lxor_byte; [by apply checksum_byte | done]).
  unfold checksum. by rewrite foldl_app.
Qed.

Lemma exchange_snoc r rx v :
  exchange r (rx ++ [v]) = exchange r rx ++ [In BU_DATA v; Out BU_DATA (tx r (length rx))].
Proof.
  unfold exchange. rewrite imap_app, join_app. simpl. by rewrite Nat.add_0_r.
Qed.

Lemma valid_replies_snoc r rx v :
  valid_replies r (rx ++ [v]) ↔ valid_replies r rx ∧ reply_ok r (length rx) rx v = true.
Proof.
  unfold valid_replies. split.
  - intros H. split.
    + intros p w Hp. specialize (H p w). rewrite lookup_app_l in H by (by eapply lookup_lt_Some).
      rewrite take_app_le in H by (apply lookup_lt_Some in Hp; lia). auto.
    + specialize (H (length rx) v). rewrite take_app_length in H. apply H.
      by rewrite lookup_app_r, Nat.sub_diag by lia.
  - intros [H1 H2] p w Hp. destruct (decide (p < length rx)%nat).
    + rewrite lookup_app_l in Hp by done. rewrite take_app_le by lia. auto.
    + rewrite lookup_app_r in Hp by lia.
      destruct (p - length rx)%nat eqn:E; simpl in Hp; [|by rewrite lookup_nil in Hp].
      injection Hp as <-. replace p with (length rx) by lia. by rewrite take_app_length.
Qed.

Lemma received_snoc rx v :
  (11 <= length rx < 139)%nat → received (rx ++ [v]) = received rx ++ [v].
Proof.
  intros H. unfold received. rewrite drop_app_le by lia.
  rewrite !take_ge; [done| rewrite length_drop; lia | rewrite length_app, length_drop; simpl; lia].
Qed.

Lemma received_done rx k : (139 <= length rx)%nat → received (rx ++ k) = received rx.
Proof.
  intros H. unfold received. rewrite drop_app_le, take_app_le by (rewrite ?length_drop; lia). done.
Qed.

Lemma received_before rx : (length rx <= 11)%nat → received rx = [].
Proof. intros H. unfold received. by rewrite drop_ge by done. Qed.

Lemma received_length rx : length (received rx) = (128 `min` (length rx - 11))%nat.
Proof. unfold received. by rewrite length_take, length_drop. Qed.

Lemma received_bytes rx : Forall byte rx → Forall byte (received rx).
Proof. intros. unfold received. by apply Forall_take, Forall_drop. Qed.

(** ** The log of the data port *)

Lemma data_log_app (i : io D) l d :
  data_log (Io d (log i ++ l)) = data_log i ++ filter (λ e, on_data e = true) l.
Proof. unfold data_log. simpl. by rewrite list.filter_app. Qed.

Lemma data_log_hw_init i : data_log (bu_hw_init i) = data_log i.
Proof.
  unfold bu_hw_init, outw, outb. cbn [log dev].
  rewrite <- !app_assoc. rewrite data_log_app. cbn. by rewrite app_nil_r.
Qed.

(** Reads of other ports leave it alone. *)
Lemma inw_spec port i :
  port ≠ BU_DATA → ∃ v i', inw port i = (v, i') ∧ data_log i' = data_log i.
Proof.
  intros Hp. unfold inw. destruct (port_in (dev i) port) as [v d].
  eexists _, _. split; [done|]. rewrite data_log_app. rewrite filter_cons_False; [by rewrite app_nil_r|].
  simpl. by apply not_true_iff_false, Z.eqb_neq.
Qed.

Lemma outw_spec v port i : port ≠ BU_DATA → data_log (outw v port i) = data_log i.
Proof.
  intros Hp. unfold outw. rewrite data_log_app, filter_cons_False; [by rewrite app_nil_r|].
  simpl. by apply not_true_iff_false, Z.eqb_neq.
Qed.

Lemma inb_spec i :
  ∃ v i', inb BU_DATA i = (v, i') ∧ byte v ∧ data_log i' = data_log i ++ [In BU_DATA v].
Proof.
  unfold inb. destruct (port_in (dev i) BU_DATA) as [v d].
  eexists _, _. split; [done|]. split; [apply u8_byte|]. by rewrite data_log_app.
Qed.

Lemma outb_spec v i : data_log (outb v BU_DATA i) = data_log i ++ [Out BU_DATA (u8 v)].
Proof. unfold outb. by rewrite data_log_app. Qed.

(** The status loop ends within its fuel: it returns, and when it gives up
    the controller has not been ready in any of its reads. *)
Lemma wait_status_spec fuel t i :
  0 <= t <= 10001 → Z.of_nat fuel = 10002 - t →
  ∃ ready i', wait_status fuel t i = Ok (ready, i') ∧ data_log i' = data_log i ∧
    (ready = false → ∃ vs, log i' = log i ++ (In BU_STATUS <$> vs) ∧
       length vs = fuel ∧ Forall (λ v, Z.land v 7 ≠ 7) vs).
Proof.
  revert t i. induction fuel as [|fuel IH]; intros t i Ht Hf; [lia|]. cbn [wait_status].
  destruct (inw_spec BU_STATUS i) as (v & i1 & E & Hl); [done|]. rewrite E.
  assert (log i1 = log i ++ [In BU_STATUS v]) as Hlog.
  { unfold inw in E. destruct (port_in (dev i) BU_STATUS). by injection E as <- <-. }
  destruct (Z.eqb_spec (Z.land v 7) 7) as [|Hv].
  { eexists _, _. split; [done|]. split; [done|]. done. }
  destruct (Z.ltb_spec 10000 t).
  { eexists _, _. split; [done|]. split; [done|]. intros _. exists [v].
    split; [done|]. split; [simpl; lia|]. by constructor. }
  destruct (IH (t + 1) i1) as (ready & i2 & E2 & Hl2 & Hn); [lia..|].
  exists ready, i2. split; [done|]. split; [congruence|]. intros Hr.
  destruct (Hn Hr) as (vs & Hvs & Hlen & Hall). exists (v :: vs).
  rewrite Hvs, Hlog, <- app_assoc. split; [done|]. split; [simpl; lia|]. by constructor.
Qed.

(** ** One call of the automaton *)

(** The fields that matter between two calls. *)
Definition same_core (b b' : bu_t) : Prop :=
  bu_request b' = bu_request b ∧ cs b' = cs b ∧ cnt b' = cnt b ∧
  state b' = state b ∧ stop b' = stop b.

(** A state function that exchanges one byte and checks the answer. *)
Definition simple (f : io D → bu_t → fsm_result) (t : bu_t → Z) (chk : bu_t → Z → bool) : Prop :=
  ∀ i b, ∃ v i' b', f i b = Ok (if chk b v then 1 else -1, i', b') ∧
    byte v ∧ same_core b b' ∧
    data_log i' = data_log i ++ [In BU_DATA v; Out BU_DATA (u8 (t b))].

Ltac simple_exchange i :=
  let v := fresh "v" in let i1 := fresh "i" in
  let E := fresh "E" in let Hv := fresh "Hv" in let Hl := fresh "Hl" in
  destruct (inb_spec i) as (v & i1 & E & Hv & Hl);
  rewrite E, ?outw_spec in * by done; eexists v, _, _;
  split; [cbn [byte_ bu_request set_byte set_hw_state]; try case_match; done|];
  split; [done|]; split; [done|];
  rewrite outb_spec, Hl, <- app_assoc; done.

Ltac simple_state :=
  intros i b;
  match goal with
  | |- context [inb BU_DATA ?j] => simple_exchange j
  end.

Lemma state0_simple : simple bu_rd_state0 (λ b, 0x81 + floor (bu_request b)) (λ _ _, true).
Proof. unfold simple, bu_rd_state0. simple_state. Qed.
Lemma state1_simple : simple bu_rd_state1 (λ b, mode (bu_request b)) (λ _ _, true).
Proof. unfold simple, bu_rd_state1. simple_state. Qed.
Lemma state2_simple : simple bu_rd_state2 (λ _, 0) (λ _ _, true).
Proof. unfold simple, bu_rd_state2. simple_state. Qed.
Lemma state3_simple : simple bu_rd_state3 (λ _, 0) (λ _ v, v =? 0x5a).
Proof. unfold simple, bu_rd_state3. simple_state. Qed.
Lemma state4_simple : simple bu_rd_state4 (λ b, blk_hi (bu_request b)) (λ _ v, v =? 0x5d).
Proof. unfold simple, bu_rd_state4. simple_state. Qed.
Lemma state5_simple : simple bu_rd_state5 (λ b, blk_lo (bu_request b)) (λ _ _, true).
Proof. unfold simple, bu_rd_state5. simple_state. Qed.
Lemma state6_simple : simple bu_rd_state6 (λ _, 0) (λ _ _, true).
Proof. unfold simple, bu_rd_state6. simple_state. Qed.
Lemma state7_simple : simple bu_rd_state7 (λ _, 0) (λ _ v, v =? 0x5c).
Proof. unfold simple, bu_rd_state7. simple_state. Qed.
Lemma state8_simple : simple bu_rd_state8 (λ _, 0) (λ _ v, v =? 0x5d).
Proof. unfold simple, bu_rd_state8. simple_state. Qed.
Lemma state9_simple : simple bu_rd_state9 (λ _, 0) (λ b v, v =? blk_hi (bu_request b)).
Proof. unfold simple, bu_rd_state9, blk_hi. simple_state. Qed.
Lemma state10_simple : simple bu_rd_state10 (λ _, 0) (λ b v, v =? blk_lo (bu_request b)).
Proof. unfold simple, bu_rd_state10, blk_lo. simple_state. Qed.
Lemma wr_state7_simple : simple bu_wr_state7 cs (λ _ _, true).
Proof. unfold simple, bu_wr_state7. simple_state. Qed.

(** The request a failed transfer leaves: the same up to the buffer. *)
Definition same_request (r r' : bu_request_t) : Prop :=
  r' = set_buffer (buffer r') r ∧ wf_request r' ∧ (reading r = false → r' = r).

Lemma request_after_same r rx :
  wf_request r → Forall byte rx → same_request r (request_after r rx).
Proof.
  intros [Hm Hl Hb] Hrx. unfold request_after.
  destruct (reading r) eqn:E; [|by split; [destruct r|]].
  split; [by destruct r|]. split; [|congruence]. split; [done| |].
  - simpl. rewrite length_app, length_drop, received_length. lia.
  - simpl. apply Forall_app. split; [by apply received_bytes | by apply Forall_drop].
Qed.

(** A call is a step of the automaton after an access to the control port. *)
Lemma routine_call i b :
  ∃ i1, data_log i1 = data_log i ∧
    bu_rd_routine i b =
      ('(status, i, b) ← call_state (state b) i1 b;
       if status <? 0 then Ok (-1, i, b) else Ok (0, i, set_state (state b + status) b)).
Proof.
  unfold bu_rd_routine. destruct (inw_spec BU_CONTROL i) as (v & i1 & E & Hl); [done|].
  rewrite E. eexists _. split; [|done]. by rewrite outw_spec.
Qed.

(** What a call does in position [length rx] of a transfer. *)
Definition stepped (r : bu_request_t) (rx : list Z) (old : list port_event) (i : io D) (b : bu_t)
    : Prop :=
  ∃ status i' b' new, bu_rd_routine i b = Ok (status, i', b') ∧
    (0 < length new <= 2)%nat ∧ Forall byte new ∧
    data_log i' = old ++ exchange r (rx ++ new) ∧
    (status = 0 ∧ in_transfer r (rx ++ new) b' ∨
     status = -1 ∧ same_request r (bu_request b') ∧
       (¬ valid_replies r (rx ++ new) ∨ not_ready i')).

(** Positions in which no data byte moves. *)
Definition quiet (r : bu_request_t) (p : nat) : Prop :=
  if reading r then (p < 11 ∨ 139 <= p)%nat else (p < 6 ∨ 134 <= p)%nat.

Lemma quiet_moved r rx v :
  wf_request r → quiet r (length rx) →
  moved r (rx ++ [v]) = moved r rx ∧ request_after r (rx ++ [v]) = request_after r rx.
Proof.
  intros [_ Hl _] Hq. unfold quiet, moved, request_after in *.
  destruct (reading r).
  - destruct Hq; [|by rewrite received_done by lia].
    rewrite !received_before; [done|lia|rewrite length_app; simpl; lia].
  - split; [|done]. rewrite length_app. simpl. destruct Hq.
    + by replace (length rx + 1 - 6)%nat with (length rx - 6)%nat by lia.
    + by rewrite !take_ge by lia.
Qed.

Lemma in_transfer_snoc r rx v b b' :
  wf_request r → in_transfer r rx b → same_core b b' → byte v →
  quiet r (length rx) → (length rx < full r - 2)%nat →
  reply_ok r (length rx) rx v = true →
  state_of r (S (length rx)) = state_of r (length rx) + 1 →
  in_transfer r (rx ++ [v]) (set_state (state b' + 1) b').
Proof.
  intros Hr [Eq Ecs Ecnt Est Estop Epos Ev Eb] (C1 & C2 & C3 & C4 & C5) Hv Hq Hp Hok Hst.
  destruct (quiet_moved r rx v Hr Hq) as [Hm Hra].
  assert (length (rx ++ [v]) = S (length rx)) as Hlen by (rewrite length_app; simpl; lia).
  constructor; rewrite ?Hlen; cbn [bu_request cs cnt state stop set_state].
  - congruence.
  - congruence.
  - congruence.
  - rewrite C4, Est. congruence.
  - rewrite C5, Estop.
    destruct (Nat.eqb_spec (length rx) (full r)), (Nat.eqb_spec (S (length rx)) (full r)); lia.
  - lia.
  - by apply valid_replies_snoc.
  - apply Forall_app. auto.
Qed.

Lemma step_simple r rx old i b f t chk :
  wf_request r → in_transfer r rx b → data_log i = old ++ exchange r rx →
  bu_rd_states !! Z.to_nat (state_of r (length rx)) = Some (Some f) →
  0 <= state_of r (length rx) →
  simple f t chk → quiet r (length rx) → (length rx < full r - 2)%nat →
  u8 (t b) = tx r (length rx) → (∀ v, chk b v = reply_ok r (length rx) rx v) →
  state_of r (S (length rx)) = state_of r (length rx) + 1 →
  stepped r rx old i b.
Proof.
  intros Hr Hit Hlog Hf H0 Hs Hq Hp Ht Hchk Hst. pose proof Hit as [Eq _ _ Est _ _ _ Eb].
  destruct (routine_call i b) as (i1 & Hl1 & E).
  destruct (Hs i1 b) as (v & i2 & b2 & Ef & Hv & Hcore & Hl2).
  unfold stepped. rewrite E. unfold call_state. rewrite Est.
  destruct (Z.ltb_spec (state_of r (length rx)) 0); [lia|]. rewrite Hf, Ef. cbn [mbind outcome_bind].
  assert (data_log i2 = old ++ exchange r (rx ++ [v])) as Hd.
  { rewrite exchange_snoc, app_assoc, <- Hlog, Hl2, Hl1, Ht. done. }
  pose proof Hcore as (C1 & _). rewrite Hchk in *.
  destruct (reply_ok r (length rx) rx v) eqn:Eok; simpl.
  - eexists _, _, _, [v]. split; [done|]. split; [simpl; lia|]. split; [by constructor|].
    split; [done|]. left. split; [done|]. by eapply in_transfer_snoc.
  - eexists _, _, _, [v]. split; [done|]. split; [simpl; lia|]. split; [by constructor|].
    split; [done|]. right. split; [done|]. split; [rewrite C1, Eq; by apply request_after_same|].
    left. rewrite valid_replies_snoc. intros [_ ?]. congruence.
Qed.

(** The exchanges of the header, and those after the data of a write, one
    position at a time. *)
Ltac simple_position Hm Hp :=
  eapply step_simple;
  [ done | eassumption | done
  | unfold state_of; rewrite Hm, Hp; reflexivity
  | unfold state_of; rewrite Hm, Hp; vm_compute; discriminate
  | first [ exact state0_simple | exact state1_simple | exact state2_simple | exact state3_simple
          | exact state4_simple | exact state5_simple | exact state6_simple | exact state7_simple
          | exact state8_simple | exact state9_simple | exact state10_simple
          | exact wr_state7_simple ]
  | unfold quiet; rewrite Hm, Hp; lia
  | unfold full; rewrite Hm, Hp; lia
  | rewrite Hp; unfold tx; rewrite ?Hm; simpl
  | intros v; rewrite Hp; unfold reply_ok; rewrite ?Hm; simpl
  | unfold state_of; rewrite Hm, Hp; reflexivity ].

Lemma blk_bytes r : u8 (blk_hi r) = blk_hi r ∧ u8 (blk_lo r) = blk_lo r.
Proof. unfold blk_hi, blk_lo. by rewrite !land_255, !wrap_wrap by lia. Qed.

Lemma step_read_header r rx old i b :
  wf_request r → reading r = true → in_transfer r rx b → data_log i = old ++ exchange r rx →
  (length rx < 11)%nat → stepped r rx old i b.
Proof.
  intros Hr Hm Hit Hlog Hlt. pose proof Hit as [Eq _ _ _ _ _ _ _].
  unfold request_after in Eq. rewrite Hm in Eq. destruct (blk_bytes r) as [HH HL].
  remember (length rx) as p eqn:Hp. symmetry in Hp.
  do 11 (destruct p as [|p]; [simple_position Hm Hp; rewrite ?Eq; done|]). lia.
Qed.

Lemma step_write_header r rx old i b :
  wf_request r → reading r = false → in_transfer r rx b → data_log i = old ++ exchange r rx →
  (length rx < 6)%nat → stepped r rx old i b.
Proof.
  intros Hr Hm Hit Hlog Hlt. pose proof Hit as [Eq _ _ _ _ _ _ _].
  unfold request_after in Eq. rewrite Hm in Eq. destruct (blk_bytes r) as [HH HL].
  remember (length rx) as p eqn:Hp. symmetry in Hp.
  do 6 (destruct p as [|p]; [simple_position Hm Hp; rewrite ?Eq; done|]). lia.
Qed.

Lemma step_write_trailer r rx old i b :
  wf_request r → reading r = false → in_transfer r rx b → data_log i = old ++ exchange r rx →
  (134 <= length rx < 137)%nat → stepped r rx old i b.
Proof.
  intros Hr Hm Hit Hlog Hlt. pose proof Hit as [Eq Ecs _ _ _ _ _ _].
  pose proof Hr as [_ Hlen Hbytes].
  assert (u8 (cs b) = checksum r (buffer r)) as Hcs.
  { rewrite Ecs. unfold moved. rewrite Hm, take_ge by lia. by apply u8_id, checksum_byte. }
  assert (length rx = 134 ∨ length rx = 135 ∨ length rx = 136)%nat as [Hp|[Hp|Hp]] by lia;
    simple_position Hm Hp; done.
Qed.

(** The data bytes. *)
Lemma reply_any r p rx v :
  (5 <= p)%nat → p ≠ full r → p ≠ (full r - 1)%nat → p ≠ (full r - 2)%nat →
  (reading r = true → 11 <= p)%nat → (reading r = false → p ≠ 136)%nat →
  reply_ok r p rx v = true.
Proof.
  intros H1 H2 H3 H4 H5 H6. unfold reply_ok, full in *.
  destruct (reading r); repeat case_match; try done;
    repeat match goal with H : (_ =? _)%nat = true |- _ => apply Nat.eqb_eq in H end; lia.
Qed.

Ltac nat_bool :=
  repeat match goal with
  | H : context [Nat.eqb ?a ?b] |- _ => destruct (Nat.eqb_spec a b)
  | |- context [Nat.eqb ?a ?b] => destruct (Nat.eqb_spec a b)
  | |- context [Nat.leb ?a ?b] => destruct (Nat.leb_spec a b)
  | |- context [Nat.ltb ?a ?b] => destruct (Nat.ltb_spec a b)
  end.

Lemma tx_read r p : reading r = true → (6 <= p)%nat → tx r p = 0.
Proof. intros Hm Hp. unfold tx. rewrite Hm. nat_bool; lia. Qed.

Lemma tx_write r p v :
  reading r = false → buffer r !! p = Some v → (p < 128)%nat → tx r (p + 6) = v.
Proof.
  intros Hm Hv Hp. unfold tx. rewrite Hm. nat_bool; try lia. simpl.
  rewrite Nat.add_sub. by erewrite nth_lookup_Some.
Qed.

(** Storing a received byte behind the ones before it. *)
Lemma buffer_received r rx v :
  length (buffer r) = 128%nat → (11 <= length rx < 139)%nat →
  <[length (received rx) := v]> (received rx ++ drop (length (received rx)) (buffer r)) =
  received (rx ++ [v]) ++ drop (length (received (rx ++ [v]))) (buffer r).
Proof.
  intros Hlen Hp. rewrite received_snoc by lia. rewrite insert_app_r_alt, Nat.sub_diag by lia.
  rewrite <- app_assoc. f_equal. rewrite length_app. simpl.
  destruct (drop (length (received rx)) (buffer r)) as [|w k] eqn:Ed.
  { apply (f_equal length) in Ed. rewrite length_drop, received_length, length_nil in Ed. lia. }
  simpl. f_equal. by rewrite <- drop_drop, Ed.
Qed.

Lemma step_read_data r rx old i b :
  wf_request r → reading r = true → in_transfer r rx b → data_log i = old ++ exchange r rx →
  (11 <= length rx < 139)%nat → stepped r rx old i b.
Proof.
  intros Hr Hm [Eq Ecs Ecnt Est Estop _ Ev Eb] Hlog Hp. pose proof Hr as [_ Hlen Hbytes].
  destruct (routine_call i b) as (i1 & Hl1 & E). unfold stepped. rewrite E.
  assert (state b = 11) as S11.
  { rewrite Est. unfold state_of. rewrite Hm. zbool; lia. }
  unfold moved in Ecs, Ecnt. unfold request_after in Eq. rewrite Hm in *.
  assert (cnt b = Z.of_nat (length rx) - 11) as Cnt.
  { rewrite Ecnt. unfold zlen. rewrite received_length. lia. }
  unfold call_state. rewrite S11. cbn [Z.ltb Z.compare]. simpl (bu_rd_states !! _).
  unfold bu_rd_data. destruct (inb_spec i1) as (v & i2 & Ei & Hv & Hl2). rewrite Ei.
  assert (zlen (buffer (bu_request b)) = 128) as Hlb.
  { rewrite Eq. unfold zlen. simpl. rewrite length_app, length_drop, received_length. lia. }
  rewrite Hlb. destruct (Z.ltb_spec (cnt b) 0); [lia|].
  destruct (Z.leb_spec 128 (cnt b)); [lia|].
  cbn [orb mbind outcome_bind cnt cs set_cnt set_cs set_request].
  assert (data_log (outb 0 BU_DATA i2) = old ++ exchange r (rx ++ [v])) as Hd.
  { rewrite exchange_snoc, app_assoc, <- Hlog, outb_spec, Hl2, Hl1, <- app_assoc.
    by rewrite tx_read by (done || lia). }
  assert (length (rx ++ [v]) = S (length rx)) as HlenS by (rewrite length_app; simpl; lia).
  set (st := if cnt b + 1 =? BU_BLK_SIZE then 1 else 0).
  assert (0 <= st ∧ 11 + st = state_of r (S (length rx))) as [Hst0 Hst].
  { unfold st, state_of, BU_BLK_SIZE. rewrite Hm. zbool; lia. }
  destruct (Z.ltb_spec st 0); [lia|].
  eexists _, _, _, [v]. split; [done|]. split; [simpl; lia|]. split; [by constructor|].
  split; [done|]. left. split; [done|].
  constructor; rewrite ?HlenS; cbn [bu_request cs cnt state stop set_state set_cnt set_cs set_request].
  - rewrite Eq. unfold request_after. rewrite Hm. cbn. unfold set_buffer. cbn. f_equal.
    assert (Z.to_nat (cnt b) = length (received rx)) as -> by (rewrite received_length; lia).
    by apply buffer_received.
  - rewrite Ecs, checksum_snoc by (try apply received_bytes; done).
    unfold moved. by rewrite Hm, received_snoc by lia.
  - rewrite Ecnt. unfold moved. rewrite Hm, received_snoc by lia. autorewrite with zlen. lia.
  - by rewrite S11.
  - rewrite Estop. unfold full. rewrite Hm. zbool.
    destruct (Nat.eqb_spec (length rx) 141), (Nat.eqb_spec (S (length rx)) 141); lia.
  - unfold full. rewrite Hm. lia.
  - apply valid_replies_snoc. split; [done|]. apply reply_any; unfold full; rewrite ?Hm; try lia; done.
  - apply Forall_app. auto.
Qed.

Lemma step_write_data r rx old i b :
  wf_request r → reading r = false → in_transfer r rx b → data_log i = old ++ exchange r rx →
  (6 <= length rx < 134)%nat → stepped r rx old i b.
Proof.
  intros Hr Hm [Eq Ecs Ecnt Est Estop _ Ev Eb] Hlog Hp. pose proof Hr as [_ Hlen Hbytes].
  destruct (routine_call i b) as (i1 & Hl1 & E). unfold stepped. rewrite E.
  assert (state b = 22) as S22.
  { rewrite Est. unfold state_of. rewrite Hm. zbool; lia. }
  unfold moved in Ecs, Ecnt. unfold request_after in Eq. rewrite Hm in *.
  assert (cnt b = Z.of_nat (length rx) - 6) as Cnt.
  { rewrite Ecnt. unfold zlen. rewrite length_take. lia. }
  unfold call_state. rewrite S22. cbn [Z.ltb Z.compare]. simpl (bu_rd_states !! _).
  unfold bu_wr_data. destruct (Z.ltb_spec (cnt b) 0); [lia|].
  assert (Z.to_nat (cnt b) = length rx - 6)%nat as -> by lia. rewrite Eq.
  destruct (lookup_lt_is_Some_2 (buffer r) (length rx - 6)) as [v Hv]; [lia|]. rewrite Hv.
  assert (byte v) as Bv by (rewrite Forall_lookup in Hbytes; eauto).
  destruct (inb_spec i1) as (w & i2 & Ei & Hw & Hl2). rewrite Ei.
  cbn [mbind outcome_bind cnt cs set_cnt set_cs].
  assert (data_log (outb v BU_DATA i2) = old ++ exchange r (rx ++ [w])) as Hd.
  { rewrite exchange_snoc, app_assoc, <- Hlog, outb_spec, Hl2, Hl1, <- app_assoc.
    rewrite u8_id by done. do 3 f_equal. replace (length rx) with (length rx - 6 + 6)%nat by lia.
    by rewrite (tx_write r _ v) by (done || lia). }
  assert (length (rx ++ [w]) = S (length rx)) as HlenS by (rewrite length_app; simpl; lia).
  set (st := if cnt b + 1 =? BU_BLK_SIZE then 1 else 0).
  assert (0 <= st ∧ 22 + st = state_of r (S (length rx))) as [Hst0 Hst].
  { unfold st, state_of, BU_BLK_SIZE. rewrite Hm. zbool; lia. }
  destruct (Z.ltb_spec st 0); [lia|].
  eexists _, _, _, [w]. split; [done|]. split; [simpl; lia|]. split; [by constructor|].
  split; [done|]. left. split; [done|].
  assert (moved r (rx ++ [w]) = take (length rx - 6) (buffer r) ++ [v]) as Hmv.
  { unfold moved. rewrite Hm, HlenS. replace (S (length rx) - 6)%nat with (S (length rx - 6)) by lia.
    by apply take_S_r. }
  constructor; rewrite ?HlenS, ?Hmv;
    cbn [bu_request cs cnt state stop set_state set_cnt set_cs].
  - rewrite Eq. unfold request_after. by rewrite Hm.
  - rewrite Ecs, checksum_snoc by (try apply Forall_take; done). done.
  - rewrite Ecnt. autorewrite with zlen. lia.
  - by rewrite S22.
  - rewrite Estop. unfold full. rewrite Hm. nat_bool; lia.
  - unfold full. rewrite Hm. lia.
  - apply valid_replies_snoc. split; [done|]. apply reply_any; unfold full; rewrite ?Hm; try lia; done.
  - apply Forall_app. auto.
Qed.

(** The end of a transfer: the checksum, the wait and the final byte. *)
Lemma state12_spec i b :
  ∃ status i' b' v new, bu_rd_state12 i b = Ok (status, i', b') ∧
    Forall byte (v :: new) ∧ bu_request b' = bu_request b ∧ cs b' = cs b ∧ cnt b' = cnt b ∧
    state b' = state b ∧
    data_log i' = data_log i ++ mjoin ((λ v, [In BU_DATA v; Out BU_DATA 0]) <$> (v :: new)) ∧
    (status = -1 ∧ new = [] ∧ reading (bu_request b) = true ∧ v ≠ cs b ∨
     status = -1 ∧ new = [] ∧ not_ready i' ∨
     ∃ w, new = [w] ∧ (reading (bu_request b) = true → v = cs b) ∧
       (status = -1 ∧ w ≠ 0x47 ∨ status = 1 ∧ w = 0x47 ∧ stop b' = 1)).
Proof.
  unfold bu_rd_state12, reading.
  destruct (inb_spec i) as (v & i1 & E & Hv & Hl). rewrite E. cbn [bu_request byte_ cs set_byte].
  assert (data_log (outb 0 BU_DATA i1) = data_log i ++ [In BU_DATA v; Out BU_DATA 0]) as Hl1
    by (rewrite outb_spec, Hl, <- app_assoc; done).
  destruct ((mode (bu_request b) =? cR) && negb (v =? cs b)) eqn:Echk.
  { apply andb_prop in Echk as [-> Hne]. apply negb_true_iff, Z.eqb_neq in Hne.
    eexists _, _, _, v, []. do 7 (split; [first [done | by constructor]|]). auto. }
  destruct (wait_status_spec (Z.to_nat 10002) 0 (outb 0 BU_DATA i1))
    as (ready & i2 & E2 & Hl2 & Hn); [lia..|].
  rewrite E2. cbn [mbind outcome_bind]. destruct ready; cbn [negb].
  2: { eexists _, _, _, v, []. split; [done|]. split; [by constructor|].
       do 4 (split; [done|]). split; [by rewrite Hl2, Hl1|]. right; left.
       split; [done|]. split; [done|]. destruct (Hn eq_refl) as (vs & Hvs & ? & ?).
       exists (log (outb 0 BU_DATA i1)), [], vs. by rewrite app_nil_r. }
  destruct (inb_spec i2) as (w & i3 & E3 & Hw & Hl3). rewrite E3. cbn [byte_ set_byte].
  assert ((mode (bu_request b) =? cR) = true → v = cs b) as Hc.
  { intros Hm. rewrite Hm in Echk. by apply negb_false_iff, Z.eqb_eq in Echk. }
  assert (data_log (outb 0 BU_DATA i3) = data_log i ++
    mjoin ((λ v, [In BU_DATA v; Out BU_DATA 0]) <$> [v; w])) as Hl4
    by (rewrite outb_spec, Hl3, Hl2, Hl1, <- !app_assoc; done).
  destruct (Z.eqb_spec w 0x47); eexists _, _, _, v, [w]; (split; [done|]);
    (split; [constructor; [done|]; constructor; done|]); do 4 (split; [done|]); (split; [done|]);
    right; right; exists w; (split; [done|]); (split; [done|]); [right|left]; done.
Qed.

Lemma final_replies r rx v :
  length rx = (full r - 2)%nat → valid_replies r rx →
  (valid_replies r (rx ++ [v]) ↔ (reading r = true → v = checksum r (moved r rx))) ∧
  ∀ w, valid_replies r (rx ++ [v; w]) ↔ valid_replies r (rx ++ [v]) ∧ w = 0x47.
Proof.
  intros Hp Hv. split.
  - rewrite valid_replies_snoc, Hp. unfold reply_ok, full, moved.
    destruct (reading r); simpl; [|naive_solver]. rewrite Z.eqb_eq. naive_solver.
  - intros w. rewrite (cons_middle v rx [w]), app_assoc, valid_replies_snoc, length_app, Hp.
    unfold reply_ok, full. destruct (reading r); simpl; by rewrite Z.eqb_eq.
Qed.

Lemma final_exchange r rx new :
  length rx = (full r - 2)%nat → (length new <= 2)%nat →
  exchange r (rx ++ new) =
  exchange r rx ++ mjoin ((λ v, [In BU_DATA v; Out BU_DATA 0]) <$> new).
Proof.
  intros Hp Hn.
  assert (∀ p, (length rx <= p)%nat → tx r p = 0) as Htx.
  { intros p Hle. rewrite Hp in Hle. unfold full in Hle. destruct (reading r) eqn:Er;
      [apply tx_read; [done|lia]|]. unfold tx. rewrite Er. nat_bool; try lia; done. }
  destruct new as [|v [|w [|]]]; simpl in Hn; [by rewrite !app_nil_r| | |lia].
  - by rewrite exchange_snoc, Htx.
  - rewrite (cons_middle v rx [w]), app_assoc, !exchange_snoc, !Htx, <- app_assoc
      by (rewrite ?length_app; simpl; lia). done.
Qed.

Lemma in_transfer_end r rx v b :
  wf_request r → length rx = (full r - 2)%nat → Forall byte (v :: [0x47]) → Forall byte rx →
  valid_replies r (rx ++ [v; 0x47]) →
  bu_request b = request_after r rx → cs b = checksum r (moved r rx) →
  cnt b = zlen (moved r rx) → state b = state_of r (full r - 2) → stop b = 1 →
  in_transfer r (rx ++ [v; 0x47]) (set_state (state b + 1) b).
Proof.
  intros Hr Hp Hb Hrx Hv Q C N S T.
  assert (length (rx ++ [v; 71]) = full r) as HL.
  { rewrite length_app, Hp. unfold full. destruct (reading r); done. }
  assert (quiet r (length rx) ∧ quiet r (length (rx ++ [v]))) as [Q1 Q2].
  { rewrite length_app, Hp. unfold quiet, full. destruct (reading r); simpl; lia. }
  destruct (quiet_moved r rx v Hr Q1) as [M1 R1].
  destruct (quiet_moved r (rx ++ [v]) 71 Hr Q2) as [M2 R2].
  rewrite <- app_assoc in M2, R2. cbn [app] in M2, R2.
  constructor; rewrite ?HL, ?M2, ?R2, ?M1, ?R1; cbn [bu_request cs cnt state stop set_state]; try done.
  - rewrite S. unfold state_of, full. by destruct (reading r).
  - by rewrite Nat.eqb_refl.
  - by right.
  - by apply Forall_app.
Qed.

Lemma step_final r rx old i b :
  wf_request r → in_transfer r rx b → data_log i = old ++ exchange r rx →
  length rx = (full r - 2)%nat → stepped r rx old i b.
Proof.
  intros Hr [Eq Ecs Ecnt Est Estop _ Ev Eb] Hlog Hp.
  destruct (routine_call i b) as (i1 & Hl1 & E). unfold stepped. rewrite E.
  assert (call_state (state b) i1 b = bu_rd_state12 i1 b) as ->.
  { rewrite Est, Hp. unfold state_of, full. by destruct (reading r). }
  destruct (state12_spec i1 b) as (status & i2 & b2 & v & new & E2 & Hb & Q & C & N & S & Hd & Hcase).
  rewrite E2. cbn [mbind outcome_bind].
  assert (reading (bu_request b) = reading r) as Hrd.
  { rewrite Eq. unfold request_after. destruct (reading r) eqn:Er; unfold reading in *; done. }
  rewrite Hrd in Hcase.
  assert (length new <= 1)%nat as Hnew.
  { destruct Hcase as [(_ & -> & _)|[(_ & -> & _)|(w & -> & _)]]; simpl; lia. }
  assert (data_log i2 = old ++ exchange r (rx ++ v :: new)) as Hd2.
  { rewrite Hd, Hl1, Hlog, <- app_assoc, final_exchange by (simpl; lia). done. }
  assert (same_request r (bu_request b2)) as Hsame by (rewrite Q, Eq; by apply request_after_same).
  destruct (final_replies r rx v Hp Ev) as [V1 V2].
  exists (if status <? 0 then -1 else 0), i2,
    (if status <? 0 then b2 else set_state (state b2 + status) b2), (v :: new).
  split; [by destruct (status <? 0)|]. split; [simpl; lia|]. split; [done|]. split; [done|].
  destruct Hcase as [(-> & -> & Hm & Hne)|[(-> & -> & Hnr)|(w & -> & Hc & [(-> & Hne)|(-> & -> & Hst)])]].
  - right. split; [done|]. split; [done|]. left. rewrite V1. intros Hx. apply Hne. rewrite Ecs. auto.
  - right. split; [done|]. split; [done|]. by right.
  - right. split; [done|]. split; [done|]. left. rewrite V2. by intros [_ ?].
  - left. split; [done|]. cbn [Z.ltb Z.compare].
    apply (in_transfer_end r rx v b2); try done; try congruence.
    by apply V2; split; [apply V1; intros Hm; rewrite <- Ecs; auto|].
Qed.

(** Every call in an unfinished transfer is such a step. *)
Lemma bu_rd_routine_step r rx old i b :
  wf_request r → in_transfer r rx b → stop b = 0 → data_log i = old ++ exchange r rx →
  stepped r rx old i b.
Proof.
  intros Hr Hit Hstop Hlog. pose proof Hit as [_ _ _ _ Estop Epos _ _].
  rewrite Hstop in Estop. destruct (Nat.eqb_spec (length rx) (full r)); [lia|].
  destruct (decide (length rx = full r - 2)%nat); [by apply step_final|].
  unfold full in *. destruct (reading r) eqn:Hm.
  - destruct (decide (length rx < 11)%nat); [by apply step_read_header|].
    apply step_read_data; [done..|lia].
  - destruct (decide (length rx < 6)%nat); [by apply step_write_header|].
    destruct (decide (length rx < 134)%nat); [apply step_write_data; [done..|lia]|].
    apply step_write_trailer; [done..|lia].
Qed.

(** A transfer starts after [bu_sw_init]. *)
Lemma bu_sw_init_spec b :
  wf_request (bu_request b) →
  ∃ b', bu_sw_init b = (0, b') ∧ in_transfer (bu_request b) [] b' ∧ stop b' = 0.
Proof.
  intros Hr. pose proof Hr as [Hm Hl Hb]. unfold bu_sw_init.
  cbn [bu_request mode set_cnt set_stop set_cs].
  assert (u8 (Z.lxor (blk_lo (bu_request b)) (blk_hi (bu_request b))) =
          checksum (bu_request b) []) as Hcs by (by apply u8_id, checksum_byte).
  assert (∀ p v, reading (bu_request b) = (mode (bu_request b) =? cR) →
     ([] : list Z) !! p = Some v → reply_ok (bu_request b) p (take p []) v = true) as Hv
    by (intros ? ?; rewrite lookup_nil; done).
  destruct Hm as [E|E]; rewrite E; simpl; eexists; (split; [done|]); (split; [|done]);
    constructor; cbn [bu_request cs cnt state stop set_state set_cnt set_cs set_stop];
    unfold request_after, moved, state_of, full, reading; rewrite ?E; simpl;
    try done; try (left; lia).
  all: try (unfold valid_replies; intros; by apply Hv).
  by destruct (bu_request b).
Qed.

End fsm.
