(* ===== verification/BuDriver.v ===== *)
(** The memory card driver [drivers/block/bu.c]: the request function, the
    interrupt handler and the timeout handler, with the parts of the block
    layer they use ([end_request] of [linux/blk.h], [end_that_request_first]
    of [ll_rw_blk.c]).  The configuration is the one with a device per card
    ([CONFIG_PSX_LARGE_CARD] not set).

    The environment is explicit: the controller answers port accesses
    ([PortDevice]); requests, interrupts, timer expiries and calls of the
    request function arrive as a list of [event]s in any order.  The theorems
    hold for every controller and every such list. *)

From S2P Require Import Prelude BuFsm.

(** ** Constants *)

Definition SECTOR_SZ_SHIFT : Z := 9.
Definition N_CHECKS : Z := 10.
Definition BU_MAJOR : Z := 207.
Definition READ : Z := 0.
Definition WRITE : Z := 1.

Definition MAJOR (dev : Z) : Z := Z.shiftr dev 8.
Definition MINOR (dev : Z) : Z := Z.land dev 0xff.
Definition DEVICE_NR (dev : Z) : Z := MINOR dev.

(** ** Data *)

Record bu_first_block_t := FirstBlock { fb_id : Z; fb_size : Z; fb_serial : Z; fb_number : Z }.

Record bu_device_t := BuDevice { first_block : bu_first_block_t; usage : Z; timeout : Z }.

Record buffer_head := Bh { b_size : Z; b_data : list Z; b_locked : bool }.

(** [req->buffer] always points to the data of the first buffer of [req->bh]. *)
Record request := Request {
  rq_dev : Z; cmd : Z; errors : Z; sector : Z; nr_sectors : Z;
  hard_sector : Z; hard_nr_sectors : Z; current_nr_sectors : Z;
  bh : list buffer_head
}.

Definition first_data (r : request) : list Z :=
  match bh r with [] => [] | b :: _ => b_data b end.

Section driver.
Context {D : Type} `{!PortDevice D}.

(** The static variables of [bu.c], those of [do_bu_request] ([r_start],
    [r_len], [r_card]), the request queue of the major number and the calls of
    [b_end_io]: each with the request as it was when its first buffer was
    completed, and [uptodate]. *)
Record drv := Drv {
  ports : io D; bu_sizes : list Z; bu_total : Z; bu_devices : list bu_device_t;
  bu_current : Z; bu_state : Z; bu_lock : bool; bu_step : Z; bu_open : bool;
  bu_try : Z; bu_continue : bool; bu_timer : option Z; jiffies : Z; bu_curr : bu_t;
  r_start : Z; r_len : Z; r_card : Z; queue : list request;
  completed : list (request * bool)
}.

Definition set_ports (v : io D) (s : drv) : drv :=
  Drv v (bu_sizes s) (bu_total s) (bu_devices s) (bu_current s) (bu_state s) (bu_lock s) (bu_step s) (bu_open s) (bu_try s)
    (bu_continue s) (bu_timer s) (jiffies s) (bu_curr s) (r_start s) (r_len s) (r_card s) (queue s) (completed s).
Definition set_bu_sizes (v : list Z) (s : drv) : drv :=
  Drv (ports s) v (bu_total s) (bu_devices s) (bu_current s) (bu_state s) (bu_lock s) (bu_step s) (bu_open s) (bu_try s)
    (bu_continue s) (bu_timer s) (jiffies s) (bu_curr s) (r_start s) (r_len s) (r_card s) (queue s) (completed s).
Definition set_bu_total (v : Z) (s : drv) : drv :=
  Drv (ports s) (bu_sizes s) v (bu_devices s) (bu_current s) (bu_state s) (bu_lock s) (bu_step s) (bu_open s) (bu_try s)
    (bu_continue s) (bu_timer s) (jiffies s) (bu_curr s) (r_start s) (r_len s) (r_card s) (queue s) (completed s).
Definition set_bu_devices (v : list bu_device_t) (s : drv) : drv :=
  Drv (ports s) (bu_sizes s) (bu_total s) v (bu_current s) (bu_state s) (bu_lock s) (bu_step s) (bu_open s) (bu_try s)
    (bu_continue s) (bu_timer s) (jiffies s) (bu_curr s) (r_start s) (r_len s) (r_card s) (queue s) (completed s).
Definition set_bu_current (v : Z) (s : drv) : drv :=
  Drv (ports s) (bu_sizes s) (bu_total s) (bu_devices s) v (bu_state s) (bu_lock s) (bu_step s) (bu_open s) (bu_try s)
    (bu_continue s) (bu_timer s) (jiffies s) (bu_curr s) (r_start s) (r_len s) (r_card s) (queue s) (completed s).
Definition set_bu_state (v : Z) (s : drv) : drv :=
  Drv (ports s) (bu_sizes s) (bu_total s) (bu_devices s) (bu_current s) v (bu_lock s) (bu_step s) (bu_open s) (bu_try s)
    (bu_continue s) (bu_timer s) (jiffies s) (bu_curr s) (r_start s) (r_len s) (r_card s) (queue s) (completed s).
Definition set_bu_lock (v : bool) (s : drv) : drv :=
  Drv (ports s) (bu_sizes s) (bu_total s) (bu_devices s) (bu_current s) (bu_state s) v (bu_step s) (bu_open s) (bu_try s)
    (bu_continue s) (bu_timer s) (jiffies s) (bu_curr s) (r_start s) (r_len s) (r_card s) (queue s) (completed s).
Definition set_bu_step (v : Z) (s : drv) : drv :=
  Drv (ports s) (bu_sizes s) (bu_total s) (bu_devices s) (bu_current s) (bu_state s) (bu_lock s) v (bu_open s) (bu_try s)
    (bu_continue s) (bu_timer s) (jiffies s) (bu_curr s) (r_start s) (r_len s) (r_card s) (queue s) (completed s).
Definition set_bu_open (v : bool) (s : drv) : drv :=
  Drv (ports s) (bu_sizes s) (bu_total s) (bu_devices s) (bu_current s) (bu_state s) (bu_lock s) (bu_step s) v (bu_try s)
    (bu_continue s) (bu_timer s) (jiffies s) (bu_curr s) (r_start s) (r_len s) (r_card s) (queue s) (completed s).
Definition set_bu_try (v : Z) (s : drv) : drv :=
  Drv (ports s) (bu_sizes s) (bu_total s) (bu_devices s) (bu_current s) (bu_state s) (bu_lock s) (bu_step s) (bu_open s) v
    (bu_continue s) (bu_timer s) (jiffies s) (bu_curr s) (r_start s) (r_len s) (r_card s) (queue s) (completed s).
Definition set_bu_continue (v : bool) (s : drv) : drv :=
  Drv (ports s) (bu_sizes s) (bu_total s) (bu_devices s) (bu_current s) (bu_state s) (bu_lock s) (bu_step s) (bu_open s) (bu_try s)
    v (bu_timer s) (jiffies s) (bu_curr s) (r_start s) (r_len s) (r_card s) (queue s) (completed s).
Definition set_bu_timer (v : option Z) (s : drv) : drv :=
  Drv (ports s) (bu_sizes s) (bu_total s) (bu_devices s) (bu_current s) (bu_state s) (bu_lock s) (bu_step s) (bu_open s) (bu_try s)
    (bu_continue s) v (jiffies s) (bu_curr s) (r_start s) (r_len s) (r_card s) (queue s) (completed s).
Definition set_jiffies (v : Z) (s : drv) : drv :=
  Drv (ports s) (bu_sizes s) (bu_total s) (bu_devices s) (bu_current s) (bu_state s) (bu_lock s) (bu_step s) (bu_open s) (bu_try s)
    (bu_continue s) (bu_timer s) v (bu_curr s) (r_start s) (r_len s) (r_card s) (queue s) (completed s).
Definition set_bu_curr (v : bu_t) (s : drv) : drv :=
  Drv (ports s) (bu_sizes s) (bu_total s) (bu_devices s) (bu_current s) (bu_state s) (bu_lock s) (bu_step s) (bu_open s) (bu_try s)
    (bu_continue s) (bu_timer s) (jiffies s) v (r_start s) (r_len s) (r_card s) (queue s) (completed s).
Definition set_r_start (v : Z) (s : drv) : drv :=
  Drv (ports s) (bu_sizes s) (bu_total s) (bu_devices s) (bu_current s) (bu_state s) (bu_lock s) (bu_step s) (bu_open s) (bu_try s)
    (bu_continue s) (bu_timer s) (jiffies s) (bu_curr s) v (r_len s) (r_card s) (queue s) (completed s).
Definition set_r_len (v : Z) (s : drv) : drv :=
  Drv (ports s) (bu_sizes s) (bu_total s) (bu_devices s) (bu_current s) (bu_state s) (bu_lock s) (bu_step s) (bu_open s) (bu_try s)
    (bu_continue s) (bu_timer s) (jiffies s) (bu_curr s) (r_start s) v (r_card s) (queue s) (completed s).
Definition set_r_card (v : Z) (s : drv) : drv :=
  Drv (ports s) (bu_sizes s) (bu_total s) (bu_devices s) (bu_current s) (bu_state s) (bu_lock s) (bu_step s) (bu_open s) (bu_try s)
    (bu_continue s) (bu_timer s) (jiffies s) (bu_curr s) (r_start s) (r_len s) v (queue s) (completed s).
Definition set_queue (v : list request) (s : drv) : drv :=
  Drv (ports s) (bu_sizes s) (bu_total s) (bu_devices s) (bu_current s) (bu_state s) (bu_lock s) (bu_step s) (bu_open s) (bu_try s)
    (bu_continue s) (bu_timer s) (jiffies s) (bu_curr s) (r_start s) (r_len s) (r_card s) v (completed s).
Definition set_completed (v : list (request * bool)) (s : drv) : drv :=
  Drv (ports s) (bu_sizes s) (bu_total s) (bu_devices s) (bu_current s) (bu_state s) (bu_lock s) (bu_step s) (bu_open s) (bu_try s)
    (bu_continue s) (bu_timer s) (jiffies s) (bu_curr s) (r_start s) (r_len s) (r_card s) (queue s) v.

(** ** The block layer *)

(** [end_that_request_first]: completes the first buffer and moves to the
    next one, if there is one; the last component is the call of [b_end_io]. *)
Definition end_that_request_first (req : request) (uptodate : bool)
    : bool * request * list (request * bool) :=
  match bh req with
  | [] => (false, Request (rq_dev req) (cmd req) 0 (sector req) (nr_sectors req)
                    (hard_sector req) (hard_nr_sectors req) (current_nr_sectors req) [], [])
  | b :: rest =>
      let nsect := Z.shiftr (b_size b) 9 in
      match rest with
      | [] => (false, Request (rq_dev req) (cmd req) 0 (sector req) (nr_sectors req)
                        (hard_sector req) (hard_nr_sectors req) (current_nr_sectors req) [],
               [(req, uptodate)])
      | b' :: _ =>
          let hs := u32 (hard_sector req + nsect) in
          let hn := u32 (hard_nr_sectors req - nsect) in
          let cur := Z.shiftr (b_size b') 9 in
          (true, Request (rq_dev req) (cmd req) 0 hs (if hn <? cur then cur else hn)
                   hs hn cur rest,
           [(req, uptodate)])
      end
  end.

(** [end_request]: [CURRENT] is the first request of the queue; it leaves the
    queue with its last buffer. *)
Definition end_request (uptodate : bool) (s : drv) : outcome drv :=
  match queue s with
  | [] => Trap Fault
  | req :: rest =>
      let '(more, req', ended) := end_that_request_first req uptodate in
      let s := set_completed (completed s ++ ended) s in
      Ok (if more then set_queue (req' :: rest) s else set_queue rest s)
  end.

(** ** Timers

    [init_timer] and [add_timer] on a timer that is still queued would
    corrupt the timer lists; that is a trap here. *)
Definition start_timer (expires : Z) (s : drv) : outcome drv :=
  match bu_timer s with
  | Some _ => Trap Bug
  | None => Ok (set_bu_timer (Some (u32 expires)) s)
  end.

Definition del_bu_timer (s : drv) : drv := set_bu_timer None s.

Definition device_of (card : Z) (s : drv) : outcome bu_device_t :=
  if card <? 0 then Trap Fault else
  match bu_devices s !! Z.to_nat card with Some d => Ok d | None => Trap Fault end.

(** [memcpy] of one block out of and into the first buffer of [CURRENT]. *)
Definition copy_out (l : list Z) (off : Z) : outcome (list Z) :=
  if (off <? 0) || (zlen l <? off + BU_BLK_SIZE) then Trap Fault
  else Ok (take (Z.to_nat BU_BLK_SIZE) (drop (Z.to_nat off) l)).

Definition copy_in (l : list Z) (off : Z) (d : list Z) : outcome (list Z) :=
  if (off <? 0) || (zlen l <? off + BU_BLK_SIZE) then Trap Fault
  else Ok (take (Z.to_nat off) l ++ d ++ drop (Z.to_nat (off + BU_BLK_SIZE)) l).

Definition set_first_data (d : list Z) (r : request) : request :=
  Request (rq_dev r) (cmd r) (errors r) (sector r) (nr_sectors r) (hard_sector r)
    (hard_nr_sectors r) (current_nr_sectors r)
    (match bh r with [] => [] | b :: l => Bh (b_size b) d (b_locked b) :: l end).

Definition CURRENT (s : drv) : outcome request :=
  match queue s with [] => Trap Fault | r :: _ => Ok r end.

(** ** The request function *)

(** The loop under [start:] that looks for a request to serve, [INIT_REQUEST]
    included; [false] means that the function returns. *)
Fixpoint pick_request (fuel : nat) (s : drv) : outcome (bool * drv) :=
  match fuel with
  | O => Trap Fuel
  | S fuel =>
      match queue s with
      | [] => Ok (false, s)
      | req :: _ =>
          BUG_if (negb (MAJOR (rq_dev req) =? BU_MAJOR)) (
          BUG_if (match bh req with b :: _ => negb (b_locked b) | [] => false end) (
          let card := DEVICE_NR (rq_dev req) in
          let s := set_r_card card s in
          if BU_MINORS <=? card then s ← end_request false s; pick_request fuel s else
          let s := set_r_start (u32 (Z.shiftl (sector req) (SECTOR_SZ_SHIFT - BU_BLK_SHIFT))) s in
          let s := set_r_len (u32 (Z.shiftl (current_nr_sectors req)
                                     (SECTOR_SZ_SHIFT - BU_BLK_SHIFT))) s in
          d ← device_of card s;
          let s := set_bu_total (s32 (fb_size (first_block d) - BU_FIRST_BLOCKS)) s in
          if u32 (bu_total s) <? u32 (r_start s + r_len s)
          then s ← end_request false s; pick_request fuel s else
          if (cmd req =? READ) || (cmd req =? WRITE) then
            let r := bu_request (bu_curr s) in
            let r := Breq (floor r) (block r) card (buffer r)
                       (if cmd req =? READ then cR else cW) in
            let s := set_bu_curr (set_request r (bu_curr s)) s in
            let s := set_bu_lock true s in
            let s := set_bu_current card s in
            let s := set_bu_step 0 s in
            Ok (true, set_bu_try 0 s)
          else s ← end_request false s; pick_request fuel s))
      end
  end.

(** [end_request], the release of the driver, and the choice between
    [goto start] ([true]) and [return]. *)
Definition finish_request (uptodate : bool) (s : drv) : outcome (bool * drv) :=
  s ← end_request uptodate s;
  let s := set_bu_current (-1) s in
  let s := set_bu_lock false s in
  Ok (match queue s with [] => false | _ => true end, s).

(** "init one block operation": the transfer is set up, its first call made
    and the timer started. *)
Definition start_block (s : drv) : outcome (bool * drv) :=
  let s := set_bu_state BU_NONE s in
  let '(status, b) := bu_sw_init (bu_curr s) in
  let s := set_bu_curr b s in
  if status <? 0 then finish_request false s else
  let s := set_ports (bu_hw_init (ports s)) s in
  '(status, i, b) ← bu_rd_routine (ports s) (bu_curr s);
  let s := set_bu_curr b (set_ports i s) in
  if status <? 0 then finish_request false s else
  d ← device_of (rcard (bu_request (bu_curr s))) s;
  s ← start_timer (jiffies s + timeout d) s;
  Ok (false, s).

(** The operation on one block, after the loop. *)
Definition block_operation (s : drv) : outcome (bool * drv) :=
  if u32 (bu_step s) <? r_len s then
    if N_CHECKS <=? bu_try s then finish_request false s else
    let s := set_bu_try (bu_try s + 1) s in
    req ← CURRENT s;
    let r := bu_request (bu_curr s) in
    buf ← (if cmd req =? WRITE
           then copy_out (first_data req) (Z.shiftl (bu_step s) BU_BLK_SHIFT)
           else Ok (buffer r));
    let blk := u16 (r_start s + bu_step s) in
    let blk := u16 (blk + BU_FIRST_BLOCKS) in
    let r := Breq 0 blk (rcard r) buf (mode r) in
    start_block (set_bu_curr (set_request r (bu_curr s)) s)
  else finish_request true s.

(** The body of [do_bu_request]; a [goto start] is the recursive call. *)
Fixpoint bu_request_loop (fuel : nat) (continue : bool) (s : drv) : outcome drv :=
  match fuel with
  | O => Trap Fuel
  | S fuel =>
      '(go, s) ← (if continue then Ok (true, s)
                  else if bu_lock s then Ok (false, s) else pick_request (S fuel) s
                  : outcome (bool * drv));
      if negb go then Ok s else
      '(again, s) ← block_operation s;
      if (again : bool) then bu_request_loop fuel false s else Ok s
  end.

(** Every pass completes a buffer, or drops a request without one. *)
Fixpoint queue_work (q : list request) : nat :=
  match q with [] => 0 | r :: q => S (length (bh r)) + queue_work q end%nat.

Definition work (s : drv) : nat := queue_work (queue s).

Definition do_bu_request (s : drv) : outcome drv :=
  bu_request_loop (S (work s)) (bu_continue s) s.

(** ** Interrupt and timeout *)

(** [bu_continue = TRUE; do_bu_request (NULL); bu_continue = FALSE;] *)
Definition continue_request (s : drv) : outcome drv :=
  s ← do_bu_request (set_bu_continue true s);
  Ok (set_bu_continue false s).

Definition bu_interrupt (s : drv) : outcome drv :=
  if bu_current s <? 0 then Ok s else
  if bu_open s then Ok (set_bu_state BU_READY s) else
  '(status, i, b) ← bu_rd_routine (ports s) (bu_curr s);
  let s := set_bu_curr b (set_ports i s) in
  if status <? 0 then continue_request (del_bu_timer s) else
  if c_true (stop (bu_curr s)) then
    let s := del_bu_timer s in
    req ← CURRENT s;
    s ← (if cmd req =? READ then
           d ← copy_in (first_data req) (Z.shiftl (bu_step s) BU_BLK_SHIFT)
                 (buffer (bu_request (bu_curr s)));
           Ok (set_queue (set_first_data d req :: tail (queue s)) s)
         else Ok s : outcome drv);
    let s := set_bu_step (bu_step s + 1) s in
    let s := set_bu_try 0 s in
    continue_request s
  else
    d ← device_of (rcard (bu_request (bu_curr s))) s;
    Ok (set_bu_timer (Some (u32 (jiffies s + timeout d))) s).

Definition bu_timeout (s : drv) : outcome drv :=
  if bu_current s <? 0 then Ok s else
  if bu_open s then Ok (set_bu_state BU_TIMEOUT s) else
  continue_request (del_bu_timer s).

(** The timer expires: it leaves the timer lists and its function runs. *)
Definition timer_fires (s : drv) : outcome drv :=
  match bu_timer s with
  | None => Ok s
  | Some _ => bu_timeout (set_bu_timer None s)
  end.

(** ** Events *)

Inductive event :=
| EvQueue (r : request)   (* the block layer adds a request *)
| EvRun                   (* it calls the request function *)
| EvIrq                   (* the controller's interrupt *)
| EvTimer                 (* the timer expires, if it is running *)
| EvTick.                 (* time passes *)

Definition handle (e : event) (s : drv) : outcome drv :=
  match e with
  | EvQueue r => Ok (set_queue (queue s ++ [r]) s)
  | EvRun => do_bu_request s
  | EvIrq => bu_interrupt s
  | EvTimer => timer_fires s
  | EvTick => Ok (set_jiffies (u32 (jiffies s + 1)) s)
  end.

Fixpoint handle_all (es : list event) (s : drv) : outcome drv :=
  match es with
  | [] => Ok s
  | e :: es => s ← handle e s; handle_all es s
  end.

(** ** What a transfer achieves

    [block_done l card blk m data]: the traffic [l] of the data port contains
    a complete transfer of block [blk] of [card] in mode [m] in which every
    answer of the card was the expected one, the checksum included, and which
    moved [data]. *)

Definition block_done (l : list port_event) (card blk m : Z) (data : list Z) : Prop :=
  ∃ before after r rx, l = before ++ exchange r rx ++ after ∧
    length rx = full r ∧ valid_replies r rx ∧
    rcard r = card ∧ block r = blk ∧ floor r = 0 ∧ mode r = m ∧
    data = (if reading r then received rx else buffer r).

(** The block of the card for the [k]th block of a request. *)
Definition blk_of (start k : Z) : Z := u16 (u16 (start + k) + BU_FIRST_BLOCKS).

Definition start_of (req : request) : Z := u32 (Z.shiftl (sector req) 2).

Definition mode_of (req : request) : Z := if cmd req =? READ then cR else cW.

Definition data_block (k : nat) (l : list Z) : list Z := take 128 (drop (128 * k) l).

(** The first [n] blocks of the request's buffer have been transferred. *)
Definition buffer_done (l : list port_event) (req : request) (n : nat) : Prop :=
  ∀ k, (k < n)%nat →
    block_done l (DEVICE_NR (rq_dev req)) (blk_of (start_of req) (Z.of_nat k)) (mode_of req)
      (data_block k (first_data req)).

(** A completed buffer that was reported as up to date. *)
Definition completion_ok (l : list port_event) (c : request * bool) : Prop :=
  c.2 = true → (cmd c.1 = READ ∨ cmd c.1 = WRITE) ∧ DEVICE_NR (rq_dev c.1) < BU_MINORS ∧
    buffer_done l c.1 (Z.to_nat (4 * current_nr_sectors c.1)).

(** ** The invariant *)

Record wf_bh (b : buffer_head) : Prop := {
  wb_size : 0 <= b_size b < 2 ^ 30;
  wb_len : zlen (b_data b) = b_size b;
  wb_bytes : Forall byte (b_data b);
  wb_locked : b_locked b = true
}.

Record wf_req (r : request) : Prop := {
  wq_major : MAJOR (rq_dev r) = BU_MAJOR;
  wq_bh : ∃ b l, bh r = b :: l ∧ current_nr_sectors r = Z.shiftr (b_size b) 9;
  wq_bhs : Forall wf_bh (bh r)
}.

Record driver_ok (s : drv) : Prop := {
  do_devices : length (bu_devices s) = 2%nat;
  do_sizes : length (bu_sizes s) = 2%nat;
  do_open : bu_open s = false;
  do_buffer : length (buffer (bu_request (bu_curr s))) = 128%nat;
  do_bytes : Forall byte (buffer (bu_request (bu_curr s)));
  do_queue : Forall wf_req (queue s);
  do_completed : Forall (completion_ok (data_log (ports s))) (completed s)
}.

Record idle (s : drv) : Prop := {
  id_lock : bu_lock s = false;
  id_current : bu_current s = -1;
  id_timer : bu_timer s = None
}.

(** A request is being served; [block_operation] starts here. *)
Record serving (s : drv) (req : request) : Prop := {
  sv_lock : bu_lock s = true;
  sv_queue : ∃ rest, queue s = req :: rest;
  sv_cmd : cmd req = READ ∨ cmd req = WRITE;
  sv_card : DEVICE_NR (rq_dev req) < BU_MINORS;
  sv_current : bu_current s = DEVICE_NR (rq_dev req);
  sv_start : r_start s = start_of req;
  sv_len : r_len s = 4 * current_nr_sectors req;
  sv_step : 0 <= bu_step s <= r_len s;
  sv_try : 0 <= bu_try s <= N_CHECKS;
  sv_rcard : rcard (bu_request (bu_curr s)) = DEVICE_NR (rq_dev req);
  sv_mode : mode (bu_request (bu_curr s)) = mode_of req;
  sv_done : buffer_done (data_log (ports s)) req (Z.to_nat (bu_step s))
}.

(** A transfer is under way and the timer is running. *)
Record transferring (s : drv) (req : request) (r : bu_request_t) (rx : list Z)
    (old : list port_event) : Prop := {
  tr_step : bu_step s < r_len s;
  tr_try : 1 <= bu_try s;
  tr_request : wf_request r;
  tr_floor : floor r = 0;
  tr_block : block r = blk_of (start_of req) (bu_step s);
  tr_data : reading r = false → buffer r = data_block (Z.to_nat (bu_step s)) (first_data req);
  tr_in : in_transfer r rx (bu_curr s);
  tr_stop : stop (bu_curr s) = 0;
  tr_log : data_log (ports s) = old ++ exchange r rx
}.

Definition active_for (s : drv) (req : request) : Prop :=
  is_Some (bu_timer s) ∧ serving s req ∧ ∃ r rx old, transferring s req r rx old.

Definition active (s : drv) : Prop := ∃ req, active_for s req.

Definition driver_inv (s : drv) : Prop :=
  driver_ok s ∧ bu_continue s = false ∧ (idle s ∨ active s).

(** ** Lemmas on logs, buffers and the queue *)

Lemma block_done_app l l' card blk m d :
  block_done l card blk m d → block_done (l ++ l') card blk m d.
Proof.
  intros (before & after & r & rx & -> & H). exists before, (after ++ l'), r, rx.
  split; [by rewrite <- !app_assoc|done].
Qed.

Lemma buffer_done_app l l' req n : buffer_done l req n → buffer_done (l ++ l') req n.
Proof. intros H k Hk. by apply block_done_app, H. Qed.

Lemma completions_app l l' cs :
  Forall (completion_ok l) cs → Forall (completion_ok (l ++ l')) cs.
Proof.
  apply Forall_impl. intros c H Hc. destruct (H Hc) as (? & ? & ?).
  split; [done|]. split; [done|]. by apply buffer_done_app.
Qed.

Lemma mode_of_cases req : mode_of req = cR ∨ mode_of req = cW.
Proof. unfold mode_of. destruct (cmd req =? READ); auto. Qed.

Lemma device_nr_nonneg dev : 0 <= DEVICE_NR dev.
Proof. unfold DEVICE_NR, MINOR. rewrite land_255. pose proof (u8_byte dev). unfold byte in *. lia. Qed.

Lemma device_of_ok card s :
  length (bu_devices s) = 2%nat → 0 <= card < BU_MINORS → ∃ d, device_of card s = Ok d.
Proof.
  intros Hl Hc. unfold device_of, BU_MINORS in *. destruct (Z.ltb_spec card 0); [lia|].
  destruct (lookup_lt_is_Some_2 (bu_devices s) (Z.to_nat card)) as [d ->]; [lia|]. eauto.
Qed.

(** The four blocks of each sector lie inside the buffer. *)
Lemma wf_req_room req :
  wf_req req → 0 <= current_nr_sectors req < 2 ^ 21 ∧
  zlen (first_data req) < 2 ^ 30 ∧ 512 * current_nr_sectors req <= zlen (first_data req) ∧
  Forall byte (first_data req).
Proof.
  intros [_ (b & l & E & ->) Hb]. unfold first_data. rewrite E in *.
  apply Forall_cons_1 in Hb as [[Hs Hl Hd _] _]. rewrite Hl, Z.shiftr_div_pow2 by lia.
  pose proof (Z.div_mod (b_size b) (2 ^ 9) ltac:(lia)).
  pose proof (Z.mod_pos_bound (b_size b) (2 ^ 9) ltac:(lia)).
  split; [|split; [lia|split; [lia|done]]].
  split; [apply Z.div_pos; lia|]. apply Z.div_lt_upper_bound; lia.
Qed.

Lemma shift_len req : wf_req req → u32 (Z.shiftl (current_nr_sectors req) 2) = 4 * current_nr_sectors req.
Proof.
  intros H. destruct (wf_req_room req H) as ([H1 H2] & _).
  rewrite Z.shiftl_mul_pow2 by lia. rewrite wrap_small by lia. lia.
Qed.

(** ** Every step keeps the invariant *)

Lemma end_request_ok up s req rest :
  driver_ok s → queue s = req :: rest → completion_ok (data_log (ports s)) (req, up) →
  ∃ q ended, let s' := set_queue q (set_completed (completed s ++ ended) s) in
    end_request up s = Ok s' ∧ driver_ok s' ∧ (work s' < work s)%nat ∧
    ended = [(req, up)].
Proof.
  intros [Hd Hz Ho Hb Hby Hq Hc] E Hup. unfold end_request, work. rewrite E in *.
  apply Forall_cons_1 in Hq as [[Wm (b & l & Eb & Ec) Wb] Hrest]. cbn zeta.
  unfold end_that_request_first. rewrite Eb in *. apply Forall_cons_1 in Wb as [Wb Wl].
  destruct l as [|b' l]; cbn [fst snd];
    eexists _, _; (split; [done|]); (split; [|split; [simpl; rewrite ?Eb; simpl; lia|done]]);
    constructor; try done; cbn [queue completed ports set_queue set_completed];
    try (apply Forall_app; split; [done|by constructor]).
  constructor; [|done]. constructor; simpl; [done|by eauto|done].
Qed.

Lemma finish_request_ok up s req rest :
  driver_ok s → bu_timer s = None → queue s = req :: rest →
  completion_ok (data_log (ports s)) (req, up) →
  ∃ again s', finish_request up s = Ok (again, s') ∧ driver_ok s' ∧ idle s' ∧
    (work s' < work s)%nat ∧ bu_continue s' = bu_continue s ∧
    completed s' = completed s ++ [(req, up)].
Proof.
  intros Hs Ht E Hup. unfold finish_request.
  destruct (end_request_ok up s req rest Hs E Hup) as (q & ended & -> & [H0 H1 H2 H3 H4 H5 H6] & Hw & ->).
  cbn [mbind outcome_bind]. eexists _, _. split; [done|]. by repeat split.
Qed.

(** A request that is refused does not count as done. *)
Lemma completion_failed l req : completion_ok l (req, false).
Proof. intros H. discriminate H. Qed.

(** The check of the range of a request against the size of its card. *)
Definition in_range (s : drv) (req : request) : Prop :=
  ∃ d, device_of (DEVICE_NR (rq_dev req)) s = Ok d ∧
    u32 (start_of req + 4 * current_nr_sectors req) <=
    u32 (s32 (fb_size (first_block d) - BU_FIRST_BLOCKS)).

(** The outcome of the search for a request. *)
Record picked (s : drv) (go : bool) (s' : drv) : Prop := {
  pk_ok : driver_ok s';
  pk_timer : bu_timer s' = None;
  pk_continue : bu_continue s' = bu_continue s;
  pk_work : (work s' <= work s)%nat;
  pk_completed : ∃ cs, completed s' = completed s ++ cs ∧ Forall (λ c, c.2 = false) cs;
  pk_result : if go then ∃ req, serving s' req ∧ bu_try s' = 0 ∧ bu_step s' = 0 ∧ in_range s' req
              else idle s' ∧ queue s' = []
}.

Lemma picked_refuse fuel s req rest :
  (∀ s, driver_ok s → idle s → (work s < fuel)%nat →
     ∃ go s', pick_request fuel s = Ok (go, s') ∧ picked s go s') →
  driver_ok s → idle s → queue s = req :: rest → (work s < S fuel)%nat →
  ∃ go s', (s ← end_request false s; pick_request fuel s) = Ok (go, s') ∧ picked s go s'.
Proof.
  intros IH Hs Hi E Hf.
  destruct (end_request_ok false s req rest Hs E (completion_failed _ _))
    as (q & ended & -> & Hs2 & Hw & ->). cbn [mbind outcome_bind].
  destruct (IH _ Hs2) as (go & s3 & -> & [K1 K2 K3 K4 (cs & K5 & K6) K7]);
    [destruct Hi; by constructor|lia|].
  exists go, s3. split; [done|]. constructor; try done; [lia|].
  exists ([(req, false)] ++ cs). rewrite K5. cbn [completed set_queue set_completed].
  rewrite <- app_assoc. split; [done|]. by constructor.
Qed.

(** Changing the statics of [do_bu_request] matters for nothing else. *)
Lemma picked_frame s s1 go s' :
  bu_continue s1 = bu_continue s → queue s1 = queue s → completed s1 = completed s →
  picked s1 go s' → picked s go s'.
Proof.
  intros E1 E2 E3 [K1 K2 K3 K4 (cs & K5 & K6) K7]. constructor; try done.
  - congruence.
  - unfold work in *. by rewrite <- E2.
  - exists cs. by rewrite <- E3.
Qed.

Lemma pick_request_ok fuel s :
  driver_ok s → idle s → (work s < fuel)%nat →
  ∃ go s', pick_request fuel s = Ok (go, s') ∧ picked s go s'.
Proof.
  revert s. induction fuel as [|fuel IH]; intros s Hs Hi Hf; [lia|]. cbn [pick_request].
  destruct (queue s) as [|req rest] eqn:E.
  { exists false, s. split; [done|]. constructor; try done; [apply Hi|].
    exists []. by rewrite app_nil_r. }
  pose proof (do_queue s Hs) as Hq. rewrite E in Hq. apply Forall_cons_1 in Hq as [Hr Hrest].
  pose proof Hr as [Wm (b & l & Eb & Ec) Wb]. rewrite Wm, Eb in *.
  apply Forall_cons_1 in Wb as [Wb Wl]. rewrite (wb_locked b Wb). cbn [negb BUG_if Z.eqb BU_MAJOR Pos.eqb].
  pose proof (device_nr_nonneg (rq_dev req)) as Hcard.
  assert (∀ s1, driver_ok s1 → idle s1 → queue s1 = queue s → completed s1 = completed s →
    bu_continue s1 = bu_continue s →
    ∃ go s', (s ← end_request false s1; pick_request fuel s) = Ok (go, s') ∧ picked s go s') as Hno.
  { intros s1 Hs1 Hi1 E1 E2 E3.
    destruct (picked_refuse fuel s1 req rest IH Hs1 Hi1) as (go & s' & Ego & Hp);
      [congruence|unfold work in *; by rewrite E1|].
    exists go, s'. split; [done|]. by apply (picked_frame s s1). }
  destruct Hs as [H0 H1 H2 H3 H4 H5 H6], Hi as [I1 I2 I3].
  destruct (Z.leb_spec BU_MINORS (DEVICE_NR (rq_dev req))).
  { apply Hno; try done; by constructor. }
  edestruct device_of_ok as [d Ed]; [| |rewrite Ed]; [done|done|]. cbn [mbind outcome_bind].
  match goal with |- context [?a <? ?b] => destruct (Z.ltb_spec a b) as [|Hrange] end.
  { apply Hno; try done; by constructor. }
  destruct ((cmd req =? READ) || (cmd req =? WRITE)) eqn:Ecmd.
  2: { apply Hno; try done; by constructor. }
  eexists true, _. split; [done|]. constructor; try done.
  { exists []. by rewrite app_nil_r. }
  exists req. split; [|split; [done|split; [done|]]].
  2: { exists d. split; [exact Ed|]. simpl in Hrange. by rewrite shift_len in Hrange by done. }
  constructor; try done; simpl.
  - by exists rest.
  - apply orb_prop in Ecmd as [Hc%Z.eqb_eq|Hc%Z.eqb_eq]; auto.
  - by apply shift_len.
  - rewrite shift_len by done. destruct (wf_req_room req Hr) as (? & _). lia.
  - intros k Hk. simpl in Hk. lia.
Qed.

(** Progress of the ports and of the automaton keeps what has been achieved. *)
Lemma driver_ok_ports s i b k :
  driver_ok s → data_log i = data_log (ports s) ++ k → wf_request (bu_request b) →
  driver_ok (set_bu_curr b (set_ports i s)).
Proof.
  intros [H0 H1 H2 H3 H4 H5 H6] Hl [_ W1 W2]. constructor; try done.
  simpl. rewrite Hl. by apply completions_app.
Qed.

Lemma in_transfer_wf r rx b :
  wf_request r → in_transfer r rx b → same_request r (bu_request b).
Proof. intros Hr [-> _ _ _ _ _ _ Hb]. by apply request_after_same. Qed.

Lemma same_request_fields r r' :
  same_request r r' → rcard r' = rcard r ∧ mode r' = mode r ∧ wf_request r'.
Proof. intros (-> & W & _). done. Qed.

(** The room of the block that is copied. *)
Lemma step_room req step :
  wf_req req → 0 <= step < 4 * current_nr_sectors req →
  copy_out (first_data req) (Z.shiftl step BU_BLK_SHIFT) =
    Ok (data_block (Z.to_nat step) (first_data req)) ∧
  length (data_block (Z.to_nat step) (first_data req)) = 128%nat ∧
  Forall byte (data_block (Z.to_nat step) (first_data req)).
Proof.
  intros Hr Hs. destruct (wf_req_room req Hr) as (H1 & H2 & H3 & H4).
  unfold copy_out, BU_BLK_SHIFT, BU_BLK_SIZE. rewrite Z.shiftl_mul_pow2 by lia.
  destruct (Z.ltb_spec (step * 2 ^ 7) 0); [lia|].
  destruct (Z.ltb_spec (zlen (first_data req)) (step * 2 ^ 7 + 128)); [lia|]. simpl.
  replace (Z.to_nat (step * 2 ^ 7)) with (128 * Z.to_nat step)%nat by lia.
  split; [done|]. unfold data_block. split; [|by apply Forall_take, Forall_drop].
  rewrite length_take, length_drop. unfold zlen in *. lia.
Qed.

(** The operation on a block either ends the request or starts a transfer. *)
Record operated (s : drv) (req : request) (again : bool) (s' : drv) : Prop := {
  op_ok : driver_ok s';
  op_continue : bu_continue s' = bu_continue s;
  op_result :
    (idle s' ∧ (work s' < work s)%nat ∧
       ∃ up, completed s' = completed s ++ [(req, up)] ∧ (up = true → r_len s <= bu_step s)) ∨
    (again = false ∧ active_for s' req ∧ bu_step s' = bu_step s ∧ bu_try s' = bu_try s + 1 ∧
       completed s' = completed s)
}.

Lemma operated_finish s s1 up req rest :
  driver_ok s1 → bu_timer s1 = None → queue s1 = req :: rest →
  completion_ok (data_log (ports s1)) (req, up) →
  work s1 = work s → bu_continue s1 = bu_continue s → completed s1 = completed s →
  (up = true → r_len s <= bu_step s) →
  ∃ again s', finish_request up s1 = Ok (again, s') ∧ operated s req again s'.
Proof.
  intros Hs Ht E Hup Hw Hc Hd Hfin.
  destruct (finish_request_ok up s1 req rest Hs Ht E Hup) as (again & s' & -> & H1 & H2 & H3 & H4 & H5).
  exists again, s'. split; [done|]. constructor; [done|congruence|]. left. split; [done|].
  split; [lia|]. exists up. by rewrite H5, Hd.
Qed.

(** The first call of a transfer. *)
Lemma first_call i b :
  wf_request (bu_request b) →
  ∃ b1, bu_sw_init b = (0, b1) ∧
  ∃ status i' b' new, bu_rd_routine (bu_hw_init i) b1 = Ok (status, i', b') ∧
    data_log i' = data_log i ++ exchange (bu_request b) new ∧
    same_request (bu_request b) (bu_request b') ∧
    (status = 0 ∧ in_transfer (bu_request b) new b' ∧ stop b' = 0 ∨ status = -1).
Proof.
  intros Hr. destruct (bu_sw_init_spec b Hr) as (b1 & E & Hit & Hst).
  exists b1. split; [done|].
  destruct (bu_rd_routine_step (bu_request b) [] (data_log i) (bu_hw_init i) b1)
    as (status & i' & b' & new & E2 & Hn & Hb & Hl & Hc); [done|done|done| |].
  { rewrite data_log_hw_init. unfold exchange. simpl. by rewrite app_nil_r. }
  exists status, i', b', new. split; [done|]. split; [done|].
  destruct Hc as [[-> Hin]|(-> & Hsame & _)]; [|by split; [|right]].
  split; [by eapply in_transfer_wf|]. left. split; [done|]. split; [done|].
  rewrite (it_stop _ _ _ Hin). destruct (Nat.eqb_spec (length ([] ++ new)) (full (bu_request b))) as [e|];
    [|done].
  simpl in e. unfold full in e. destruct (reading _); lia.
Qed.

Lemma start_block_ok s req :
  driver_ok s → serving s req → bu_timer s = None → bu_step s < r_len s → 1 <= bu_try s →
  wf_request (bu_request (bu_curr s)) → floor (bu_request (bu_curr s)) = 0 →
  block (bu_request (bu_curr s)) = blk_of (start_of req) (bu_step s) →
  (reading (bu_request (bu_curr s)) = false →
     buffer (bu_request (bu_curr s)) = data_block (Z.to_nat (bu_step s)) (first_data req)) →
  ∃ again s', start_block s = Ok (again, s') ∧
    operated (set_bu_try (bu_try s - 1) s) req again s'.
Proof.
  intros Hs [V1 (rest & Eq) V3 V4 V5 V6 V7 V8 V9 V10 V11 V12] Ht Hlt Htry Wr Hfl Hblk Hbuf.
  unfold start_block. cbn [bu_curr ports set_bu_state set_bu_curr set_ports].
  destruct (first_call (ports s) (bu_curr s) Wr)
    as (b1 & -> & status & i' & b' & new & E & Hl & Hsame & Hc).
  cbn [Z.ltb Z.compare]. cbn [bu_curr ports set_bu_state set_bu_curr set_ports]. rewrite E.
  cbn [mbind outcome_bind]. destruct (same_request_fields _ _ Hsame) as (S1 & S2 & S3).
  assert (driver_ok (set_bu_curr b' (set_ports i' s))) as Hok by (by eapply driver_ok_ports).
  destruct Hc as [(-> & Hin & Hst)| ->]; cbn [Z.ltb Z.compare].
  2: { match goal with |- context [finish_request false ?t] => set (s1 := t) end.
       assert (driver_ok s1) as Hok1 by (destruct Hok; by constructor).
       by apply (operated_finish _ s1 false req rest). }
  edestruct device_of_ok as [d Ed]; [| |rewrite Ed]; simpl.
  { apply Hs. } { rewrite S1, V10. split; [apply device_nr_nonneg|done]. }
  unfold start_timer. simpl. rewrite Ht. simpl. eexists _, _. split; [done|].
  constructor; [destruct Hok; by constructor|done|]. right. split; [done|].
  split; [|simpl; split; [done|]; split; [lia|done]]. split; [by eexists|]. split.
  - constructor; simpl; try done; try congruence; [by exists rest|].
    rewrite Hl. by apply buffer_done_app.
  - exists (bu_request (bu_curr s)), new, (data_log (ports s)). by constructor.
Qed.

Lemma block_operation_ok s req :
  driver_ok s → serving s req → bu_timer s = None →
  ∃ again s', block_operation s = Ok (again, s') ∧ operated s req again s'.
Proof.
  intros Hs Hv Ht. pose proof Hv as [V1 (rest & Eq) V3 V4 V5 V6 V7 V8 V9 V10 V11 V12].
  pose proof (do_queue s Hs) as Hq. rewrite Eq in Hq. apply Forall_cons_1 in Hq as [Hr _].
  destruct (wf_req_room req Hr) as (R1 & R2 & R3 & R4).
  unfold block_operation. rewrite wrap_small by lia.
  destruct (Z.ltb_spec (bu_step s) (r_len s)) as [Hlt|Hge].
  2: { apply (operated_finish s s true req rest); try done. intros _. split; [done|].
       split; [done|]. simpl. replace (4 * current_nr_sectors req) with (bu_step s) by lia. done. }
  destruct (Z.leb_spec N_CHECKS (bu_try s)).
  { by apply (operated_finish s s false req rest). }
  unfold CURRENT. cbn [queue set_bu_try]. rewrite Eq. cbn [mbind outcome_bind].
  destruct (step_room req (bu_step s) Hr ltac:(lia)) as (Ecp & Lcp & Bcp).
  set (buf := if cmd req =? WRITE then data_block (Z.to_nat (bu_step s)) (first_data req)
              else buffer (bu_request (bu_curr s))).
  assert ((if cmd req =? WRITE
     then copy_out (first_data req) (Z.shiftl (bu_step (set_bu_try (bu_try s + 1) s)) BU_BLK_SHIFT)
     else Ok (buffer (bu_request (bu_curr (set_bu_try (bu_try s + 1) s))))) = Ok buf) as ->.
  { unfold buf. destruct (cmd req =? WRITE); [exact Ecp|done]. }
  cbn [mbind outcome_bind].
  match goal with |- context [start_block ?t] => set (s1 := t) end.
  destruct Hs as [H0 H1 H2 H3 H4 H5 H6].
  assert (length buf = 128%nat ∧ Forall byte buf) as [Lb Bb]
    by (unfold buf; destruct (cmd req =? WRITE); done).
  destruct (start_block_ok s1 req) as (again & s' & E & [K1 K2 K3]); try done; simpl.
  { constructor; simpl; try done; [by exists rest|lia]. }
  { lia. }
  { constructor; simpl; [rewrite V11; apply mode_of_cases|done|done]. }
  { unfold blk_of. by rewrite V6. }
  { unfold reading, buf. simpl. rewrite V11. unfold mode_of.
    destruct V3 as [-> | ->]; simpl; done. }
  exists again, s'. split; [done|]. constructor; [done|done|]. simpl in K3.
  by replace (bu_try s + 1 - 1 + 1) with (bu_try s + 1) in K3 by lia.
Qed.

(** The request function, from the idle driver and in the middle of a request. *)
Record ran (s s' : drv) : Prop := {
  rn_ok : driver_ok s';
  rn_continue : bu_continue s' = bu_continue s;
  rn_state : idle s' ∨ active s';
  rn_completed : completed s `prefix_of` completed s'
}.

Definition served (s : drv) (req : request) (s' : drv) : Prop :=
  (active_for s' req ∧ bu_step s' = bu_step s ∧ bu_try s' = bu_try s + 1 ∧
     completed s' = completed s) ∨
  (∃ up k, completed s' = completed s ++ (req, up) :: k ∧ (up = true → r_len s <= bu_step s)).

Lemma serve_again fuel s0 s req again :
  (∀ s, driver_ok s → idle s → (work s < fuel)%nat →
     ∃ s', bu_request_loop fuel false s = Ok s' ∧ ran s s') →
  operated s0 req again s → (work s0 < S fuel)%nat →
  ∃ s', (if again then bu_request_loop fuel false s else Ok s) = Ok s' ∧ ran s0 s' ∧ served s0 req s'.
Proof.
  intros IH [K1 K2 [(K3 & K4 & up & K5 & K6)|(-> & K3 & K4 & K5 & K6)]] Hw.
  - destruct again.
    + destruct (IH s K1 K3 ltac:(lia)) as (s' & -> & [L1 L2 L3 [k L4]]).
      exists s'. split; [done|].
      assert (completed s' = completed s0 ++ (req, up) :: k) as E
        by (by rewrite L4, K5, <- app_assoc).
      split; [constructor; [done|congruence|done|rewrite E; by apply prefix_app_r]|].
      right. by exists up, k.
    + exists s. split; [done|]. split; [constructor; [done|done|by left|rewrite K5; by apply prefix_app_r]|].
      right. by exists up, [].
  - exists s. split; [done|]. split; [|by left].
    constructor; [done|done|right; by exists req|by rewrite K6].
Qed.

Lemma bu_request_loop_ok fuel s :
  driver_ok s → idle s → (work s < fuel)%nat →
  ∃ s', bu_request_loop fuel false s = Ok s' ∧ ran s s'.
Proof.
  revert s. induction fuel as [|fuel IH]; intros s Hs Hi Hf; [lia|]. cbn [bu_request_loop].
  rewrite (id_lock s Hi).
  destruct (pick_request_ok (S fuel) s Hs Hi Hf) as (go & s1 & -> & [P1 P2 P3 P4 (cs & P5 & _) P6]).
  cbn [mbind outcome_bind]. destruct go; cbn [negb].
  - destruct P6 as (req & Hv & _).
    destruct (block_operation_ok s1 req P1 Hv P2) as (again & s2 & -> & Hop). cbn [mbind outcome_bind].
    destruct (serve_again fuel s1 s2 req again IH Hop ltac:(lia)) as (s' & -> & [R1 R2 R3 R4] & _).
    exists s'. split; [done|]. constructor; [done|congruence|done|].
    etrans; [|done]. rewrite P5. by apply prefix_app_r.
  - exists s1. split; [done|]. destruct P6 as [P6 _].
    constructor; [done|done|by left|rewrite P5; by apply prefix_app_r].
Qed.

Lemma request_serve_ok s req :
  driver_ok s → serving s req → bu_timer s = None →
  ∃ s', bu_request_loop (S (work s)) true s = Ok s' ∧ ran s s' ∧ served s req s'.
Proof.
  intros Hs Hv Ht. cbn [bu_request_loop mbind outcome_bind negb].
  destruct (block_operation_ok s req Hs Hv Ht) as (again & s1 & -> & Hop). cbn [mbind outcome_bind].
  apply (serve_again (work s) s s1 req again); [apply bu_request_loop_ok|done|lia].
Qed.

Lemma do_bu_request_inv s : driver_inv s → ∃ s', do_bu_request s = Ok s' ∧ driver_inv s' ∧
  completed s `prefix_of` completed s'.
Proof.
  intros (Hs & Hc & Hst). unfold do_bu_request. rewrite Hc. destruct Hst as [Hi|Ha].
  - destruct (bu_request_loop_ok (S (work s)) s Hs Hi ltac:(lia)) as (s' & -> & [R1 R2 R3 R4]).
    exists s'. split; [done|]. split; [|done]. split; [done|]. split; [congruence|done].
  - exists s. pose proof Ha as (req & _ & Hv & _). cbn [bu_request_loop]. rewrite (sv_lock s req Hv).
    split; [done|]. split; [|done]. split; [done|]. split; [done|]. by right.
Qed.

Lemma continue_request_ok s req :
  driver_ok s → serving s req → bu_timer s = None →
  ∃ s', continue_request s = Ok s' ∧ driver_inv s' ∧ completed s `prefix_of` completed s' ∧
    served s req s'.
Proof.
  intros Hs Hv Ht. unfold continue_request, do_bu_request. cbn [bu_continue set_bu_continue].
  destruct (request_serve_ok (set_bu_continue true s) req)
    as (s1 & -> & [R1 R2 R3 R4] & Hsv); [by destruct Hs|by destruct Hv|done|].
  cbn [mbind outcome_bind]. eexists. split; [done|].
  assert (∀ q, active_for s1 q → active_for (set_bu_continue false s1) q) as Hact.
  { intros q (A1 & A2 & r & rx & old & A3). split; [done|]. split; [by destruct A2|].
    exists r, rx, old. by destruct A3. }
  split; [|split; [done|]].
  - split; [by destruct R1|]. split; [done|]. destruct R3 as [[]|[q Hq]]; [by left|].
    right. exists q. auto.
  - destruct Hsv as [(A1 & A2)|Hsv]; [left; split; [auto|done]|by right].
Qed.

(** ** A block that has been read, in the buffer *)

Lemma exchange_grows r rx new : ∃ k, exchange r (rx ++ new) = exchange r rx ++ k.
Proof. unfold exchange. rewrite imap_app, join_app. eauto. Qed.

Lemma copy_in_ok l step d :
  0 <= step → 128 * step + 128 <= zlen l → length d = 128%nat →
  ∃ l', copy_in l (Z.shiftl step BU_BLK_SHIFT) d = Ok l' ∧ zlen l' = zlen l ∧
    data_block (Z.to_nat step) l' = d ∧
    (∀ k, (k < Z.to_nat step)%nat → data_block k l' = data_block k l) ∧
    (Forall byte l → Forall byte d → Forall byte l').
Proof.
  intros H0 Hl Hd. unfold copy_in, BU_BLK_SHIFT, BU_BLK_SIZE. rewrite Z.shiftl_mul_pow2 by lia.
  destruct (Z.ltb_spec (step * 2 ^ 7) 0); [lia|].
  destruct (Z.ltb_spec (zlen l) (step * 2 ^ 7 + 128)); [lia|]. cbn [orb].
  set (off := Z.to_nat (step * 2 ^ 7)). assert (off = 128 * Z.to_nat step)%nat as Eoff by (unfold off; lia).
  assert (length (take off l) = off) as Lt by (rewrite length_take; unfold zlen in *; lia).
  eexists. split; [done|]. split; [|split; [|split]].
  - unfold zlen in *. rewrite !length_app, Lt, length_drop, Hd. lia.
  - unfold data_block. rewrite <- Eoff, drop_app_length' by done.
    by rewrite take_app_length' by done.
  - intros k Hk. unfold data_block. rewrite drop_app_le by (rewrite Lt; lia).
    rewrite skipn_firstn_comm, take_app_le by (rewrite length_take, length_drop; unfold zlen in *; lia).
    rewrite take_take. f_equal. lia.
  - intros Fl Fd. apply Forall_app. split; [by apply Forall_take|].
    apply Forall_app. split; [done|by apply Forall_drop].
Qed.

Lemma serving_ports s req i b k t :
  serving s req → data_log i = data_log (ports s) ++ k →
  rcard (bu_request b) = rcard (bu_request (bu_curr s)) →
  mode (bu_request b) = mode (bu_request (bu_curr s)) →
  serving (set_bu_timer t (set_bu_curr b (set_ports i s))) req.
Proof.
  intros [V1 V2 V3 V4 V5 V6 V7 V8 V9 V10 V11 V12] Hl Ec Em.
  constructor; simpl; try done; try congruence. rewrite Hl. by apply buffer_done_app.
Qed.

(** A request whose buffer has been refilled by a read. *)
Lemma wf_req_set_data d req :
  wf_req req → zlen d = zlen (first_data req) → Forall byte d → wf_req (set_first_data d req).
Proof.
  intros [H1 (b & l & Eb & Ec) H3] Hl Hd. rewrite Eb in H3.
  apply Forall_cons_1 in H3 as [[W1 W2 W3 W4] Hls].
  unfold first_data in Hl. rewrite Eb in Hl. constructor; simpl; rewrite ?Eb; [done|by eauto|].
  constructor; [|done]. constructor; simpl; [done|congruence|done|done].
Qed.

(** The last exchange of a transfer: the block is done. *)
Lemma block_finished s req r rx :
  serving s req → wf_req req → bu_step s < r_len s →
  floor r = 0 → block r = blk_of (start_of req) (bu_step s) →
  rcard r = DEVICE_NR (rq_dev req) → mode r = mode_of req →
  valid_replies r rx → length rx = full r →
  (∃ old, data_log (ports s) = old ++ exchange r rx) →
  ∀ req', rq_dev req' = rq_dev req → cmd req' = cmd req → sector req' = sector req →
    data_block (Z.to_nat (bu_step s)) (first_data req') =
      (if reading r then received rx else buffer r) →
    (∀ k, (k < Z.to_nat (bu_step s))%nat →
       data_block k (first_data req') = data_block k (first_data req)) →
    buffer_done (data_log (ports s)) req' (Z.to_nat (bu_step s + 1)).
Proof.
  intros Hv Hr Hlt Hfl Hblk Hcard Hm Hval Hlen (old & Hlog) req' E1 E2 E3 Hnew Hold k Hk.
  pose proof Hv as [_ _ _ _ _ _ _ V8 _ _ _ V12].
  assert (start_of req' = start_of req ∧ mode_of req' = mode_of req) as [-> ->]
    by (unfold start_of, mode_of; by rewrite E2, E3).
  rewrite E1. destruct (decide (k < Z.to_nat (bu_step s))%nat) as [Hlt'|Hge].
  - rewrite Hold by done. by apply V12.
  - assert (k = Z.to_nat (bu_step s)) as -> by lia. rewrite Z2Nat.id by lia.
    exists old, [], r, rx. rewrite app_nil_r. split; [done|]. by repeat split.
Qed.

Lemma bu_interrupt_next s req r rx old status i b new :
  driver_ok s → active_for s req → transferring s req r rx old →
  bu_rd_routine (ports s) (bu_curr s) = Ok (status, i, b) →
  data_log i = old ++ exchange r (rx ++ new) →
  status = 0 → in_transfer r (rx ++ new) b → stop b = 0 →
  ∃ s', bu_interrupt s = Ok s' ∧ driver_ok s' ∧ active_for s' req ∧
    bu_continue s' = bu_continue s ∧ completed s' = completed s.
Proof.
  intros Hs (At & Hv & _) [T1 T2 T3 T4 T5 T6 T7 T8 T9] E Hl -> Hin Hst. unfold bu_interrupt.
  pose proof (device_nr_nonneg (rq_dev req)).
  rewrite (sv_current s req Hv), (do_open s Hs), E.
  destruct (Z.ltb_spec (DEVICE_NR (rq_dev req)) 0); [lia|]. cbn [mbind outcome_bind Z.ltb Z.compare].
  cbn [stop bu_curr set_bu_curr]. rewrite Hst. cbn [c_true Z.eqb negb].
  destruct (exchange_grows r rx new) as [k Hk].
  assert (data_log i = data_log (ports s) ++ k) as Hlk by (by rewrite Hl, Hk, app_assoc, T9).
  destruct (same_request_fields _ _ (in_transfer_wf _ _ _ T3 T7)) as (S1 & S2 & _).
  destruct (same_request_fields _ _ (in_transfer_wf _ _ _ T3 Hin)) as (S3 & S4 & S5).
  edestruct device_of_ok as [d Ed]; [| |rewrite Ed]; simpl.
  { apply Hs. } { rewrite S3, <- S1, (sv_rcard s req Hv). split; [lia|apply Hv]. }
  eexists. split; [done|].
  pose proof (driver_ok_ports s i b k Hs Hlk S5) as []. split; [by constructor|].
  split; [|done]. split; [by eexists|]. split; [by apply (serving_ports s req i b k); try congruence|].
  exists r, (rx ++ new), old. by constructor.
Qed.

Lemma bu_interrupt_failed s req r rx old i b new :
  driver_ok s → active_for s req → transferring s req r rx old →
  bu_rd_routine (ports s) (bu_curr s) = Ok (-1, i, b) →
  data_log i = old ++ exchange r (rx ++ new) → same_request r (bu_request b) →
  ∃ s', bu_interrupt s = Ok s' ∧ driver_inv s' ∧ completed s `prefix_of` completed s' ∧
    served s req s'.
Proof.
  intros Hs (At & Hv & _) [T1 T2 T3 T4 T5 T6 T7 T8 T9] E Hl Hsame. unfold bu_interrupt.
  pose proof (device_nr_nonneg (rq_dev req)).
  rewrite (sv_current s req Hv), (do_open s Hs), E.
  destruct (Z.ltb_spec (DEVICE_NR (rq_dev req)) 0); [lia|]. cbn [mbind outcome_bind Z.ltb Z.compare].
  destruct (exchange_grows r rx new) as [k Hk].
  assert (data_log i = data_log (ports s) ++ k) as Hlk by (by rewrite Hl, Hk, app_assoc, T9).
  destruct (same_request_fields _ _ (in_transfer_wf _ _ _ T3 T7)) as (S1 & S2 & _).
  destruct (same_request_fields _ _ Hsame) as (S3 & S4 & S5).
  pose proof (driver_ok_ports s i b k Hs Hlk S5) as [].
  destruct (continue_request_ok (del_bu_timer (set_bu_curr b (set_ports i s))) req)
    as (s' & -> & K1 & K2 & K3); [by constructor| |done|].
  { apply (serving_ports s req i b k); try done; congruence. }
  by exists s'.
Qed.

(** The buffer of the automaton after a complete read. *)
Lemma received_block r rx b :
  wf_request r → reading r = true → in_transfer r rx b → length rx = full r →
  buffer (bu_request b) = received rx ∧ length (received rx) = 128%nat ∧ Forall byte (received rx).
Proof.
  intros [_ Hl _] Hm Hin Hf.
  assert (length (received rx) = 128%nat) as L.
  { rewrite received_length, Hf. unfold full. by rewrite Hm. }
  split; [|split; [done|apply received_bytes, Hin]].
  rewrite (it_request _ _ _ Hin). unfold request_after. rewrite Hm. simpl.
  rewrite drop_ge by lia. by rewrite app_nil_r.
Qed.

(** The state in which the request function continues after a block. *)
Definition block_over (s : drv) (i : io D) (b : bu_t) (req : request) : drv :=
  set_bu_try 0 (set_bu_step (bu_step s + 1)
    (set_queue (req :: tail (queue s)) (del_bu_timer (set_bu_curr b (set_ports i s))))).

Lemma block_over_ok s req req' r rx old i b new :
  driver_ok s → active_for s req → transferring s req r rx old →
  data_log i = old ++ exchange r (rx ++ new) →
  in_transfer r (rx ++ new) b → stop b ≠ 0 →
  rq_dev req' = rq_dev req → cmd req' = cmd req → sector req' = sector req →
  current_nr_sectors req' = current_nr_sectors req → wf_req req' →
  data_block (Z.to_nat (bu_step s)) (first_data req') =
    (if reading r then received (rx ++ new) else buffer r) →
  (∀ k, (k < Z.to_nat (bu_step s))%nat →
     data_block k (first_data req') = data_block k (first_data req)) →
  driver_ok (block_over s i b req') ∧ serving (block_over s i b req') req'.
Proof.
  intros Hs (_ & Hv & _) [T1 T2 T3 T4 T5 T6 T7 T8 T9] Hl Hin Hst E1 E2 E3 E4 Hr' Hnew Hold.
  destruct (exchange_grows r rx new) as [k Hk].
  assert (data_log i = data_log (ports s) ++ k) as Hlk by (by rewrite Hl, Hk, app_assoc, T9).
  destruct (same_request_fields _ _ (in_transfer_wf _ _ _ T3 T7)) as (S1 & S2 & _).
  destruct (same_request_fields _ _ (in_transfer_wf _ _ _ T3 Hin)) as (S3 & S4 & S5).
  assert (length (rx ++ new) = full r) as Hfull.
  { pose proof (it_stop _ _ _ Hin) as Es. destruct (Nat.eqb_spec (length (rx ++ new)) (full r)); done. }
  pose proof (serving_ports s req i b k None Hv Hlk ltac:(congruence) ltac:(congruence)) as Hv1.
  pose proof Hv as [_ (rest & Eq) _ _ _ _ _ _ _ V10 V11 _].
  assert (wf_req req) as Hr.
  { pose proof (do_queue s Hs) as Hq. rewrite Eq in Hq. by apply Forall_cons_1 in Hq as [? _]. }
  assert (buffer_done (data_log i) req' (Z.to_nat (bu_step s + 1))) as Hdone.
  { eapply (block_finished _ req r (rx ++ new) Hv1); try done; try congruence.
    - apply Hin.
    - exists old. done. }
  split.
  - pose proof (driver_ok_ports s i b k Hs Hlk S5) as [D0 D1 D2 D3 D4 D5 D6].
    constructor; simpl; try done. simpl in D5. rewrite Eq in *. simpl.
    apply Forall_cons_1 in D5 as [_ D5]. by constructor.
  - destruct Hv1 as [U1 _ U3 U4 U5 U6 U7 U8 U9 U10 U11 U12]. simpl in *.
    constructor; simpl; try done; try congruence; unfold N_CHECKS; try lia; [by eexists|..].
    + rewrite U6. unfold start_of. by rewrite E3.
    + rewrite U11. unfold mode_of. by rewrite E2.
Qed.

Lemma bu_interrupt_done s req r rx old i b new :
  driver_ok s → active_for s req → transferring s req r rx old →
  bu_rd_routine (ports s) (bu_curr s) = Ok (0, i, b) →
  data_log i = old ++ exchange r (rx ++ new) →
  in_transfer r (rx ++ new) b → stop b ≠ 0 →
  ∃ s' req', bu_interrupt s = Ok s' ∧ driver_inv s' ∧ completed s `prefix_of` completed s' ∧
    served (block_over s i b req') req' s'.
Proof.
  intros Hs Ha Ht E Hl Hin Hst.
  pose proof Ha as (_ & Hv & _). pose proof Hv as [_ (rest & Eq) V3 _ _ _ V7 V8 _ V10 V11 _].
  pose proof Ht as [T1 T2 T3 T4 T5 T6 T7 T8 T9].
  assert (wf_req req) as Hr.
  { pose proof (do_queue s Hs) as Hq. rewrite Eq in Hq. by apply Forall_cons_1 in Hq as [? _]. }
  destruct (wf_req_room req Hr) as (R1 & R2 & R3 & R4).
  destruct (same_request_fields _ _ (in_transfer_wf _ _ _ T3 T7)) as (S1 & S2 & _).
  assert (length (rx ++ new) = full r) as Hfull.
  { pose proof (it_stop _ _ _ Hin) as Es. destruct (Nat.eqb_spec (length (rx ++ new)) (full r)); done. }
  unfold bu_interrupt. pose proof (device_nr_nonneg (rq_dev req)).
  rewrite (sv_current s req Hv), (do_open s Hs), E.
  destruct (Z.ltb_spec (DEVICE_NR (rq_dev req)) 0); [lia|]. cbn [mbind outcome_bind Z.ltb Z.compare].
  assert (c_true (stop b) = true) as Hct by (by apply c_true_spec).
  cbn [stop bu_curr set_bu_curr]. rewrite Hct. unfold CURRENT.
  cbn [queue del_bu_timer set_bu_timer set_bu_curr set_ports]. rewrite Eq. cbn [mbind outcome_bind].
  destruct V3 as [Ec|Ec]; rewrite Ec; cbn [Z.eqb READ WRITE].
  - assert (reading r = true) as Hrd.
    { unfold reading. rewrite <- S2, V11. unfold mode_of. by rewrite Ec. }
    destruct (received_block r (rx ++ new) b T3 Hrd Hin Hfull) as (B1 & B2 & B3).
    destruct (copy_in_ok (first_data req) (bu_step s) (received (rx ++ new)))
      as (d & Ecp & Ld & Dnew & Dold & Db); [lia|lia|done|].
    change (bu_step (del_bu_timer (set_bu_curr b (set_ports i s)))) with (bu_step s).
    cbn [buffer bu_request bu_curr del_bu_timer set_bu_timer set_bu_curr]. rewrite B1, Ecp.
    cbn [mbind outcome_bind].
    assert (first_data (set_first_data d req) = d) as Efd.
    { pose proof (wq_bh req Hr) as (bb & ll & Ebb & _). unfold first_data, set_first_data. simpl. by rewrite Ebb. }
    destruct (block_over_ok s req (set_first_data d req) r rx old i b new) as [O1 O2];
      rewrite ?Efd, ?Hrd; try done; [by apply wf_req_set_data; auto|].
    destruct (continue_request_ok _ _ O1 O2 eq_refl) as (s' & Es & K1 & K2 & K3).
    exists s', (set_first_data d req). split; [|done]. rewrite <- Es. unfold block_over. by rewrite Eq.
  - assert (reading r = false) as Hrd.
    { unfold reading. rewrite <- S2, V11. unfold mode_of. by rewrite Ec. }
    destruct (block_over_ok s req req r rx old i b new) as [O1 O2];
      rewrite ?Hrd; try done; [by rewrite T6|].
    destruct (continue_request_ok _ _ O1 O2 eq_refl) as (s' & Es & K1 & K2 & K3).
    exists s', req. split; [|done]. rewrite <- Es. unfold block_over. rewrite Eq. simpl.
    rewrite <- Eq. by destruct s.
Qed.

(** ** All events *)

Lemma bu_interrupt_inv s :
  driver_inv s → ∃ s', bu_interrupt s = Ok s' ∧ driver_inv s' ∧ completed s `prefix_of` completed s'.
Proof.
  intros (Hs & Hc & [Hi|[req Ha]]).
  { exists s. unfold bu_interrupt. rewrite (id_current s Hi). split; [done|].
    split; [|done]. split; [done|]. split; [done|]. by left. }
  pose proof Ha as (_ & Hv & r & rx & old & Ht). pose proof Ht as [T1 T2 T3 T4 T5 T6 T7 T8 T9].
  destruct (bu_rd_routine_step r rx old (ports s) (bu_curr s) T3 T7 T8 T9)
    as (status & i & b & new & E & _ & _ & Hl & [[-> Hin]|(-> & Hsame & _)]).
  - destruct (decide (stop b = 0)) as [Hst|Hst].
    + destruct (bu_interrupt_next s req r rx old 0 i b new) as (s' & -> & K1 & K2 & K3 & K4); try done.
      exists s'. split; [done|]. split; [|by rewrite K4]. split; [done|].
      split; [congruence|]. right. by exists req.
    + destruct (bu_interrupt_done s req r rx old i b new) as (s' & req' & -> & K1 & K2 & _); try done.
      by exists s'.
  - destruct (bu_interrupt_failed s req r rx old i b new) as (s' & -> & K1 & K2 & _); try done.
    by exists s'.
Qed.

(** The timer expires in the middle of a transfer: the block is tried again,
    or its request ends. *)
Lemma timer_fires_active s req :
  driver_inv s → active_for s req →
  ∃ s', timer_fires s = Ok s' ∧ driver_inv s' ∧ completed s `prefix_of` completed s' ∧
    served s req s'.
Proof.
  intros (Hs & Hc & _) ([t Et] & Hv & _). unfold timer_fires, bu_timeout. rewrite Et. simpl.
  pose proof (device_nr_nonneg (rq_dev req)). rewrite (sv_current s req Hv), (do_open s Hs).
  destruct (Z.ltb_spec (DEVICE_NR (rq_dev req)) 0); [lia|].
  destruct (continue_request_ok (del_bu_timer (set_bu_timer None s)) req)
    as (s' & -> & K1 & K2 & K3); [by destruct Hs|by destruct Hv|done|].
  exists s'. split; [done|]. split; [done|]. split; [done|]. exact K3.
Qed.

Definition wf_event (e : event) : Prop :=
  match e with EvQueue r => wf_req r | _ => True end.

Lemma handle_inv e s :
  driver_inv s → wf_event e →
  ∃ s', handle e s = Ok s' ∧ driver_inv s' ∧ completed s `prefix_of` completed s'.
Proof.
  intros Hinv He. pose proof Hinv as (Hs & Hc & Hst). destruct e as [r| | | |]; cbn [handle].
  - eexists. split; [done|]. split; [|done]. split; [|split; [done|]].
    + destruct Hs as [H0 H1 H2 H3 H4 H5 H6]. constructor; simpl; try done.
      apply Forall_app. split; [done|]. by constructor.
    + destruct Hst as [[]|(req & Ht & [V1 (rest & Eq) V3] & Htr)]; [by left|]. right.
      exists req. split; [done|]. split; [constructor; simpl; try done; rewrite Eq; by eexists|].
      destruct Htr as (r' & rx & old & []). by exists r', rx, old.
  - by apply do_bu_request_inv.
  - by apply bu_interrupt_inv.
  - destruct Hst as [Hi|[req Ha]].
    + exists s. unfold timer_fires. rewrite (id_timer s Hi). done.
    + destruct (timer_fires_active s req Hinv Ha) as (s' & K1 & K2 & K3 & _). by exists s'.
  - eexists. split; [done|]. split; [|done]. split; [by destruct Hs|]. split; [done|].
    destruct Hst as [[]|(req & Ht & Hv & r' & rx & old & Htr)]; [by left|]. right.
    exists req. split; [done|]. split; [by destruct Hv|]. exists r', rx, old. by destruct Htr.
Qed.

Lemma handle_all_inv es s :
  driver_inv s → Forall wf_event es →
  ∃ s', handle_all es s = Ok s' ∧ driver_inv s' ∧ completed s `prefix_of` completed s'.
Proof.
  intros Hs Hes. revert s Hs. induction Hes as [|e es He Hes IH]; intros s Hs; cbn [handle_all].
  { exists s. done. }
  destruct (handle_inv e s Hs He) as (s1 & -> & K1 & K2). cbn [mbind outcome_bind].
  destruct (IH s1 K1) as (s2 & -> & K3 & K4). exists s2. split; [done|]. split; [done|]. by etrans.
Qed.

(** ** The properties of the driver *)

(** C7: whatever the controller answers and in whatever order requests,
    interrupts, timer expiries and calls of the request function arrive, the
    driver never runs into a trap: no null state function, no access outside
    a buffer, no second start of a running timer.  It is
    locked exactly while it serves the first request of the queue, its timer
    runs exactly then, at most [N_CHECKS] attempts are made at a block, and a
    buffer that is reported as up to date has really been transferred: for
    each of its blocks the traffic of the data port contains a complete
    transfer of that block of that card in which every answer was the expected
    one, the checksum included, and the block's bytes are the ones that were
    received (or sent). *)
Theorem driver_events_correct es s :
  driver_inv s → Forall wf_event es →
  ∃ s', handle_all es s = Ok s' ∧ driver_inv s' ∧
    (bu_lock s' = true ↔ 0 <= bu_current s') ∧
    (bu_lock s' = true ↔ is_Some (bu_timer s')) ∧
    (bu_lock s' = true → queue s' ≠ [] ∧ 1 <= bu_try s' <= N_CHECKS) ∧
    (∀ req, (req, true) ∈ completed s' →
       (cmd req = READ ∨ cmd req = WRITE) ∧ DEVICE_NR (rq_dev req) < BU_MINORS ∧
       buffer_done (data_log (ports s')) req (Z.to_nat (4 * current_nr_sectors req))).
Proof.
  intros Hs Hes. destruct (handle_all_inv es s Hs Hes) as (s' & E & Hinv & _).
  exists s'. split; [done|]. split; [done|]. destruct Hinv as (Hok & _ & Hst).
  assert (∀ req, (req, true) ∈ completed s' → completion_ok (data_log (ports s')) (req, true)) as Hc.
  { intros req Hin. pose proof (do_completed s' Hok) as Hc. rewrite Forall_forall in Hc.
    by apply Hc, list_elem_of_In. }
  destruct Hst as [[I1 I2 I3]|(req & Ht & Hv & r & rx & old & Htr)].
  - rewrite I1, I2, I3. split; [split; [done|lia]|]. split; [split; [done|by intros [? ?]]|].
    split; [done|]. intros req Hin. by apply (Hc req Hin).
  - pose proof (device_nr_nonneg (rq_dev req)). rewrite (sv_lock _ _ Hv), (sv_current _ _ Hv).
    split; [done|]. split; [done|]. destruct (sv_queue _ _ Hv) as [rest ->].
    split; [intros _; split; [done|]; split; [apply Htr|apply Hv]|].
    intros req' Hin. by apply (Hc req' Hin).
Qed.

Lemma prefix_cons_mid {A} (l k m : list A) x : l ++ x :: k `prefix_of` m → ∃ k', m = l ++ x :: k'.
Proof. intros [j ->]. exists (k ++ j). by rewrite <- app_assoc. Qed.

(** A transfer that gets no interrupt is given up after its last attempt. *)
Lemma timeouts_end n s req :
  driver_inv s → active_for s req → N_CHECKS + 1 - bu_try s <= Z.of_nat n →
  ∃ s' k, handle_all (replicate n EvTimer) s = Ok s' ∧ driver_inv s' ∧
    completed s' = completed s ++ (req, false) :: k.
Proof.
  revert s. induction n as [|n IH]; intros s Hs Ha Hn.
  { pose proof Ha as (_ & Hv & _). pose proof (sv_try s req Hv). lia. }
  simpl replicate. cbn [handle_all handle].
  destruct (timer_fires_active s req Hs Ha) as (s1 & -> & H1 & _ & Hserved). cbn [mbind outcome_bind].
  destruct Hserved as [(A1 & A2 & A3 & A4)|(up & k & Ek & Hup)].
  - destruct (IH s1 H1 A1 ltac:(lia)) as (s' & k & K1 & K2 & K3). exists s', k. by rewrite <- A4.
  - pose proof Ha as (_ & Hv & r & rx & old & Htr). pose proof (tr_step _ _ _ _ _ Htr).
    destruct up; [specialize (Hup eq_refl); lia|].
    destruct (handle_all_inv (replicate n EvTimer) s1 H1) as (s' & K1 & K2 & K3).
    { by apply Forall_replicate. }
    rewrite Ek in K3. apply prefix_cons_mid in K3 as [k' K3]. by exists s', k'.
Qed.

(** C28: a card that never answers cannot block the driver: while a block of a
    request is being transferred, [N_CHECKS + 1 - bu_try] expiries of the
    timer in a row end the request's buffer as failed, and the driver is free
    for the rest of the queue. *)
Theorem timeouts_end_request s req :
  driver_inv s → active_for s req →
  ∃ s' k, handle_all (replicate (Z.to_nat (N_CHECKS + 1 - bu_try s)) EvTimer) s = Ok s' ∧
    driver_inv s' ∧ completed s' = completed s ++ (req, false) :: k.
Proof. intros Hs Ha. apply timeouts_end; [done|done|lia]. Qed.


End driver.

(** ** A concrete card

    A controller with a working card behind it: it collects the bytes it is
    sent since the last reset, answers by their number, and stores the data
    of a complete write. *)

Record card_sim := CardSim { stored : gmap Z (list Z); sent : list Z }.

Definition sim_block (c : card_sim) : Z := nth 4 (sent c) 0 * 256 + nth 5 (sent c) 0.

Definition sim_reply (c : card_sim) : Z :=
  let n := length (sent c) in
  let data := default (replicate 128 0) (stored c !! sim_block c) in
  if (n =? 3)%nat then 0x5a else if (n =? 4)%nat then 0x5d
  else if nth 1 (sent c) 0 =? cR then
    if (n =? 7)%nat then 0x5c else if (n =? 8)%nat then 0x5d
    else if (n =? 9)%nat then nth 4 (sent c) 0 else if (n =? 10)%nat then nth 5 (sent c) 0
    else if (n =? 139)%nat then checksum (Breq 0 (sim_block c) 0 [] cR) data
    else if (n =? 140)%nat then 0x47 else nth (n - 11) data 0
  else if (n =? 136)%nat then 0x5c else if (n =? 137)%nat then 0x5d
  else if (n =? 138)%nat then 0x47 else 0.

Definition sim_take (c : card_sim) (v : Z) : card_sim :=
  let c := CardSim (stored c) (sent c ++ [v]) in
  if (length (sent c) =? 139)%nat && (nth 1 (sent c) 0 =? cW)
  then CardSim (<[sim_block c := take 128 (drop 6 (sent c))]> (stored c)) (sent c) else c.

#[export] Instance sim_device : PortDevice card_sim := {
  port_in c p := if p =? BU_DATA then (sim_reply c, c)
                 else if p =? BU_STATUS then (7, c) else (0, c);
  port_out c p v := if p =? BU_DATA then sim_take c v
                    else if (p =? BU_CONTROL) && (v =? 0x40) then CardSim (stored c) [] else c
}.

(** A card of 1024 blocks whose first block identifies it. *)
Definition demo_first : list Z :=
  [0x34; 0x12; 0; 0; 0; 4; 0; 0; 7; 0; 0; 0; 0; 0; 0; 0] ++ replicate 112 0.

Definition demo_driver (size : Z) : @drv card_sim :=
  let d := BuDevice (FirstBlock BU_ID size 7 0) 0 100 in
  Drv (Io (CardSim {[ 0 := demo_first ]} []) []) [127; 127] 0 [d; d] (-1) BU_NONE false 0 false 0
    false None 0 (Bu (Breq 0 0 0 (replicate 128 0) 0) 0 0 0 0 0 0) 0 0 0 [] [].

Definition demo_request (c : Z) (data : list Z) : request :=
  Request (BU_MAJOR * 256) c 0 3 1 3 1 1 [Bh 512 data true].

Lemma demo_driver_inv size : driver_inv (demo_driver size) ∧ idle (demo_driver size).
Proof.
  split; [|done]. split; [|split; [done|by left]].
  constructor; try done. simpl. repeat constructor; done.
Qed.

Lemma demo_request_wf c v : byte v → wf_req (demo_request c (replicate 512 v)).
Proof.
  intros Hv. constructor; [done|by eexists _, _|]. constructor; [|done].
  constructor; [done|done|by apply Forall_replicate|done].
Qed.

(** The events of a write of one sector and a read of it. *)
Definition demo_events : list event :=
  [EvQueue (demo_request WRITE (replicate 512 3)); EvQueue (demo_request READ (replicate 512 0));
   EvRun] ++ replicate 1112 EvIrq.

Lemma demo_events_wf : Forall wf_event demo_events.
Proof.
  unfold demo_events. apply Forall_app. split; [|by apply Forall_replicate].
  constructor; [by apply demo_request_wf|]. constructor; [by apply demo_request_wf|]. by constructor.
Qed.

(** What the completions are, as data. *)
Definition results (o : outcome (@drv card_sim)) : option (list (list Z * bool)) :=
  match o with
  | Ok s => Some ((λ c, (first_data c.1, c.2)) <$> completed s)
  | Trap _ => None
  end.

(** Both requests succeed, and the read returns what was written. *)
Lemma driver_events_correct_witness :
  (∃ s', handle_all demo_events (demo_driver 1024) = Ok s' ∧ driver_inv s') ∧
  results (handle_all demo_events (demo_driver 1024)) =
    Some [(replicate 512 3, true); (replicate 512 3, true)].
Proof.
  split; [|vm_compute; reflexivity].
  destruct (driver_events_correct demo_events (demo_driver 1024) (proj1 (demo_driver_inv 1024))
              demo_events_wf) as (s' & E & Hinv & _).
  exists s'. exact (conj E Hinv).
Defined.

(** A read that has been started, and what can be seen of it. *)
Definition demo_started : outcome (@drv card_sim) :=
  handle_all [EvQueue (demo_request READ (replicate 512 0)); EvRun] (demo_driver 1024).

Definition seen (o : outcome (@drv card_sim)) : option (bool * list request * list (request * bool) * Z) :=
  match o with Ok s => Some (bu_lock s, queue s, completed s, bu_try s) | Trap _ => None end.

Lemma demo_active :
  ∃ s, demo_started = Ok s ∧ driver_inv s ∧ active_for s (demo_request READ (replicate 512 0)) ∧
    completed s = [] ∧ bu_try s = 1.
Proof.
  assert (seen demo_started = Some (true, [demo_request READ (replicate 512 0)], [], 1)) as Hseen
    by (vm_compute; reflexivity).
  assert (∃ s, demo_started = Ok s ∧ driver_inv s) as (s & E & Hinv).
  { unfold demo_started. edestruct handle_all_inv as (s & E & Hinv & _);
      [| |exists s; split; [exact E|exact Hinv]]; [apply demo_driver_inv|].
    constructor; [exact (demo_request_wf READ 0 (u8_byte 0))|]. constructor; [exact I|constructor]. }
  exists s. rewrite E in Hseen. injection Hseen as Hl Hq Hc Ht.
  split; [exact E|]. split; [exact Hinv|]. destruct Hinv as (_ & _ & [Hi|[req Ha]]).
  - pose proof (id_lock s Hi). congruence.
  - pose proof Ha as (_ & Hv & _). destruct (sv_queue s req Hv) as [rest Er].
    rewrite Hq in Er. injection Er as <- _. exact (conj Ha (conj Hc Ht)).
Qed.

(** Ten timeouts end it as failed. *)
Lemma timeouts_end_request_witness :
  ∃ s s' k, demo_started = Ok s ∧ handle_all (replicate 10 EvTimer) s = Ok s' ∧
    completed s' = (demo_request READ (replicate 512 0), false) :: k.
Proof.
  destruct demo_active as (s & E & Hinv & Ha & Hc & Ht).
  destruct (timeouts_end_request s _ Hinv Ha) as (s' & k & K1 & _ & K3).
  rewrite Ht in K1. rewrite Hc in K3. exists s, s', k. exact (conj E (conj K1 K3)).
Defined.

Definition demo_queued : @drv card_sim :=
  set_queue [demo_request READ (replicate 512 0)] (demo_driver 1024).

Lemma demo_queued_ok : driver_ok demo_queued.
Proof.
  destruct (demo_driver_inv 1024) as [([] & _) _]. constructor; try done. simpl.
  constructor; [by apply demo_request_wf|done].
Qed.


(** A first block with a size below [BU_FIRST_BLOCKS] makes [bu_total]
    negative, and the comparison with the unsigned [start + len] lets every
    request pass. *)
Example small_card_unbounded :
  match pick_request 10 (set_queue [demo_request READ (replicate 512 0)] (demo_driver 7)) with
  | Ok (go, s) => go = true ∧ bu_total s = -1 ∧ r_start s = 12
  | Trap _ => False
  end.
Proof. vm_compute. done. Qed.
