(* ===== verification/BuOpen.v ===== *)
(** Opening a memory card, [drivers/block/bu.c]: the synchronous read of the
    first block ([bu_ready], [bu_check], [bu_read_first_block]), the lock
    ([bu_catch]), revalidation, open, release and initialisation.

    [card_irq] tells if the controller raises its interrupt before the timer
    runs out; the events that happen while [bu_catch] sleeps are a list. *)

From S2P Require Import Prelude Errno Resource BuFsm BuDriver.

Definition TIMEOUT_VALUE : Z := 100.

Section open.
Context {D : Type} `{!PortDevice D}.
Context (card_irq : D → bool).
Implicit Types s : @drv D.

(** ** The synchronous read of a block *)

(** Either the interrupt or the timer ends the sleep, before or after the
    check for a lost interrupt. *)
Definition bu_ready (card : Z) (s : @drv D) : outcome (Z * @drv D) :=
  let s := set_bu_state BU_WAIT s in
  d ← device_of card s;
  s ← start_timer (jiffies s + timeout d) s;
  s ← (if card_irq (dev (ports s)) then bu_interrupt s else timer_fires s);
  let s := del_bu_timer s in
  Ok (if bu_state s =? BU_READY then 0 else -1, s).

(** The [do ... while (!bu->stop)] of [bu_check]; [false] is [goto try]. *)
Fixpoint check_loop (fuel : nat) (s : @drv D) (b : bu_t) : outcome (bool * drv * bu_t) :=
  match fuel with
  | O => Trap Fuel
  | S fuel =>
      '(ready, s) ← (if c_true (Z.land (state b) 0xf)
                     then bu_ready (rcard (bu_request b)) s else Ok (0, s) : outcome (Z * @drv D));
      if ready <? 0 then Ok (false, s, b) else
      '(status, i, b) ← bu_rd_routine (ports s) b;
      let s := set_ports i s in
      if status <? 0 then Ok (false, s, b) else
      if c_true (stop b) then Ok (true, s, b) else check_loop fuel s b
  end.

(** [bu_check] with [tries] attempts left; a transfer takes at most 140 calls. *)
Fixpoint check_tries (tries : nat) (s : @drv D) (b : bu_t) : outcome (Z * drv * bu_t) :=
  match tries with
  | O => Ok (0, s, b)
  | S tries =>
      let '(status, b) := bu_sw_init b in
      if status <? 0 then Ok (0, s, b) else
      let s := set_ports (bu_hw_init (ports s)) s in
      '(done, s, b) ← check_loop 140 s b;
      if (done : bool) then Ok (1, s, b) else check_tries tries s b
  end.

Definition bu_check (s : @drv D) (b : bu_t) : outcome (Z * drv * bu_t) :=
  check_tries (Z.to_nat N_CHECKS) s b.

(** A little-endian word of the first block. *)
Definition word_at (l : list Z) (off : nat) : Z :=
  nth off l 0 + 2 ^ 8 * nth (off + 1) l 0 + 2 ^ 16 * nth (off + 2) l 0
  + 2 ^ 24 * nth (off + 3) l 0.

Definition decode_first_block (l : list Z) : bu_first_block_t :=
  FirstBlock (word_at l 0) (word_at l 4) (word_at l 8) (word_at l 12).

Definition bu_read_first_block (card : Z) (s : @drv D) : outcome (Z * @drv D) :=
  let r := Breq 0 0 card (replicate (Z.to_nat BU_BLK_SIZE) 0) cR in
  '(found, s, b) ← bu_check s (Bu r 0 0 0 0 0 0);
  if found =? 0 then Ok (0, s) else
  let fb := decode_first_block (buffer (bu_request b)) in
  if negb (fb_id fb =? BU_ID) then Ok (0, s) else
  d ← device_of card s;
  Ok (1, set_bu_devices (<[Z.to_nat card := BuDevice fb (usage d) (timeout d)]> (bu_devices s)) s).

(** ** Open, release, media change and revalidation *)

(** [sleeps] lists the events that happen in each sleep. *)
Fixpoint bu_catch (checks : nat) (sleeps : list (list event)) (s : @drv D) : outcome (Z * @drv D) :=
  match checks with
  | O => Ok (0, s)
  | S checks =>
      if bu_lock s
      then s ← handle_all (hd [] sleeps) s; bu_catch checks (tl sleeps) s
      else Ok (1, set_bu_lock true s)
  end.

(** The check of one card, of [bu_revalidate] and of [bu_init]: the size found
    in Kbytes and the state. *)
Definition check_card (i : Z) (s : @drv D) : outcome (Z * @drv D) :=
  '(found, s) ← bu_read_first_block i s;
  if found =? 0 then Ok (0, set_bu_sizes (<[Z.to_nat i := 0]> (bu_sizes s)) s) else
  d ← device_of i s;
  let size := fb_size (first_block d) in
  let kb := s32 (Z.shiftr size (10 - BU_BLK_SHIFT) - 1) in
  let s := set_bu_sizes (<[Z.to_nat i := kb]> (bu_sizes s)) s in
  Ok (kb, set_bu_total (s32 (bu_total s + (size - BU_FIRST_BLOCKS))) s).

Definition begin_check (card : Z) (s : @drv D) : drv :=
  set_bu_open true (set_bu_state BU_NONE (set_bu_current card s)).

Definition end_check (s : @drv D) : drv :=
  set_bu_lock false (set_bu_open false (set_bu_current (-1) s)).

Definition bu_revalidate (dev : Z) (sleeps : list (list event)) (s : @drv D) : outcome (Z * @drv D) :=
  let card := DEVICE_NR dev in
  '(caught, s) ← bu_catch (Z.to_nat N_CHECKS) sleeps s;
  if caught =? 0 then Ok (- EBUSY, s) else
  let s := begin_check card s in
  let s := set_bu_total 0 s in
  '(bu_size, s) ← check_card card s;
  let s := end_check s in
  if bu_size =? 0 then Ok (- ENODEV, s) else Ok (0, s).

Definition bu_check_change (dev : Z) : Z := if BU_MINORS <=? MINOR dev then 0 else 1.

(** [check_disk_change] of [fs/block_dev.c] on this driver; its calls into the
    inode and buffer caches do not touch the driver. *)
Definition check_disk_change (dev : Z) (sleeps : list (list event)) (s : @drv D) : outcome (Z * @drv D) :=
  if bu_check_change dev =? 0 then Ok (0, s) else
  '(_, s) ← bu_revalidate dev sleeps s;
  Ok (1, s).

Definition set_usage (card : Z) (f : Z → Z) (s : @drv D) : outcome drv :=
  d ← device_of card s;
  Ok (set_bu_devices (<[Z.to_nat card := BuDevice (first_block d) (f (usage d)) (timeout d)]>
                        (bu_devices s)) s).

Definition bu_do_open (dev : Z) (sleeps : list (list event)) (s : @drv D) : outcome (Z * @drv D) :=
  let card := DEVICE_NR dev in
  if BU_MINORS <=? card then Ok (- ENODEV, s) else
  d ← device_of card s;
  if usage d =? 0 then
    '(_, s) ← check_disk_change dev sleeps s;
    match bu_sizes s !! Z.to_nat card with
    | None => Trap Fault
    | Some size =>
        if size =? 0 then Ok (- ENXIO, s) else
        s ← set_usage card (λ u, s32 (u + 1)) s; Ok (0, s)
    end
  else s ← set_usage card (λ u, s32 (u + 1)) s; Ok (0, s).

Definition bu_release (dev : Z) (s : @drv D) : outcome (Z * @drv D) :=
  s ← set_usage (DEVICE_NR dev) (λ u, s32 (u - 1)) s; Ok (0, s).

(** ** Initialisation *)

(** One pass of the loop over the slots. *)
Definition detect_card (i : Z) (s : @drv D) : outcome drv :=
  '(caught, s) ← bu_catch (Z.to_nat N_CHECKS) [] s;
  if caught =? 0 then Ok s else
  let s := begin_check i s in
  '(_, s) ← check_card i s;
  Ok (end_check s).

(** [bu_init], with the results of [register_blkdev] and [request_irq]. *)
Definition bu_init (registered irq : Z) (s : @drv D) : outcome (Z * @drv D) :=
  if c_true registered then Ok (- EBUSY, s) else
  let s := set_bu_sizes [0; 0] s in
  let s := set_bu_devices
    ((λ d, BuDevice (first_block d) (usage d) TIMEOUT_VALUE) <$> bu_devices s) s in
  if irq <? 0 then Ok (irq, s) else
  let s := set_bu_total 0 s in
  s ← detect_card 0 s;
  s ← detect_card 1 s;
  Ok (0, s).

(** ** The synchronous read as a sequence of attempts *)

(** The driver while a card is being checked. *)
Record opening (s : @drv D) : Prop := {
  og_lock : bu_lock s = true;
  og_open : bu_open s = true;
  og_current : 0 <= bu_current s;
  og_timer : bu_timer s = None;
  og_devices : length (bu_devices s) = 2%nat
}.

(** Only the ports and [bu_state] change. *)
Definition quietly (s s' : @drv D) : Prop := ∃ st i, s' = set_bu_state st (set_ports i s).

Lemma quietly_refl s : quietly s s.
Proof. exists (bu_state s), (ports s). by destruct s. Qed.

Lemma quietly_trans s1 s2 s3 : quietly s1 s2 → quietly s2 s3 → quietly s1 s3.
Proof. intros (st & i & ->) (st' & i' & ->). by exists st', i'. Qed.

Lemma quietly_ports s i : quietly s (set_ports i s).
Proof. exists (bu_state s), i. by destruct s. Qed.

Lemma quietly_opening s s' : quietly s s' → opening s → opening s'.
Proof. intros (st & i & ->) []. by constructor. Qed.

Lemma bu_ready_spec card s :
  opening s → 0 <= card < BU_MINORS →
  ∃ st, bu_ready card s =
    Ok (if card_irq (dev (ports s)) then 0 else -1, set_bu_state st s).
Proof.
  intros [O1 O2 O3 O4 O5] Hc. unfold bu_ready.
  destruct (device_of_ok card (set_bu_state BU_WAIT s) O5 Hc) as [d Ed]. rewrite Ed. cbn [mbind outcome_bind].
  unfold start_timer. cbn [bu_timer set_bu_state]. rewrite O4. cbn [mbind outcome_bind].
  cbn [ports set_bu_timer set_bu_state].
  destruct (card_irq (dev (ports s))); unfold bu_interrupt, timer_fires, bu_timeout;
    cbn [bu_current bu_open bu_timer set_bu_timer set_bu_state];
    rewrite O2; destruct (Z.ltb_spec (bu_current s) 0); try lia; cbn [mbind outcome_bind].
  - exists BU_READY. destruct s; simpl in *. by subst.
  - exists BU_TIMEOUT. destruct s; simpl in *. by subst.
Qed.

(** Why an attempt fails: a wrong answer, a controller that is not ready at
    the end, or no interrupt in time. *)
Definition attempt : Type := bu_request_t * list Z * io D.

Definition failed (a : attempt) : Prop :=
  let '(r, rx, i) := a in
  ¬ valid_replies r rx ∨ not_ready i ∨ card_irq (dev i) = false.

Definition traffic (as_ : list attempt) : list port_event :=
  mjoin ((λ a : attempt, exchange a.1.1 a.1.2) <$> as_).

Lemma check_loop_spec fuel s b r rx old :
  opening s → wf_request r → 0 <= rcard r < BU_MINORS →
  in_transfer r rx b → stop b = 0 → data_log (ports s) = old ++ exchange r rx →
  (full r - 1 - length rx <= fuel)%nat →
  ∃ done s' b' rx', check_loop fuel s b = Ok (done, s', b') ∧ quietly s s' ∧
    data_log (ports s') = old ++ exchange r rx' ∧ same_request r (bu_request b') ∧
    (if (done : bool) then length rx' = full r ∧ in_transfer r rx' b'
     else failed (r, rx', ports s')).
Proof.
  revert s b rx. induction fuel as [|fuel IH]; intros s b rx Ho Hr Hc Hin Hst Hl Hf.
  { pose proof (it_pos _ _ _ Hin) as Hp. pose proof (it_stop _ _ _ Hin) as Es. rewrite Hst in Es.
    destruct (Nat.eqb_spec (length rx) (full r)); [done|]. unfold full in *. destruct (reading r); lia. }
  cbn [check_loop].
  destruct (same_request_fields _ _ (in_transfer_wf _ _ _ Hr Hin)) as (S1 & _ & _).
  assert (∃ z st, (if c_true (Z.land (state b) 15) then bu_ready (rcard (bu_request b)) s else Ok (0, s))
    = Ok (z, set_bu_state st s) ∧ (z = 0 ∨ z = -1 ∧ card_irq (dev (ports s)) = false))
    as (z & st & -> & Hz).
  { destruct (c_true _); [|exists 0, (bu_state s); split; [by destruct s|by left]].
    rewrite S1. destruct (bu_ready_spec (rcard r) s Ho Hc) as [st ->]. exists (if card_irq (dev (ports s)) then 0 else -1), st.
    split; [done|]. destruct (card_irq _); auto. }
  cbn [mbind outcome_bind].
  assert (quietly s (set_bu_state st s)) as Hq1 by (exists st, (ports s); by destruct s).
  destruct Hz as [-> |[-> Hirq]]; cbn [Z.ltb Z.compare].
  2: { exists false, (set_bu_state st s), b, rx. split; [done|]. split; [done|]. split; [done|].
       split; [by eapply in_transfer_wf|]. right; right. exact Hirq. }
  destruct (bu_rd_routine_step r rx old (ports s) b Hr Hin Hst Hl)
    as (status & i & b1 & new & E & Hn & Hb & Hl1 & Hcase).
  cbn [ports set_bu_state]. rewrite E. cbn [mbind outcome_bind].
  assert (quietly s (set_ports i (set_bu_state st s))) as Hq2
    by (eapply quietly_trans; [done|apply quietly_ports]).
  destruct Hcase as [[-> Hin1]|(-> & Hsame & Hwhy)]; cbn [Z.ltb Z.compare].
  2: { exists false, (set_ports i (set_bu_state st s)), b1, (rx ++ new).
       do 4 (split; [done|]). destruct Hwhy; [by left|by right; left]. }
  destruct (decide (stop b1 = 0)) as [Hst1|Hst1].
  - rewrite Hst1. cbn [c_true Z.eqb negb].
    destruct (IH (set_ports i (set_bu_state st s)) b1 (rx ++ new)) as (dn & s' & b' & rx' & E' & Q & K);
      try done; [by apply (quietly_opening s)|rewrite length_app; lia|].
    exists dn, s', b', rx'. split; [done|]. split; [by apply (quietly_trans _ _ _ Hq2)|done].
  - assert (c_true (stop b1) = true) as -> by (by apply c_true_spec).
    exists true, (set_ports i (set_bu_state st s)), b1, (rx ++ new). split; [done|]. split; [done|].
    split; [done|]. split; [by eapply in_transfer_wf|]. split; [|done].
    pose proof (it_stop _ _ _ Hin1) as Es. destruct (Nat.eqb_spec (length (rx ++ new)) (full r)); done.
Qed.

Lemma same_request_refl r : wf_request r → same_request r r.
Proof. intros W. split; [by destruct r|done]. Qed.

Lemma same_request_trans r1 r2 r3 : same_request r1 r2 → same_request r2 r3 → same_request r1 r3.
Proof.
  intros (E1 & W1 & N1) (E2 & W2 & N2). split; [|split; [done|]].
  - rewrite E2, E1. by destruct r1.
  - intros Hm. assert (r2 = r1) as -> by auto. auto.
Qed.

Lemma traffic_app a b : traffic (a ++ b) = traffic a ++ traffic b.
Proof. unfold traffic. by rewrite fmap_app, join_app. Qed.

Lemma check_tries_spec tries s b :
  opening s → wf_request (bu_request b) → 0 <= rcard (bu_request b) < BU_MINORS →
  ∃ z s' b' lost, check_tries tries s b = Ok (z, s', b') ∧ quietly s s' ∧
    same_request (bu_request b) (bu_request b') ∧ Forall failed lost ∧
    Forall (λ a, same_request (bu_request b) a.1.1) lost ∧
    ((z = 0 ∧ length lost = tries ∧ data_log (ports s') = data_log (ports s) ++ traffic lost) ∨
     (z = 1 ∧ (length lost < tries)%nat ∧ ∃ r rx,
        data_log (ports s') = data_log (ports s) ++ traffic lost ++ exchange r rx ∧
        same_request (bu_request b) r ∧ length rx = full r ∧ valid_replies r rx ∧
        in_transfer r rx b')).
Proof.
  revert s b. induction tries as [|tries IH]; intros s b Ho Hr Hc; cbn [check_tries].
  { exists 0, s, b, []. split; [done|]. split; [apply quietly_refl|].
    split; [by apply same_request_refl|]. split; [done|]. split; [done|].
    left. by rewrite app_nil_r. }
  destruct (bu_sw_init_spec b Hr) as (b1 & -> & Hin & Hst). cbn [Z.ltb Z.compare].
  destruct (check_loop_spec 140 (set_ports (bu_hw_init (ports s)) s) b1 (bu_request b) []
    (data_log (ports s))) as (dn & s1 & b2 & rx & -> & Q1 & Hl1 & Hsame & Hres); try done.
  { by apply (quietly_opening s); [apply quietly_ports|]. }
  { simpl. rewrite data_log_hw_init. unfold exchange. simpl. by rewrite app_nil_r. }
  { unfold full. destruct (reading _); simpl; lia. }
  cbn [mbind outcome_bind].
  assert (quietly s s1) as Q2 by (apply (quietly_trans _ _ _ (quietly_ports s (bu_hw_init (ports s)))); done).
  destruct dn.
  { exists 1, s1, b2, []. destruct Hres as [Hfull Hin2]. split; [done|]. split; [done|]. split; [done|].
    split; [done|]. split; [done|]. right. split; [done|]. split; [simpl; lia|].
    exists (bu_request b), rx. split; [done|]. split; [by apply same_request_refl|].
    split; [done|]. split; [apply Hin2|done]. }
  pose proof (same_request_fields _ _ Hsame) as (S1 & _ & S3).
  destruct (IH s1 b2) as (z & s' & b' & lost & -> & Q3 & Hs2 & Hf & Hsl & Hz);
    [by apply (quietly_opening s)|done|by rewrite S1|].
  exists z, s', b', ((bu_request b, rx, ports s1) :: lost). split; [done|].
  split; [by apply (quietly_trans _ _ _ Q2)|]. split; [by apply (same_request_trans _ (bu_request b2))|].
  split; [by constructor|]. split.
  { constructor; [by apply same_request_refl|].
    eapply Forall_impl; [|exact Hsl]. intros a Ha. by apply (same_request_trans _ (bu_request b2)). }
  change (traffic ((bu_request b, rx, ports s1) :: lost)) with (exchange (bu_request b) rx ++ traffic lost).
  destruct Hz as [(-> & Hlen & Hlog)|(-> & Hlen & r & rx' & Hlog & Hsr & Hrest)]; [left|right].
  - split; [done|]. split; [simpl; lia|]. by rewrite Hlog, Hl1, <- app_assoc.
  - split; [done|]. split; [simpl; lia|]. exists r, rx'.
    split; [by rewrite Hlog, Hl1, <- !app_assoc|].
    split; [by apply (same_request_trans _ (bu_request b2))|done].
Qed.

(** ** The properties of the synchronous path *)

(** C15: [bu_check] always returns; it makes at most [N_CHECKS] attempts, gives
    up only after [N_CHECKS] failed ones (a wrong answer, a controller that is
    not ready at the end, or no interrupt in time), and reports success exactly
    when an attempt went through the whole protocol: the traffic of the data
    port is then the dialogue that the protocol prescribes for the request,
    with valid answers, and the bytes of a read are the ones in the buffer. *)
Theorem bu_check_exact s b :
  opening s → wf_request (bu_request b) → 0 <= rcard (bu_request b) < BU_MINORS →
  ∃ z s' b' lost, bu_check s b = Ok (z, s', b') ∧ quietly s s' ∧ Forall failed lost ∧
    ((z = 0 ∧ zlen lost = N_CHECKS ∧
        data_log (ports s') = data_log (ports s) ++ traffic lost) ∨
     (z = 1 ∧ zlen lost < N_CHECKS ∧ ∃ r rx,
        data_log (ports s') = data_log (ports s) ++ traffic lost ++ exchange r rx ∧
        same_request (bu_request b) r ∧ length rx = full r ∧ valid_replies r rx ∧
        (reading r = true → buffer (bu_request b') = received rx))).
Proof.
  intros Ho Hr Hc. unfold bu_check.
  destruct (check_tries_spec (Z.to_nat N_CHECKS) s b Ho Hr Hc)
    as (z & s' & b' & lost & -> & Q & _ & Hf & _ & Hz).
  exists z, s', b', lost. split; [done|]. split; [done|]. split; [done|]. unfold N_CHECKS, zlen in *.
  destruct Hz as [(-> & Hlen & Hl)|(-> & Hlen & r & rx & Hl & Hsr & Hfull & Hv & Hin)]; [left|right].
  - split; [done|]. split; [lia|done].
  - split; [done|]. split; [lia|]. exists r, rx. do 4 (split; [done|]). intros Hm.
    apply same_request_fields in Hsr as (_ & _ & Wr).
    by apply (received_block r rx b' Wr Hm Hin Hfull).
Qed.

(** The request of [bu_read_first_block]. *)
Lemma first_block_request card :
  let r := Breq 0 0 card (replicate (Z.to_nat BU_BLK_SIZE) 0) cR in wf_request r.
Proof.
  constructor; simpl; [by left|done|]. repeat constructor; done.
Qed.

(** The card of slot [card] was read and carries the identification. *)
Definition card_found (l : list port_event) (card : Z) (fb : bu_first_block_t) : Prop :=
  ∃ data, block_done l card 0 cR data ∧ length data = 128%nat ∧
    fb = decode_first_block data ∧ fb_id fb = BU_ID.

Lemma bu_read_first_block_spec card s :
  opening s → 0 <= card < BU_MINORS →
  ∃ z s', bu_read_first_block card s = Ok (z, s') ∧
    data_log (ports s) `prefix_of` data_log (ports s') ∧
    ((z = 0 ∧ quietly s s') ∨
     (z = 1 ∧ ∃ s1 d fb, quietly s s1 ∧ bu_devices s !! Z.to_nat card = Some d ∧
        s' = set_bu_devices (<[Z.to_nat card := BuDevice fb (usage d) (timeout d)]> (bu_devices s)) s1 ∧
        card_found (data_log (ports s')) card fb)).
Proof.
  intros Ho Hc. unfold bu_read_first_block, bu_check.
  destruct (check_tries_spec (Z.to_nat N_CHECKS) s
    (Bu (Breq 0 0 card (replicate (Z.to_nat BU_BLK_SIZE) 0) cR) 0 0 0 0 0 0) Ho
    (first_block_request card) Hc) as (z & s1 & b' & lost & -> & Q & _ & Hf & _ & Hz).
  cbn [mbind outcome_bind].
  destruct Hz as [(-> & _ & Hl)|(-> & _ & r & rx & Hl & Hsr & Hfull & Hv & Hin)]; cbn [Z.eqb].
  { exists 0, s1. split; [done|]. split; [rewrite Hl; by apply prefix_app_r|]. by left. }
  assert (data_log (ports s) `prefix_of` data_log (ports s1)) as Hp by (rewrite Hl; by apply prefix_app_r).
  pose proof Hsr as (Er & _). apply same_request_fields in Hsr as (S1 & S2 & Wr). simpl in S1, S2.
  assert (reading r = true) as Hm by (unfold reading; by rewrite S2).
  destruct (received_block r rx b' Wr Hm Hin Hfull) as (B1 & B2 & B3). rewrite B1.
  destruct (negb (fb_id (decode_first_block (received rx)) =? BU_ID)) eqn:Eid.
  { exists 0, s1. split; [done|]. split; [done|]. by left. }
  apply negb_false_iff, Z.eqb_eq in Eid.
  pose proof (og_devices s Ho) as Hdev. pose proof Q as (st & i & Es1).
  assert (bu_devices s1 = bu_devices s) as Ed by (by rewrite Es1).
  destruct (lookup_lt_is_Some_2 (bu_devices s) (Z.to_nat card)) as [d Hd];
    [unfold BU_MINORS in Hc; lia|].
  unfold device_of. destruct (Z.ltb_spec card 0); [lia|]. rewrite Ed, Hd. cbn [mbind outcome_bind].
  eexists 1, _. split; [done|]. split; [done|]. right. split; [done|].
  exists s1, d, (decode_first_block (received rx)). split; [done|]. split; [done|]. split; [done|].
  exists (received rx). split; [|done].
  exists (data_log (ports s) ++ traffic lost), [], r, rx. simpl. rewrite app_nil_r, <- app_assoc.
  split; [done|]. split; [done|]. split; [done|]. rewrite Hm. rewrite Er. done.
Qed.

(** What the check of a card finds: [kb] is the size in Kbytes. *)
Definition card_size (fb : bu_first_block_t) : Z := s32 (Z.shiftr (fb_size fb) (10 - BU_BLK_SHIFT) - 1).

Definition card_state (card kb : Z) (s' : @drv D) : Prop :=
  bu_sizes s' !! Z.to_nat card = Some kb ∧
  (kb = 0 ∨ ∃ d, bu_devices s' !! Z.to_nat card = Some d ∧
     card_found (data_log (ports s')) card (first_block d) ∧ kb = card_size (first_block d)).

(** The parts of the driver that the check leaves alone. *)
Record unchecked (card : Z) (s s' : @drv D) : Prop := {
  un_lock : bu_lock s' = bu_lock s;
  un_timer : bu_timer s' = bu_timer s;
  un_continue : bu_continue s' = bu_continue s;
  un_queue : queue s' = queue s;
  un_completed : completed s' = completed s;
  un_curr : bu_curr s' = bu_curr s;
  un_devices : length (bu_devices s') = length (bu_devices s);
  un_sizes : length (bu_sizes s') = length (bu_sizes s);
  un_log : data_log (ports s) `prefix_of` data_log (ports s');
  un_others : ∀ j, j ≠ Z.to_nat card →
    bu_sizes s' !! j = bu_sizes s !! j ∧ bu_devices s' !! j = bu_devices s !! j
}.

Lemma check_card_spec card s :
  opening s → length (bu_sizes s) = 2%nat → 0 <= card < BU_MINORS →
  ∃ kb s', check_card card s = Ok (kb, s') ∧ unchecked card s s' ∧ card_state card kb s'.
Proof.
  intros Ho Hsz Hc. unfold check_card.
  assert (Z.to_nat card < 2)%nat as Hlt by (unfold BU_MINORS in Hc; lia).
  destruct (bu_read_first_block_spec card s Ho Hc) as (z & s1 & -> & Hp & Hz). cbn [mbind outcome_bind].
  destruct Hz as [(-> & st & i & ->)|(-> & s2 & d & fb & (st & i & ->) & Hd & -> & Hfound)]; cbn [Z.eqb].
  - eexists _, _. split; [done|]. split.
    { constructor; simpl; try done; [by rewrite length_insert|].
      intros j Hj. by rewrite list_lookup_insert_ne. }
    split; [|by left]. apply list_lookup_insert_eq. simpl. lia.
  - unfold device_of. destruct (Z.ltb_spec card 0); [lia|].
    cbn [bu_devices set_bu_devices]. rewrite list_lookup_insert_eq by (rewrite (og_devices s Ho); lia).
    cbn [mbind outcome_bind first_block]. eexists _, _. split; [done|].
    split.
    { constructor; simpl; try done; [by rewrite length_insert..|].
      intros j Hj. by rewrite !list_lookup_insert_ne. }
    split; [apply list_lookup_insert_eq; simpl; lia|]. right.
    exists (BuDevice fb (usage d) (timeout d)). simpl.
    split; [apply list_lookup_insert_eq; rewrite (og_devices s Ho); lia|]. done.
Qed.

(** Taking the lock: the events of the sleeps are handled meanwhile. *)
Lemma bu_catch_spec n sleeps s :
  driver_inv s → Forall (Forall wf_event) sleeps →
  ∃ z s1, bu_catch n sleeps s = Ok (z, s1) ∧ completed s `prefix_of` completed s1 ∧
    ((z = 0 ∧ driver_inv s1) ∨
     (z = 1 ∧ ∃ s0, driver_inv s0 ∧ idle s0 ∧ s1 = set_bu_lock true s0)).
Proof.
  intros Hs Hes. revert sleeps s Hs Hes. induction n as [|n IH]; intros sleeps s Hs Hes; cbn [bu_catch].
  { exists 0, s. split; [done|]. split; [done|]. by left. }
  destruct (bu_lock s) eqn:El.
  - assert (Forall wf_event (hd [] sleeps) ∧ Forall (Forall wf_event) (tl sleeps)) as [H1 H2].
    { destruct Hes; simpl; auto. }
    destruct (handle_all_inv (hd [] sleeps) s Hs H1) as (s1 & -> & K1 & K2). cbn [mbind outcome_bind].
    destruct (IH (tl sleeps) s1 K1 H2) as (z & s2 & -> & K3 & K4). exists z, s2.
    split; [done|]. split; [by etrans|done].
  - exists 1, (set_bu_lock true s). split; [done|]. split; [done|]. right. split; [done|].
    exists s. split; [done|]. split; [|done]. destruct Hs as (_ & _ & [Hi|(req & _ & Hv & _)]); [done|].
    pose proof (sv_lock _ _ Hv). congruence.
Qed.

(** A check between taking and releasing the lock. *)
Lemma check_locked card s t :
  driver_inv s → idle s → 0 <= card < BU_MINORS →
  ∃ kb s', check_card card (set_bu_total t (begin_check card (set_bu_lock true s))) = Ok (kb, s') ∧
    driver_inv (end_check s') ∧ idle (end_check s') ∧ card_state card kb (end_check s') ∧
    completed (end_check s') = completed s ∧ queue (end_check s') = queue s ∧
    data_log (ports s) `prefix_of` data_log (ports (end_check s')) ∧
    (∀ j, j ≠ Z.to_nat card → bu_sizes (end_check s') !! j = bu_sizes s !! j ∧
       bu_devices (end_check s') !! j = bu_devices s !! j).
Proof.
  intros ([D0 D1 D2 D3 D4 D5 D6] & Hcont & _) [I1 I2 I3] Hc.
  destruct (check_card_spec card (set_bu_total t (begin_check card (set_bu_lock true s))))
    as (kb & s' & -> & [U1 U2 U3 U4 U5 U6 U7 U8 [k U9] U10] & Hcs); [constructor; simpl; done || lia|done|done|].
  simpl in *. exists kb, s'. split; [done|].
  assert (idle (end_check s')) as Hi by (constructor; simpl; [done|done|congruence]).
  split; [|split; [done|split; [done|split; [done|split; [done|split; [by exists k|done]]]]]].
  split; [|split; [simpl; congruence|by left]]. constructor; simpl; rewrite ?U4, ?U5, ?U6, ?U7, ?U8, ?U9; try done. by apply completions_app.
Qed.

(** C40: [bu_revalidate] returns in every state of the driver and whatever
    happens while it waits for the lock.  It either gives up with [-EBUSY]
    and leaves the driver consistent, or it frees the lock again, and then
    [bu_sizes] of the card is the size it found: 0 if no card was found, or
    the size in Kbytes that the first block states, less the reserved one,
    where that block was really read, with valid answers and checksum, and
    carries [BU_ID].  The result is [-ENODEV] exactly for the size 0. *)
Theorem bu_revalidate_correct dev sleeps s :
  driver_inv s → Forall (Forall wf_event) sleeps → DEVICE_NR dev < BU_MINORS →
  ∃ ret s', bu_revalidate dev sleeps s = Ok (ret, s') ∧ driver_inv s' ∧
    completed s `prefix_of` completed s' ∧
    (ret = - EBUSY ∨
     idle s' ∧ ∃ kb, card_state (DEVICE_NR dev) kb s' ∧
       ret = if kb =? 0 then - ENODEV else 0).
Proof.
  intros Hs Hes Hlt. pose proof (device_nr_nonneg dev). unfold bu_revalidate.
  destruct (bu_catch_spec (Z.to_nat N_CHECKS) sleeps s Hs Hes) as (z & s1 & -> & Hp & Hz).
  cbn [mbind outcome_bind].
  destruct Hz as [(-> & Hinv)|(-> & s0 & H0 & Hi & ->)]; cbn [Z.eqb].
  { exists (- EBUSY), s1. split; [done|]. split; [done|]. split; [done|]. by left. }
  destruct (check_locked (DEVICE_NR dev) s0 0 H0 Hi ltac:(lia))
    as (kb & s' & E & K1 & K2 & K3 & K4 & _). cbn [DEVICE_NR] in E. rewrite E. cbn [mbind outcome_bind].
  exists (if kb =? 0 then - ENODEV else 0), (end_check s'). split; [by destruct (kb =? 0)|].
  split; [done|]. split; [by rewrite K4|]. right. split; [done|]. by exists kb.
Qed.

(** One slot at boot time. *)
Lemma detect_card_spec card s :
  driver_inv s → idle s → 0 <= card < BU_MINORS →
  ∃ s' kb, detect_card card s = Ok s' ∧ driver_inv s' ∧ idle s' ∧ card_state card kb s' ∧
    completed s' = completed s ∧ data_log (ports s) `prefix_of` data_log (ports s') ∧
    (∀ j, j ≠ Z.to_nat card → bu_sizes s' !! j = bu_sizes s !! j ∧
       bu_devices s' !! j = bu_devices s !! j).
Proof.
  intros Hs Hi Hc. unfold detect_card. change (Z.to_nat N_CHECKS) with 10%nat. cbn [bu_catch].
  rewrite (id_lock s Hi). cbn [mbind outcome_bind Z.eqb].
  destruct (check_locked card s (bu_total s) Hs Hi Hc) as (kb & s' & E & K1 & K2 & K3 & K4 & _ & K5 & K6).
  replace (set_bu_total (bu_total s) (begin_check card (set_bu_lock true s)))
    with (begin_check card (set_bu_lock true s)) in E by (by destruct s).
  rewrite E. cbn [mbind outcome_bind]. by exists (end_check s'), kb.
Qed.

Lemma card_found_grows l l' card fb : l `prefix_of` l' → card_found l card fb → card_found l' card fb.
Proof.
  intros [k ->] (data & Hb & H). exists data. split; [by apply block_done_app|done].
Qed.

(** after a successful registration [bu_init] leaves the driver idle, with
    every slot checked: the size of each is the one of the card in it, or 0;
    a failure of [register_blkdev] or [request_irq] is reported and no port is
    touched. *)
Theorem bu_init_correct registered irq s :
  driver_inv s → idle s →
  ∃ ret s', bu_init registered irq s = Ok (ret, s') ∧ driver_inv s' ∧ idle s' ∧
    (if c_true registered then ret = - EBUSY ∧ s' = s
     else if irq <? 0 then ret = irq ∧ ports s' = ports s
     else ret = 0 ∧ ∀ card, 0 <= card < BU_MINORS → ∃ kb, card_state card kb s').
Proof.
  intros Hs Hi. unfold bu_init. destruct (c_true registered).
  { exists (- EBUSY), s. done. }
  pose proof Hs as ([D0 D1 D2 D3 D4 D5 D6] & Hc & _). pose proof Hi as [I1 I2 I3].
  match goal with |- context [if irq <? 0 then Ok (irq, ?t) else _] => set (s1 := t) end.
  assert (idle s1) as Hi1 by done. assert (driver_inv s1) as Hs1.
  { split; [|split; [done|by left]]. constructor; simpl; try done. by rewrite length_fmap. }
  destruct (irq <? 0). { exists irq, s1. done. }
  assert (driver_inv (set_bu_total 0 s1)) as Hs2.
  { destruct Hs1 as ([] & ? & _). split; [by constructor|]. split; [done|by left]. }
  assert (idle (set_bu_total 0 s1)) as Hi2 by done.
  destruct (detect_card_spec 0 (set_bu_total 0 s1) Hs2 Hi2) as (s2 & kb0 & -> & A1 & A2 & A3 & A4 & A5 & A6);
    [done|]. cbn [mbind outcome_bind].
  destruct (detect_card_spec 1 s2 A1 A2) as (s3 & kb1 & -> & B1 & B2 & B3 & B4 & B5 & B6); [done|].
  cbn [mbind outcome_bind]. exists 0, s3. split; [done|]. split; [done|]. split; [done|]. split; [done|].
  intros card Hcard. unfold BU_MINORS in Hcard. assert (card = 0 ∨ card = 1) as [-> | ->] by lia.
  - exists kb0. destruct (B6 (Z.to_nat 0) ltac:(done)) as [E1 E2]. destruct A3 as [C1 C2].
    split; [by rewrite E1|]. destruct C2 as [->|(d & F1 & F2 & F3)]; [by left|]. right.
    exists d. split; [by rewrite E2|]. split; [by eapply card_found_grows|done].
  - by exists kb1.
Qed.

End open.

(** ** Witnesses on the concrete card *)

(** The card is checked. *)
Definition demo_opening : @drv card_sim :=
  begin_check 0 (set_bu_lock true (demo_driver 0)).

Lemma demo_opening_ok : opening demo_opening.
Proof. by constructor. Qed.

Definition always (_ : card_sim) : bool := true.
Definition never (_ : card_sim) : bool := false.

Definition demo_bu : bu_t := Bu (Breq 0 0 0 (replicate 128 0) cR) 0 0 0 0 0 0.

Definition check_result (o : outcome (Z * @drv card_sim * bu_t)) : option (Z * list Z) :=
  match o with Ok (z, _, b) => Some (z, buffer (bu_request b)) | Trap _ => None end.

(** With a card that answers the first block is read; without interrupts
    every attempt fails. *)
Lemma bu_check_exact_witness :
  (∃ z s' b' lost, bu_check always demo_opening demo_bu = Ok (z, s', b') ∧
     quietly demo_opening s' ∧ Forall (failed always) lost) ∧
  check_result (bu_check always demo_opening demo_bu) = Some (1, demo_first) ∧
  check_result (bu_check never demo_opening demo_bu) = Some (0, replicate 128 0).
Proof.
  split; [|split; vm_compute; reflexivity].
  destruct (bu_check_exact always demo_opening demo_bu) as (z & s' & b' & lost & E & Q & F & _).
  - exact demo_opening_ok.
  - exact (first_block_request 0).
  - split; [discriminate|reflexivity].
  - exists z, s', b', lost. exact (conj E (conj Q F)).
Defined.

Definition open_result (o : outcome (Z * @drv card_sim)) : option (Z * list Z * bool) :=
  match o with Ok (z, s) => Some (z, bu_sizes s, bu_lock s) | Trap _ => None end.

Lemma bu_revalidate_correct_witness :
  (∃ ret s', bu_revalidate always (BU_MAJOR * 256 + 1) [] (demo_driver 0) = Ok (ret, s') ∧ driver_inv s') ∧
  open_result (bu_revalidate always (BU_MAJOR * 256 + 1) [] (demo_driver 0)) = Some (0, [127; 127], false) ∧
  open_result (bu_revalidate never (BU_MAJOR * 256 + 1) [] (demo_driver 0)) =
    Some (- ENODEV, [127; 0], false).
Proof.
  split; [|split; vm_compute; reflexivity].
  destruct (bu_revalidate_correct always (BU_MAJOR * 256 + 1) [] (demo_driver 0))
    as (ret & s' & E & H & _).
  - exact (proj1 (demo_driver_inv 0)).
  - constructor.
  - reflexivity.
  - exists ret, s'. exact (conj E H).
Defined.

Lemma bu_init_correct_witness :
  (∃ ret s', bu_init always 0 3 (demo_driver 0) = Ok (ret, s') ∧ driver_inv s' ∧ idle s') ∧
  open_result (bu_init always 0 3 (demo_driver 0)) = Some (0, [127; 127], false).
Proof.
  split; [|vm_compute; reflexivity].
  destruct (bu_init_correct always 0 3 (demo_driver 0)) as (ret & s' & E & H & Hi & _).
  - exact (proj1 (demo_driver_inv 0)).
  - exact (proj2 (demo_driver_inv 0)).
  - exists ret, s'. exact (conj E (conj H Hi)).
Defined.

(** Opening counts the users and refuses an absent card and an unknown one. *)
Example open_results :
  open_result (bu_do_open always (BU_MAJOR * 256) [] (demo_driver 0)) = Some (0, [127; 127], false) ∧
  open_result (bu_do_open never (BU_MAJOR * 256) [] (demo_driver 0)) =
    Some (- ENXIO, [0; 127], false) ∧
  open_result (bu_do_open always (BU_MAJOR * 256 + 2) [] (demo_driver 0)) =
    Some (- ENODEV, [127; 127], false).
Proof. split; [|split]; vm_compute; reflexivity. Qed.
