(* ===== verification/PosixLock.v ===== *)
(** File locks, [fs/locks.c]: POSIX record locks with their merging and
    splitting, FLOCK locks, the conflict and deadlock tests and the removal of
    locks on close.

    The [file_lock] structures live in a store indexed by address, since
    [posix_lock_file] rewrites them through aliases ([caller] may point to a
    structure in the inode's list); the list [i_flock] is a list of addresses.
    A process that has to wait for a conflicting lock leaves the function in
    the state [Sleeps]; it goes on with [posix_lock_wake]. *)

From S2P Require Import Prelude Errno.

(** ** Constants and data *)

Definition F_RDLCK : Z := 0.
Definition F_WRLCK : Z := 1.
Definition F_UNLCK : Z := 2.
Definition FL_POSIX : Z := 1.
Definition FL_FLOCK : Z := 2.
Definition FL_ACCESS : Z := 8.
Definition FL_LEASE : Z := 32.
Definition LOCK_SH : Z := 1.
Definition LOCK_EX : Z := 2.
Definition LOCK_NB : Z := 4.
Definition LOCK_UN : Z := 8.
Definition LOCK_MAND : Z := 32.
Definition LOCK_READ : Z := 64.
Definition LOCK_WRITE : Z := 128.
Definition LOCK_RW : Z := 192.
Definition OFFSET_MAX : Z := 2 ^ 63 - 1.
Definition OFFT_OFFSET_MAX : Z := 2 ^ 31 - 1.

Record file_lock := FileLock {
  fl_owner : Z; fl_pid : Z; fl_file : Z; fl_flags : Z; fl_type : Z;
  fl_start : Z; fl_end : Z
}.

Definition set_fl_type (v : Z) (f : file_lock) : file_lock :=
  FileLock (fl_owner f) (fl_pid f) (fl_file f) (fl_flags f) v (fl_start f) (fl_end f).
Definition set_fl_start (v : Z) (f : file_lock) : file_lock :=
  FileLock (fl_owner f) (fl_pid f) (fl_file f) (fl_flags f) (fl_type f) v (fl_end f).
Definition set_fl_end (v : Z) (f : file_lock) : file_lock :=
  FileLock (fl_owner f) (fl_pid f) (fl_file f) (fl_flags f) (fl_type f) (fl_start f) v.

(** [fl_store]: the structures; [i_flock]: the locks of the inode;
    [blocked]: the waiting processes with the lock each waits for, the newest
    first ([blocked_list] and the lists [fl_block]); [woken]: the processes
    that have been notified. *)
Record locks := Locks {
  fl_store : gmap Z file_lock; i_flock : list Z; blocked : list (Z * Z); woken : list Z
}.

Definition set_store (m : gmap Z file_lock) (w : locks) : locks :=
  Locks m (i_flock w) (blocked w) (woken w).
Definition set_flock (l : list Z) (w : locks) : locks :=
  Locks (fl_store w) l (blocked w) (woken w).

Definition get (a : Z) (w : locks) : outcome file_lock :=
  match fl_store w !! a with Some f => Ok f | None => Trap Fault end.

Definition upd (a : Z) (g : file_lock → file_lock) (w : locks) : outcome locks :=
  f ← get a w; Ok (set_store (<[a := g f]> (fl_store w)) w).

Definition has_flag (f : file_lock) (flag : Z) : bool := c_true (Z.land (fl_flags f) flag).

(** ** Helpers *)

(** [locks_copy_lock]: every field but the list links. *)
Definition locks_copy_lock (new a : Z) (w : locks) : outcome locks :=
  f ← get a w; Ok (set_store (<[new := f]> (fl_store w)) w).

Definition locks_overlap (fl1 fl2 : file_lock) : bool :=
  (fl_start fl2 <=? fl_end fl1) && (fl_start fl1 <=? fl_end fl2).

Definition locks_same_owner (fl1 fl2 : file_lock) : bool :=
  (fl_owner fl1 =? fl_owner fl2) && (fl_pid fl1 =? fl_pid fl2).

Definition locks_delete_block (waiter : Z) (w : locks) : locks :=
  Locks (fl_store w) (i_flock w) (filter (λ p, p.1 ≠ waiter) (blocked w)) (woken w).

Definition locks_insert_block (blocker waiter : Z) (w : locks) : locks :=
  let w := locks_delete_block waiter w in
  Locks (fl_store w) (i_flock w) ((waiter, blocker) :: blocked w) (woken w).

(** [locks_wake_up_blocks (blocker, 0)]: in the order in which they blocked. *)
Definition locks_wake_up_blocks (blocker : Z) (w : locks) : locks :=
  Locks (fl_store w) (i_flock w) (filter (λ p, p.2 ≠ blocker) (blocked w))
    (woken w ++ reverse (fst <$> filter (λ p, p.2 = blocker) (blocked w))).

(** [locks_delete_lock (.., 0)] once the lock is out of the list. *)
Definition locks_delete_lock (a : Z) (w : locks) : locks :=
  let w := locks_wake_up_blocks a w in
  set_store (delete a (fl_store w)) w.

Definition locks_conflict (caller_fl sys_fl : file_lock) : bool :=
  if fl_type caller_fl =? F_RDLCK then fl_type sys_fl =? F_WRLCK
  else if fl_type caller_fl =? F_WRLCK then true
  else false.

Definition posix_locks_conflict (caller_fl sys_fl : file_lock) : bool :=
  if negb (has_flag sys_fl FL_POSIX) || locks_same_owner caller_fl sys_fl then false
  else if negb (locks_overlap caller_fl sys_fl) then false
  else locks_conflict caller_fl sys_fl.

Definition flock_locks_conflict (caller_fl sys_fl : file_lock) : bool :=
  if negb (has_flag sys_fl FL_FLOCK) || (fl_file caller_fl =? fl_file sys_fl) then false
  else if c_true (Z.land (fl_type caller_fl) LOCK_MAND) || c_true (Z.land (fl_type sys_fl) LOCK_MAND)
  then false
  else locks_conflict caller_fl sys_fl.

(** The first lock of the list that satisfies a test. *)
Fixpoint find_lock (p : file_lock → bool) (l : list Z) (w : locks) : outcome (option Z) :=
  match l with
  | [] => Ok None
  | a :: l => f ← get a w; if p f then Ok (Some a) else find_lock p l w
  end.

Definition posix_test_lock (fl : file_lock) (w : locks) : outcome (option Z) :=
  find_lock (λ cfl, has_flag cfl FL_POSIX && posix_locks_conflict cfl fl) (i_flock w) w.

(** [posix_locks_deadlock]: follow the chain of blocked owners. *)
Fixpoint deadlock_from (fuel : nat) (c : file_lock) (owner pid : Z) (w : locks) : outcome bool :=
  match fuel with
  | O => Trap Fuel
  | S fuel =>
      if (fl_owner c =? owner) && (fl_pid c =? pid) then Ok true else
      waiter ← find_lock (λ f, (fl_owner f =? owner) && (fl_pid f =? pid)) (fst <$> blocked w) w;
      match waiter with
      | None => Ok false
      | Some a =>
          match list_find (λ p, p.1 = a) (blocked w) with
          | None => Trap Fault
          | Some (_, (_, b)) => f ← get b w; deadlock_from fuel c (fl_owner f) (fl_pid f) w
          end
      end
  end.

Definition posix_locks_deadlock (fuel : nat) (caller_fl block_fl : file_lock) (w : locks) : outcome bool :=
  deadlock_from fuel caller_fl (fl_owner block_fl) (fl_pid block_fl) w.

(** ** [posix_lock_file] *)

(** The loop over the locks of the owner.  [pre] are the locks before the
    position [before] points to, [rest] the ones from there on. *)
Record loop_end := LoopEnd {
  le_w : locks; le_pre : list Z; le_rest : list Z; le_caller : Z; le_added : bool;
  le_left : option Z; le_right : option Z
}.

Fixpoint posix_loop (w : locks) (pre rest : list Z) (caller : Z) (added : bool)
    (lft : option Z) : outcome loop_end :=
  match rest with
  | [] => Ok (LoopEnd w pre [] caller added lft None)
  | a :: rest' =>
      fl ← get a w;
      c ← get caller w;
      if negb (locks_same_owner c fl) then Ok (LoopEnd w pre rest caller added lft None)
      else if fl_type c =? fl_type fl then
        if fl_end fl <? s64 (fl_start c - 1)
        then posix_loop w (pre ++ [a]) rest' caller added lft
        else if s64 (fl_end c + 1) <? fl_start fl
        then Ok (LoopEnd w pre rest caller added lft None)
        else
          w ← (if fl_start c <? fl_start fl then upd a (set_fl_start (fl_start c)) w
               else upd caller (set_fl_start (fl_start fl)) w);
          w ← (if fl_end fl <? fl_end c then upd a (set_fl_end (fl_end c)) w
               else upd caller (set_fl_end (fl_end fl)) w);
          if (added : bool) then posix_loop (locks_delete_lock a w) pre rest' caller added lft
          else posix_loop w (pre ++ [a]) rest' a true lft
      else
        if fl_end fl <? fl_start c then posix_loop w (pre ++ [a]) rest' caller added lft
        else if fl_end c <? fl_start fl then Ok (LoopEnd w pre rest caller added lft None)
        else
          let added := if fl_type c =? F_UNLCK then true else added in
          let lft := if fl_start fl <? fl_start c then Some a else lft in
          if fl_end c <? fl_end fl then Ok (LoopEnd w pre rest caller added lft (Some a))
          else if fl_start c <=? fl_start fl then
            if (added : bool) then posix_loop (locks_delete_lock a w) pre rest' caller added lft
            else
              let w := locks_wake_up_blocks a w in
              w ← upd a (λ f, set_fl_type (fl_type c) (set_fl_end (fl_end c)
                                (set_fl_start (fl_start c) f))) w;
              posix_loop w (pre ++ [a]) rest' a true lft
          else posix_loop w (pre ++ [a]) rest' caller added lft
  end.

(** After the loop: the insertion of the new lock and the split of an old one. *)
Definition posix_finish (new_fl new_fl2 : Z) (e : loop_end) : outcome locks :=
  let w := le_w e in
  let caller := le_caller e in
  c ← get caller w;
  if negb (le_added e) && (fl_type c =? F_UNLCK)
  then Ok (set_flock (le_pre e ++ le_rest e) w) else
  '(w, rest) ← (if le_added e then Ok (w, le_rest e)
                else w ← locks_copy_lock new_fl caller w; Ok (w, new_fl :: le_rest e)
                : outcome (locks * list Z));
  '(w, rest, lft) ←
    (match le_right e with
     | None => Ok (w, rest, le_left e)
     | Some rgt =>
         '(w, rest, lft) ←
           (if decide (le_left e = Some rgt)
            then w ← locks_copy_lock new_fl2 rgt w; Ok (w, new_fl2 :: rest, Some new_fl2)
            else Ok (w, rest, le_left e) : outcome (locks * list Z * option Z));
         c ← get caller w;
         w ← upd rgt (set_fl_start (s64 (fl_end c + 1))) w;
         Ok (locks_wake_up_blocks rgt w, rest, lft)
     end : outcome (locks * list Z * option Z));
  w ← (match lft with
       | None => Ok w
       | Some lft =>
           c ← get caller w;
           w ← upd lft (set_fl_end (s64 (fl_start c - 1))) w;
           Ok (locks_wake_up_blocks lft w)
       end : outcome locks);
  Ok (set_flock (le_pre e ++ rest) w).

(** The locks of other owners are skipped. *)
Fixpoint skip_others (c : file_lock) (pre rest : list Z) (w : locks) : outcome (list Z * list Z) :=
  match rest with
  | [] => Ok (pre, [])
  | a :: rest' =>
      fl ← get a w;
      if negb (has_flag fl FL_POSIX) || negb (locks_same_owner c fl)
      then skip_others c (pre ++ [a]) rest' w else Ok (pre, rest)
  end.

Definition posix_apply (caller new_fl new_fl2 : Z) (w : locks) : outcome locks :=
  c ← get caller w;
  '(pre, rest) ← skip_others c [] (i_flock w) w;
  e ← posix_loop w pre rest caller false None;
  posix_finish new_fl new_fl2 e.

Inductive lock_result :=
| Returns (error : Z) (w : locks)
| Sleeps (w : locks).

(** One pass from [repeat:] on. *)
Definition posix_lock_pass (fuel : nat) (caller new_fl new_fl2 : Z) (wait : bool) (w : locks)
    : outcome lock_result :=
  c ← get caller w;
  conflict ← (if fl_type c =? F_UNLCK then Ok None
              else find_lock (λ fl, has_flag fl FL_POSIX && posix_locks_conflict c fl)
                     (i_flock w) w : outcome (option Z));
  match conflict with
  | Some a =>
      if negb wait then Ok (Returns (- EAGAIN) w) else
      fl ← get a w;
      dead ← posix_locks_deadlock fuel c fl w;
      if (dead : bool) then Ok (Returns (- EDEADLK) w)
      else Ok (Sleeps (locks_insert_block a caller w))
  | None => w ← posix_apply caller new_fl new_fl2 w; Ok (Returns 0 w)
  end.

(** The function, with the results of the two allocations. *)
Definition posix_lock_file (fuel : nat) (caller : Z) (new_fl new_fl2 : option Z) (wait : bool)
    (w : locks) : outcome lock_result :=
  match new_fl, new_fl2 with
  | Some n1, Some n2 => posix_lock_pass fuel caller n1 n2 wait w
  | _, _ => Ok (Returns (- ENOLCK) w)
  end.

(** The rest of [locks_block_on] after the sleep, with its result. *)
Definition posix_lock_wake (fuel : nat) (result caller new_fl new_fl2 : Z) (w : locks)
    : outcome lock_result :=
  let w := locks_delete_block caller w in
  if c_true result then Ok (Returns result w)
  else posix_lock_pass fuel caller new_fl new_fl2 true w.
