(* ===== verification/LockSim.v ===== *)
(** Record locks as regions of bytes.

    The reference definition of a lock request works on the sorted list of an
    owner's regions ([set_region]); it sets the type of the bytes of the request
    and of no other ([set_region_held]).  The section [simulation] shows that
    the loop of [posix_lock_file] and the insertions after it, which rewrite
    aliased structures in place, compute that definition ([sim_set]). *)

From S2P Require Import Prelude Errno PosixLock.

(** ** Regions: the reference definition

    What the locks of one owner say of each byte, and the same operation on a
    plain list of regions. *)

Record region := Rg { ty : Z; lo : Z; hi : Z }.

Definition inside (r : region) (x : Z) : bool := (lo r <=? x) && (x <=? hi r).

(** The type of lock held on byte [x]. *)
Fixpoint held (l : list region) (x : Z) : option Z :=
  match l with
  | [] => None
  | r :: l => if inside r x then Some (ty r) else held l x
  end.

(** Sorted, disjoint and maximal regions, after one of type [pt] ending in [ph]. *)
Fixpoint regions_after (pt ph : Z) (l : list region) : Prop :=
  match l with
  | [] => True
  | r :: l => (ty r = F_RDLCK ∨ ty r = F_WRLCK) ∧ lo r <= hi r <= OFFSET_MAX ∧ ph < lo r ∧
              (pt = ty r → ph + 1 < lo r) ∧ regions_after (ty r) (hi r) l
  end.

Definition regions_ok (l : list region) : Prop := regions_after (-1) (-1) l.

(** Region [s..e] of type [t] has been placed; absorb what it covers. *)
Fixpoint absorb (t s e : Z) (l : list region) : list region :=
  match l with
  | [] => [Rg t s e]
  | r :: l' =>
      if ty r =? t then
        if e + 1 <? lo r then Rg t s e :: l else absorb t s (Z.max e (hi r)) l'
      else if e <? lo r then Rg t s e :: l
      else if e <? hi r then Rg t s e :: Rg (ty r) (e + 1) (hi r) :: l'
      else absorb t s e l'
  end.

Definition fresh_region (t s e : Z) : list region := if t =? F_UNLCK then [] else [Rg t s e].

(** Set the bytes [s..e] to the type [t]. *)
Fixpoint set_region (t s e : Z) (l : list region) : list region :=
  match l with
  | [] => fresh_region t s e
  | r :: l' =>
      if ty r =? t then
        if hi r <? s - 1 then r :: set_region t s e l'
        else if e + 1 <? lo r then fresh_region t s e ++ l
        else absorb t (Z.min s (lo r)) (Z.max e (hi r)) l'
      else if hi r <? s then r :: set_region t s e l'
      else if e <? lo r then fresh_region t s e ++ l
      else if e <? hi r then
        (if lo r <? s then [Rg (ty r) (lo r) (s - 1)] else []) ++
        fresh_region t s e ++ Rg (ty r) (e + 1) (hi r) :: l'
      else if lo r <? s then Rg (ty r) (lo r) (s - 1) :: set_region t s e l'
      else if t =? F_UNLCK then set_region t s e l' else absorb t s e l'
  end.

(** The test [caller->fl_end + 1] of the merging code does not wrap around, or
    is not reached: no region of the same type touches the new one. *)
Definition no_wrap (t s e : Z) (l : list region) : Prop :=
  e < OFFSET_MAX ∨ Forall (λ r, ty r = t → hi r < s - 1) l.

Lemma no_wrap_tail t s e r l : no_wrap t s e (r :: l) → no_wrap t s e l.
Proof. intros [?|H]; [by left|right]. by apply Forall_cons_1 in H as [_ ?]. Qed.

(** Regions follow the one that ends in [ph], so it does not end at the limit. *)
Lemma no_wrap_after t s e qt ph l :
  e < OFFSET_MAX ∨ e <= ph → regions_after qt ph l → no_wrap t s e l.
Proof.
  intros H. destruct l as [|r l]; [by right|]. intros (_ & H2 & H3 & _). left. unfold OFFSET_MAX in *. lia.
Qed.

(** What a lock request means: the new type on the range, nothing else. *)
Definition overlay (t s e : Z) (f : Z → option Z) (x : Z) : option Z :=
  if (s <=? x) && (x <=? e) then (if t =? F_UNLCK then None else Some t) else f x.

Lemma regions_after_weaken pt ph pt' ph' l :
  regions_after pt ph l → ph' <= ph → (pt' = pt ∨ ph' < ph) → regions_after pt' ph' l.
Proof.
  destruct l as [|r l]; simpl; [done|]. intros (H1 & H2 & H3 & H4 & H5) Hle Hor.
  split; [done|]. split; [done|]. split; [lia|]. split; [|done].
  intros E. destruct Hor as [<-|]; [|lia]. specialize (H4 E). lia.
Qed.

Lemma held_after pt ph l x : regions_after pt ph l → x <= ph → held l x = None.
Proof.
  revert pt ph. induction l as [|r l IH]; simpl; intros pt ph H Hx; [done|].
  destruct H as (_ & H2 & H3 & _ & H5). unfold inside.
  destruct (Z.leb_spec (lo r) x); [lia|]. simpl. eapply IH; [done|lia].
Qed.

(** Membership in lists of addresses. *)
Ltac split_nin H := rewrite ?not_elem_of_cons in H; rewrite ?not_elem_of_app in H.
Ltac mem_ids := rewrite ?not_elem_of_cons, ?elem_of_cons in *; tauto.

Ltac regions :=
  repeat match goal with
  | |- context [Z.eqb ?a ?b] => destruct (Z.eqb_spec a b)
  | |- context [Z.ltb ?a ?b] => destruct (Z.ltb_spec a b)
  | |- context [Z.leb ?a ?b] => destruct (Z.leb_spec a b)
  end; simpl; try done; try lia; try congruence.

Lemma unlck_type t : t = F_RDLCK ∨ t = F_WRLCK → (t =? F_UNLCK) = false.
Proof. by intros [-> | ->]. Qed.

Lemma absorb_held t s e l qt ph x :
  (t = F_RDLCK ∨ t = F_WRLCK) → s <= e → s <= ph → regions_after qt ph l →
  held (absorb t s e l) x = overlay t s e (held l) x.
Proof.
  intros Ht. revert e qt ph. induction l as [|r l IH]; intros e qt ph He Hph Hl; simpl.
  - unfold overlay, inside. rewrite unlck_type by done. simpl. by destruct (_ && _).
  - destruct Hl as (H1 & H2 & H3 & H4 & H5).
    destruct (Z.eqb_spec (ty r) t) as [E|E].
    + destruct (Z.ltb_spec (e + 1) (lo r)).
      * simpl. unfold overlay, inside. rewrite unlck_type by done. simpl. by destruct (_ && _).
      * rewrite (IH (Z.max e (hi r)) (ty r) (hi r)) by (done || lia).
        unfold overlay, inside. rewrite unlck_type, E by done. regions.
    + destruct (Z.ltb_spec e (lo r)); [|destruct (Z.ltb_spec e (hi r))].
      * simpl. unfold overlay, inside. rewrite unlck_type by done. simpl. by destruct (_ && _).
      * simpl. unfold overlay, inside. rewrite unlck_type by done. simpl. regions.
      * rewrite (IH e (ty r) (hi r)) by (done || lia).
        unfold overlay, inside. rewrite unlck_type by done. regions.
Qed.

Lemma absorb_ok t s e l qt ph pt p :
  (t = F_RDLCK ∨ t = F_WRLCK) → s <= e <= OFFSET_MAX → s <= ph → regions_after qt ph l →
  p < s → (pt = t → p + 1 < s) → regions_after pt p (absorb t s e l).
Proof.
  intros Ht. revert e qt ph. induction l as [|r l IH]; intros e qt ph He Hph Hl Hp Hpt; simpl; [done|].
  destruct Hl as (H1 & H2 & H3 & H4 & H5).
  destruct (Z.eqb_spec (ty r) t) as [E|E].
  - destruct (Z.ltb_spec (e + 1) (lo r)); [|by apply (IH _ (ty r) (hi r)); try done; lia].
    simpl. do 4 (split; [done|]). split; [done|]. split; [done|]. split; [lia|]. split; [lia|done].
  - destruct (Z.ltb_spec e (lo r)); [|destruct (Z.ltb_spec e (hi r))].
    + simpl. do 4 (split; [done|]). split; [done|]. split; [done|]. split; [lia|]. split; [congruence|done].
    + simpl. do 4 (split; [done|]). split; [done|]. split; [lia|]. split; [lia|]. split; [congruence|done].
    + by apply (IH _ (ty r) (hi r)); try done; lia.
Qed.

Lemma fresh_held t s e l x :
  held (fresh_region t s e ++ l) x =
  if (s <=? x) && (x <=? e) && negb (t =? F_UNLCK) then Some t else held l x.
Proof. unfold fresh_region. destruct (t =? F_UNLCK); simpl; unfold inside; simpl; by rewrite ?andb_false_r, ?andb_true_r. Qed.

Definition lock_type (t : Z) : Prop := t = F_RDLCK ∨ t = F_WRLCK ∨ t = F_UNLCK.

Lemma set_region_held t s e l qt ph x :
  lock_type t → s <= e → regions_after qt ph l →
  held (set_region t s e l) x = overlay t s e (held l) x.
Proof.
  intros Ht He. revert qt ph. induction l as [|r l IH]; intros qt ph Hl; simpl.
  { rewrite <- (app_nil_r (fresh_region t s e)), fresh_held. unfold overlay. simpl.
    destruct (s <=? x), (x <=? e), (t =? F_UNLCK); done. }
  destruct Hl as (H1 & H2 & H3 & H4 & H5). specialize (IH _ _ H5).
  pose proof (held_after _ _ _ x H5) as Hbelow.
  destruct (Z.eqb_spec (ty r) t) as [E|E].
  - assert (t = F_RDLCK ∨ t = F_WRLCK) as Ht' by (by rewrite <- E).
    destruct (Z.ltb_spec (hi r) (s - 1)); [simpl; rewrite IH; unfold overlay, inside; regions|].
    destruct (Z.ltb_spec (e + 1) (lo r)).
    { rewrite fresh_held, unlck_type by done. unfold overlay, inside. simpl.
      rewrite unlck_type, andb_true_r by done. unfold inside. by destruct (_ && _). }
    rewrite (absorb_held _ _ _ _ (ty r) (hi r)) by (done || lia).
    unfold overlay, inside. rewrite unlck_type, E by done. regions.
  - destruct (Z.ltb_spec (hi r) s); [simpl; rewrite IH; unfold overlay, inside; regions|].
    destruct (Z.ltb_spec e (lo r)).
    { rewrite fresh_held. unfold overlay, inside. simpl. unfold inside.
      destruct (Z.eqb_spec t F_UNLCK); simpl; rewrite ?andb_false_r, ?andb_true_r; regions;
        by rewrite ?Hbelow by lia. }
    destruct (Z.ltb_spec e (hi r)).
    { destruct (Z.ltb_spec (lo r) s); simpl; rewrite fresh_held; simpl; unfold overlay, inside; simpl;
        destruct (t =? F_UNLCK); simpl; rewrite ?andb_false_r, ?andb_true_r; regions;
        by rewrite ?Hbelow by lia. }
    destruct (Z.ltb_spec (lo r) s).
    { simpl. rewrite IH. unfold overlay, inside. simpl. regions; by rewrite ?Hbelow by lia. }
    destruct (Z.eqb_spec t F_UNLCK) as [->|Hne].
    { rewrite IH. unfold overlay, inside. simpl. regions; by rewrite ?Hbelow by lia. }
    assert (t = F_RDLCK ∨ t = F_WRLCK) as Ht' by (destruct Ht as [|[|]]; auto; done).
    rewrite (absorb_held _ _ _ _ (ty r) (hi r)) by (done || lia).
    unfold overlay, inside. rewrite unlck_type by done. regions.
Qed.

Lemma fresh_after t s e l pt p :
  lock_type t → s <= e <= OFFSET_MAX → p < s → (pt = t → p + 1 < s) →
  regions_after pt p l → regions_after t e l →
  regions_after pt p (fresh_region t s e ++ l).
Proof.
  intros Ht He Hp Hpt H1 H2. unfold fresh_region. destruct (Z.eqb_spec t F_UNLCK); simpl; [done|].
  split; [destruct Ht as [|[|]]; auto; done|]. done.
Qed.

Lemma set_region_ok t s e l pt p :
  lock_type t → s <= e <= OFFSET_MAX → p < s → (pt = t → p + 1 < s) →
  regions_after pt p l → regions_after pt p (set_region t s e l).
Proof.
  intros Ht He. revert pt p. induction l as [|r l IH]; intros pt p Hp Hpt Hl; simpl.
  { rewrite <- (app_nil_r (fresh_region t s e)). by apply fresh_after. }
  pose proof Hl as (H1 & H2 & H3 & H4 & H5).
  destruct (Z.eqb_spec (ty r) t) as [E|E].
  - assert (t = F_RDLCK ∨ t = F_WRLCK) as Ht' by (by rewrite <- E).
    destruct (Z.ltb_spec (hi r) (s - 1)).
    { simpl. do 4 (split; [done|]). apply IH; [lia|lia|done]. }
    destruct (Z.ltb_spec (e + 1) (lo r)).
    { apply fresh_after; try done. simpl. do 2 (split; [done|]). split; [lia|]. split; [lia|done]. }
    apply (absorb_ok _ _ _ _ (ty r) (hi r)); try done; try lia.
  - destruct (Z.ltb_spec (hi r) s).
    { simpl. do 4 (split; [done|]). apply IH; [lia|congruence|done]. }
    destruct (Z.ltb_spec e (lo r)).
    { by apply fresh_after. }
    destruct (Z.ltb_spec e (hi r)).
    { assert (regions_after t e (Rg (ty r) (e + 1) (hi r) :: l)) as Hr.
      { simpl. split; [done|]. split; [lia|]. split; [lia|]. split; [congruence|done]. }
      destruct (Z.ltb_spec (lo r) s); simpl.
      - split; [done|]. split; [lia|]. split; [done|]. split; [done|].
        apply fresh_after; try done; try lia.
        simpl. split; [done|]. split; [lia|]. split; [lia|]. split; [lia|done].
      - apply fresh_after; try done.
        simpl. split; [done|]. split; [lia|]. split; [lia|]. split; [|done]. intros ->. specialize (H4 eq_refl). lia. }
    destruct (Z.ltb_spec (lo r) s).
    { simpl. split; [done|]. split; [lia|]. split; [done|]. split; [done|].
      apply IH; [lia|congruence|]. eapply regions_after_weaken; [done|lia|by left]. }
    destruct (Z.eqb_spec t F_UNLCK) as [->|Hne].
    { apply IH; [done|done|]. eapply regions_after_weaken; [done|lia|]. right. lia. }
    apply (absorb_ok _ _ _ _ (ty r) (hi r)); try done; try lia.
    destruct Ht as [|[|]]; auto; done.
Qed.

(** ** The store and the regions it represents *)

Definition rng (f : file_lock) : region := Rg (fl_type f) (fl_start f) (fl_end f).

(** A POSIX lock of the owner [o], [p]. *)
Definition owned (o p : Z) (f : file_lock) : Prop :=
  fl_owner f = o ∧ fl_pid f = p ∧ (has_flag f FL_POSIX = true ∧ has_flag f (Z.lor FL_FLOCK FL_LEASE) = false).

Definition rep (o p : Z) (m : gmap Z file_lock) (a : Z) (r : region) : Prop :=
  ∃ f, m !! a = Some f ∧ rng f = r ∧ owned o p f.

Definition reps (o p : Z) (m : gmap Z file_lock) : list Z → list region → Prop := Forall2 (rep o p m).

Lemma rep_frame o p m m' a r : m' !! a = m !! a → rep o p m a r → rep o p m' a r.
Proof. unfold rep. by intros ->. Qed.

Lemma reps_frame o p m m' l R :
  (∀ a, a ∈ l → m' !! a = m !! a) → reps o p m l R → reps o p m' l R.
Proof.
  intros Hm H. induction H as [|a r l R Ha Hl IH]; constructor.
  - eapply rep_frame; [|done]. apply Hm. set_solver.
  - apply IH. set_solver.
Qed.

Lemma rep_rewrite o p m a f g r :
  m !! a = Some f → owned o p f → owned o p (g f) → rng (g f) = r → rep o p (<[a := g f]> m) a r.
Proof. intros Ha Ho Hg Hr. exists (g f). by rewrite lookup_insert_eq. Qed.

Lemma same_owner_true c f : locks_same_owner c f = true ↔ fl_owner c = fl_owner f ∧ fl_pid c = fl_pid f.
Proof. unfold locks_same_owner. rewrite andb_true_iff, !Z.eqb_eq. done. Qed.

(** The end of the inode's list behind the owner's locks. *)
Definition stops (o p : Z) (m : gmap Z file_lock) (l : list Z) : Prop :=
  match l with
  | [] => True
  | a :: _ => ∃ f, m !! a = Some f ∧ ¬ (fl_owner f = o ∧ fl_pid f = p)
  end.

(** The cut of the lock on the left of the new one. *)
Definition cut_left (lft : option Z) (s : Z) (m : gmap Z file_lock) : gmap Z file_lock :=
  match lft with Some l => alter (set_fl_end (s - 1)) l m | None => m end.

Lemma cut_left_ne lft s m a : lft ≠ Some a → cut_left lft s m !! a = m !! a.
Proof. destruct lft as [l|]; simpl; [|done]. intros Hl. apply lookup_alter_ne. congruence. Qed.

Lemma cut_left_congr lft s m m' a :
  m !! a = m' !! a → cut_left lft s m !! a = cut_left lft s m' !! a.
Proof.
  intros E. destruct lft as [l|]; simpl; [|done].
  destruct (decide (a = l)) as [->|]; [by rewrite !lookup_alter_eq, E|by rewrite !lookup_alter_ne].
Qed.

Lemma upd_ok a g w f :
  fl_store w !! a = Some f →
  upd a g w = Ok (set_store (<[a := g f]> (fl_store w)) w).
Proof. intros H. unfold upd, get. by rewrite H. Qed.

Lemma upd_alter a g w f :
  fl_store w !! a = Some f → upd a g w = Ok (set_store (alter g a (fl_store w)) w).
Proof.
  intros H. rewrite (upd_ok a g w f H). do 2 f_equal. apply map_eq. intros b.
  destruct (decide (a = b)) as [<-|]; [by rewrite lookup_insert_eq, lookup_alter_eq, H|].
  by rewrite lookup_insert_ne, lookup_alter_ne.
Qed.

(** The effect of the statements after the loop on the store and the list. *)
Definition inserted (added : bool) (n1 : Z) (C : file_lock) (m : gmap Z file_lock) : gmap Z file_lock :=
  if added then m else <[n1 := C]> m.

Definition new_ids (added : bool) (n1 : Z) : list Z := if added then [] else [n1].

Lemma s64_small z : - 2 ^ 63 <= z < 2 ^ 63 → s64 z = z.
Proof. intros H. apply swrap_small; simpl; lia. Qed.

Lemma inserted_lookup added n1 C m a : a ≠ n1 → inserted added n1 C m !! a = m !! a.
Proof. intros H. unfold inserted. destruct added; [done|]. by rewrite lookup_insert_ne. Qed.

Lemma insert_step n1 w c (added : bool) C (rest : list Z) :
  fl_store w !! c = Some C →
  (if added then Ok (w, rest) else w0 ← locks_copy_lock n1 c w; Ok (w0, n1 :: rest)) =
    Ok (set_store (inserted added n1 C (fl_store w)) w, new_ids added n1 ++ rest).
Proof. intros Hc. destruct added; [by destruct w|]. unfold locks_copy_lock, get. by rewrite Hc. Qed.

Lemma not_unlocking added C :
  added = true ∨ fl_type C ≠ F_UNLCK → negb added && (fl_type C =? F_UNLCK) = false.
Proof. intros [-> |Ht]; [done|]. apply andb_false_intro2. by apply Z.eqb_neq. Qed.

Lemma finish_plain n1 n2 w pre rest c added lft C :
  fl_store w !! c = Some C → c ≠ n1 → (added = true ∨ fl_type C ≠ F_UNLCK) →
  0 <= fl_start C < 2 ^ 63 →
  (∀ l, lft = Some l → l ≠ c ∧ l ≠ n1 ∧ is_Some (fl_store w !! l)) →
  ∃ w', posix_finish n1 n2 (LoopEnd w pre rest c added lft None) = Ok w' ∧
    i_flock w' = pre ++ new_ids added n1 ++ rest ∧
    fl_store w' = cut_left lft (fl_start C) (inserted added n1 C (fl_store w)).
Proof.
  intros Hc Hn Hadd Hs Hl. unfold posix_finish, get. cbn [le_w le_caller le_added le_right le_left le_pre le_rest].
  rewrite Hc. cbn [mbind outcome_bind]. rewrite not_unlocking by done.
  rewrite (insert_step n1 w c added C rest Hc). cbn [mbind outcome_bind]. destruct lft as [l|]; [|by eexists].
  destruct (Hl l eq_refl) as (H1 & H2 & [L HL]).
  cbn [fl_store set_store]. rewrite inserted_lookup, Hc by done. cbn [mbind outcome_bind].
  erewrite upd_alter by (cbn [fl_store set_store]; by rewrite inserted_lookup). rewrite s64_small by lia. cbn [mbind outcome_bind]. by eexists.
Qed.

Lemma finish_right n1 n2 w pre rest c added lft a C A :
  fl_store w !! c = Some C → fl_store w !! a = Some A → c ≠ n1 → a ≠ n1 → a ≠ c →
  (added = true ∨ fl_type C ≠ F_UNLCK) → lft ≠ Some a →
  0 <= fl_start C < 2 ^ 63 → 0 <= fl_end C < 2 ^ 63 - 1 →
  (∀ l, lft = Some l → l ≠ c ∧ l ≠ n1 ∧ is_Some (fl_store w !! l)) →
  ∃ w', posix_finish n1 n2 (LoopEnd w pre rest c added lft (Some a)) = Ok w' ∧
    i_flock w' = pre ++ new_ids added n1 ++ rest ∧
    fl_store w' = cut_left lft (fl_start C)
      (alter (set_fl_start (fl_end C + 1)) a (inserted added n1 C (fl_store w))).
Proof.
  intros Hc Ha Hn Hna Hac Hadd Hla Hs He Hl. unfold posix_finish, get.
  cbn [le_w le_caller le_added le_right le_left le_pre le_rest].
  rewrite Hc. cbn [mbind outcome_bind]. rewrite not_unlocking by done.
  rewrite (insert_step n1 w c added C rest Hc). cbn [mbind outcome_bind].
  rewrite decide_False by done. cbn [mbind outcome_bind fl_store set_store].
  rewrite inserted_lookup, Hc by done. cbn [mbind outcome_bind].
  erewrite upd_alter by (cbn [fl_store set_store]; by rewrite inserted_lookup).
  rewrite s64_small by lia. cbn [mbind outcome_bind fl_store set_store].
  destruct lft as [l|]; [|by eexists].
  destruct (Hl l eq_refl) as (H1 & H2 & [L HL]).
  cbn [fl_store set_store locks_wake_up_blocks].
  rewrite lookup_alter_ne, inserted_lookup, Hc by done. cbn [mbind outcome_bind].
  erewrite upd_alter; [|cbn [fl_store locks_wake_up_blocks set_store];
    rewrite lookup_alter_ne, inserted_lookup by congruence; exact HL].
  rewrite s64_small by lia. cbn [mbind outcome_bind]. by eexists.
Qed.

Lemma finish_split n1 n2 w pre rest c added a C A :
  fl_store w !! c = Some C → fl_store w !! a = Some A → c ≠ n1 → a ≠ n1 → a ≠ c →
  c ≠ n2 → a ≠ n2 → (added = true ∨ fl_type C ≠ F_UNLCK) →
  0 <= fl_start C < 2 ^ 63 → 0 <= fl_end C < 2 ^ 63 - 1 →
  ∃ w', posix_finish n1 n2 (LoopEnd w pre rest c added (Some a) (Some a)) = Ok w' ∧
    i_flock w' = pre ++ n2 :: new_ids added n1 ++ rest ∧
    fl_store w' = alter (set_fl_end (fl_start C - 1)) n2
      (alter (set_fl_start (fl_end C + 1)) a (<[n2 := A]> (inserted added n1 C (fl_store w)))).
Proof.
  intros Hc Ha Hn Hna Hac Hn2 Hna2 Hadd Hs He. unfold posix_finish, get.
  cbn [le_w le_caller le_added le_right le_left le_pre le_rest].
  rewrite Hc. cbn [mbind outcome_bind]. rewrite not_unlocking by done.
  rewrite (insert_step n1 w c added C rest Hc). cbn [mbind outcome_bind].
  rewrite decide_True by done. unfold locks_copy_lock at 1, get. cbn [fl_store set_store].
  rewrite inserted_lookup, Ha by done. cbn [mbind outcome_bind fl_store set_store].
  rewrite lookup_insert_ne, inserted_lookup, Hc by done. cbn [mbind outcome_bind].
  erewrite upd_alter; [|cbn [fl_store set_store]; rewrite lookup_insert_ne, inserted_lookup by done; exact Ha].
  rewrite s64_small by lia. cbn [mbind outcome_bind fl_store set_store locks_wake_up_blocks].
  rewrite lookup_alter_ne, lookup_insert_ne, inserted_lookup, Hc by done. cbn [mbind outcome_bind].
  erewrite upd_alter; [|cbn [fl_store locks_wake_up_blocks set_store];
    rewrite lookup_alter_ne by congruence; apply lookup_insert_eq].
  rewrite s64_small by lia. cbn [mbind outcome_bind]. by eexists.
Qed.

(** ** The loop computes the reference definition *)

Section simulation.
Context (o p n1 n2 : Z).

(** The loop and the statements after it. *)
Definition run_loop (w : locks) (pre rest : list Z) (c : Z) (added : bool) (lft : option Z) : outcome locks :=
  e ← posix_loop w pre rest c added lft; posix_finish n1 n2 e.

Lemma loop_stop w pre B c added lft C :
  stops o p (fl_store w) B → fl_store w !! c = Some C → owned o p C →
  posix_loop w pre B c added lft = Ok (LoopEnd w pre B c added lft None).
Proof.
  intros HB Hc (H1 & H2 & _). destruct B as [|b B]; [done|]. cbn [posix_loop].
  destruct HB as (f & Hf & Hne). unfold get. rewrite Hf, Hc. cbn [mbind outcome_bind].
  destruct (locks_same_owner C f) eqn:E; [|done].
  apply same_owner_true in E as [E1 E2]. exfalso. apply Hne. split; congruence.
Qed.

Lemma store_delete a w : fl_store (locks_delete_lock a w) = delete a (fl_store w).
Proof. done. Qed.

(** The left lock, if any, is one of those passed before. *)
Definition left_ok (lft : option Z) (c : Z) (Os : list Z) (m : gmap Z file_lock) : Prop :=
  ∀ l, lft = Some l → l ≠ c ∧ l ≠ n1 ∧ (l ∉ Os) ∧ is_Some (m !! l).

Lemma left_ok_tail lft c a O m m' :
  left_ok lft c (a :: O) m → (∀ l, l ≠ c → l ≠ a → m' !! l = m !! l) → left_ok lft c O m'.
Proof.
  intros H Hm l Hl. destruct (H l Hl) as (H1 & H2 & H3 & H4). apply not_elem_of_cons in H3 as [H3 H5].
  split; [done|]. split; [done|]. split; [done|]. by rewrite Hm.
Qed.

(** The lock [c] stands for the new region already. *)
Record placed (t s e : Z) (m : gmap Z file_lock) (c : Z) (C : file_lock) : Prop := {
  pl_get : m !! c = Some C;
  pl_owned : owned o p C;
  pl_rng : rng C = Rg t s e;
  pl_type : t = F_RDLCK ∨ t = F_WRLCK;
  pl_range : 0 <= s <= e ∧ e <= OFFSET_MAX
}.

(** The state of the store after the operation, seen from the list. *)
Record result (w' : locks) (pre ids B : list Z) (m : gmap Z file_lock) (lft : option Z) (s : Z)
    (touched : list Z) : Prop := {
  rs_list : i_flock w' = pre ++ ids ++ B;
  rs_frame : ∀ a, a ∉ touched → fl_store w' !! a = cut_left lft s m !! a
}.

Lemma absorb_stop t s e R O B w pre c C lft :
  placed t s e (fl_store w) c C → c ≠ n1 → c ∉ O →
  reps o p (fl_store w) O R → left_ok lft c O (fl_store w) →
  posix_loop w pre (O ++ B) c true lft = Ok (LoopEnd w pre (O ++ B) c true lft None) →
  ∃ w', run_loop w pre (O ++ B) c true lft = Ok w' ∧
    result w' pre O B (fl_store w) lft s (c :: O) ∧ reps o p (fl_store w') (c :: O) (Rg t s e :: R).
Proof.
  intros [Hc Ho Hr Ht Hrange] Hn Hco HR Hl E. unfold run_loop. rewrite E. cbn [mbind outcome_bind].
  injection Hr as Et Es Ee. unfold OFFSET_MAX in *.
  destruct (finish_plain n1 n2 w pre (O ++ B) c true lft C) as (w' & -> & Hlist & Hstore); auto.
  { lia. } { intros l Hl'. destruct (Hl l Hl') as (? & ? & _ & ?). done. }
  simpl in Hstore. rewrite Es in Hstore. exists w'. split; [done|]. split.
  - constructor; [done|]. intros a _. by rewrite Hstore.
  - constructor.
    + apply (rep_frame _ _ (fl_store w)); [|by exists C; rewrite <- Et, <- Es, <- Ee].
      rewrite Hstore. apply cut_left_ne. intros Hl'. by destruct (Hl c Hl') as [? _].
    + eapply reps_frame; [|done]. intros a Ha. rewrite Hstore. apply cut_left_ne. intros Hl'.
      by destruct (Hl a Hl') as (_ & _ & ? & _).
Qed.

(** One step of the loop, with the two locks read. *)
Lemma loop_read w pre a rest c added lft C F :
  fl_store w !! c = Some C → fl_store w !! a = Some F → owned o p C → owned o p F →
  posix_loop w pre (a :: rest) c added lft =
  if fl_type C =? fl_type F then
    if fl_end F <? s64 (fl_start C - 1) then posix_loop w (pre ++ [a]) rest c added lft
    else if s64 (fl_end C + 1) <? fl_start F then Ok (LoopEnd w pre (a :: rest) c added lft None)
    else
      w ← (if fl_start C <? fl_start F then upd a (set_fl_start (fl_start C)) w
           else upd c (set_fl_start (fl_start F)) w);
      w ← (if fl_end F <? fl_end C then upd a (set_fl_end (fl_end C)) w
           else upd c (set_fl_end (fl_end F)) w);
      if (added : bool) then posix_loop (locks_delete_lock a w) pre rest c added lft
      else posix_loop w (pre ++ [a]) rest a true lft
  else
    if fl_end F <? fl_start C then posix_loop w (pre ++ [a]) rest c added lft
    else if fl_end C <? fl_start F then Ok (LoopEnd w pre (a :: rest) c added lft None)
    else
      let added := if fl_type C =? F_UNLCK then true else added in
      let lft := if fl_start F <? fl_start C then Some a else lft in
      if fl_end C <? fl_end F then Ok (LoopEnd w pre (a :: rest) c added lft (Some a))
      else if fl_start C <=? fl_start F then
        if (added : bool) then posix_loop (locks_delete_lock a w) pre rest c added lft
        else
          w ← upd a (λ f, set_fl_type (fl_type C) (set_fl_end (fl_end C)
                            (set_fl_start (fl_start C) f))) (locks_wake_up_blocks a w);
          posix_loop w (pre ++ [a]) rest a true lft
      else posix_loop w (pre ++ [a]) rest c added lft.
Proof.
  intros Hc Ha (C1 & C2 & _) (F1 & F2 & _). cbn [posix_loop]. unfold get at 1 2. rewrite Ha, Hc.
  cbn [mbind outcome_bind]. assert (locks_same_owner C F = true) as ->; [|done].
  apply same_owner_true. split; congruence.
Qed.

(** The merge of [a] into a lock [c] placed before it, then deleted. *)
Lemma merge_delete t s e w a c C F :
  placed t s e (fl_store w) c C → fl_store w !! a = Some F → a ≠ c → s < fl_start F →
  fl_end F <= OFFSET_MAX →
  ∃ w' C', (w ← (if fl_start C <? fl_start F then upd a (set_fl_start (fl_start C)) w
           else upd c (set_fl_start (fl_start F)) w);
       if fl_end F <? fl_end C then upd a (set_fl_end (fl_end C)) w
       else upd c (set_fl_end (fl_end F)) w) = Ok w' ∧
    placed t s (Z.max e (fl_end F)) (delete a (fl_store w')) c C' ∧
    ∀ b, b ≠ a → b ≠ c → fl_store w' !! b = fl_store w !! b.
Proof.
  intros [Hc Ho Hr Ht Hrange] Ha Hac Hs He. injection Hr as Et Es Ee. rewrite Es.
  destruct (Z.ltb_spec s (fl_start F)); [|lia].
  rewrite (upd_ok _ _ _ _ Ha). cbn [mbind outcome_bind].
  rewrite Ee. destruct (Z.ltb_spec (fl_end F) e).
  - erewrite upd_ok by (cbn [fl_store set_store]; apply lookup_insert_eq).
    eexists _, C. split; [done|]. cbn [fl_store set_store]. split.
    + constructor; try done; [rewrite lookup_delete_ne, !lookup_insert_ne by done; done|
        |lia]. unfold rng. rewrite Et, Es, Ee. f_equal. lia.
    + intros b Hb Hb'. by rewrite !lookup_insert_ne.
  - erewrite upd_ok by (cbn [fl_store set_store]; rewrite lookup_insert_ne by done; exact Hc).
    eexists _, (set_fl_end (fl_end F) C). split; [done|].
    cbn [fl_store set_store]. split.
    + constructor; try done; [rewrite lookup_delete_ne, lookup_insert_eq by done; done| |lia].
      unfold rng. simpl. rewrite Et, Es. f_equal. lia.
    + intros b Hb Hb'. by rewrite !lookup_insert_ne by done.
Qed.

Lemma bind_assoc_ok {A} (x : outcome locks) (y : locks → outcome locks) (k : locks → outcome A) w :
  (z ← x; y z) = Ok w → (z ← x; z ← y z; k z) = k w.
Proof. destruct x as [v|]; simpl; [|done]. by intros ->. Qed.

(** The statement for the owner's remaining locks [Os]. *)
Definition absorbs (t s : Z) (B : list Z) (lft : option Z) (c : Z) (Os : list Z) : Prop :=
  ∀ R w pre C e qt ph,
  reps o p (fl_store w) Os R → stops o p (fl_store w) B → placed t s e (fl_store w) c C →
  no_wrap t s e R → s <= ph → regions_after qt ph R →
  NoDup (c :: Os) → c ≠ n1 → n1 ∉ Os → (∀ b, b ∈ B → b ∉ c :: Os) →
  left_ok lft c Os (fl_store w) →
  ∃ w' ids, run_loop w pre (Os ++ B) c true lft = Ok w' ∧
    result w' pre ids B (fl_store w) lft s (c :: Os) ∧ ids `sublist_of` Os ∧
    reps o p (fl_store w') (c :: ids) (absorb t s e R).

(** A covered lock is deleted and the loop goes on. *)
Lemma absorbs_delete t s B lft c a Os R' w w1 pre C1 e1 qt ph :
  absorbs t s B lft c Os →
  reps o p (fl_store w) Os R' → stops o p (fl_store w) B →
  placed t s e1 (delete a (fl_store w1)) c C1 → no_wrap t s e1 R' →
  s <= ph → regions_after qt ph R' →
  NoDup (c :: a :: Os) → c ≠ n1 → n1 ∉ a :: Os → (∀ b, b ∈ B → b ∉ c :: a :: Os) →
  left_ok lft c (a :: Os) (fl_store w) →
  (∀ b, b ≠ a → b ≠ c → fl_store w1 !! b = fl_store w !! b) →
  ∃ w' ids, run_loop (locks_delete_lock a w1) pre (Os ++ B) c true lft = Ok w' ∧
    result w' pre ids B (fl_store w) lft s (c :: a :: Os) ∧ ids `sublist_of` a :: Os ∧
    reps o p (fl_store w') (c :: ids) (absorb t s e1 R').
Proof.
  intros IH HR' HB HC1 He1 Hph Hreg Hnd Hcn Hn HBO Hl Hfr.
  rewrite !list.NoDup_cons in Hnd. destruct Hnd as (Hcin & Hain & HndO).
  assert (∀ b, b ≠ a → b ≠ c → fl_store (locks_delete_lock a w1) !! b = fl_store w !! b) as Hfr'.
  { intros b Hb Hb'. rewrite store_delete, lookup_delete_ne by done. auto. }
  destruct (IH R' (locks_delete_lock a w1) pre C1 e1 qt ph)
    as (w' & ids & K1 & [K2 K2'] & K3 & K4); try done.
  - eapply reps_frame; [|exact HR']. intros b Hb. apply Hfr'; set_solver.
  - destruct B as [|b B']; [done|]. destruct HB as (f & Hf & Hne). exists f. split; [|done].
    specialize (HBO b ltac:(by left)). rewrite !not_elem_of_cons in HBO.
    destruct HBO as (? & ? & _). by rewrite Hfr'.
  - apply list.NoDup_cons. split; [set_solver|done].
  - set_solver.
  - intros b Hb. specialize (HBO b Hb). set_solver.
  - eapply left_ok_tail; [done|]. intros l Hl1 Hl2. by apply Hfr'.
  - exists w', ids. split; [done|]. split; [|split; [by apply sublist_cons|done]].
    constructor; [done|]. intros b Hb. rewrite K2' by set_solver.
    apply cut_left_congr, Hfr'; set_solver.
Qed.

Lemma sim_absorb t s B lft c Os : absorbs t s B lft c Os.
Proof.
  induction Os as [|a Os IH]; intros R w pre C e qt ph HR HB HC He Hph Hreg Hnd Hcn Hn HBO Hl.
  { apply Forall2_nil_inv_l in HR as ->. pose proof HC as [Hc Ho _ _ _].
    destruct (absorb_stop t s e [] [] B w pre c C lft) as (w' & K1 & K2 & K3); try done.
    { apply not_elem_of_nil. } { by constructor. } { by apply (loop_stop w pre B c true lft C). }
    exists w', []. split; [done|]. split; [done|]. split; [done|done]. }
  pose proof HR as HRall.
  apply Forall2_cons_inv_l in HR as (r & R' & (F & Ha & HF & HoF) & HR' & ->).
  pose proof HC as [Hc Ho Hrng Ht Hrange]. injection Hrng as Et Es Ee.
  pose proof Hreg as (T1 & T2 & T3 & T4 & T5). subst r. cbn [rng ty lo hi] in T1, T2, T3, T4, T5.
  pose proof Hnd as Hnd'. rewrite !list.NoDup_cons in Hnd'. destruct Hnd' as (Hcin & Hain & HndO).
  pose proof (loop_read w pre a (Os ++ B) c true lft C F Hc Ha Ho HoF) as Hread.
  rewrite Et, Es, Ee in Hread.
  assert (c ≠ a ∧ a ≠ n1) as [Hca Hna] by set_solver.
  cbn [absorb rng ty lo hi]. change ((a :: Os) ++ B) with (a :: Os ++ B) in *.
  destruct (Z.eqb_spec (fl_type F) t) as [E|E].
  - assert (e < OFFSET_MAX) as He1.
    { destruct He as [|He]; [done|]. apply Forall_cons_1 in He as [He _]. specialize (He E). simpl in He. lia. }
    unfold OFFSET_MAX in *. rewrite E, Z.eqb_refl, !s64_small in Hread by lia.
    destruct (Z.ltb_spec (fl_end F) (s - 1)); [lia|].
    destruct (Z.ltb_spec (e + 1) (fl_start F)).
    { destruct (absorb_stop t s e (rng F :: R') (a :: Os) B w pre c C lft) as (w' & K1 & K2 & K3); try done.
      by exists w', (a :: Os). }
    destruct (merge_delete t s e w a c C F HC Ha ltac:(done) ltac:(lia) ltac:(unfold OFFSET_MAX; lia)) as (w1 & C1 & E1 & HC1 & Hfr).
    rewrite Es, Ee in E1. unfold run_loop. rewrite Hread.
    rewrite (bind_assoc_ok _ _ _ _ E1).
    eapply (absorbs_delete t s B lft c a Os R' w w1 pre C1 _ (fl_type F) (fl_end F)); try done; [|lia].
    eapply no_wrap_after; [|exact T5]. unfold OFFSET_MAX in *. lia.
  - destruct (Z.eqb_spec t (fl_type F)); [congruence|].
    destruct (Z.ltb_spec (fl_end F) s); [lia|].
    destruct (Z.ltb_spec e (fl_start F)).
    { destruct (absorb_stop t s e (rng F :: R') (a :: Os) B w pre c C lft) as (w' & K1 & K2 & K3); try done.
      by exists w', (a :: Os). }
    rewrite unlck_type in Hread by done. cbv zeta in Hread.
    destruct (Z.ltb_spec (fl_start F) s); [lia|].
    destruct (Z.ltb_spec e (fl_end F)).
    2: { destruct (Z.leb_spec s (fl_start F)); [|lia]. unfold run_loop. rewrite Hread.
         eapply (absorbs_delete t s B lft c a Os R' w w pre C _ (fl_type F) (fl_end F)); try done; try lia;
           [|by eapply no_wrap_tail].
         destruct HC. constructor; try done. by rewrite lookup_delete_ne. }
    unfold OFFSET_MAX in *. unfold run_loop. rewrite Hread. cbn [mbind outcome_bind].
    destruct (finish_right n1 n2 w pre (a :: Os ++ B) c true lft a C F) as (w' & K1 & K2 & K3); try done; auto.
    { intros ->. destruct (Hl a eq_refl) as (_ & _ & Hin & _). set_solver. }
    { lia. } { lia. } { intros l Hl'. destruct (Hl l Hl') as (? & ? & _ & ?). done. }
    simpl in K2, K3. rewrite Es, Ee in K3. exists w', (a :: Os). split; [done|]. split; [|split; [done|]].
    + constructor; [done|]. intros b Hb. rewrite K3. apply cut_left_congr.
      apply lookup_alter_ne. set_solver.
    + assert (∀ b, b ∈ c :: a :: Os → lft ≠ Some b) as Hnl.
      { intros b Hb Hl'. destruct (Hl b Hl') as (? & ? & ? & _). set_solver. }
      constructor; [|constructor].
      * exists C. rewrite K3, cut_left_ne, lookup_alter_ne by (done || (apply Hnl; set_solver)).
        split; [done|]. split; [|done]. unfold rng. by rewrite Et, Es, Ee.
      * exists (set_fl_start (e + 1) F). rewrite K3, cut_left_ne, lookup_alter_eq, Ha by (apply Hnl; set_solver).
        by split.
      * eapply reps_frame; [|exact HR']. intros b Hb. rewrite K3, cut_left_ne by (apply Hnl; set_solver).
        apply lookup_alter_ne. set_solver.
Qed.

(** The caller's structure [c] is not in the list yet. *)
Record pending (t s e : Z) (B : list Z) (c : Z) (C : file_lock) (Os : list Z) (R : list region)
    (w : locks) (added : bool) (lft : option Z) (qt ph : Z) : Prop := {
  pd_reps : reps o p (fl_store w) Os R;
  pd_stops : stops o p (fl_store w) B;
  pd_get : fl_store w !! c = Some C;
  pd_owned : owned o p C;
  pd_rng : rng C = Rg t s e;
  pd_type : lock_type t;
  pd_range : 0 <= s <= e ∧ e <= OFFSET_MAX;
  pd_max : t ≠ F_UNLCK → no_wrap t s e R;
  pd_added : t ≠ F_UNLCK → added = false;
  pd_unlock : added = false → t = F_UNLCK → lft = None;
  pd_regions : regions_after qt ph R;
  pd_nodup : NoDup (n1 :: n2 :: c :: Os);
  pd_others : ∀ b, b ∈ B → b ∉ n1 :: n2 :: c :: Os;
  pd_left : left_ok lft c Os (fl_store w);
  pd_left2 : lft ≠ Some n2;
  pd_first : lft = None ∨ s <= ph;
  pd_low : -1 <= ph
}.

(** The operation is done: [ids] are the owner's locks from here on. *)
Definition done_as (t s e : Z) (B : list Z) (c : Z) (Os : list Z) (R : list region)
    (m : gmap Z file_lock) (pre : list Z) (lft : option Z) (x : outcome locks) : Prop :=
  ∃ w' ids, x = Ok w' ∧ result w' pre ids B m lft s (n1 :: n2 :: c :: Os) ∧
    NoDup ids ∧ (∀ b, b ∈ ids → b ∈ n1 :: n2 :: Os) ∧ reps o p (fl_store w') ids R.

Definition sets (t s e : Z) (B : list Z) (c : Z) (C : file_lock) (Os : list Z) : Prop :=
  ∀ R w pre added lft qt ph, pending t s e B c C Os R w added lft qt ph →
  done_as t s e B c Os (set_region t s e R) (fl_store w) pre lft
    (run_loop w pre (Os ++ B) c added lft).

Lemma pending_ids t s e B c C Os R w added lft qt ph :
  pending t s e B c C Os R w added lft qt ph →
  n1 ≠ n2 ∧ c ≠ n1 ∧ c ≠ n2 ∧ (n1 ∉ Os) ∧ (n2 ∉ Os) ∧ (c ∉ Os) ∧ NoDup Os.
Proof.
  intros H. pose proof (pd_nodup _ _ _ _ _ _ _ _ _ _ _ _ _ H) as Hn.
  rewrite !list.NoDup_cons in Hn. destruct Hn as (H1 & H2 & H3 & H4). set_solver.
Qed.

(** The loop ends before the remaining locks: the new one is inserted here. *)
Lemma sets_stop t s e B c C Os R w pre added lft qt ph :
  pending t s e B c C Os R w added lft qt ph →
  posix_loop w pre (Os ++ B) c added lft = Ok (LoopEnd w pre (Os ++ B) c added lft None) →
  done_as t s e B c Os (fresh_region t s e ++ R) (fl_store w) pre lft
    (run_loop w pre (Os ++ B) c added lft).
Proof.
  intros Hp E. destruct (pending_ids _ _ _ _ _ _ _ _ _ _ _ _ _ Hp) as (N1 & N2 & N3 & N4 & N5 & N6 & N7).
  destruct Hp as [HR HB Hc Ho Hr Ht Hrange Hmax Hadd Hun Hreg Hnd HBO Hl Hl2 Hfst Hlow].
  injection Hr as Et Es Ee. unfold run_loop. rewrite E. cbn [mbind outcome_bind]. unfold OFFSET_MAX in *.
  assert (∀ b, b ∈ Os → lft ≠ Some b) as Hnl.
  { intros b Hb Hl'. by destruct (Hl b Hl') as (_ & _ & ? & _). }
  destruct (decide (added = false ∧ t = F_UNLCK)) as [[-> ->]|Hcase].
  - rewrite (Hun eq_refl eq_refl) in *. unfold posix_finish, get. cbn [le_w le_caller le_added].
    rewrite Hc. cbn [mbind outcome_bind]. rewrite Et. simpl.
    eexists _, Os. split; [done|]. split; [by constructor|]. split; [done|]. split; [set_solver|done].
  - destruct (finish_plain n1 n2 w pre (Os ++ B) c added lft C) as (w' & -> & Hlist & Hstore); auto.
    { rewrite Et. destruct added; [by left|right]. intros ->. by apply Hcase. }
    { lia. } { intros l Hl'. destruct (Hl l Hl') as (? & ? & _ & ?). done. }
    rewrite Es in Hstore. exists w', (new_ids added n1 ++ Os). split; [done|].
    assert (∀ b, b ∈ Os → fl_store w' !! b = fl_store w !! b) as Hsame.
    { intros b Hb. rewrite Hstore, cut_left_ne, inserted_lookup by (auto || set_solver). done. }
    split; [constructor|split; [|split]].
    + by rewrite Hlist, <- !app_assoc.
    + intros b Hb. rewrite Hstore. apply cut_left_congr, inserted_lookup. set_solver.
    + unfold new_ids. destruct added; [done|]. simpl. by apply list.NoDup_cons.
    + unfold new_ids. destruct added; set_solver.
    + unfold new_ids, fresh_region. destruct added.
      * assert (t = F_UNLCK) as -> by (destruct (decide (t = F_UNLCK)); [done|]; by specialize (Hadd n)).
        simpl. by eapply reps_frame.
      * assert (t ≠ F_UNLCK) as Hu by (intros ->; by apply Hcase).
        rewrite (proj2 (Z.eqb_neq _ _) Hu). constructor; [|by eapply reps_frame].
        exists C. rewrite Hstore, cut_left_ne by (intros Hl'; by destruct (Hl n1 Hl') as (_ & ? & _)).
        unfold inserted. rewrite lookup_insert_eq. split; [done|]. split; [|done].
        unfold rng. by rewrite Et, Es, Ee.
Qed.

(** The facts on the first remaining lock. *)
Lemma pending_head t s e B c C a Os R w added lft qt ph :
  pending t s e B c C (a :: Os) R w added lft qt ph →
  ∃ F R', R = rng F :: R' ∧ fl_store w !! a = Some F ∧ owned o p F ∧
    regions_after qt ph (rng F :: R') ∧
    a ≠ c ∧ a ≠ n1 ∧ a ≠ n2 ∧ lft ≠ Some a ∧ (a ∉ B) ∧
    fl_type C = t ∧ fl_start C = s ∧ fl_end C = e ∧
    (∀ w' added' lft', (∀ b, b ∈ c :: Os ++ B → fl_store w' !! b = fl_store w !! b) →
       (t ≠ F_UNLCK → added' = false) → (added' = false → t = F_UNLCK → lft' = None) →
       left_ok lft' c Os (fl_store w') → lft' ≠ Some n2 → (lft' = None ∨ s <= fl_end F) →
       pending t s e B c C Os R' w' added' lft' (fl_type F) (fl_end F)).
Proof.
  intros Hp. destruct (pending_ids _ _ _ _ _ _ _ _ _ _ _ _ _ Hp) as (N1 & N2 & N3 & N4 & N5 & N6 & N7).
  destruct Hp as [HR HB Hc Ho Hr Ht Hrange Hmax Hadd Hun Hreg Hnd HBO Hl Hl2 Hfst Hlow].
  apply Forall2_cons_inv_l in HR as (r & R' & (F & Ha & <- & HoF) & HR' & ->).
  pose proof Hreg as (_ & T2 & T3 & _ & T5). injection Hr as Et Es Ee. cbn [rng lo hi] in T2, T3.
  exists F, R'. do 4 (split; [done|]). apply not_elem_of_cons in N4 as [N4 N4'].
  apply not_elem_of_cons in N5 as [N5 N5']. apply not_elem_of_cons in N6 as [N6 N6'].
  apply list.NoDup_cons in N7 as [N7 N7'].
  do 3 (split; [done|]). split.
  { intros Hl'. destruct (Hl a Hl') as (_ & _ & Hin & _). apply Hin. by left. }
  split; [intros Hb; apply (HBO a Hb); set_solver|]. do 3 (split; [done|]).
  intros w' added' lft' Hw H1 H2 H3 H4 H5. constructor; try done; try (intros Hu; by eapply no_wrap_tail, Hmax).
  - eapply reps_frame; [|exact HR']. intros b Hb. apply Hw. set_solver.
  - destruct B as [|b B']; [done|]. destruct HB as (f & Hf & Hne). exists f. split; [|done].
    rewrite Hw by set_solver. done.
  - rewrite Hw by set_solver. done.
  - unfold rng. by rewrite Et, Es, Ee.
  - rewrite !list.NoDup_cons, !not_elem_of_cons. split_and!; (done || congruence).
  - intros b Hb. specialize (HBO b Hb). clear - HBO. mem_ids.
  - lia.
Qed.

(** A lock that stays, possibly as the one on the left. *)
Lemma sets_keep t s e B c a Os R R1 r m pre lft lft' x :
  done_as t s e B c Os R m (pre ++ [a]) lft' x →
  a ∉ n1 :: n2 :: c :: Os → (∀ b, b ≠ a → cut_left lft' s m !! b = cut_left lft s m !! b) →
  (∃ f, cut_left lft' s m !! a = Some f ∧ rng f = r ∧ owned o p f) →
  R1 = r :: R →
  done_as t s e B c (a :: Os) R1 m pre lft x.
Proof.
  intros (w' & ids & E & [H1 H2] & H3 & H4 & H5) Ha Hcut (f & Hf & Hrf & Hof) ->.
  exists w', (a :: ids). split; [done|]. split; [constructor|split; [|split]].
  - by rewrite H1, <- app_assoc.
  - intros b Hb. assert (b ≠ a ∧ b ∉ n1 :: n2 :: c :: Os) as [Hb1 Hb2] by set_solver.
    by rewrite (H2 b Hb2), Hcut.
  - apply list.NoDup_cons. split; [|done]. intros Hin. specialize (H4 a Hin). set_solver.
  - intros b Hb. apply elem_of_cons in Hb as [->|Hb]; [set_solver|]. specialize (H4 b Hb). set_solver.
  - constructor; [|done]. exists f. by rewrite (H2 a Ha).
Qed.

(** The lock [a] becomes the new one and absorbs what follows. *)
Lemma sets_absorb t s e s' e' B c C a Os R' F w w2 A pre lft added qt ph :
  pending t s e B c C (a :: Os) (rng F :: R') w added lft qt ph → fl_store w !! a = Some F →
  placed t s' e' (fl_store w2) a A → s' <= fl_end F → no_wrap t s' e' R' →
  (∀ b, b ≠ a → b ≠ c → fl_store w2 !! b = fl_store w !! b) →
  (lft = None ∨ s' = s) →
  done_as t s e B c (a :: Os) (absorb t s' e' R') (fl_store w) pre lft
    (run_loop w2 (pre ++ [a]) (Os ++ B) a true lft).
Proof.
  intros Hp Ha HA Hs' He' Hfr Hcut.
  destruct (pending_ids _ _ _ _ _ _ _ _ _ _ _ _ _ Hp) as (N1 & N2 & N3 & N4 & N5 & N6 & N7).
  destruct Hp as [HR HB Hc Ho Hr Ht Hrange Hmax Hadd Hun Hreg Hnd HBO Hl Hl2 Hfst Hlow].
  pose proof Hreg as (_ & _ & _ & _ & T5).
  apply Forall2_cons_1 in HR as [_ HR']. apply list.NoDup_cons in N7 as [N7 N7'].
  destruct (sim_absorb t s' B lft a Os R' w2 (pre ++ [a]) A e' (fl_type F) (fl_end F))
    as (w' & ids & K1 & [K2 K2'] & K3 & K4); try done.
  - eapply reps_frame; [|exact HR']. intros b Hb. apply Hfr; set_solver.
  - destruct B as [|b B']; [done|]. destruct HB as (f & Hf & Hne). exists f. split; [|done].
    specialize (HBO b ltac:(by left)). clear - HBO Hfr Hf. rewrite !not_elem_of_cons in HBO.
    destruct HBO as (_ & _ & ? & ? & _). by rewrite Hfr.
  - by apply list.NoDup_cons.
  - clear - N4. set_solver.
  - clear - N4. set_solver.
  - intros b Hb. specialize (HBO b Hb). clear - HBO. mem_ids.
  - intros l Hl'. destruct (Hl l Hl') as (H1 & H2 & H3 & H4).
    apply not_elem_of_cons in H3 as [H3 H3']. split; [done|]. split; [done|]. split; [done|].
    by rewrite Hfr.
  - assert (∀ b, b ∈ ids → b ∈ Os) as Hsub by (intros b; by apply sublist_subseteq).
    exists w', (a :: ids). split; [done|]. split; [constructor|split; [|split]].
    + by rewrite K2, <- app_assoc.
    + intros b Hb. rewrite K2' by set_solver.
      transitivity (cut_left lft s' (fl_store w) !! b); [apply cut_left_congr, Hfr; set_solver|].
      destruct Hcut as [-> | ->]; done.
    + apply list.NoDup_cons. split; [intros Hin; set_solver|]. by eapply sublist_NoDup.
    + intros b Hb. apply elem_of_cons in Hb as [->|Hb]; [set_solver|]. specialize (Hsub b Hb). set_solver.
    + exact K4.
Qed.

(** The lock [a] reaches beyond the new one, which goes before it. *)
Lemma sets_right t s e B c C a Os R' F w pre added lft qt ph :
  pending t s e B c C (a :: Os) (rng F :: R') w added lft qt ph → fl_store w !! a = Some F →
  e < fl_end F → (added = true ∨ t ≠ F_UNLCK) →
  done_as t s e B c (a :: Os) (fresh_region t s e ++ Rg (fl_type F) (e + 1) (fl_end F) :: R')
    (fl_store w) pre lft
    (posix_finish n1 n2 (LoopEnd w pre (a :: Os ++ B) c added lft (Some a))).
Proof.
  intros Hp Ha He Hau.
  destruct (pending_ids _ _ _ _ _ _ _ _ _ _ _ _ _ Hp) as (N1 & N2 & N3 & N4 & N5 & N6 & N7).
  destruct (pending_head _ _ _ _ _ _ _ _ _ _ _ _ _ _ Hp)
    as (F' & R'' & EQ & Ha' & HoF & Hreg & A1 & A2 & A3 & A4 & A5 & Et & Es & Ee & _).
  rewrite Ha in Ha'. injection Ha' as <-. apply (f_equal (drop 1)) in EQ. cbn [drop] in EQ.
  rewrite !drop_0 in EQ. subst R''.
  destruct Hp as [HR _ Hc Ho Hr Ht Hrange _ Hadd _ _ _ _ Hl _ _ _].
  apply Forall2_cons_1 in HR as [_ HR']. pose proof Hreg as (_ & T2 & _). simpl in T2. unfold OFFSET_MAX in *.
  destruct (finish_right n1 n2 w pre (a :: Os ++ B) c added lft a C F) as (w' & -> & Hlist & Hstore);
    try done; auto.
  { by rewrite Et. } { lia. } { lia. } { intros l Hl'. destruct (Hl l Hl') as (? & ? & _ & ?). done. }
  rewrite Es, Ee in Hstore.
  assert (∀ b, b ∈ n1 :: a :: Os → lft ≠ Some b) as Hnl.
  { intros b Hb Hl'. destruct (Hl b Hl') as (_ & ? & Hin & _).
    apply elem_of_cons in Hb as [->|Hb]; [done|]. by apply Hin. }
  exists w', (new_ids added n1 ++ a :: Os). split; [done|].
  apply list.NoDup_cons in N7 as [N7 N7'].
  split; [constructor|split; [|split]].
  - by rewrite Hlist, <- !app_assoc.
  - intros b Hb. rewrite Hstore. apply cut_left_congr. rewrite !not_elem_of_cons in Hb.
    destruct Hb as (? & ? & ? & ? & ?). rewrite lookup_alter_ne, inserted_lookup by done. done.
  - unfold new_ids. destruct added; simpl; rewrite ?list.NoDup_cons; done.
  - unfold new_ids. clear. destruct added; set_solver.
  - apply Forall2_app.
    + unfold new_ids, fresh_region. destruct added.
      * assert (t = F_UNLCK) as -> by (destruct (decide (t = F_UNLCK)); [done|]; by specialize (Hadd n)).
        constructor.
      * destruct Hau as [|Hu]; [done|]. rewrite (proj2 (Z.eqb_neq _ _) Hu).
        constructor; [|constructor]. exists C.
        rewrite Hstore, cut_left_ne, lookup_alter_ne by (done || (apply Hnl; by left)).
        unfold inserted. rewrite lookup_insert_eq. split; [done|]. split; [done|done].
    + constructor.
      * exists (set_fl_start (e + 1) F).
        rewrite Hstore, cut_left_ne, lookup_alter_eq, inserted_lookup, Ha
          by (done || (apply Hnl; by right; left)). by split.
      * eapply reps_frame; [|exact HR']. intros b Hb.
        rewrite Hstore, cut_left_ne by (apply Hnl; by right; right).
        assert (b ≠ n1 ∧ b ≠ a) as [? ?] by (clear - Hb N4 N7; set_solver).
        rewrite lookup_alter_ne, inserted_lookup by done. done.
Qed.

(** The new lock lies inside [a], which is split in two. *)
Lemma sets_split t s e B c C a Os R' F w pre added qt ph :
  pending t s e B c C (a :: Os) (rng F :: R') w added None qt ph → fl_store w !! a = Some F →
  e < fl_end F → fl_start F < s → (added = true ∨ t ≠ F_UNLCK) →
  done_as t s e B c (a :: Os)
    (Rg (fl_type F) (fl_start F) (s - 1) ::
     fresh_region t s e ++ Rg (fl_type F) (e + 1) (fl_end F) :: R')
    (fl_store w) pre None
    (posix_finish n1 n2 (LoopEnd w pre (a :: Os ++ B) c added (Some a) (Some a))).
Proof.
  intros Hp Ha He Hs Hau.
  destruct (pending_ids _ _ _ _ _ _ _ _ _ _ _ _ _ Hp) as (N1 & N2 & N3 & N4 & N5 & N6 & N7).
  destruct (pending_head _ _ _ _ _ _ _ _ _ _ _ _ _ _ Hp)
    as (F' & R'' & EQ & Ha' & HoF & Hreg & A1 & A2 & A3 & A4 & A5 & Et & Es & Ee & _).
  rewrite Ha in Ha'. injection Ha' as <-. apply (f_equal (drop 1)) in EQ. cbn [drop] in EQ.
  rewrite !drop_0 in EQ. subst R''.
  destruct Hp as [HR _ Hc Ho Hr Ht Hrange _ Hadd _ _ _ _ Hl _ _ _].
  apply Forall2_cons_1 in HR as [_ HR']. pose proof Hreg as (_ & T2 & _). simpl in T2. unfold OFFSET_MAX in *.
  destruct (finish_split n1 n2 w pre (a :: Os ++ B) c added a C F) as (w' & -> & Hlist & Hstore);
    try done; auto.
  { by rewrite Et. } { lia. } { lia. }
  rewrite Es, Ee in Hstore. exists w', (n2 :: new_ids added n1 ++ a :: Os). split; [done|].
  pose proof N7 as N7''. apply list.NoDup_cons in N7 as [N7 N7'].
  split; [constructor|split; [|split]].
  - by rewrite Hlist, <- !app_comm_cons, <- !app_assoc.
  - intros b Hb. rewrite Hstore. rewrite !not_elem_of_cons in Hb. destruct Hb as (? & ? & ? & ? & ?).
    rewrite !lookup_alter_ne, lookup_insert_ne, inserted_lookup by done. done.
  - unfold new_ids. rewrite list.NoDup_cons. clear - N1 N4 N5 N7''.
    rewrite list.NoDup_cons in N7''. destruct N7''. destruct added; simpl; rewrite ?list.NoDup_cons;
      split_and!; (done || set_solver).
  - unfold new_ids. clear. destruct added; set_solver.
  - constructor; [|apply Forall2_app].
    + exists (set_fl_end (s - 1) F).
      rewrite Hstore, lookup_alter_eq, lookup_alter_ne, lookup_insert_eq by done. by split.
    + unfold new_ids, fresh_region. destruct added.
      * assert (t = F_UNLCK) as -> by (destruct (decide (t = F_UNLCK)); [done|]; by specialize (Hadd n)).
        constructor.
      * destruct Hau as [|Hu]; [done|]. rewrite (proj2 (Z.eqb_neq _ _) Hu).
        constructor; [|constructor]. exists C.
        rewrite Hstore, !lookup_alter_ne, lookup_insert_ne by done.
        unfold inserted. rewrite lookup_insert_eq. by split.
    + constructor.
      * exists (set_fl_start (e + 1) F).
        rewrite Hstore, lookup_alter_ne, lookup_alter_eq, lookup_insert_ne, inserted_lookup, Ha by done.
        by split.
      * eapply reps_frame; [|exact HR']. intros b Hb. rewrite Hstore.
        assert (b ≠ n1 ∧ b ≠ n2 ∧ b ≠ a) as (? & ? & ?).
        { clear - Hb N4 N5 N7. set_solver. }
        rewrite !lookup_alter_ne, lookup_insert_ne, inserted_lookup by done. done.
Qed.

(** The lock [a] has been deleted. *)
Lemma sets_drop t s e B c a Os R m m' pre lft x :
  done_as t s e B c Os R m' pre lft x → (∀ b, b ≠ a → m' !! b = m !! b) →
  done_as t s e B c (a :: Os) R m pre lft x.
Proof.
  intros (w' & ids & E & [H1 H2] & H3 & H4 & H5) Hm. exists w', ids. split; [done|].
  split; [constructor; [done|]|split; [done|split; [|done]]].
  - intros b Hb. assert (b ≠ a ∧ b ∉ n1 :: n2 :: c :: Os) as [Hb1 Hb2] by (clear - Hb; set_solver).
    rewrite (H2 b Hb2). by apply cut_left_congr, Hm.
  - intros b Hb. specialize (H4 b Hb). clear - H4. set_solver.
Qed.

(** The merge of the caller's structure and [a], both of the same type. *)
Lemma merge_first w a c C F t s e :
  fl_store w !! c = Some C → fl_store w !! a = Some F → a ≠ c → owned o p F →
  rng C = Rg t s e → (t = F_RDLCK ∨ t = F_WRLCK) → fl_type F = t →
  0 <= s <= e ∧ e <= OFFSET_MAX → 0 <= fl_start F <= fl_end F ∧ fl_end F <= OFFSET_MAX →
  ∃ w' A, (w ← (if fl_start C <? fl_start F then upd a (set_fl_start (fl_start C)) w
           else upd c (set_fl_start (fl_start F)) w);
       if fl_end F <? fl_end C then upd a (set_fl_end (fl_end C)) w
       else upd c (set_fl_end (fl_end F)) w) = Ok w' ∧
    placed t (Z.min s (fl_start F)) (Z.max e (fl_end F)) (fl_store w') a A ∧
    ∀ b, b ≠ a → b ≠ c → fl_store w' !! b = fl_store w !! b.
Proof.
  intros Hc Ha Hac HoF Hr Ht HtF Hrc HrF. injection Hr as Et Es Ee. rewrite Es, Ee.
  destruct (Z.ltb_spec s (fl_start F)); [rewrite (upd_ok _ _ _ _ Ha)|rewrite (upd_ok _ _ _ _ Hc)];
    cbn [mbind outcome_bind]; destruct (Z.ltb_spec (fl_end F) e);
    (erewrite upd_ok; [|cbn [fl_store set_store]; rewrite ?lookup_insert_eq, ?lookup_insert_ne by done;
       first [exact Ha|exact Hc|reflexivity]]);
    (eexists _, _; split; [done|]; split;
      [constructor; cbn [fl_store set_store];
        [rewrite ?lookup_insert_eq, ?lookup_insert_ne, ?lookup_insert_eq by done;
           first [exact Ha|reflexivity]|done|..|done|lia];
        unfold rng; simpl; rewrite HtF; f_equal; lia
      |intros b Hb Hb'; cbn [fl_store set_store]; by rewrite !lookup_insert_ne by done]).
Qed.

(** The lock [a] keeps its place: as it is, or cut on the right. *)
Lemma sets_pass t s e B c C a Os R' F w pre added added' lft lft' qt ph :
  sets t s e B c C Os →
  pending t s e B c C (a :: Os) (rng F :: R') w added lft qt ph → fl_store w !! a = Some F →
  (t ≠ F_UNLCK → added' = false) → (added' = false → t = F_UNLCK → lft' = None) →
  (lft' = lft ∧ (lft = None ∨ s <= fl_end F) ∨ lft = None ∧ lft' = Some a ∧ s <= fl_end F) →
  done_as t s e B c (a :: Os)
    ((if decide (lft' = Some a) then Rg (fl_type F) (fl_start F) (s - 1) else rng F)
       :: set_region t s e R') (fl_store w) pre lft
    (run_loop w (pre ++ [a]) (Os ++ B) c added' lft').
Proof.
  intros IH Hp Ha H1 H2 Hl'.
  destruct (pending_ids _ _ _ _ _ _ _ _ _ _ _ _ _ Hp) as (N1 & N2 & N3 & N4 & N5 & N6 & N7).
  destruct (pending_head _ _ _ _ _ _ _ _ _ _ _ _ _ _ Hp)
    as (F' & R'' & EQ & Ha' & HoF & Hreg & A1 & A2 & A3 & A4 & A5 & Et & Es & Ee & Hnext).
  rewrite Ha in Ha'. injection Ha' as <-. apply (f_equal (drop 1)) in EQ. cbn [drop] in EQ.
  rewrite !drop_0 in EQ. subst R''.
  apply list.NoDup_cons in N7 as [N7 N7'].
  assert (left_ok lft' c Os (fl_store w)) as Hlo.
  { pose proof (pd_left _ _ _ _ _ _ _ _ _ _ _ _ _ Hp) as Hl.
    destruct Hl' as [[-> _]|(-> & -> & _)]; [by eapply left_ok_tail|].
    intros l [= <-]. split; [done|]. split; [done|]. split; [done|]. by rewrite Ha. }
  assert (pending t s e B c C Os R' w added' lft' (fl_type F) (fl_end F)) as Hp'.
  { apply (Hnext w added' lft'); try done.
    - destruct Hl' as [[-> _]|(_ & -> & _)]; [apply Hp|congruence].
    - destruct Hl' as [[-> ?]|(_ & -> & ?)]; [done|by right]. }
  eapply sets_keep; [exact (IH R' w (pre ++ [a]) added' lft' _ _ Hp')| | | |reflexivity].
  - rewrite !not_elem_of_cons. done.
  - intros b Hb. destruct Hl' as [[-> _]|(-> & -> & _)]; [done|]. simpl. by rewrite lookup_alter_ne.
  - destruct (decide (lft' = Some a)) as [->|Hne].
    + exists (set_fl_end (s - 1) F). simpl. rewrite lookup_alter_eq, Ha. by split.
    + exists F. by rewrite cut_left_ne.
Qed.

Lemma sim_set t s e B c C Os : sets t s e B c C Os.
Proof.
  induction Os as [|a Os IH]; intros R w pre added lft qt ph Hp.
  { pose proof (pd_reps _ _ _ _ _ _ _ _ _ _ _ _ _ Hp) as HR. apply Forall2_nil_inv_l in HR as ->.
    rewrite <- (app_nil_r (set_region t s e [])). apply (sets_stop t s e B c C [] [] w pre added lft qt ph Hp).
    apply (loop_stop w pre B c added lft C); apply Hp. }
  destruct (pending_head _ _ _ _ _ _ _ _ _ _ _ _ _ _ Hp)
    as (F & R' & -> & Ha & HoF & Hreg & A1 & A2 & A3 & A4 & A5 & Et & Es & Ee & Hnext).
  pose proof Hp as [HR HB Hc Ho Hr Ht Hrange Hmax Hadd Hun _ Hnd HBO Hl Hl2 Hfst Hlow].
  pose proof Hreg as (T1 & T2 & T3 & T4 & T5). cbn [rng ty lo hi] in T1, T2, T3, T4, T5.
  pose proof (loop_read w pre a (Os ++ B) c added lft C F Hc Ha Ho HoF) as Hread.
  rewrite Et, Es, Ee in Hread. cbn [set_region rng ty lo hi].
  change ((a :: Os) ++ B) with (a :: Os ++ B). unfold OFFSET_MAX in *.
  destruct (Z.eqb_spec (fl_type F) t) as [E|E].
  - assert (t ≠ F_UNLCK) as Hu by (rewrite <- E; destruct T1 as [-> | ->]; done).
    specialize (Hmax Hu). rewrite (Hadd Hu) in *. rewrite E, Z.eqb_refl, (s64_small (s - 1)) in Hread by lia.
    destruct (Z.ltb_spec (fl_end F) (s - 1)).
    { unfold run_loop. rewrite Hread.
      pose proof (sets_pass t s e B c C a Os R' F w pre false false lft lft qt ph IH Hp Ha) as K.
      rewrite decide_False in K by done. apply K; [done|done|]. left. split; [done|].
      destruct Hfst as [->|]; [by left|lia]. }
    assert (e < 2 ^ 63 - 1) as He1.
    { destruct Hmax as [|Hm]; [done|]. apply Forall_cons_1 in Hm as [Hm _]. specialize (Hm E). simpl in Hm. lia. }
    rewrite s64_small in Hread by lia. destruct (Z.ltb_spec (e + 1) (fl_start F)).
    { by apply (sets_stop t s e B c C (a :: Os) (rng F :: R') w pre false lft qt ph). }
    destruct (merge_first w a c C F t s e) as (w2 & A & E1 & HA & Hfr); try done; try (unfold OFFSET_MAX; lia).
    rewrite Es, Ee in E1. unfold run_loop. rewrite Hread, (bind_assoc_ok _ _ _ _ E1).
    eapply (sets_absorb t s e _ _ B c C a Os R' F w w2 A pre lft false qt ph); try done; [lia|..].
    + eapply no_wrap_after; [|exact T5]. unfold OFFSET_MAX in *. lia.
    + destruct Hfst as [->|]; [by left|right; lia].
  - assert ((t =? fl_type F) = false) as Ene by (apply Z.eqb_neq; congruence). rewrite Ene in Hread.
    destruct (Z.ltb_spec (fl_end F) s).
    { unfold run_loop. rewrite Hread.
      pose proof (sets_pass t s e B c C a Os R' F w pre added added lft lft qt ph IH Hp Ha) as K.
      rewrite decide_False in K by done. apply K; [done|done|]. left. split; [done|].
      destruct Hfst as [->|]; [by left|lia]. }
    destruct (Z.ltb_spec e (fl_start F)).
    { by apply (sets_stop t s e B c C (a :: Os) (rng F :: R') w pre added lft qt ph). }
    set (added' := if t =? F_UNLCK then true else added) in Hread. cbv zeta in Hread.
    assert (added' = true ∨ t ≠ F_UNLCK) as Hau'.
    { unfold added'. destruct (Z.eqb_spec t F_UNLCK); auto. }
    assert (t ≠ F_UNLCK → added' = false) as Hadd'.
    { intros Hu. unfold added'. rewrite (proj2 (Z.eqb_neq _ _) Hu). auto. }
    assert (pending t s e B c C (a :: Os) (rng F :: R') w added' lft qt ph) as Hp'.
    { destruct Hp. constructor; try done. intros Hf Hu. by destruct Hau' as [Hau'|]; [congruence|]. }
    unfold run_loop. rewrite Hread. clear Hread.
    destruct (Z.ltb_spec e (fl_end F)).
    { cbn [mbind outcome_bind]. destruct (Z.ltb_spec (fl_start F) s); cbn [app].
      - assert (lft = None) as -> by (destruct Hfst; [done|lia]). by apply (sets_split t s e B c C a Os R' F w pre added' qt ph).
      - by apply (sets_right t s e B c C a Os R' F w pre added' lft qt ph). }
    destruct (Z.leb_spec s (fl_start F)).
    2: { destruct (Z.ltb_spec (fl_start F) s); [|lia].
         assert (lft = None) as Hln by (destruct Hfst; [done|lia]).
         pose proof (sets_pass t s e B c C a Os R' F w pre added' added' lft (Some a) qt ph IH Hp' Ha) as K.
         rewrite decide_True in K by done. apply K; [done| |by right].
         intros Hf Hu. destruct Hau'; congruence. }
    destruct (Z.ltb_spec (fl_start F) s); [lia|].
    destruct (Z.eqb_spec t F_UNLCK) as [->|Hu].
    + apply (sets_drop _ _ _ _ _ _ _ _ _ (fl_store (locks_delete_lock a w))).
      * assert (pending F_UNLCK s e B c C Os R' (locks_delete_lock a w) true lft (fl_type F) (fl_end F)) as Hpn;
          [|exact (IH R' (locks_delete_lock a w) pre true lft _ _ Hpn)].
        apply Hnext; try done.
        -- intros b Hb. rewrite store_delete, lookup_delete_ne; [done|].
           intros <-. apply elem_of_cons in Hb as [?|Hb]; [done|]. apply elem_of_app in Hb as [Hb|]; [|done].
           destruct (pending_ids _ _ _ _ _ _ _ _ _ _ _ _ _ Hp) as (_ & _ & _ & _ & _ & _ & N7).
           by apply list.NoDup_cons in N7 as [? _].
        -- eapply left_ok_tail; [done|]. intros l Hlc Hla. by rewrite store_delete, lookup_delete_ne.
        -- destruct Hfst as [->|]; [by left|right; lia].
      * intros b Hb. by rewrite store_delete, lookup_delete_ne.
    + rewrite (Hadd' Hu). erewrite upd_ok by (cbn [fl_store locks_wake_up_blocks]; exact Ha).
      cbn [mbind outcome_bind].
      eapply (sets_absorb t s e s e B c C a Os R' F w _ _ pre lft added' qt ph); try done; try lia; auto.
      2: by eapply no_wrap_tail, Hmax.
      * constructor; [cbn [fl_store set_store]; apply lookup_insert_eq|done|done| |done].
        destruct Ht as [|[|]]; auto; done.
      * intros b Hb _. cbn [fl_store set_store locks_wake_up_blocks]. by rewrite lookup_insert_ne.
Qed.

End simulation.
