(* ===== verification/LockThm.v ===== *)
(** The locks of an inode: the invariant of the list [i_flock], what a request
    does to it, and that no two owners hold conflicting locks. *)

From S2P Require Import Prelude Errno PosixLock LockSim.

(** ** Whose lock is on a byte *)

Definition is_owned (o p : Z) (f : file_lock) : bool :=
  (fl_owner f =? o) && (fl_pid f =? p) && has_flag f FL_POSIX.

(** The type of the lock that [o], [p] holds on byte [x]. *)
Fixpoint lock_at (m : gmap Z file_lock) (l : list Z) (o p x : Z) : option Z :=
  match l with
  | [] => None
  | a :: l =>
      match m !! a with
      | Some f => if is_owned o p f && inside (rng f) x then Some (fl_type f) else lock_at m l o p x
      | None => lock_at m l o p x
      end
  end.

Definition lock_on (w : locks) (o p x : Z) : option Z := lock_at (fl_store w) (i_flock w) o p x.

Lemma is_owned_true o p f :
  is_owned o p f = true ↔ fl_owner f = o ∧ fl_pid f = p ∧ has_flag f FL_POSIX = true.
Proof. unfold is_owned. rewrite !andb_true_iff, !Z.eqb_eq. tauto. Qed.

Lemma owned_is o p f : owned o p f → is_owned o p f = true.
Proof. intros (? & ? & ? & _). by apply is_owned_true. Qed.

Lemma lock_at_app m l k o p x :
  lock_at m (l ++ k) o p x =
  match lock_at m l o p x with Some t => Some t | None => lock_at m k o p x end.
Proof.
  induction l as [|a l IH]; simpl; [done|]. destruct (m !! a) as [f|]; [|done].
  by destruct (is_owned o p f && inside (rng f) x).
Qed.

Lemma lock_at_frame m m' l o p x :
  (∀ a, a ∈ l → m' !! a = m !! a) → lock_at m' l o p x = lock_at m l o p x.
Proof.
  induction l as [|a l IH]; simpl; intros H; [done|].
  rewrite (H a), IH by set_solver. done.
Qed.

(** Locks of somebody else say nothing. *)
Definition foreign (o p : Z) (m : gmap Z file_lock) (a : Z) : Prop :=
  ∃ f, m !! a = Some f ∧ is_owned o p f = false.

Lemma lock_at_foreign m l o p x : Forall (foreign o p m) l → lock_at m l o p x = None.
Proof. induction 1 as [|a l (f & Hf & Ho) Hl IH]; simpl; [done|]. by rewrite Hf, Ho. Qed.

Lemma lock_at_reps m l R o p x : reps o p m l R → lock_at m l o p x = held R x.
Proof.
  induction 1 as [|a r l R (f & Hf & <- & Ho) Hl IH]; simpl; [done|].
  rewrite Hf. apply owned_is in Ho. rewrite Ho, IH. done.
Qed.

Lemma reps_foreign o p o' p' m l R :
  reps o p m l R → (o', p') ≠ (o, p) → Forall (foreign o' p' m) l.
Proof.
  intros H Hne. induction H as [|a r l R (f & Hf & _ & Ho) Hl IH]; constructor; [|done].
  exists f. split; [done|]. destruct (is_owned o' p' f) eqn:E; [|done].
  apply is_owned_true in E as (E1 & E2 & _). destruct Ho as (O1 & O2 & _). exfalso. apply Hne. congruence.
Qed.

(** ** The list of an inode *)

(** The locks of one owner, contiguous in the list. *)
Record group := Group { g_owner : Z; g_pid : Z; g_ids : list Z; g_regions : list region }.

Definition group_ok (m : gmap Z file_lock) (g : group) : Prop :=
  reps (g_owner g) (g_pid g) m (g_ids g) (g_regions g) ∧ regions_ok (g_regions g) ∧ g_ids g ≠ [].

Definition g_key (g : group) : Z * Z := (g_owner g, g_pid g).

(** FLOCK locks and leases come first, then the POSIX locks, by owner, each
    owner's sorted, disjoint and merged. *)
Record locks_shape (w : locks) (fs : list Z) (gs : list group) : Prop := {
  sh_list : i_flock w = fs ++ mjoin (g_ids <$> gs);
  sh_nodup : NoDup (i_flock w);
  sh_flocks : Forall (λ a, ∃ f, fl_store w !! a = Some f ∧ has_flag f FL_POSIX = false) fs;
  sh_groups : Forall (group_ok (fl_store w)) gs;
  sh_keys : NoDup (g_key <$> gs)
}.

Definition locks_ok (w : locks) : Prop := ∃ fs gs, locks_shape w fs gs.

Lemma join_app_groups (g1 g2 : list group) :
  mjoin (g_ids <$> g1 ++ g2) = mjoin (g_ids <$> g1) ++ mjoin (g_ids <$> g2).
Proof. by rewrite fmap_app, join_app. Qed.

Lemma groups_foreign m gs o p :
  Forall (group_ok m) gs → (o, p) ∉ g_key <$> gs → Forall (foreign o p m) (mjoin (g_ids <$> gs)).
Proof.
  induction 1 as [|g gs (Hg & _) Hgs IH]; simpl; intros Hn; [constructor|].
  apply not_elem_of_cons in Hn as [Hn1 Hn2]. apply Forall_app. split; [|auto].
  eapply reps_foreign; [done|exact Hn1].
Qed.

Lemma flocks_foreign m fs o p :
  Forall (λ a, ∃ f, m !! a = Some f ∧ has_flag f FL_POSIX = false) fs → Forall (foreign o p m) fs.
Proof.
  apply Forall_impl. intros a (f & Hf & Hp). exists f. split; [done|].
  unfold is_owned. rewrite Hp. by rewrite andb_false_r.
Qed.

Lemma groups_frame m m' gs :
  (∀ a, a ∈ mjoin (g_ids <$> gs) → m' !! a = m !! a) →
  Forall (group_ok m) gs → Forall (group_ok m') gs.
Proof.
  intros Hm H. induction H as [|g gs (H1 & H2 & H3) Hgs IH]; constructor.
  - split; [|done]. eapply reps_frame; [|done]. intros a Ha. apply Hm. simpl. set_solver.
  - apply IH. intros a Ha. apply Hm. simpl. set_solver.
Qed.

(** The part of the list that belongs to the owner of a request. *)
Record part (o p : Z) (w : locks) (fs : list Z) (g1 : list group) (Os : list Z) (R : list region)
    (g2 : list group) : Prop := {
  pt_list : i_flock w = (fs ++ mjoin (g_ids <$> g1)) ++ Os ++ mjoin (g_ids <$> g2);
  pt_reps : reps o p (fl_store w) Os R;
  pt_regions : regions_ok R;
  pt_before : Forall (foreign o p (fl_store w)) (fs ++ mjoin (g_ids <$> g1));
  pt_after : Forall (foreign o p (fl_store w)) (mjoin (g_ids <$> g2));
  pt_g1 : Forall (group_ok (fl_store w)) g1;
  pt_g2 : Forall (group_ok (fl_store w)) g2;
  pt_keys : NoDup ((o, p) :: (g_key <$> g1) ++ (g_key <$> g2));
  pt_last : Os = [] → g2 = []
}.

Lemma shape_part w fs gs o p :
  locks_shape w fs gs → ∃ g1 Os R g2, part o p w fs g1 Os R g2.
Proof.
  intros [H1 H2 H3 H4 H5]. pose proof (flocks_foreign _ _ o p H3) as Hfs.
  destruct (decide ((o, p) ∈ g_key <$> gs)) as [Hin|Hin].
  - apply list_elem_of_fmap in Hin as (g & Hk & Hg). apply list_elem_of_split in Hg as (g1 & g2 & ->).
    rewrite fmap_app in H5. simpl in H5. apply list.NoDup_app in H5 as (N1 & N2 & N3).
    apply list.NoDup_cons in N3 as [N3 N4].
    apply Forall_app in H4 as [G1 G2]. apply Forall_cons_1 in G2 as [(Hr & Hro & Hne) G2].
    injection Hk as -> ->.
    assert (g_key g ∉ g_key <$> g1) as Hn1 by (intros Hx; apply (N2 _ Hx); by left).
    exists g1, (g_ids g), (g_regions g), g2. constructor; try done.
    + rewrite H1, join_app_groups. simpl. by rewrite app_assoc.
    + apply Forall_app. split; [done|]. by apply groups_foreign.
    + by apply groups_foreign.
    + apply list.NoDup_cons. split; [rewrite not_elem_of_app; done|].
      apply list.NoDup_app. split; [done|]. split; [|done]. intros x Hx Hx2. apply (N2 x Hx). by right.
  - exists gs, [], [], []. constructor; try done; simpl.
    + by rewrite app_nil_r.
    + by constructor.
    + apply Forall_app. split; [done|]. by apply groups_foreign.
    + by rewrite app_nil_r; apply list.NoDup_cons.
Qed.

Lemma skip_spec o p c pre A rest w :
  fl_owner c = o → fl_pid c = p → Forall (foreign o p (fl_store w)) A →
  match rest with [] => True | a :: _ => ∃ f, fl_store w !! a = Some f ∧ owned o p f end →
  skip_others c pre (A ++ rest) w = Ok (pre ++ A, rest).
Proof.
  intros Ho Hp HA Hrest. revert pre. induction HA as [|a A (f & Hf & Hn) HA IH]; intros pre; simpl.
  - rewrite app_nil_r. destruct rest as [|a rest]; [done|]. destruct Hrest as (f & Hf & F1 & F2 & F3 & _).
    simpl. unfold get. rewrite Hf. cbn [mbind outcome_bind]. rewrite F3.
    rewrite (proj2 (same_owner_true c f)) by (split; congruence). done.
  - unfold get. rewrite Hf. cbn [mbind outcome_bind].
    assert (negb (has_flag f FL_POSIX) || negb (locks_same_owner c f) = true) as ->.
    { unfold is_owned in Hn. destruct (has_flag f FL_POSIX); [|done]. simpl.
      destruct (locks_same_owner c f) eqn:E; [|done]. apply same_owner_true in E as [E1 E2].
      rewrite (proj2 (Z.eqb_eq _ _)), (proj2 (Z.eqb_eq (fl_pid f) _)) in Hn by congruence. done. }
    rewrite IH. by rewrite <- app_assoc.
Qed.

Lemma stops_groups o p m gs :
  Forall (group_ok m) gs → (o, p) ∉ g_key <$> gs → stops o p m (mjoin (g_ids <$> gs)).
Proof.
  destruct 1 as [|g gs (Hr & _ & Hne) Hgs]; [done|]. simpl. intros Hn.
  apply not_elem_of_cons in Hn as [Hn _].
  destruct (g_ids g) as [|a l]; [done|]. simpl.
  apply Forall2_cons_inv_l in Hr as (r & R' & (f & Hf & _ & F1 & F2 & _) & _).
  exists f. split; [done|]. intros [E1 E2]. apply Hn. unfold g_key. congruence.
Qed.

(** A request, and the memory for two new structures. *)
Record request_ok (w : locks) (c n1 n2 : Z) (C : file_lock) : Prop := {
  rq_get : fl_store w !! c = Some C;
  rq_posix : has_flag C FL_POSIX = true ∧ has_flag C (Z.lor FL_FLOCK FL_LEASE) = false;
  rq_type : lock_type (fl_type C);
  rq_range : 0 <= fl_start C <= fl_end C ∧ fl_end C <= OFFSET_MAX;
  rq_fresh : NoDup (n1 :: n2 :: c :: i_flock w)
}.

Lemma regions_nonempty pt ph R r : regions_after pt ph R → r ∈ R → lo r <= hi r.
Proof.
  revert pt ph. induction R as [|q R IH]; intros pt ph Hok Hin; [by apply elem_of_nil in Hin|].
  destruct Hok as (_ & H2 & _ & _ & H5). apply elem_of_cons in Hin as [->|Hin]; [lia|eauto].
Qed.

Lemma held_elem pt ph R r x : regions_after pt ph R → r ∈ R → inside r x = true → held R x = Some (ty r).
Proof.
  revert pt ph. induction R as [|q R IH]; intros pt ph Hok Hin Hx; [by apply elem_of_nil in Hin|].
  simpl. apply elem_of_cons in Hin as [->|Hin]; [by rewrite Hx|].
  destruct Hok as (_ & H2 & _ & _ & H5). pose proof (IH _ _ H5 Hin Hx) as Hheld.
  destruct (inside q x) eqn:E; [|done]. unfold inside in E. apply andb_prop in E as [_ E%Z.leb_le].
  by rewrite (held_after _ _ _ x H5) in Hheld by done.
Qed.

Lemma part_lock_on o p w fs g1 Os R g2 x : part o p w fs g1 Os R g2 → lock_on w o p x = held R x.
Proof.
  intros [P1 P2 P3 P4 P5 _ _ _ _]. unfold lock_on.
  rewrite P1, (lock_at_app _ (fs ++ _)), (lock_at_app _ Os).
  rewrite (lock_at_foreign _ (fs ++ _) _ _ _ P4), (lock_at_foreign _ (mjoin _) _ _ _ P5).
  rewrite (lock_at_reps _ _ _ _ _ _ P2). by destruct (held R x).
Qed.

(** The request does not end at the last offset, or it has nothing to merge
    with: the owner holds no lock of the same type from just before its start on. *)
Definition merge_safe (w : locks) (C : file_lock) : Prop :=
  fl_type C = F_UNLCK ∨ fl_end C < OFFSET_MAX ∨
  ∀ x, fl_start C - 1 <= x → lock_on w (fl_owner C) (fl_pid C) x ≠ Some (fl_type C).

Lemma merge_safe_no_wrap w fs g1 Os R g2 C :
  part (fl_owner C) (fl_pid C) w fs g1 Os R g2 → merge_safe w C →
  fl_type C ≠ F_UNLCK → no_wrap (fl_type C) (fl_start C) (fl_end C) R.
Proof.
  intros Hpart [?|[?|Hx]] Hu; [done|by left|right].
  pose proof (λ x, part_lock_on _ _ _ _ _ _ _ _ x Hpart) as Hon.
  pose proof (pt_regions _ _ _ _ _ _ _ _ Hpart) as HR.
  apply Forall_lookup. intros i r Hi Et. apply list_elem_of_lookup_2 in Hi.
  pose proof (regions_nonempty _ _ _ _ HR Hi).
  destruct (decide (hi r < fl_start C - 1)); [done|]. destruct (Hx (hi r)); [lia|].
  rewrite Hon, (held_elem (-1) (-1) R r); [by rewrite Et|done|done|].
  unfold inside. apply andb_true_intro. split; apply Z.leb_le; lia.
Qed.

Lemma part_pending w fs g1 Os R g2 c n1 n2 C :
  part (fl_owner C) (fl_pid C) w fs g1 Os R g2 → request_ok w c n1 n2 C → NoDup (i_flock w) →
  (fl_type C ≠ F_UNLCK → no_wrap (fl_type C) (fl_start C) (fl_end C) R) →
  pending (fl_owner C) (fl_pid C) n1 n2 (fl_type C) (fl_start C) (fl_end C)
    (mjoin (g_ids <$> g2)) c C Os R w false None (-1) (-1).
Proof.
  intros [P1 P2 P3 P4 P5 P6 P7 P8 P9] [Q1 Q2 Q3 Q4 Q5] Hnd Hmax.
  rewrite P1 in Q5, Hnd. rewrite !list.NoDup_cons in Q5. destruct Q5 as (Q5 & Q6 & Q7 & Q8).
  apply list.NoDup_app in Hnd as (_ & _ & Hnd). apply list.NoDup_app in Hnd as (N1 & N2 & _).
  constructor; try done.
  - apply stops_groups; [done|]. apply list.NoDup_cons in P8 as [P8 _].
    by apply not_elem_of_app in P8 as [_ ?].
  - split_nin Q5; split_nin Q6; split_nin Q7.
    rewrite !list.NoDup_cons, !not_elem_of_cons. tauto.
  - intros b Hb. split_nin Q5; split_nin Q6; split_nin Q7.
    rewrite !not_elem_of_cons. split_and!; try (intros ->; tauto). intros Hin. by apply (N2 b).
  - by left.
Qed.

(** The new list of locks is well formed. *)
Lemma part_shape o p n1 n2 c w w' fs g1 Os R R' g2 ids :
  part o p w fs g1 Os R g2 → NoDup (n1 :: n2 :: c :: i_flock w) →
  Forall (λ a, ∃ f, fl_store w !! a = Some f ∧ has_flag f FL_POSIX = false) fs →
  i_flock w' = (fs ++ mjoin (g_ids <$> g1)) ++ ids ++ mjoin (g_ids <$> g2) →
  (∀ a, a ∉ n1 :: n2 :: c :: Os → fl_store w' !! a = fl_store w !! a) →
  NoDup ids → (∀ b, b ∈ ids → b ∈ n1 :: n2 :: Os) → reps o p (fl_store w') ids R' → regions_ok R' →
  (∃ gs', locks_shape w' fs gs') ∧ ∀ a, a ∈ fs → fl_store w' !! a = fl_store w !! a.
Proof.
  intros [P1 P2 P3 P4 P5 P6 P7 P8 P9] Hnd Hfs Hlist Hfr Hids Hsub HR' Hok.
  rewrite P1 in Hnd. rewrite !list.NoDup_cons in Hnd.
  destruct Hnd as (Q1 & Q2 & Q3 & Q4). split_nin Q1; split_nin Q2; split_nin Q3.
  apply list.NoDup_app in Q4 as (N1 & N2 & N3). apply list.NoDup_app in N3 as (N3 & N4 & N5).
  assert (∀ b, b ∈ fs ++ mjoin (g_ids <$> g1) → b ∉ n1 :: n2 :: c :: Os) as F1.
  { intros b Hb Hin. rewrite !elem_of_cons in Hin.
    destruct Hin as [->|[->|[->|Hin]]].
    - apply elem_of_app in Hb. tauto.
    - apply elem_of_app in Hb. tauto.
    - apply elem_of_app in Hb. tauto.
    - apply (N2 b Hb). apply elem_of_app. by left. }
  assert (∀ b, b ∈ mjoin (g_ids <$> g2) → b ∉ n1 :: n2 :: c :: Os) as F2.
  { intros b Hb Hin. rewrite !elem_of_cons in Hin. destruct Hin as [->|[->|[->|Hin]]]; try tauto.
    by apply (N4 b Hin). }
  assert (Forall (group_ok (fl_store w')) (g1 ++ (match ids with [] => [] | _ => [Group o p ids R'] end) ++ g2)) as HG.
  { apply Forall_app. split; [|apply Forall_app; split].
    - eapply groups_frame; [|done]. intros a Ha. apply Hfr, F1. apply elem_of_app. by right.
    - destruct ids; repeat constructor; done.
    - eapply groups_frame; [|done]. intros a Ha. apply Hfr, F2, Ha. }
  split; [|intros a Ha; apply Hfr, F1, elem_of_app; by left].
  exists (g1 ++ (match ids with [] => [] | _ => [Group o p ids R'] end) ++ g2). constructor; try done.
  - rewrite Hlist, !join_app_groups, <- !app_assoc. do 3 f_equal. destruct ids; simpl; by rewrite ?app_nil_r.
  - rewrite Hlist. apply list.NoDup_app. split; [done|].
    assert (∀ x, x ∈ ids → x ∈ n1 :: n2 :: c :: Os) as Hsub' by (intros x Hx; specialize (Hsub x Hx); clear - Hsub; set_solver).
    split.
    + intros x Hx Hx2. apply elem_of_app in Hx2 as [Hx2|Hx2].
      * by apply (F1 x Hx), Hsub'.
      * apply (N2 x Hx). apply elem_of_app. by right.
    + apply list.NoDup_app. split; [done|]. split; [|done]. intros x Hx Hx2. by apply (F2 x Hx2), Hsub'.
  - rewrite Forall_lookup in Hfs |- *. intros i a Hi. destruct (Hfs i a Hi) as (f & Hf & Hp).
    exists f. split; [|done]. rewrite Hfr; [done|]. apply F1, elem_of_app. left.
    by eapply list_elem_of_lookup_2.
  - rewrite !fmap_app. apply list.NoDup_cons in P8 as [P8 P8'].
    destruct ids; simpl; [done|]. apply list.NoDup_app in P8' as (K1 & K2 & K3).
    apply not_elem_of_app in P8 as [P8a P8b].
    apply list.NoDup_app. split; [done|]. split; [|by apply list.NoDup_cons].
    intros x Hx. rewrite not_elem_of_cons. split; [intros ->; done|auto].
Qed.

(** The locks after a request that has been granted: a well-formed list with
    the same FLOCK locks and leases [fs] as before. *)
Record granted (fs : list Z) (w w' : locks) (C : file_lock) : Prop := {
  gr_shape : ∃ gs', locks_shape w' fs gs';
  gr_flocks : ∀ a, a ∈ fs → fl_store w' !! a = fl_store w !! a;
  gr_lock : ∀ o p x, lock_on w' o p x =
    if decide ((o, p) = (fl_owner C, fl_pid C))
    then overlay (fl_type C) (fl_start C) (fl_end C) (lock_on w o p) x else lock_on w o p x
}.

Lemma posix_apply_ok fs gs w c n1 n2 C :
  locks_shape w fs gs → request_ok w c n1 n2 C → merge_safe w C →
  ∃ w', posix_apply c n1 n2 w = Ok w' ∧ granted fs w w' C ∧ c ∉ i_flock w'.
Proof.
  intros Hsh Hrq Hmax. pose proof Hsh as [_ Hnd Hfs _ _].
  destruct (shape_part w fs gs (fl_owner C) (fl_pid C) Hsh) as (g1 & Os & R & g2 & Hpart).
  pose proof (part_pending w fs g1 Os R g2 c n1 n2 C Hpart Hrq Hnd
    (merge_safe_no_wrap _ _ _ _ _ _ _ Hpart Hmax)) as Hpd.
  pose proof Hpart as [P1 P2 P3 P4 P5 P6 P7 P8 P9]. pose proof Hrq as [Q1 Q2 Q3 Q4 Q5].
  destruct (sim_set _ _ n1 n2 _ _ _ _ c C Os R w (fs ++ mjoin (g_ids <$> g1)) false None _ _ Hpd)
    as (w' & ids & E & [L1 L2] & L3 & L4 & L5).
  assert (∀ x, held (set_region (fl_type C) (fl_start C) (fl_end C) R) x =
    overlay (fl_type C) (fl_start C) (fl_end C) (held R) x) as Hheld.
  { intros x. eapply set_region_held; [done|lia|exact P3]. }
  assert ((∃ gs', locks_shape w' fs gs') ∧ ∀ a, a ∈ fs → fl_store w' !! a = fl_store w !! a) as [Hs1 Hs2].
  { eapply (part_shape _ _ n1 n2 c w w' fs g1 Os R _ g2 ids); try done.
    apply set_region_ok; [done|lia|lia| |done].
    destruct Q3 as [-> |[-> | ->]]; done. }
  exists w'. split; [|split; [constructor; [done|done|]|]].
  - unfold posix_apply, get. rewrite Q1. cbn [mbind outcome_bind]. rewrite P1.
    rewrite (skip_spec (fl_owner C) (fl_pid C)); [exact E|done|done|done|].
    destruct Os as [|a Os]; [by rewrite (P9 eq_refl)|]. simpl.
    apply Forall2_cons_inv_l in P2 as (r & R' & (f & Hf & _ & Ho) & _). by exists f.
  - rewrite P1 in Q5, Hnd. apply list.NoDup_app in Hnd as (_ & N2 & N3).
    apply list.NoDup_app in N3 as (_ & N4 & _). rewrite !list.NoDup_cons in Q5.
    destruct Q5 as (Q5 & Q6 & Q7 & _). split_nin Q5; split_nin Q6; split_nin Q7.
    assert (∀ a, a ∈ fs ++ mjoin (g_ids <$> g1) ∨ a ∈ mjoin (g_ids <$> g2) →
      fl_store w' !! a = fl_store w !! a) as Hfr.
    { intros a Ha. rewrite L2; [done|]. rewrite !not_elem_of_cons.
      split_and!; [intros ->; rewrite elem_of_app in Ha; tauto..|].
      intros Hin. destruct Ha as [Ha|Ha]; [apply (N2 a Ha), elem_of_app; by left|by apply (N4 a Hin)]. }
    set (A := fs ++ mjoin (g_ids <$> g1)) in *. set (B := mjoin (g_ids <$> g2)) in *. clearbody A B.
    intros o p x. unfold overlay, lock_on. rewrite L1, P1, !lock_at_app.
    rewrite (lock_at_frame (fl_store w) (fl_store w') A) by auto.
    rewrite (lock_at_frame (fl_store w) (fl_store w') B) by auto.
    destruct (decide ((o, p) = (fl_owner C, fl_pid C))) as [[= -> ->]|Hne].
    + rewrite (lock_at_foreign _ A _ _ _ P4), (lock_at_foreign _ B _ _ _ P5).
      rewrite (lock_at_reps _ _ _ _ _ _ L5), (lock_at_reps _ _ _ _ _ _ P2), Hheld.
      unfold overlay. repeat case_match; done.
    + rewrite (lock_at_foreign _ ids _ _ _ (reps_foreign _ _ _ _ _ _ _ L5 Hne)).
      by rewrite (lock_at_foreign _ Os _ _ _ (reps_foreign _ _ _ _ _ _ _ P2 Hne)).
  - rewrite P1 in Q5. rewrite !list.NoDup_cons in Q5. destruct Q5 as (Q5 & Q6 & Q7 & _).
    split_nin Q5; split_nin Q6; split_nin Q7. rewrite L1, !not_elem_of_app.
    split_and!; try tauto. intros Hin. apply L4 in Hin. rewrite !elem_of_cons in Hin. naive_solver.
Qed.

(** ** Conflicts *)

(** Another owner holds an incompatible lock on a byte of the range. *)
Definition conflicting (w : locks) (C : file_lock) : Prop :=
  ∃ o p x t, (o, p) ≠ (fl_owner C, fl_pid C) ∧ fl_start C <= x <= fl_end C ∧
    lock_on w o p x = Some t ∧ (fl_type C = F_WRLCK ∨ t = F_WRLCK).

Lemma find_lock_spec P l w :
  Forall (λ a, is_Some (fl_store w !! a)) l →
  (find_lock P l w = Ok None ∧ ∀ a f, a ∈ l → fl_store w !! a = Some f → P f = false) ∨
  (∃ a f, find_lock P l w = Ok (Some a) ∧ a ∈ l ∧ fl_store w !! a = Some f ∧ P f = true).
Proof.
  induction 1 as [|a l [f Hf] Hl IH]; simpl.
  { left. split; [done|]. intros a f Ha. by apply elem_of_nil in Ha. }
  unfold get. rewrite Hf. cbn [mbind outcome_bind]. destruct (P f) eqn:E.
  { right. exists a, f. split; [done|]. split; [by left|done]. }
  destruct IH as [[-> H]|(b & g & -> & Hb & H)]; [left|right].
  - split; [done|]. intros b g Hb Hg. apply elem_of_cons in Hb as [->|Hb]; [congruence|eauto].
  - exists b, g. split; [done|]. split; [by right|done].
Qed.

Lemma lock_at_elem m l o p x t :
  lock_at m l o p x = Some t →
  ∃ a f, a ∈ l ∧ m !! a = Some f ∧ is_owned o p f = true ∧ inside (rng f) x = true ∧ fl_type f = t.
Proof.
  induction l as [|a l IH]; simpl; [done|]. destruct (m !! a) as [f|] eqn:E.
  - destruct (is_owned o p f && inside (rng f) x) eqn:Eo.
    + apply andb_prop in Eo as [Eo Ei]. intros [= <-]. exists a, f.
      split; [by left|done].
    + intros H. destruct (IH H) as (b & g & Hb & Hg). exists b, g. split; [by right|done].
  - intros H. destruct (IH H) as (b & g & Hb & Hg). exists b, g. split; [by right|done].
Qed.

(** A POSIX lock in the list is one of its owner's regions. *)
Lemma lock_region w a f :
  locks_ok w → a ∈ i_flock w → fl_store w !! a = Some f → has_flag f FL_POSIX = true →
  ∃ R, regions_ok R ∧ rng f ∈ R ∧ ∀ x, lock_on w (fl_owner f) (fl_pid f) x = held R x.
Proof.
  intros (fs & gs & Hsh) Ha Hf Hp.
  destruct (shape_part w fs gs (fl_owner f) (fl_pid f) Hsh) as (g1 & Os & R & g2 & Hpart).
  pose proof (λ x, part_lock_on _ _ _ _ _ _ _ _ x Hpart) as Hon. destruct Hpart as [P1 P2 P3 P4 P5 _ _ _ _].
  assert (is_owned (fl_owner f) (fl_pid f) f = true) as Ho by (by apply is_owned_true).
  assert (∀ l, Forall (foreign (fl_owner f) (fl_pid f) (fl_store w)) l → a ∉ l) as Hnot.
  { intros l Hl Hin. apply list_elem_of_lookup in Hin as [i Hi]. rewrite Forall_lookup in Hl.
    destruct (Hl i a Hi) as (g & Hg & Hn). congruence. }
  rewrite P1, !elem_of_app in Ha.
  destruct Ha as [Ha|[Ha|Ha]]; [destruct (Hnot _ P4); by apply elem_of_app| |by destruct (Hnot _ P5)].
  apply list_elem_of_lookup in Ha as [i Hi].
  destruct (Forall2_lookup_l _ _ _ _ _ P2 Hi) as (r & Hr & g & Hg & <- & _).
  rewrite Hf in Hg. injection Hg as <-.
  exists R. split; [done|]. split; [by eapply list_elem_of_lookup_2|done].
Qed.

Lemma lock_on_elem w a f x :
  locks_ok w → a ∈ i_flock w → fl_store w !! a = Some f → has_flag f FL_POSIX = true →
  inside (rng f) x = true → lock_on w (fl_owner f) (fl_pid f) x = Some (fl_type f).
Proof.
  intros Hok Ha Hf Hp Hx. destruct (lock_region w a f Hok Ha Hf Hp) as (R & HR & Hin & ->).
  by apply (held_elem (-1) (-1) R (rng f)).
Qed.

Lemma in_store w : locks_ok w → Forall (λ a, is_Some (fl_store w !! a)) (i_flock w).
Proof.
  intros (fs & gs & [H1 _ H3 H4 _]). rewrite H1. clear H1. apply Forall_app. split.
  - eapply Forall_impl; [|exact H3]. intros a (f & -> & _). done.
  - induction H4 as [|g gs (Hg & _) Hgs IH]; simpl; [done|]. apply Forall_app. split.
    + induction Hg as [|a r l R (f & Hf & _) Hl IHl]; constructor; [by rewrite Hf|done].
    + exact IH.
Qed.

Lemma conflict_found w c n1 n2 C :
  locks_ok w → request_ok w c n1 n2 C → fl_type C ≠ F_UNLCK →
  let P := λ fl, has_flag fl FL_POSIX && posix_locks_conflict C fl in
  (find_lock P (i_flock w) w = Ok None ∧ ¬ conflicting w C) ∨
  (∃ a f, find_lock P (i_flock w) w = Ok (Some a) ∧ fl_store w !! a = Some f ∧ conflicting w C).
Proof.
  intros Hok Hrq Hu P. pose proof Hrq as [_ _ Q3 Q4 _].
  destruct (find_lock_spec P (i_flock w) w (in_store w Hok)) as [[-> Hno]|(a & f & -> & Ha & Hf & HP)].
  - left. split; [done|]. intros (o & p & x & t & Hne & Hx & Hlock & Ht).
    apply lock_at_elem in Hlock as (a & f & Ha & Hf & (O1 & O2 & O3)%is_owned_true & Hin & <-).
    specialize (Hno a f Ha Hf). unfold P, posix_locks_conflict in Hno. rewrite O3 in Hno. simpl in Hno.
    unfold inside in Hin. simpl in Hin. apply andb_prop in Hin as [H1%Z.leb_le H2%Z.leb_le].
    destruct (locks_same_owner C f) eqn:Eo.
    { apply same_owner_true in Eo as [E1 E2]. apply Hne. congruence. }
    assert (locks_overlap C f = true) as Eov.
    { unfold locks_overlap. apply andb_true_intro. split; apply Z.leb_le; lia. }
    rewrite Eov in Hno. simpl in Hno. unfold locks_conflict in Hno.
    destruct Q3 as [E|[E|E]]; rewrite E in Hno, Ht; simpl in Hno; [|done|done].
    destruct Ht as [?|Ht]; [done|]. by rewrite Ht in Hno.
  - right. exists a, f. split; [done|]. split; [done|]. unfold P in HP. apply andb_prop in HP as [Hp HP].
    unfold posix_locks_conflict in HP. rewrite Hp in HP. simpl in HP.
    destruct (locks_same_owner C f) eqn:Eo; [done|]. destruct (locks_overlap C f) eqn:Eov; [|done].
    simpl in HP. unfold locks_overlap in Eov. apply andb_prop in Eov as [V1%Z.leb_le V2%Z.leb_le].
    destruct (lock_region w a f Hok Ha Hf Hp) as (R & HR & Hin & _).
    pose proof (regions_nonempty _ _ _ _ HR Hin) as Hfr. simpl in Hfr.
    exists (fl_owner f), (fl_pid f), (Z.max (fl_start C) (fl_start f)), (fl_type f).
    split; [|split; [lia|split]].
    + intros [= E1 E2]. by rewrite (proj2 (same_owner_true C f)) in Eo.
    + apply (lock_on_elem w a f); try done. unfold inside. simpl.
      apply andb_true_intro. split; apply Z.leb_le; lia.
    + unfold locks_conflict in HP. destruct Q3 as [E|[E|E]]; rewrite E in HP |- *; simpl in HP; [|by left|done].
      right. by apply Z.eqb_eq.
Qed.

(** ** The request as a whole *)

Lemma pass_outcome fuel wait fs gs w c n1 n2 C :
  locks_shape w fs gs → request_ok w c n1 n2 C → merge_safe w C →
  (fl_type C ≠ F_UNLCK ∧ conflicting w C ∧
     ∃ a f, fl_store w !! a = Some f ∧ posix_lock_pass fuel c n1 n2 wait w =
       if negb wait then Ok (Returns (- EAGAIN) w) else
       dead ← posix_locks_deadlock fuel C f w;
       if (dead : bool) then Ok (Returns (- EDEADLK) w) else Ok (Sleeps (locks_insert_block a c w))) ∨
  ((fl_type C = F_UNLCK ∨ ¬ conflicting w C) ∧
     ∃ w', posix_lock_pass fuel c n1 n2 wait w = Ok (Returns 0 w') ∧ granted fs w w' C ∧ c ∉ i_flock w').
Proof.
  intros Hsh Hrq Hs. assert (locks_ok w) as Hok by (by exists fs, gs). pose proof Hrq as [Hget _ _ _ _].
  destruct (posix_apply_ok fs gs w c n1 n2 C Hsh Hrq Hs) as (w' & Happ & Hgr).
  unfold posix_lock_pass. assert (get c w = Ok C) as -> by (unfold get; by rewrite Hget).
  cbn [mbind outcome_bind].
  destruct (Z.eqb_spec (fl_type C) F_UNLCK) as [E|E]; cbn [mbind outcome_bind].
  { right. split; [by left|]. rewrite Happ. by exists w'. }
  destruct (conflict_found w c n1 n2 C Hok Hrq E) as [[Hf Hn]|(a & f & Hf & Ha & Hc)];
    rewrite Hf; cbn [mbind outcome_bind].
  - right. split; [by right|]. rewrite Happ. by exists w'.
  - left. do 2 (split; [done|]). exists a, f. split; [done|].
    assert (get a w = Ok f) as -> by (unfold get; by rewrite Ha). done.
Qed.


(** An inode with a FLOCK lock, two read locks of one owner and a write lock of
    another, and a request of the first owner. *)
Definition sample : locks :=
  Locks (<[1 := FileLock 0 7 70 FL_FLOCK F_RDLCK 0 OFFSET_MAX]>
        (<[2 := FileLock 10 1 71 FL_POSIX F_RDLCK 0 9]>
        (<[3 := FileLock 10 1 71 FL_POSIX F_RDLCK 20 29]>
        (<[4 := FileLock 11 2 72 FL_POSIX F_WRLCK 40 49]>
        (<[5 := FileLock 10 1 71 FL_POSIX F_WRLCK 5 24]> ∅)))))
    [1; 2; 3; 4] [] [].

Lemma sample_shape :
  locks_shape sample [1] [Group 10 1 [2; 3] [Rg F_RDLCK 0 9; Rg F_RDLCK 20 29];
                          Group 11 2 [4] [Rg F_WRLCK 40 49]].
Proof.
  constructor; [reflexivity| | | |].
  - by apply (bool_decide_unpack (NoDup [1; 2; 3; 4])).
  - repeat constructor. by eexists.
  - constructor; [|constructor; [|constructor]]; (split; [|split; [|done]]).
    1, 3: repeat (constructor; [by eexists|]); constructor.
    all: unfold regions_ok; simpl; unfold OFFSET_MAX, F_RDLCK, F_WRLCK; lia.
  - by apply (bool_decide_unpack (NoDup [(10, 1); (11, 2)])).
Qed.


(** No two owners hold conflicting locks on the same byte. *)
Definition exclusive (w : locks) : Prop :=
  ∀ o p o' p' x t t', (o, p) ≠ (o', p') →
    lock_on w o p x = Some t → lock_on w o' p' x = Some t' → t = F_RDLCK ∧ t' = F_RDLCK.

Lemma held_type pt ph R x t : regions_after pt ph R → held R x = Some t → t = F_RDLCK ∨ t = F_WRLCK.
Proof.
  revert pt ph. induction R as [|r R IH]; intros pt ph; simpl; [done|]. intros (H1 & _ & _ & _ & HR).
  destruct (inside r x); [intros [= <-]; done|eauto].
Qed.

Lemma lock_on_type w o p x t : locks_ok w → lock_on w o p x = Some t → t = F_RDLCK ∨ t = F_WRLCK.
Proof.
  intros (fs & gs & Hsh). destruct (shape_part w fs gs o p Hsh) as (g1 & Os & R & g2 & Hp).
  rewrite (part_lock_on _ _ _ _ _ _ _ _ _ Hp). eapply held_type, pt_regions, Hp.
Qed.

(** A byte granted to the caller conflicts with nobody's. *)
Lemma granted_free w C o p x t t' :
  lock_type (fl_type C) → locks_ok w → ¬ conflicting w C →
  (o, p) ≠ (fl_owner C, fl_pid C) → fl_start C <= x <= fl_end C →
  t' = fl_type C → fl_type C ≠ F_UNLCK → lock_on w o p x = Some t → t = F_RDLCK ∧ t' = F_RDLCK.
Proof.
  intros Hty Hok Hn Hne Hx -> Hu Ht. destruct (lock_on_type w o p x t Hok Ht) as [->| ->].
  - destruct Hty as [->|[E|?]]; [done| |done]. destruct Hn. exists o, p, x, F_RDLCK. by auto.
  - destruct Hn. exists o, p, x, F_WRLCK. auto.
Qed.

Lemma granted_exclusive fs w w' c n1 n2 C :
  locks_ok w → request_ok w c n1 n2 C → fl_type C = F_UNLCK ∨ ¬ conflicting w C →
  granted fs w w' C → exclusive w → exclusive w'.
Proof.
  intros Hok Hrq Hc [_ _ Hg] Hex o p o' p' x t t' Hne. rewrite !Hg. unfold overlay.
  pose proof (rq_type _ _ _ _ _ Hrq) as Hty.
  repeat case_decide; [congruence|..|by apply Hex].
  all: destruct (Z.leb_spec (fl_start C) x), (Z.leb_spec x (fl_end C)); simpl; try by apply Hex.
  all: destruct (Z.eqb_spec (fl_type C) F_UNLCK) as [|Hu]; [done|]; destruct Hc as [|Hc]; [done|].
  - intros [= <-] Ht. apply and_comm, (granted_free w C o' p' x); try done; congruence.
  - intros Ht [= <-]. apply (granted_free w C o p x); try done; congruence.
Qed.
