(* ===== verification/LockOps.v ===== *)
(** The system calls and the close path of [fs/locks.c]: [fcntl] with F_GETLK,
    F_SETLK and F_SETLKW in both widths, [flock], leases, the removal of locks
    when a file is closed and the checks of mandatory locking.

    A file system may have a lock operation of its own ([f_op->lock]); it is a
    parameter of the calls that use it. *)

From S2P Require Import Prelude Errno PosixLock LockSim LockThm.

Definition F_SETLKW : Z := 7.
Definition F_SETLKW64 : Z := 35.
Definition F_GETLK : Z := 14.
Definition F_INPROGRESS : Z := 16.
Definition FMODE_READ : Z := 1.
Definition FMODE_WRITE : Z := 2.
Definition O_NONBLOCK : Z := 128.
Definition LOCK_USE_CLNT : Z := 1.
Definition FLOCK_VERIFY_WRITE : Z := 2.

(** [struct flock] and [struct flock64]. *)
Record flock := Flock { l_type : Z; l_whence : Z; l_start : Z; l_len : Z; l_pid : Z }.

(** [f_op->lock]: the result and the structure it leaves. *)
Definition fs_lock : Type := Z → file_lock → Z * file_lock.

(** An open file: its address, position, mode and flags, the size of its
    inode, whether the inode asks for mandatory locks and is mapped shared. *)
Record file := File {
  f_addr : Z; f_pos : Z; f_mode : Z; f_flags : Z; i_size : Z; mand_mapped : bool;
  f_lock : option fs_lock
}.

(** What the code reads of [current]. *)
Record task := Task { t_files : Z; t_pid : Z }.

(** ** Conversion of requests *)

Definition assign_type (type : Z) (fl : file_lock) : option file_lock :=
  if (type =? F_RDLCK) || (type =? F_WRLCK) || (type =? F_UNLCK)
  then Some (set_fl_type type fl) else None.

Definition seek_base (filp : file) (whence : Z) : option Z :=
  if whence =? 0 then Some 0 else if whence =? 1 then Some (f_pos filp)
  else if whence =? 2 then Some (i_size filp) else None.

Definition flock_to_posix_lock (cur : task) (filp : file) (l : flock) : option file_lock :=
  base ← seek_base filp (l_whence l);
  let start := s64 (base + l_start l) in
  if (start <? 0) || (l_len l <? 0) then None else
  let fl_end := s64 (start + l_len l - 1) in
  if (0 <? l_len l) && (fl_end <? 0) then None else
  if OFFT_OFFSET_MAX <? fl_end then None else
  let fl_end := if l_len l =? 0 then OFFSET_MAX else fl_end in
  assign_type (l_type l) (FileLock (t_files cur) (t_pid cur) (f_addr filp) FL_POSIX 0 start fl_end).

Definition flock64_to_posix_lock (cur : task) (filp : file) (l : flock) : option file_lock :=
  base ← seek_base filp (l_whence l);
  let start := s64 (base + l_start l) in
  if (start <? 0) || (l_len l <? 0) then None else
  let fl_end := s64 (start + l_len l - 1) in
  if (0 <? l_len l) && (fl_end <? 0) then None else
  let fl_end := if l_len l =? 0 then OFFSET_MAX else fl_end in
  let fl := FileLock (t_files cur) (t_pid cur) (f_addr filp) FL_POSIX 0 start fl_end in
  if (l_type l =? F_RDLCK) || (l_type l =? F_WRLCK) || (l_type l =? F_UNLCK)
  then Some (set_fl_type (l_type l) fl) else None.

(** ** [fcntl] *)

(** The access the lock asks for must be in the mode of the file. *)
Definition mode_error (filp : file) (type : Z) : option Z :=
  if type =? F_RDLCK then
    if c_true (Z.land (f_mode filp) FMODE_READ) then None else Some (- EBADF)
  else if type =? F_WRLCK then
    if c_true (Z.land (f_mode filp) FMODE_WRITE) then None else Some (- EBADF)
  else if type =? F_UNLCK then None else Some (- EINVAL).

(** [locks_free_lock]. *)
Definition locks_free_lock (a : Z) (w : locks) : locks := set_store (delete a (fl_store w)) w.

Definition after_lock (fl : Z) (r : lock_result) : lock_result :=
  match r with
  | Returns error w => Returns error (locks_free_lock fl w)
  | Sleeps w => Sleeps w
  end.

(** From the validated structure on: the file system's operation and
    [posix_lock_file].  [fl] is the address of the structure. *)
Definition setlk_apply (fuel : nat) (filp : file) (cmd wait_cmd : Z) (C : file_lock) (fl : Z)
    (new_fl new_fl2 : option Z) (w : locks) : outcome lock_result :=
  let '(error, C) := match f_lock filp with Some lock => lock cmd C | None => (0, C) end in
  if error <? 0 then Ok (Returns error w) else
  r ← posix_lock_file fuel fl new_fl new_fl2 (cmd =? wait_cmd)
        (set_store (<[fl := C]> (fl_store w)) w);
  Ok (after_lock fl r).

(** [fcntl_setlk]; [l] is [None] when the request cannot be copied, [filp] when
    the descriptor is not open, [fl] when there is no memory for the structure:
    the code does not test for that and ends in a write through NULL or in the
    BUG of [locks_free_lock]. *)
Definition fcntl_setlk (fuel : nat) (cur : task) (filp : option file) (cmd : Z) (l : option flock)
    (fl new_fl new_fl2 : option Z) (w : locks) : outcome lock_result :=
  match fl with
  | None => Trap Bug
  | Some fl =>
      match l, filp with
      | None, _ => Ok (Returns (- EFAULT) w)
      | _, None => Ok (Returns (- EBADF) w)
      | Some l, Some filp =>
          match flock_to_posix_lock cur filp l with
          | None => Ok (Returns (- EINVAL) w)
          | Some C =>
              match mode_error filp (l_type l) with
              | Some error => Ok (Returns error w)
              | None => setlk_apply fuel filp cmd F_SETLKW C fl new_fl new_fl2 w
              end
          end
      end
  end.

Definition fcntl_setlk64 (fuel : nat) (cur : task) (filp : option file) (cmd : Z) (l : option flock)
    (fl new_fl new_fl2 : option Z) (w : locks) : outcome lock_result :=
  match fl with
  | None => Trap Bug
  | Some fl =>
      match l, filp with
      | None, _ => Ok (Returns (- EFAULT) w)
      | _, None => Ok (Returns (- EBADF) w)
      | Some l, Some filp =>
          if mand_mapped filp then Ok (Returns (- EAGAIN) w) else
          match flock64_to_posix_lock cur filp l with
          | None => Ok (Returns (- EINVAL) w)
          | Some C =>
              match mode_error filp (l_type l) with
              | Some error => Ok (Returns error w)
              | None => setlk_apply fuel filp cmd F_SETLKW64 C fl new_fl new_fl2 w
              end
          end
      end
  end.

(** The rest of the call after a sleep. *)
Definition setlk_wake (fuel : nat) (result fl new_fl new_fl2 : Z) (w : locks) : outcome lock_result :=
  r ← posix_lock_wake fuel result fl new_fl new_fl2 w; Ok (after_lock fl r).

(** The lock [F_GETLK] reports on. *)
Definition getlk_conflict (filp : file) (C : file_lock) (w : locks) : outcome (Z + option file_lock) :=
  let test := (r ← posix_test_lock C w;
               match r with
               | None => Ok (inr None)
               | Some a => f ← get a w; Ok (inr (Some f))
               end : outcome (Z + option file_lock)) in
  match f_lock filp with
  | None => test
  | Some lock =>
      let '(error, C) := lock F_GETLK C in
      if error <? 0 then Ok (inl error)
      else if error =? LOCK_USE_CLNT then test
      else Ok (inr (if fl_type C =? F_UNLCK then None else Some C))
  end.

Definition report (f : file_lock) : flock :=
  Flock (fl_type f) 0 (fl_start f)
    (if fl_end f =? OFFSET_MAX then 0 else s64 (s64 (fl_end f - fl_start f) + 1)) (fl_pid f).

(** [copy_to_user] may fail. *)
Definition to_result (to_user : bool) (l : flock) : Z * option flock :=
  if to_user then (0, Some l) else (- EFAULT, None).

Definition fcntl_getlk (cur : task) (filp : option file) (l : option flock) (to_user : bool) (w : locks)
    : outcome (Z * option flock) :=
  match l with
  | None => Ok (- EFAULT, None)
  | Some l =>
      if negb (l_type l =? F_RDLCK) && negb (l_type l =? F_WRLCK) then Ok (- EINVAL, None) else
      match filp with
      | None => Ok (- EBADF, None)
      | Some filp =>
          match flock_to_posix_lock cur filp l with
          | None => Ok (- EINVAL, None)
          | Some C =>
              r ← getlk_conflict filp C w;
              match r with
              | inl error => Ok (error, None)
              | inr None =>
                  Ok (to_result to_user (Flock F_UNLCK (l_whence l) (l_start l) (l_len l) (l_pid l)))
              | inr (Some f) =>
                  if OFFT_OFFSET_MAX <? fl_start f then Ok (- EOVERFLOW, None)
                  else if negb (fl_end f =? OFFSET_MAX) && (OFFT_OFFSET_MAX <? fl_end f)
                  then Ok (- EOVERFLOW, None)
                  else Ok (to_result to_user (report f))
              end
          end
      end
  end.

Definition fcntl_getlk64 (cur : task) (filp : option file) (l : option flock) (to_user : bool) (w : locks)
    : outcome (Z * option flock) :=
  match l with
  | None => Ok (- EFAULT, None)
  | Some l =>
      if negb (l_type l =? F_RDLCK) && negb (l_type l =? F_WRLCK) then Ok (- EINVAL, None) else
      match filp with
      | None => Ok (- EBADF, None)
      | Some filp =>
          match flock64_to_posix_lock cur filp l with
          | None => Ok (- EINVAL, None)
          | Some C =>
              r ← getlk_conflict filp C w;
              match r with
              | inl error => Ok (error, None)
              | inr None =>
                  Ok (to_result to_user (Flock F_UNLCK (l_whence l) (l_start l) (l_len l) (l_pid l)))
              | inr (Some f) => Ok (to_result to_user (report f))
              end
          end
      end
  end.

(** ** Closing a file *)

(** Delete the locks of the list that satisfy a test.  The callback of
    [locks_unlock_delete] concerns file systems with a lock operation. *)
Fixpoint delete_where (P : file_lock → bool) (pre rest : list Z) (w : locks) : outcome locks :=
  match rest with
  | [] => Ok (set_flock pre w)
  | a :: rest =>
      f ← get a w;
      if P f then delete_where P pre rest (locks_delete_lock a w)
      else delete_where P (pre ++ [a]) rest w
  end.

Definition locks_remove_posix (owner : Z) (w : locks) : outcome locks :=
  match i_flock w with
  | [] => Ok w
  | l => delete_where (λ f, has_flag f FL_POSIX && (fl_owner f =? owner)) [] l w
  end.

Definition locks_remove_flock (filp : Z) (w : locks) : outcome locks :=
  match i_flock w with
  | [] => Ok w
  | l => delete_where (λ f, has_flag f (Z.lor FL_FLOCK FL_LEASE) && (fl_file f =? filp)) [] l w
  end.

(** ** [flock] *)

Definition flock_translate_cmd (cmd : Z) : Z :=
  if c_true (Z.land cmd LOCK_MAND) then Z.land cmd (Z.lor LOCK_MAND LOCK_RW) else
  let cmd := Z.land cmd (Z.lnot LOCK_NB) in
  if cmd =? LOCK_SH then F_RDLCK else if cmd =? LOCK_EX then F_WRLCK
  else if cmd =? LOCK_UN then F_UNLCK else - EINVAL.

Definition flock_make_lock (cur : task) (filp type : Z) : file_lock :=
  FileLock 0 (t_pid cur) filp FL_FLOCK (u8 type) 0 OFFSET_MAX.

(** A call returns, sleeps until the lock it conflicts with goes, or yields to
    the processes that wait for the lock [a] it has taken off the list. *)
Inductive flock_result :=
| FReturns (error : Z) (w : locks)
| FSleeps (w : locks)
| FYields (a : Z) (w : locks).

(** [search:], the lock of the same file among the leading FLOCK locks: what
    comes before it, the lock and what follows. *)
Fixpoint flock_search (filp : Z) (pre rest : list Z) (w : locks)
    : outcome (option (list Z * Z * file_lock * list Z)) :=
  match rest with
  | [] => Ok None
  | a :: rest =>
      f ← get a w;
      if negb (has_flag f FL_FLOCK) then Ok None
      else if filp =? fl_file f then Ok (Some (pre, a, f, rest))
      else flock_search filp (pre ++ [a]) rest w
  end.

(** [repeat:], the first leading FLOCK lock that conflicts. *)
Fixpoint flock_conflict (new : file_lock) (l : list Z) (w : locks) : outcome (option Z) :=
  match l with
  | [] => Ok None
  | a :: l =>
      f ← get a w;
      if negb (has_flag f FL_FLOCK) then Ok None
      else if flock_locks_conflict new f then Ok (Some a) else flock_conflict new l w
  end.

(** From [repeat:] on; [new_fl] is the new lock's structure. *)
Definition flock_repeat (new_fl : Z) (wait : bool) (w : locks) : outcome flock_result :=
  N ← get new_fl w;
  c ← flock_conflict N (i_flock w) w;
  match c with
  | Some a =>
      if negb wait then Ok (FReturns (- EAGAIN) (locks_free_lock new_fl w))
      else Ok (FSleeps (locks_insert_block a new_fl w))
  | None => Ok (FReturns 0 (set_flock (new_fl :: i_flock w) w))
  end.

(** The first process waiting for [a] is notified; with none left [a] is freed. *)
Definition flock_wait_empty (a : Z) (w : locks) : option locks :=
  match reverse (filter (λ p, p.2 = a) (blocked w)) with
  | [] => None
  | (waiter, _) :: _ => Some (Locks (fl_store w) (i_flock w) (blocked w) (woken w ++ [waiter]))
  end.

(** From [search:] on, for a request of type [type]; the lock it changes may be
    waited for, then the call yields and goes on with [flock_resume]. *)
Fixpoint flock_pass (fuel : nat) (filp type new_fl : Z) (wait : bool) (w : locks)
    : outcome flock_result :=
  match fuel with
  | O => Trap Fuel
  | S fuel =>
      found ← flock_search filp [] (i_flock w) w;
      match found with
      | Some (pre, a, f, rest) =>
          if type =? fl_type f then
            Ok (FReturns 0 (if type =? F_UNLCK then w else locks_free_lock new_fl w))
          else
            let w := set_flock (pre ++ rest) w in
            if type =? F_UNLCK then Ok (FReturns 0 (locks_delete_lock a w))
            else
              match flock_wait_empty a w with
              | Some w => Ok (FYields a w)
              | None => flock_pass fuel filp type new_fl wait (locks_free_lock a w)
              end
      | None =>
          if type =? F_UNLCK then Ok (FReturns 0 w) else flock_repeat new_fl wait w
      end
  end.

(** [flock_lock_file] ([new_fl]: the allocated structure). *)
Definition flock_lock_file (fuel : nat) (cur : task) (filp type : Z) (new_fl : option Z) (wait : bool)
    (w : locks) : outcome flock_result :=
  if type =? F_UNLCK then flock_pass fuel filp type 0 wait w else
  match new_fl with
  | None => Ok (FReturns (- ENOLCK) w)
  | Some n =>
      flock_pass fuel filp type n wait
        (set_store (<[n := flock_make_lock cur filp type]> (fl_store w)) w)
  end.

(** After the yield in [locks_wake_up_blocks (.., 1)]. *)
Definition flock_resume (fuel : nat) (a filp type new_fl : Z) (wait : bool) (w : locks)
    : outcome flock_result :=
  match flock_wait_empty a w with
  | Some w => Ok (FYields a w)
  | None => flock_pass fuel filp type new_fl wait (locks_free_lock a w)
  end.

(** After the sleep in [locks_block_on]. *)
Definition flock_wake (result new_fl : Z) (w : locks) : outcome flock_result :=
  let w := locks_delete_block new_fl w in
  if c_true result then Ok (FReturns result (locks_free_lock new_fl w))
  else flock_repeat new_fl true w.

Definition sys_flock (fuel : nat) (cur : task) (filp : option file) (cmd : Z) (new_fl : option Z)
    (w : locks) : outcome flock_result :=
  match filp with
  | None => Ok (FReturns (- EBADF) w)
  | Some filp =>
      let type := flock_translate_cmd cmd in
      if type <? 0 then Ok (FReturns type w)
      else if negb (type =? F_UNLCK) && negb (c_true (Z.land type LOCK_MAND))
              && negb (c_true (Z.land (f_mode filp) 3)) then Ok (FReturns (- EBADF) w)
      else flock_lock_file fuel cur (f_addr filp) type new_fl
             (negb (c_true (Z.land cmd (Z.lor LOCK_UN LOCK_NB)))) w
  end.

(** ** Leases *)

(** [lease_alloc]: the structure, or an error. *)
Definition lease_alloc (cur : task) (filp type : Z) : Z + file_lock :=
  match assign_type type (FileLock (t_files cur) (t_pid cur) filp FL_LEASE 0 0 OFFSET_MAX) with
  | None => inl (- EINVAL)
  | Some fl => inr fl
  end.

Definition fcntl_getlease (w : locks) : outcome Z :=
  match i_flock w with
  | [] => Ok F_UNLCK
  | a :: _ =>
      f ← get a w;
      if negb (has_flag f FL_LEASE) then Ok F_UNLCK
      else Ok (Z.land (fl_type f) (Z.lnot F_INPROGRESS))
  end.

(** What [fcntl_setlease] finds in the leading leases: the last one of its own
    file (with the position), the counts of the others, and where they end. *)
Record leases := Leases {
  ls_mine : option (list Z * Z * list Z); ls_rd : Z; ls_wr : Z; ls_pre : list Z; ls_rest : list Z
}.

Fixpoint scan_leases (filp : Z) (s : leases) (rest : list Z) (w : locks) : outcome leases :=
  match rest with
  | [] => Ok s
  | a :: rest' =>
      f ← get a w;
      if negb (fl_flags f =? FL_LEASE) then Ok s else
      let s :=
        if fl_file f =? filp then Leases (Some (ls_pre s, a, rest')) (ls_rd s) (ls_wr s) (ls_pre s) rest
        else if c_true (Z.land (fl_type f) F_WRLCK)
        then Leases (ls_mine s) (ls_rd s) (ls_wr s + 1) (ls_pre s) rest
        else Leases (ls_mine s) (ls_rd s + 1) (ls_wr s) (ls_pre s) rest in
      scan_leases filp (Leases (ls_mine s) (ls_rd s) (ls_wr s) (ls_pre s ++ [a]) rest') rest' w
  end.

(** [lease_modify], for the lease [a] between [pre] and [rest]. *)
Definition lease_modify (pre : list Z) (a : Z) (rest : list Z) (arg : Z) (w : locks)
    : outcome (Z * locks) :=
  f ← get a w;
  match assign_type arg f with
  | None => Ok (- EINVAL, w)
  | Some f =>
      let w := locks_wake_up_blocks a (set_store (<[a := f]> (fl_store w)) w) in
      if arg =? F_UNLCK then Ok (0, locks_delete_lock a (set_flock (pre ++ rest) w)) else Ok (0, w)
  end.

(** [fcntl_setlease]: [allowed] for the owner of the inode or CAP_LEASE,
    [regular] for a regular file, [shared] when the dentry or the inode is in
    use elsewhere, [enabled] is [leases_enable], [fasync] the result of
    [fasync_helper]. *)
Definition fcntl_setlease (cur : task) (filp arg : Z) (allowed regular shared enabled : bool)
    (fasync : Z) (new_fl : option Z) (w : locks) : outcome (Z * locks) :=
  if negb allowed then Ok (- EACCES, w)
  else if negb regular then Ok (- EINVAL, w)
  else if (arg =? F_WRLCK) && shared then Ok (- EAGAIN, w) else
  s ← scan_leases filp (Leases None 0 0 [] (i_flock w)) (i_flock w) w;
  if (arg =? F_RDLCK) && (0 <? ls_wr s) || (arg =? F_WRLCK) && (0 <? ls_rd s + ls_wr s)
  then Ok (- EAGAIN, w) else
  match ls_mine s with
  | Some (pre, a, rest) => lease_modify pre a rest arg w
  | None =>
      if arg =? F_UNLCK then Ok (0, w) else
      if negb enabled then Ok (- EINVAL, w) else
      match new_fl with
      | None => Ok (- ENOMEM, w)
      | Some n =>
          match lease_alloc cur filp arg with
          | inl error => Ok (error, w)
          | inr fl =>
              if fasync <? 0 then Ok (fasync, w) else
              Ok (0, set_flock (ls_pre s ++ n :: ls_rest s) (set_store (<[n := fl]> (fl_store w)) w))
          end
      end
  end.

(** ** Mandatory locking *)

Definition locks_mandatory_locked (cur : task) (w : locks) : outcome Z :=
  r ← find_lock (λ fl, has_flag fl FL_POSIX && negb (fl_owner fl =? t_files cur)) (i_flock w) w;
  match r with None => Ok 0 | Some _ => Ok (- EAGAIN) end.

(** The first conflicting lock up to the first POSIX lock that starts behind. *)
Fixpoint area_conflict (new : file_lock) (l : list Z) (w : locks) : outcome (option Z) :=
  match l with
  | [] => Ok None
  | a :: l =>
      fl ← get a w;
      if negb (has_flag fl FL_POSIX) then area_conflict new l w
      else if fl_end new <? fl_start fl then Ok None
      else if posix_locks_conflict new fl then Ok (Some a) else area_conflict new l w
  end.

(** [locks_mandatory_area] up to a sleep. *)
Definition locks_mandatory_area (fuel : nat) (cur : task) (read_write : Z) (filp : option file)
    (offset count : Z) (fl : option Z) (w : locks) : outcome lock_result :=
  match fl with
  | None => Trap Fault
  | Some n =>
      let N := FileLock (t_files cur) (t_pid cur) (match filp with Some f => f_addr f | None => 0 end)
                 (Z.lor FL_POSIX FL_ACCESS)
                 (if read_write =? FLOCK_VERIFY_WRITE then F_WRLCK else F_RDLCK)
                 offset (s64 (offset + count - 1)) in
      c ← area_conflict N (i_flock w) w;
      match c with
      | None => Ok (Returns 0 w)
      | Some a =>
          if match filp with Some f => c_true (Z.land (f_flags f) O_NONBLOCK) | None => false end
          then Ok (Returns (- EAGAIN) w) else
          b ← get a w;
          dead ← posix_locks_deadlock fuel N b w;
          if (dead : bool) then Ok (Returns (- EDEADLK) w)
          else Ok (Sleeps (locks_insert_block a n (set_store (<[n := N]> (fl_store w)) w)))
      end
  end.

(** For the NFS server: the share modes and record locks that forbid access. *)
Definition lock_may_read (start len : Z) (w : locks) : outcome Z :=
  r ← find_lock (λ fl,
        if fl_flags fl =? FL_POSIX then
          negb (fl_type fl =? F_RDLCK) &&
          negb ((fl_end fl <? start) || (s64 (start + len) <? fl_start fl))
        else if fl_flags fl =? FL_FLOCK then
          c_true (Z.land (fl_type fl) LOCK_MAND) && negb (c_true (Z.land (fl_type fl) LOCK_READ))
        else false) (i_flock w) w;
  match r with None => Ok 1 | Some _ => Ok 0 end.

Definition lock_may_write (start len : Z) (w : locks) : outcome Z :=
  r ← find_lock (λ fl,
        if fl_flags fl =? FL_POSIX then
          negb ((fl_end fl <? start) || (s64 (start + len) <? fl_start fl))
        else if fl_flags fl =? FL_FLOCK then
          c_true (Z.land (fl_type fl) LOCK_MAND) && negb (c_true (Z.land (fl_type fl) LOCK_WRITE))
        else false) (i_flock w) w;
  match r with None => Ok 1 | Some _ => Ok 0 end.
