(* ===== verification/LockTable.v ===== *)
(** The lock table of an inode over any sequence of system calls, sleeps,
    wake-ups and closes: nobody ever holds a lock, of either kind, that
    conflicts with another owner's. *)

From S2P Require Import Prelude Errno PosixLock LockSim LockThm LockOps.

(** ** The invariant *)

(** The types of FLOCK locks: shared, exclusive and the share modes. *)
Definition flock_type (t : Z) : Prop :=
  t = F_RDLCK ∨ t = F_WRLCK ∨ c_true (Z.land t LOCK_MAND) = true.

Definition flock_like (f : file_lock) : Prop :=
  has_flag f FL_FLOCK = true ∧ has_flag f FL_POSIX = false ∧ flock_type (fl_type f).

Record flocks_ok (m : gmap Z file_lock) (fs : list Z) : Prop := {
  fk_like : ∀ a, a ∈ fs → ∃ f, m !! a = Some f ∧ flock_like f;
  fk_free : ∀ a b f g, a ∈ fs → b ∈ fs → m !! a = Some f → m !! b = Some g →
    flock_locks_conflict f g = false
}.

(** The list is well formed and holds no lease; neither record locks nor FLOCK
    locks of different owners conflict. *)
Definition table_ok (w : locks) : Prop :=
  exclusive w ∧ ∃ fs gs, locks_shape w fs gs ∧ flocks_ok (fl_store w) fs.

Lemma flocks_frame m m' fs :
  (∀ a, a ∈ fs → m' !! a = m !! a) → flocks_ok m fs → flocks_ok m' fs.
Proof.
  intros Hm [H1 H2]. constructor.
  - intros a Ha. rewrite Hm by done. auto.
  - intros a b f g Ha Hb. rewrite !Hm by done. eauto.
Qed.

(** The front of the list may change as long as it holds no POSIX lock. *)
Lemma shape_front w w' fs fs' gs :
  locks_shape w fs gs → i_flock w' = fs' ++ mjoin (g_ids <$> gs) → NoDup (i_flock w') →
  (∀ a, a ∈ mjoin (g_ids <$> gs) → fl_store w' !! a = fl_store w !! a) →
  Forall (λ a, ∃ f, fl_store w' !! a = Some f ∧ has_flag f FL_POSIX = false) fs' →
  locks_shape w' fs' gs ∧ ∀ o p x, lock_on w' o p x = lock_on w o p x.
Proof.
  intros [H1 H2 H3 H4 H5] Hl Hnd Hfr Hfs. split.
  - constructor; try done. by eapply groups_frame.
  - intros o p x. unfold lock_on. rewrite Hl, H1, !lock_at_app.
    rewrite (lock_at_foreign _ fs'), (lock_at_foreign _ fs) by (by apply flocks_foreign).
    by apply lock_at_frame.
Qed.

Lemma exclusive_same w w' :
  (∀ o p x, lock_on w' o p x = lock_on w o p x) → exclusive w → exclusive w'.
Proof. intros H Hex o p o' p' x t t' Hne. rewrite !H. by apply Hex. Qed.

Lemma table_front w w' fs fs' gs :
  exclusive w → locks_shape w fs gs → i_flock w' = fs' ++ mjoin (g_ids <$> gs) → NoDup (i_flock w') →
  (∀ a, a ∈ mjoin (g_ids <$> gs) → fl_store w' !! a = fl_store w !! a) →
  flocks_ok (fl_store w') fs' → table_ok w'.
Proof.
  intros Hex Hsh Hl Hnd Hfr Hfk. destruct (shape_front w w' fs fs' gs) as [Hs Ho]; try done.
  { apply Forall_lookup. intros i a Ha%list_elem_of_lookup_2.
    destruct (fk_like _ _ Hfk a Ha) as (f & Hf & _ & Hp & _). by exists f. }
  split; [by eapply exclusive_same|by exists fs', gs].
Qed.

Lemma shape_lists w fs gs a : locks_shape w fs gs →
  a ∈ fs ∨ a ∈ mjoin (g_ids <$> gs) → a ∈ i_flock w.
Proof. intros [-> _ _ _ _]. by rewrite elem_of_app. Qed.

(** Only the structures on the list matter. *)
Lemma table_frame w w' :
  table_ok w → i_flock w' = i_flock w → (∀ a, a ∈ i_flock w → fl_store w' !! a = fl_store w !! a) →
  table_ok w'.
Proof.
  intros (Hex & fs & gs & Hsh & Hfk) Hl Hfr. pose proof Hsh as [H1 H2 _ _ _].
  eapply (table_front w w' fs fs gs); try done.
  - by rewrite Hl, H1.
  - by rewrite Hl.
  - intros a Ha. apply Hfr. eapply shape_lists; eauto.
  - eapply flocks_frame; [|done]. intros a Ha. apply Hfr. eapply shape_lists; eauto.
Qed.

(** ** Record locks *)

Definition result_state (r : lock_result) : locks :=
  match r with Returns _ w | Sleeps w => w end.

Lemma pass_table fuel c n1 n2 wait w C r :
  table_ok w → request_ok w c n1 n2 C → merge_safe w C →
  posix_lock_pass fuel c n1 n2 wait w = Ok r →
  table_ok (result_state r) ∧ c ∉ i_flock (result_state r).
Proof.
  intros Ht Hrq Hms. pose proof Ht as (Hex & fs & gs & Hsh & Hfk).
  assert (c ∉ i_flock w) as Hc.
  { pose proof (rq_fresh _ _ _ _ _ Hrq) as Hf. rewrite !list.NoDup_cons in Hf. tauto. }
  destruct (pass_outcome fuel wait fs gs w c n1 n2 C Hsh Hrq Hms)
    as [(Hu & Hcf & a & f & _ & ->)|(Hn & w' & -> & Hg & Hcw)].
  - destruct wait; simpl; [|intros [= <-]; done].
    destruct (posix_locks_deadlock fuel C f w) as [[|]|]; simpl; [intros [= <-]; done| |done].
    intros [= <-]. split; [|done]. by eapply table_frame.
  - intros [= <-]. simpl. split; [|done]. split.
    + eapply granted_exclusive; try done. by exists fs, gs.
    + destruct Hg as [[gs' Hs'] Hfr _]. exists fs, gs'. split; [done|]. by eapply flocks_frame.
Qed.

Lemma after_table c r :
  table_ok (result_state r) → c ∉ i_flock (result_state r) → table_ok (result_state (after_lock c r)).
Proof.
  destruct r as [err w|w]; simpl; [|done]. intros Ht Hc. eapply table_frame; [exact Ht|done|].
  intros a Ha. simpl. rewrite lookup_delete_ne; [done|]. by intros <-.
Qed.

(** New structures. *)
Definition fresh (w : locks) (l : list Z) : Prop := NoDup l ∧ ∀ a, a ∈ l → a ∉ i_flock w.

(** *** Conversion of requests *)

Definition i64 (z : Z) : Prop := - 2 ^ 63 <= z < 2 ^ 63.

(** The fields of an open file and of a request are 64-bit integers. *)
Record request_wf (filp : file) (l : flock) : Prop := {
  rw_pos : 0 <= f_pos filp < 2 ^ 63;
  rw_size : 0 <= i_size filp < 2 ^ 63;
  rw_start : i64 (l_start l);
  rw_len : i64 (l_len l)
}.

Definition valid_type (t : Z) : bool := (t =? F_RDLCK) || (t =? F_WRLCK) || (t =? F_UNLCK).

(** The range a request names, in unbounded arithmetic, if all of it can be
    represented; [limit] bounds its last byte. *)
Definition posix_request (limit : Z) (cur : task) (filp : file) (l : flock) : option file_lock :=
  base ← seek_base filp (l_whence l);
  let first := base + l_start l in
  let last := first + l_len l - 1 in
  if (0 <=? first) && (first <=? OFFSET_MAX) && (0 <=? l_len l) && (last <=? limit) && valid_type (l_type l)
  then Some (FileLock (t_files cur) (t_pid cur) (f_addr filp) FL_POSIX (l_type l) first
               (if l_len l =? 0 then OFFSET_MAX else last))
  else None.

Lemma s64_wrap z : 2 ^ 63 <= z < 2 ^ 64 → s64 z = z - 2 ^ 64.
Proof.
  intros H. unfold swrap. change (64 - 1) with 63.
  assert ((z + 2 ^ 63) mod 2 ^ 64 = z - 2 ^ 63) as ->; [|lia].
  symmetry. apply (Z.mod_unique _ _ 1); lia.
Qed.

Lemma seek_base_range filp l base :
  request_wf filp l → seek_base filp (l_whence l) = Some base → 0 <= base < 2 ^ 63.
Proof.
  intros [Hp Hs _ _]. unfold seek_base. repeat case_match; intros [= <-]; lia.
Qed.

(** The end of a range, computed with wrap-around. *)
Lemma range_end first len :
  0 <= first < 2 ^ 63 → 0 <= len < 2 ^ 63 →
  s64 (first + len - 1) = first + len - 1 ∧ first + len - 1 < 2 ^ 63 ∨
  s64 (first + len - 1) < 0 ∧ 2 ^ 63 <= first + len - 1 ∧ 0 < len.
Proof.
  intros Hf Hl. destruct (decide (first + len - 1 < 2 ^ 63)).
  - left. split; [|done]. apply s64_small. lia.
  - right. rewrite s64_wrap by lia. lia.
Qed.

(** Both conversions compute it: wrap-around is detected. *)
Lemma conversions_exact cur filp l :
  request_wf filp l →
  flock_to_posix_lock cur filp l = posix_request OFFT_OFFSET_MAX cur filp l ∧
  flock64_to_posix_lock cur filp l = posix_request OFFSET_MAX cur filp l.
Proof.
  intros Hwf. pose proof Hwf as [_ _ Hst Hln]. unfold i64 in *.
  unfold flock_to_posix_lock, flock64_to_posix_lock, posix_request.
  destruct (seek_base filp (l_whence l)) as [base|] eqn:Eb; [|done].
  pose proof (seek_base_range _ _ _ Hwf Eb) as Hb. cbn [mbind option_bind].
  assert (s64 (base + l_start l) = base + l_start l ∧ base + l_start l < 2 ^ 63 ∨
          s64 (base + l_start l) < 0 ∧ 2 ^ 63 <= base + l_start l) as Hs.
  { destruct (decide (base + l_start l < 2 ^ 63)); [left|right].
    - split; [|done]. apply s64_small. lia.
    - rewrite s64_wrap by lia. lia. }
  set (first := base + l_start l) in *. set (start := s64 first) in *. clearbody start first.
  assert (OFFT_OFFSET_MAX = 2 ^ 31 - 1 ∧ OFFSET_MAX = 2 ^ 63 - 1) as [EM EM'] by done.
  assert (∀ lim, (start < 0 ∨ l_len l < 0) →
    ((0 <=? first) && (first <=? OFFSET_MAX) && (0 <=? l_len l) && (first + l_len l - 1 <=? lim)
       && valid_type (l_type l)) = false) as Hbad.
  { intros lim H. rewrite !andb_false_iff, !Z.leb_gt. do 2 left. lia. }
  destruct (Z.ltb_spec start 0); cbn [orb];
    [by rewrite (Hbad OFFT_OFFSET_MAX), (Hbad OFFSET_MAX) by (left; done)|].
  destruct (Z.ltb_spec (l_len l) 0); cbn [orb];
    [by rewrite (Hbad OFFT_OFFSET_MAX), (Hbad OFFSET_MAX) by (right; done)|].
  destruct Hs as [[-> Hs]|]; [|lia]. clear Hbad.
  rewrite (proj2 (Z.leb_le 0 first)), (proj2 (Z.leb_le first OFFSET_MAX)), (proj2 (Z.leb_le 0 (l_len l))) by lia.
  simpl. unfold assign_type, set_fl_type. fold (valid_type (l_type l)). simpl.
  destruct (range_end first (l_len l)) as [[-> He]|(He & He' & Hpos)]; [lia|lia|..].
  - assert ((0 <? l_len l) && (first + l_len l - 1 <? 0) = false) as ->.
    { apply andb_false_iff. rewrite !Z.ltb_ge. lia. }
    rewrite (proj2 (Z.leb_le (first + l_len l - 1) OFFSET_MAX)) by lia. split; [|done].
    rewrite Z.leb_antisym. by destruct (OFFT_OFFSET_MAX <? first + l_len l - 1).
  - rewrite (proj2 (Z.ltb_lt 0 (l_len l))), (proj2 (Z.ltb_lt _ 0) He) by done.
    by rewrite (proj2 (Z.leb_gt _ OFFT_OFFSET_MAX)), (proj2 (Z.leb_gt _ OFFSET_MAX)) by lia.
Qed.

(** What the conversions produce. *)
Lemma converted_ok limit cur filp l C :
  request_wf filp l → limit <= OFFSET_MAX → posix_request limit cur filp l = Some C →
  fl_flags C = FL_POSIX ∧ lock_type (fl_type C) ∧ 0 <= fl_start C <= fl_end C ∧ fl_end C <= OFFSET_MAX.
Proof.
  intros [_ _ Hst Hln] Hlim. unfold posix_request. destruct (seek_base _ _) as [base|]; [|done].
  cbn [mbind option_bind]. destruct (_ && _) eqn:E; [|done]. intros [= <-]. simpl.
  rewrite !andb_true_iff, !Z.leb_le in E. destruct E as [[[[E1 E2] E3] E4] E5]. split; [done|]. split.
  - unfold valid_type in E5. unfold lock_type. rewrite !orb_true_iff, !Z.eqb_eq in E5. tauto.
  - destruct (Z.eqb_spec (l_len l) 0); lia.
Qed.

(** *** The steps of record locks *)

(** The caller's structure and two more are at hand. *)
Lemma request_ready limit cur filp l C w c n1 n2 :
  locks_ok w → request_wf filp l → limit <= OFFSET_MAX → posix_request limit cur filp l = Some C →
  fresh w [c; n1; n2] →
  request_ok (set_store (<[c := C]> (fl_store w)) w) c n1 n2 C.
Proof.
  intros (fs & gs & [_ Hnd _ _ _]) Hwf Hlim HC [Hf1 Hf2].
  destruct (converted_ok _ _ _ _ _ Hwf Hlim HC) as (H1 & H2 & H3).
  constructor; try done; simpl.
  - apply lookup_insert_eq.
  - unfold has_flag. by rewrite H1.
  - rewrite !list.NoDup_cons in Hf1. rewrite !list.NoDup_cons.
    pose proof (Hf2 c ltac:(set_solver)). pose proof (Hf2 n1 ltac:(set_solver)).
    pose proof (Hf2 n2 ltac:(set_solver)). clear Hf2. set_solver.
Qed.

Lemma add_structure w c C :
  table_ok w → c ∉ i_flock w → table_ok (set_store (<[c := C]> (fl_store w)) w).
Proof.
  intros Ht Hc. eapply table_frame; [exact Ht|done|]. intros a Ha. simpl.
  rewrite lookup_insert_ne; [done|]. by intros <-.
Qed.

Lemma merge_safe_frame w w' C :
  i_flock w' = i_flock w → (∀ a, a ∈ i_flock w → fl_store w' !! a = fl_store w !! a) →
  merge_safe w C → merge_safe w' C.
Proof.
  intros Hl Hfr [?|[?|H]]; [by left|by right; left|right; right].
  intros x Hx. unfold lock_on. rewrite Hl, (lock_at_frame (fl_store w)) by done. by apply H.
Qed.

Lemma setlk_table limit fuel cur filp l cmd wait_cmd C c n1 n2 w r :
  table_ok w → request_wf filp l → limit <= OFFSET_MAX → posix_request limit cur filp l = Some C →
  fresh w [c; n1; n2] → f_lock filp = None → merge_safe w C →
  setlk_apply fuel filp cmd wait_cmd C c (Some n1) (Some n2) w = Ok r → table_ok (result_state r).
Proof.
  intros Ht Hwf Hlim HC Hfr Hlock Hms. unfold setlk_apply. rewrite Hlock. simpl.
  assert (c ∉ i_flock w) as Hc by (apply Hfr; by left).
  assert (locks_ok w) as Hok by (destruct Ht as (_ & fs & gs & Hsh & _); by exists fs, gs).
  set (w1 := set_store (<[c := C]> (fl_store w)) w).
  destruct (posix_lock_pass fuel c n1 n2 (cmd =? wait_cmd) w1) as [r1|] eqn:E; [|done].
  simpl. intros [= <-]. destruct (pass_table fuel c n1 n2 (cmd =? wait_cmd) w1 C r1) as [H1 H2]; try done.
  - by apply add_structure.
  - by eapply request_ready.
  - apply (merge_safe_frame w); [done| |exact Hms]. intros a Ha. simpl. rewrite lookup_insert_ne; [done|].
    by intros <-.
  - by apply after_table.
Qed.

Lemma wake_table fuel result c n1 n2 w C r :
  table_ok w → request_ok w c n1 n2 C → merge_safe w C →
  setlk_wake fuel result c n1 n2 w = Ok r → table_ok (result_state r).
Proof.
  intros Ht Hrq Hms. unfold setlk_wake, posix_lock_wake.
  set (w1 := locks_delete_block c w).
  assert (table_ok w1) as Ht1 by (by eapply table_frame).
  assert (request_ok w1 c n1 n2 C) as Hrq1 by (destruct Hrq; by constructor).
  assert (merge_safe w1 C) as Hms1 by exact Hms.
  assert (c ∉ i_flock w1) as Hc.
  { pose proof (rq_fresh _ _ _ _ _ Hrq) as Hf. rewrite !list.NoDup_cons in Hf. tauto. }
  clearbody w1. destruct (c_true result); simpl.
  { intros [= <-]. by apply (after_table c (Returns result w1)). }
  destruct (posix_lock_pass fuel c n1 n2 true w1) as [r1|] eqn:E; [|done].
  simpl. intros [= <-]. apply after_table; eapply pass_table; eauto.
Qed.

(** ** Closing a file *)

Definition kept (P : file_lock → bool) (m : gmap Z file_lock) (a : Z) : bool :=
  match m !! a with Some f => negb (P f) | None => false end.

Lemma kept_frame P m m' l : (∀ a, a ∈ l → m' !! a = m !! a) → List.filter (kept P m') l = List.filter (kept P m) l.
Proof.
  intros H. apply List.filter_ext_in. intros a Ha%list_elem_of_In. unfold kept. by rewrite H.
Qed.

Lemma delete_where_spec P pre rest w :
  Forall (λ a, is_Some (fl_store w !! a)) rest → NoDup rest →
  ∃ w', delete_where P pre rest w = Ok w' ∧ i_flock w' = pre ++ List.filter (kept P (fl_store w)) rest ∧
    ∀ a, a ∉ rest ∨ kept P (fl_store w) a = true → fl_store w' !! a = fl_store w !! a.
Proof.
  revert pre w. induction rest as [|a rest IH]; intros pre w Hs Hnd; simpl.
  { eexists. split; [done|]. by rewrite app_nil_r. }
  apply Forall_cons_1 in Hs as [[f Hf] Hs]. apply list.NoDup_cons in Hnd as [Ha Hnd].
  unfold get. rewrite Hf. cbn [mbind outcome_bind].
  assert (kept P (fl_store w) a = negb (P f)) as Ek by (unfold kept; by rewrite Hf).
  rewrite Ek. destruct (P f) eqn:EP; simpl.
  - assert (∀ b, b ≠ a → fl_store (locks_delete_lock a w) !! b = fl_store w !! b) as Hd.
    { intros b Hb. by rewrite store_delete, lookup_delete_ne. }
    destruct (IH pre (locks_delete_lock a w)) as (w' & H1 & H2 & H3); [|done|].
    { rewrite Forall_lookup in Hs |- *. intros i b Hi. rewrite Hd; [by eapply Hs|].
      intros ->. apply Ha. by eapply list_elem_of_lookup_2. }
    exists w'. split; [done|]. split.
    + rewrite H2. f_equal. apply kept_frame. intros b Hb. apply Hd. by intros ->.
    + intros b Hb. assert (b ≠ a) as Hba.
      { intros ->. destruct Hb as [Hb|Hb]; [apply Hb; by left|]. by rewrite Ek in Hb. }
      rewrite H3; [by apply Hd|]. destruct Hb as [Hb|Hb]; [left; set_solver|right].
      unfold kept in *. by rewrite Hd.
  - destruct (IH (pre ++ [a]) w) as (w' & H1 & H2 & H3); [done|done|]. exists w'. split; [done|].
    split; [by rewrite H2, <- app_assoc|]. intros b [Hb|Hb]; apply H3; [left; set_solver|by right].
Qed.

Lemma filter_sublist {A} (P : A → bool) (l : list A) : List.filter P l `sublist_of` l.
Proof. induction l as [|a l IH]; simpl; [done|]. destruct (P a); by constructor. Qed.

Lemma filter_fmap_NoDup {A B} (P : A → bool) (f : A → B) (l : list A) :
  NoDup (f <$> l) → NoDup (f <$> List.filter P l).
Proof.
  intros H. eapply sublist_NoDup; [done|]. apply fmap_sublist, filter_sublist.
Qed.

Lemma kept_all P m l : Forall (λ a, kept P m a = true) l → List.filter (kept P m) l = l.
Proof. induction 1 as [|a l Ha Hl IH]; simpl; [done|]. by rewrite Ha, IH. Qed.

Lemma kept_none P m l : Forall (λ a, kept P m a = false) l → List.filter (kept P m) l = [].
Proof. induction 1 as [|a l Ha Hl IH]; simpl; [done|]. by rewrite Ha, IH. Qed.

Definition of_owner (owner : Z) (f : file_lock) : bool := has_flag f FL_POSIX && (fl_owner f =? owner).

Lemma close_groups owner m gs :
  Forall (group_ok m) gs →
  List.filter (kept (of_owner owner) m) (mjoin (g_ids <$> gs)) =
  mjoin (g_ids <$> List.filter (λ g, negb (g_owner g =? owner)) gs).
Proof.
  induction 1 as [|g gs (Hr & _) Hgs IH]; [done|].
  change (mjoin (g_ids <$> g :: gs)) with (g_ids g ++ mjoin (g_ids <$> gs)). rewrite List.filter_app, IH.
  assert (Forall (λ a, kept (of_owner owner) m a = negb (g_owner g =? owner)) (g_ids g)) as Hk.
  { clear - Hr. induction Hr as [|a r l R (f & Hf & _ & F1 & _ & F3 & _) Hl IH]; constructor; [|done].
    unfold kept, of_owner. by rewrite Hf, F1, F3. }
  cbn [List.filter]. destruct (g_owner g =? owner); cbn [negb] in *.
  - by rewrite (kept_none _ _ _ Hk).
  - by rewrite (kept_all _ _ _ Hk).
Qed.

Lemma close_lock_at owner m l o p x :
  Forall (λ a, is_Some (m !! a)) l →
  lock_at m (List.filter (kept (of_owner owner) m) l) o p x =
  if o =? owner then None else lock_at m l o p x.
Proof.
  induction 1 as [|a l [f Hf] Hl IH]; simpl; [by destruct (o =? owner)|].
  assert (kept (of_owner owner) m a = negb (of_owner owner f)) as Ek by (unfold kept; by rewrite Hf).
  assert (is_owned o p f = true → of_owner owner f = (o =? owner)) as Ho.
  { intros (<- & _ & Hp)%is_owned_true. unfold of_owner. by rewrite Hp. }
  rewrite Ek, Hf. destruct (is_owned o p f) eqn:Eo.
  - rewrite Ho by done. destruct (o =? owner); simpl; [done|]. rewrite Hf, Eo, IH. done.
  - destruct (of_owner owner f); simpl; [done|]. by rewrite Hf, Eo, IH.
Qed.

Lemma close_posix owner w :
  table_ok w → ∃ w', locks_remove_posix owner w = Ok w' ∧ table_ok w' ∧
    ∀ o p x, lock_on w' o p x = if o =? owner then None else lock_on w o p x.
Proof.
  intros Ht. pose proof Ht as (Hex & fs & gs & Hsh & Hfk). pose proof Hsh as [H1 H2 H3 H4 H5].
  assert (locks_ok w) as Hok by (by exists fs, gs). pose proof (in_store w Hok) as Hin.
  unfold locks_remove_posix. destruct (i_flock w) as [|a0 l0] eqn:El.
  { exists w. split; [done|]. split; [done|]. intros o p x. unfold lock_on. rewrite El. simpl.
    by destruct (o =? owner). }
  rewrite <- El in *. clear a0 l0 El. fold (of_owner owner).
  destruct (delete_where_spec (of_owner owner) [] (i_flock w) w) as (w' & -> & L1 & L2); [done|done|].
  exists w'. split; [done|]. simpl in L1.
  assert (∀ a, a ∈ i_flock w' → fl_store w' !! a = fl_store w !! a) as Hfr.
  { intros a Ha. apply L2. right. rewrite L1 in Ha. apply list_elem_of_In, List.filter_In in Ha. tauto. }
  assert (∀ o p x, lock_on w' o p x = if o =? owner then None else lock_on w o p x) as Hon.
  { intros o p x. unfold lock_on. rewrite (lock_at_frame (fl_store w)) by done.
    rewrite L1. by apply close_lock_at. }
  split; [|done]. split.
  { intros o p o' p' x t t' Hne. rewrite !Hon. destruct (o =? owner), (o' =? owner); try done. by apply Hex. }
  assert (i_flock w' = fs ++ mjoin (g_ids <$> List.filter (λ g, negb (g_owner g =? owner)) gs)) as Hl.
  { rewrite L1, H1, List.filter_app, close_groups by done. f_equal. apply kept_all.
    rewrite Forall_lookup in H3 |- *. intros i a Hi. destruct (H3 i a Hi) as (f & Hf & Hp).
    unfold kept, of_owner. by rewrite Hf, Hp. }
  exists fs, (List.filter (λ g, negb (g_owner g =? owner)) gs). split.
  - constructor; try done.
    + rewrite L1. by eapply sublist_NoDup, filter_sublist.
    + rewrite Forall_lookup in H3 |- *. intros i a Hi. destruct (H3 i a Hi) as (f & Hf & Hp).
      exists f. split; [|done]. rewrite Hfr; [done|]. rewrite Hl. apply elem_of_app. left.
      by eapply list_elem_of_lookup_2.
    + eapply groups_frame.
      * intros a Ha. apply Hfr. rewrite Hl. apply elem_of_app. by right.
      * apply Forall_lookup. intros i g Hi%list_elem_of_lookup_2%list_elem_of_In%List.filter_In.
        destruct Hi as [Hi%list_elem_of_In _]. apply list_elem_of_lookup in Hi as [j Hj].
        rewrite Forall_lookup in H4. by eapply H4.
    + by apply filter_fmap_NoDup.
  - eapply flocks_frame; [|done]. intros a Ha. apply Hfr. rewrite Hl. apply elem_of_app. by left.
Qed.

(** The locks of the groups are neither FLOCK locks nor leases. *)
Lemma group_not_flock w fs gs a :
  locks_shape w fs gs → a ∈ mjoin (g_ids <$> gs) →
  ∃ f, fl_store w !! a = Some f ∧ has_flag f (Z.lor FL_FLOCK FL_LEASE) = false.
Proof.
  intros [_ _ _ H4 _] Ha. apply list_elem_of_join in Ha as (l & Ha & Hl).
  apply list_elem_of_fmap in Hl as (g & -> & Hg). apply list_elem_of_lookup in Hg as [i Hg].
  rewrite Forall_lookup in H4. destruct (H4 i g Hg) as (Hr & _).
  apply list_elem_of_lookup in Ha as [j Hj].
  destruct (Forall2_lookup_l _ _ _ _ _ Hr Hj) as (r & _ & f & Hf & _ & _ & _ & _ & Hn). by exists f.
Qed.

Lemma no_flock_flag f : has_flag f (Z.lor FL_FLOCK FL_LEASE) = false → has_flag f FL_FLOCK = false.
Proof.
  unfold has_flag, c_true. rewrite Z.land_lor_distr_r, !negb_false_iff, !Z.eqb_eq, Z.lor_eq_0_iff. tauto.
Qed.

Lemma close_flock filp w :
  table_ok w → ∃ w', locks_remove_flock filp w = Ok w' ∧ table_ok w' ∧
    ∀ o p x, lock_on w' o p x = lock_on w o p x.
Proof.
  intros Ht. pose proof Ht as (Hex & fs & gs & Hsh & Hfk). pose proof Hsh as [H1 H2 H3 H4 H5].
  assert (locks_ok w) as Hok by (by exists fs, gs). pose proof (in_store w Hok) as Hin.
  unfold locks_remove_flock. destruct (i_flock w) as [|a0 l0] eqn:El; [by exists w|].
  rewrite <- El in *. clear a0 l0 El.
  set (P := λ f, has_flag f (Z.lor FL_FLOCK FL_LEASE) && (fl_file f =? filp)).
  destruct (delete_where_spec P [] (i_flock w) w) as (w' & -> & L1 & L2); [done|done|].
  exists w'. split; [done|]. simpl in L1.
  assert (∀ a, a ∈ i_flock w' → fl_store w' !! a = fl_store w !! a) as Hfr.
  { intros a Ha. apply L2. right. rewrite L1 in Ha. apply list_elem_of_In, List.filter_In in Ha. tauto. }
  assert (i_flock w' = List.filter (kept P (fl_store w)) fs ++ mjoin (g_ids <$> gs)) as Hl.
  { rewrite L1, H1, List.filter_app. f_equal. apply kept_all. apply Forall_lookup.
    intros i a Ha%list_elem_of_lookup_2. destruct (group_not_flock w fs gs a Hsh Ha) as (f & Hf & Hn).
    unfold kept, P. by rewrite Hf, Hn. }
  assert (NoDup (i_flock w')) as Hnd by (rewrite L1; by eapply sublist_NoDup, filter_sublist).
  assert (∀ a, a ∈ List.filter (kept P (fl_store w)) fs → a ∈ fs ∧ fl_store w' !! a = fl_store w !! a) as Hsub.
  { intros a Ha. split; [|apply Hfr; rewrite Hl; apply elem_of_app; by left].
    eapply sublist_subseteq, Ha. apply filter_sublist. }
  assert (∀ a, a ∈ mjoin (g_ids <$> gs) → fl_store w' !! a = fl_store w !! a) as Hgr.
  { intros a Ha. apply Hfr. rewrite Hl. apply elem_of_app. by right. }
  assert (flocks_ok (fl_store w') (List.filter (kept P (fl_store w)) fs)) as Hfk'.
  { destruct Hfk as [K1 K2]. constructor.
    - intros a Ha. destruct (Hsub a Ha) as [Ha' ->]. auto.
    - intros a b f g Ha Hb. destruct (Hsub a Ha) as [Ha' ->], (Hsub b Hb) as [Hb' ->]. eauto. }
  split; [by eapply table_front|]. eapply shape_front; try done.
  apply Forall_lookup. intros i a Ha%list_elem_of_lookup_2.
  destruct (fk_like _ _ Hfk' a Ha) as (f & Hf & _ & Hp & _). by exists f.
Qed.

(** ** FLOCK locks *)

Definition flock_state (r : flock_result) : locks :=
  match r with FReturns _ w | FSleeps w | FYields _ w => w end.

Lemma flock_conflict_sym f g :
  flock_like f → flock_like g → flock_locks_conflict f g = flock_locks_conflict g f.
Proof.
  intros (F1 & _ & F3) (G1 & _ & G3). unfold flock_locks_conflict. rewrite F1, G1. simpl.
  rewrite (Z.eqb_sym (fl_file g)). destruct (fl_file f =? fl_file g); [done|].
  rewrite (orb_comm (c_true (Z.land (fl_type g) LOCK_MAND))).
  destruct (c_true (Z.land (fl_type f) LOCK_MAND)) eqn:Ef; [done|].
  destruct (c_true (Z.land (fl_type g) LOCK_MAND)) eqn:Eg; [done|]. simpl.
  destruct F3 as [Hf|[Hf|Hf]]; [..|congruence]; destruct G3 as [Hg|[Hg|Hg]]; try congruence;
    unfold locks_conflict; by rewrite Hf, Hg.
Qed.

Lemma flock_conflict_spec new fs gs w :
  locks_shape w fs gs → flocks_ok (fl_store w) fs →
  ∀ r, flock_conflict new (i_flock w) w = Ok r → r = None →
  ∀ a f, a ∈ fs → fl_store w !! a = Some f → flock_locks_conflict new f = false.
Proof.
  intros Hsh [K1 _] r. rewrite (sh_list _ _ _ Hsh). generalize (mjoin (g_ids <$> gs)). intros G. clear Hsh.
  induction fs as [|b fs IH]; intros E -> a f Ha Hf; [by apply elem_of_nil in Ha|].
  destruct (K1 b ltac:(by left)) as (g & Hg & G1 & _). simpl in E. unfold get in E. rewrite Hg in E.
  cbn [mbind outcome_bind] in E. rewrite G1 in E. simpl in E.
  destruct (flock_locks_conflict new g) eqn:Ec; [done|].
  apply elem_of_cons in Ha as [->|Ha]; [congruence|].
  apply (IH (λ c Hc, K1 c ltac:(by right)) E eq_refl a f Ha Hf).
Qed.

Lemma repeat_table n wait w N r :
  table_ok w → n ∉ i_flock w → fl_store w !! n = Some N → flock_like N →
  flock_repeat n wait w = Ok r → table_ok (flock_state r).
Proof.
  intros Ht Hn HN Hlike. pose proof Ht as (Hex & fs & gs & Hsh & Hfk).
  pose proof Hsh as [H1 H2 _ _ _].
  unfold flock_repeat. assert (get n w = Ok N) as -> by (unfold get; by rewrite HN).
  cbn [mbind outcome_bind].
  destruct (flock_conflict N (i_flock w) w) as [[a|]|] eqn:E; cbn [mbind outcome_bind]; [..|done].
  - destruct wait; simpl; intros [= <-]; simpl; eapply table_frame; try done.
    intros b Hb. simpl. rewrite lookup_delete_ne; [done|]. by intros <-.
  - intros [= <-]. simpl. eapply (table_front w _ fs (n :: fs) gs); try done.
    + simpl. by rewrite H1.
    + by apply list.NoDup_cons.
    + pose proof (flock_conflict_spec N fs gs w Hsh Hfk _ E eq_refl) as Hno. destruct Hfk as [K1 K2].
      constructor; simpl.
      * intros a Ha. apply elem_of_cons in Ha as [->|Ha]; [by exists N|auto].
      * intros a b f g Ha Hb Hf Hg.
        apply elem_of_cons in Ha as [->|Ha]; apply elem_of_cons in Hb as [->|Hb].
        -- assert (f = g) as -> by congruence. unfold flock_locks_conflict. rewrite Z.eqb_refl.
           by rewrite orb_true_r.
        -- assert (f = N) as -> by congruence. eauto.
        -- assert (g = N) as -> by congruence. destruct (K1 a Ha) as (f' & Hf' & Hlf).
           assert (f' = f) as -> by congruence. rewrite flock_conflict_sym by done. eauto.
        -- eauto.
Qed.

Lemma flock_search_spec filp acc l w pre a f rest :
  flock_search filp acc l w = Ok (Some (pre, a, f, rest)) →
  ∃ l1, pre = acc ++ l1 ∧ l = l1 ++ a :: rest ∧ fl_store w !! a = Some f ∧ has_flag f FL_FLOCK = true ∧
    fl_file f = filp.
Proof.
  revert acc. induction l as [|b l IH]; intros acc; simpl; [done|].
  unfold get. destruct (fl_store w !! b) as [g|] eqn:Hg; cbn [mbind outcome_bind]; [|done].
  destruct (has_flag g FL_FLOCK) eqn:Eg; simpl; [|done].
  destruct (Z.eqb_spec filp (fl_file g)) as [Ef|].
  - intros [= <- <- <- <-]. exists []. by rewrite app_nil_r.
  - intros H. destruct (IH _ H) as (l1 & -> & -> & H3). exists (b :: l1). by rewrite <- app_assoc.
Qed.

Lemma split_unique {A} (l1 l2 k1 k2 : list A) a :
  l1 ++ a :: l2 = k1 ++ a :: k2 → NoDup (l1 ++ a :: l2) → l1 = k1 ∧ l2 = k2.
Proof.
  revert k1. induction l1 as [|x l1 IH]; intros [|y k1] E Hnd; simpl in *; try by injection E as ->.
  - injection E as -> ->. apply list.NoDup_cons in Hnd as [Hn _]. destruct Hn.
    apply elem_of_app. right. by left.
  - injection E as -> E. apply list.NoDup_cons in Hnd as [Hn _]. destruct Hn.
    apply elem_of_app. right. by left.
  - injection E as -> E. apply list.NoDup_cons in Hnd as [_ Hnd].
    by destruct (IH k1 E Hnd) as [-> ->].
Qed.

(** Taking the lock of a file off the list. *)
Lemma unlink_table w pre a rest f :
  table_ok w → i_flock w = pre ++ a :: rest → fl_store w !! a = Some f → has_flag f FL_FLOCK = true →
  table_ok (set_flock (pre ++ rest) w) ∧ (a ∉ pre ++ rest).
Proof.
  intros (Hex & fs & gs & Hsh & Hfk) Hl Hf Hfl. pose proof Hsh as [H1 H2 _ _ _].
  assert (a ∈ fs) as Ha.
  { assert (a ∈ i_flock w) as Ha by (rewrite Hl; apply elem_of_app; right; by left).
    rewrite H1 in Ha. apply elem_of_app in Ha as [|Ha]; [done|].
    destruct (group_not_flock w fs gs a Hsh Ha) as (g & Hg & Hn%no_flock_flag). congruence. }
  apply list_elem_of_split in Ha as (f1 & f2 & ->).
  rewrite <- app_assoc in H1. simpl in H1. rewrite Hl in H1, H2.
  destruct (split_unique _ _ _ _ _ H1 H2) as [-> ->].
  assert (NoDup (f1 ++ f2 ++ mjoin (g_ids <$> gs)) ∧ (a ∉ f1 ++ f2 ++ mjoin (g_ids <$> gs))) as [Hnd Hna].
  { clear - H2. rewrite list.NoDup_app, list.NoDup_cons in H2. destruct H2 as (N1 & N2 & N3 & N4).
    split; [apply list.NoDup_app; split; [done|]; split; [|done]|].
    - intros x Hx Hx2. apply (N2 x Hx). by right.
    - rewrite not_elem_of_app. split; [|done]. intros Hx. apply (N2 a Hx). by left. }
  split; [|done]. eapply (table_front w _ _ (f1 ++ f2) gs); try done.
  - simpl. by rewrite app_assoc.
  - destruct Hfk as [K1 K2]. constructor; simpl; intros b; [|intros c f' g'].
    + intros Hb. apply K1. rewrite elem_of_app in *. rewrite elem_of_cons. tauto.
    + intros Hb Hc. apply K2; rewrite elem_of_app in *; rewrite elem_of_cons; tauto.
Qed.

Lemma flock_pass_table fuel filp type n wait w N r :
  table_ok w → (type ≠ F_UNLCK → (n ∉ i_flock w) ∧ fl_store w !! n = Some N ∧ flock_like N) →
  flock_pass fuel filp type n wait w = Ok r → table_ok (flock_state r).
Proof.
  revert w. induction fuel as [|fuel IH]; intros w Ht HN; [done|]. cbn [flock_pass].
  destruct (flock_search filp [] (i_flock w) w) as [[[[[pre a] f] rest]|]|] eqn:E;
    cbn [mbind outcome_bind]; [..|done].
  - apply flock_search_spec in E as (l1 & -> & Hl & Hf & Hfl & _). simpl.
    destruct (unlink_table w l1 a rest f Ht Hl Hf Hfl) as [Hu Hna].
    destruct (Z.eqb_spec type (fl_type f)) as [Et|Et]; [|destruct (Z.eqb_spec type F_UNLCK) as [Eu|Eu]].
    + intros [= <-]. simpl. destruct (Z.eqb_spec type F_UNLCK) as [|Eu]; [done|].
      destruct (HN Eu) as (Hn & _). eapply table_frame; [exact Ht|done|].
      intros b Hb. simpl. rewrite lookup_delete_ne; [done|]. by intros <-.
    + intros [= <-]. simpl. eapply table_frame; [exact Hu|done|].
      intros b Hb. rewrite store_delete, lookup_delete_ne; [done|]. by intros <-.
    + destruct (HN Eu) as (Hn & HNs & Hlike).
      destruct (flock_wait_empty a (set_flock (l1 ++ rest) w)) as [w2|] eqn:Ew.
      * intros [= <-]. simpl. unfold flock_wait_empty in Ew.
        destruct (reverse _) as [|[x y] ?]; [done|]. injection Ew as <-. by eapply table_frame.
      * apply IH.
        -- eapply table_frame; [exact Hu|done|].
           intros b Hb. simpl. rewrite lookup_delete_ne; [done|]. by intros <-.
        -- intros _. simpl. rewrite Hl in Hn. split; [clear - Hn; set_solver|].
           rewrite lookup_delete_ne; [done|]. intros <-. apply Hn. apply elem_of_app. right. by left.
  - destruct (Z.eqb_spec type F_UNLCK) as [Eu|Eu]; [intros [= <-]; done|].
    destruct (HN Eu) as (Hn & HNs & Hlike). by eapply repeat_table.
Qed.

(** The loop of a FLOCK request ends: each round takes a lock off the list. *)
Lemma flock_search_total filp acc l w :
  Forall (λ a, is_Some (fl_store w !! a)) l → ∃ r, flock_search filp acc l w = Ok r.
Proof.
  intros H. revert acc. induction H as [|a l [f Hf] Hl IH]; intros acc; simpl; [by eexists|].
  unfold get. rewrite Hf. cbn [mbind outcome_bind]. repeat case_match; eauto.
Qed.

Lemma flock_conflict_total new l w :
  Forall (λ a, is_Some (fl_store w !! a)) l → ∃ r, flock_conflict new l w = Ok r.
Proof.
  induction 1 as [|a l [f Hf] Hl IH]; simpl; [by eexists|].
  unfold get. rewrite Hf. cbn [mbind outcome_bind]. repeat case_match; eauto.
Qed.

Lemma table_store w : table_ok w → Forall (λ a, is_Some (fl_store w !! a)) (i_flock w).
Proof. intros (_ & fs & gs & Hsh & _). apply in_store. by exists fs, gs. Qed.

Lemma flock_pass_returns fuel filp type n wait w N :
  table_ok w → (type ≠ F_UNLCK → (n ∉ i_flock w) ∧ fl_store w !! n = Some N) →
  (length (i_flock w) < fuel)%nat → ∃ r, flock_pass fuel filp type n wait w = Ok r.
Proof.
  revert w. induction fuel as [|fuel IH]; intros w Ht HN Hfuel; [lia|]. cbn [flock_pass].
  destruct (flock_search_total filp [] (i_flock w) w (table_store w Ht)) as [found E]. rewrite E.
  cbn [mbind outcome_bind]. destruct found as [[[[pre a] f] rest]|].
  - apply flock_search_spec in E as (l1 & -> & Hl & Hf & Hfl & _). simpl.
    destruct (unlink_table w l1 a rest f Ht Hl Hf Hfl) as [Hu Hna].
    destruct (Z.eqb_spec type (fl_type f)); [by eexists|]. destruct (Z.eqb_spec type F_UNLCK) as [|Eu]; [by eexists|].
    destruct (flock_wait_empty a _); [by eexists|]. destruct (HN Eu) as [Hn HNs]. rewrite Hl in Hn.
    apply IH.
    + eapply table_frame; [exact Hu|done|]. intros b Hb. simpl. rewrite lookup_delete_ne; [done|]. by intros <-.
    + intros _. simpl. split; [clear - Hn; set_solver|]. rewrite lookup_delete_ne; [done|]. intros <-.
      apply Hn. apply elem_of_app. right. by left.
    + simpl. rewrite Hl, length_app in Hfuel. rewrite length_app. simpl in Hfuel. lia.
  - destruct (Z.eqb_spec type F_UNLCK) as [|Eu]; [by eexists|]. destruct (HN Eu) as [Hn HNs].
    unfold flock_repeat, get. rewrite HNs. cbn [mbind outcome_bind].
    destruct (flock_conflict_total N (i_flock w) w (table_store w Ht)) as [c ->]. cbn [mbind outcome_bind].
    repeat case_match; eauto.
Qed.

Lemma sys_flock_returns fuel cur filp cmd n w :
  table_ok w → fresh w [n] → (length (i_flock w) < fuel)%nat →
  ∃ r, sys_flock fuel cur (Some filp) cmd (Some n) w = Ok r.
Proof.
  intros Ht [_ Hn] Hfuel. specialize (Hn n ltac:(by left)). unfold sys_flock.
  destruct (Z.ltb_spec (flock_translate_cmd cmd) 0); [by eexists|]. case_match; [by eexists|].
  unfold flock_lock_file. destruct (Z.eqb_spec (flock_translate_cmd cmd) F_UNLCK) as [Eu|Eu].
  - rewrite Eu. by apply (flock_pass_returns _ _ _ _ _ _ (FileLock 0 0 0 0 0 0 0)).
  - eapply flock_pass_returns; [by apply add_structure| |done]. intros _. simpl.
    split; [done|apply lookup_insert_eq].
Qed.

Lemma translated_type cmd :
  0 <= flock_translate_cmd cmd → flock_translate_cmd cmd ≠ F_UNLCK → flock_type (u8 (flock_translate_cmd cmd)).
Proof.
  unfold flock_translate_cmd, flock_type. destruct (c_true (Z.land cmd LOCK_MAND)) eqn:E.
  - intros _ _. right. right. rewrite <- E. f_equal. unfold wrap. rewrite <- Z.land_ones by lia.
    rewrite <- !Z.land_assoc. done.
  - repeat case_match; intros; by auto.
Qed.

Lemma sys_flock_table fuel cur filp cmd n w r :
  table_ok w → fresh w [n] → sys_flock fuel cur (Some filp) cmd (Some n) w = Ok r →
  table_ok (flock_state r).
Proof.
  intros Ht [_ Hn]. specialize (Hn n ltac:(by left)). unfold sys_flock.
  destruct (Z.ltb_spec (flock_translate_cmd cmd) 0) as [|Hpos]; [intros [= <-]; done|].
  case_match; [intros [= <-]; done|]. unfold flock_lock_file.
  destruct (Z.eqb_spec (flock_translate_cmd cmd) F_UNLCK) as [Eu|Eu].
  - rewrite Eu. by apply (flock_pass_table _ _ _ _ _ _ (FileLock 0 0 0 0 0 0 0)).
  - eapply flock_pass_table; [by apply add_structure|]. intros _. simpl. split; [done|].
    split; [apply lookup_insert_eq|]. split; [done|]. split; [done|]. by apply translated_type.
Qed.

(** ** Any sequence of operations *)

(** One system call up to its return or its sleep, the rest of a call after the
    sleep, or the close of a file.  The structures a call uses are its own, and
    a request up to the last offset has nothing to merge with. *)
Inductive lock_step (w : locks) : locks → Prop :=
| step_setlk fuel cur filp cmd l c n1 n2 r :
    request_wf filp l → f_lock filp = None → fresh w [c; n1; n2] →
    (∀ C, flock_to_posix_lock cur filp l = Some C → merge_safe w C) →
    fcntl_setlk fuel cur (Some filp) cmd (Some l) (Some c) (Some n1) (Some n2) w = Ok r →
    lock_step w (result_state r)
| step_setlk64 fuel cur filp cmd l c n1 n2 r :
    request_wf filp l → f_lock filp = None → fresh w [c; n1; n2] →
    (∀ C, flock64_to_posix_lock cur filp l = Some C → merge_safe w C) →
    fcntl_setlk64 fuel cur (Some filp) cmd (Some l) (Some c) (Some n1) (Some n2) w = Ok r →
    lock_step w (result_state r)
| step_setlk_wake fuel result c n1 n2 C r :
    request_ok w c n1 n2 C → merge_safe w C → setlk_wake fuel result c n1 n2 w = Ok r →
    lock_step w (result_state r)
| step_flock fuel cur filp cmd n r :
    fresh w [n] → sys_flock fuel cur (Some filp) cmd (Some n) w = Ok r → lock_step w (flock_state r)
| step_flock_wake result n N r :
    fresh w [n] → fl_store w !! n = Some N → flock_like N → flock_wake result n w = Ok r →
    lock_step w (flock_state r)
| step_flock_resume fuel a filp type n wait N r :
    fresh w [a; n] → fl_store w !! n = Some N → flock_like N →
    flock_resume fuel a filp type n wait w = Ok r → lock_step w (flock_state r)
| step_close_posix owner w' : locks_remove_posix owner w = Ok w' → lock_step w w'
| step_close_flock filp w' : locks_remove_flock filp w = Ok w' → lock_step w w'.

Lemma free_table w a : table_ok w → a ∉ i_flock w → table_ok (locks_free_lock a w).
Proof.
  intros Ht Ha. eapply table_frame; [exact Ht|done|]. intros b Hb. simpl.
  rewrite lookup_delete_ne; [done|]. by intros <-.
Qed.

Lemma lock_step_ok w w' : table_ok w → lock_step w w' → table_ok w'.
Proof.
  intros Ht Hstep. destruct Hstep as
    [fuel cur filp cmd l c n1 n2 r Hwf Hlock Hfr Hms E|fuel cur filp cmd l c n1 n2 r Hwf Hlock Hfr Hms E
    |fuel result c n1 n2 C r Hrq Hms E|fuel cur filp cmd n r Hfr E|result n N r Hfr HN Hlike E
    |fuel a filp type n wait N r Hfr HN Hlike E|owner w' E|filp w' E].
  - unfold fcntl_setlk in E. destruct (flock_to_posix_lock cur filp l) as [C|] eqn:EC; [|by injection E as <-].
    destruct (mode_error filp (l_type l)); [by injection E as <-|].
    rewrite (proj1 (conversions_exact cur filp l Hwf)) in EC.
    assert (OFFT_OFFSET_MAX <= OFFSET_MAX) as Hlim by done.
    exact (setlk_table _ _ _ _ _ _ _ _ _ _ _ _ _ Ht Hwf Hlim EC Hfr Hlock (Hms C eq_refl) E).
  - unfold fcntl_setlk64 in E. destruct (mand_mapped filp); [by injection E as <-|].
    destruct (flock64_to_posix_lock cur filp l) as [C|] eqn:EC; [|by injection E as <-].
    destruct (mode_error filp (l_type l)); [by injection E as <-|].
    rewrite (proj2 (conversions_exact cur filp l Hwf)) in EC.
    exact (setlk_table _ _ _ _ _ _ _ _ _ _ _ _ _ Ht Hwf (Z.le_refl OFFSET_MAX) EC Hfr Hlock (Hms C eq_refl) E).
  - by eapply wake_table.
  - by eapply sys_flock_table.
  - destruct Hfr as [_ Hn]. specialize (Hn n ltac:(by left)). unfold flock_wake in E.
    assert (table_ok (locks_delete_block n w)) as Ht1 by (by eapply table_frame).
    destruct (c_true result); [injection E as <-; by apply free_table|]. by eapply repeat_table.
  - destruct Hfr as [Hnd Hn]. pose proof (Hn a ltac:(by left)) as Ha. pose proof (Hn n ltac:(by right; left)) as Hn'.
    unfold flock_resume, flock_wait_empty in E. destruct (reverse _) as [|[x y] q].
    + apply (flock_pass_table fuel filp type n wait (locks_free_lock a w) N r); [by apply free_table| |exact E]. intros _. simpl. split; [done|].
      split; [|exact Hlike]. rewrite lookup_delete_ne; [done|]. intros <-.
      apply list.NoDup_cons in Hnd as [Hnd _]. apply Hnd. by left.
    + injection E as <-. by eapply table_frame.
  - destruct (close_posix owner w Ht) as (w2 & E2 & H2 & _). congruence.
  - destruct (close_flock filp w Ht) as (w2 & E2 & H2 & _). congruence.
Qed.

Definition no_locks : locks := Locks ∅ [] [] [].

Lemma no_locks_ok : table_ok no_locks.
Proof.
  split; [by intros ? ? ? ? ? ? ? ? ?|]. exists [], []. split; constructor; try constructor.
  - intros a Ha. by apply elem_of_nil in Ha.
  - intros a b f g Ha. by apply elem_of_nil in Ha.
Qed.


Lemma fresh_check w l :
  bool_decide (NoDup l) && forallb (λ a, bool_decide (a ∉ i_flock w)) l = true → fresh w l.
Proof.
  intros [H1%bool_decide_eq_true H2]%andb_prop. split; [done|]. intros a Ha.
  rewrite List.forallb_forall in H2. specialize (H2 a (proj1 (list_elem_of_In _ _) Ha)).
  by apply bool_decide_eq_true in H2.
Qed.


(** The conversions of [fcntl] requests accept exactly the requests with a
    valid origin and type whose range lies between byte 0 and the largest
    offset (of [off_t] for [struct flock], of [loff_t] for [struct flock64]) and
    compute that range, detecting every addition that wraps around; length 0
    means up to the last offset.  What F_GETLK64 reports of a lock converts back
    to the lock's own range. *)
Theorem posix_request_exact cur filp l :
  request_wf filp l →
  flock_to_posix_lock cur filp l = posix_request OFFT_OFFSET_MAX cur filp l ∧
  flock64_to_posix_lock cur filp l = posix_request OFFSET_MAX cur filp l ∧
  ∀ f, lock_type (fl_type f) → 0 <= fl_start f <= fl_end f → fl_end f <= OFFSET_MAX →
    ∃ C, flock64_to_posix_lock cur filp (report f) = Some C ∧ rng C = rng f.
Proof.
  intros Hwf. destruct (conversions_exact cur filp l Hwf) as [H1 H2]. split; [done|]. split; [done|].
  intros f Hty Hr Hmax. unfold OFFSET_MAX in Hmax.
  assert (valid_type (fl_type f) = true) as Hv by (destruct Hty as [->|[->| ->]]; done).
  set (len := if fl_end f =? OFFSET_MAX then 0 else fl_end f - fl_start f + 1).
  assert (0 <= len < 2 ^ 63 ∧ fl_start f + len - 1 <= OFFSET_MAX ∧
          (if len =? 0 then OFFSET_MAX else fl_start f + len - 1) = fl_end f) as (L1 & L2 & L3).
  { unfold len, OFFSET_MAX. zbool; lia. }
  assert (report f = Flock (fl_type f) 0 (fl_start f) len (fl_pid f)) as Erep.
  { unfold report. f_equal. unfold len. destruct (fl_end f =? OFFSET_MAX) eqn:E; [done|].
    apply Z.eqb_neq in E. unfold OFFSET_MAX in E. rewrite (s64_small (fl_end f - fl_start f)), s64_small by lia. done. }
  rewrite Erep. clearbody len.
  assert (request_wf filp (Flock (fl_type f) 0 (fl_start f) len (fl_pid f))) as Hwf'.
  { destruct Hwf. constructor; unfold i64; simpl; lia. }
  rewrite (proj2 (conversions_exact cur filp _ Hwf')). unfold posix_request.
  cbn [seek_base l_whence l_start l_len l_type mbind option_bind Z.eqb]. rewrite Z.add_0_l.
  rewrite (proj2 (Z.leb_le 0 (fl_start f))), (proj2 (Z.leb_le _ OFFSET_MAX)), (proj2 (Z.leb_le 0 len)),
    (proj2 (Z.leb_le _ OFFSET_MAX)), Hv by (unfold OFFSET_MAX in *; lia).
  eexists. split; [done|]. unfold rng. simpl. by rewrite L3.
Qed.

Lemma posix_request_exact_witness :
  request_wf (File 900 7 3 0 100 false None) (Flock F_WRLCK 2 (-50) 20 0) ∧
  flock64_to_posix_lock (Task 1 1) (File 900 7 3 0 100 false None) (Flock F_WRLCK 2 (-50) 20 0) =
    Some (FileLock 1 1 900 FL_POSIX F_WRLCK 50 69).
Proof.
  assert (request_wf (File 900 7 3 0 100 false None) (Flock F_WRLCK 2 (-50) 20 0)) as H by (by repeat split).
  split; [exact H|]. destruct (posix_request_exact (Task 1 1) _ _ H) as (_ & -> & _). reflexivity.
Defined.

(** ** Where the guarantees end

    The conditions of the theorems above are needed. *)

Definition run_lock (c n1 n2 : Z) (C : file_lock) (w : locks) : locks :=
  match posix_lock_file 0 c (Some n1) (Some n2) false (set_store (<[c := C]> (fl_store w)) w) with
  | Ok r => result_state r
  | Trap _ => no_locks
  end.

(** A write lock on 10..20, one from 0 up to the last offset, then 5..30 is
    unlocked: since [caller->fl_end + 1] wraps around the two locks are not
    merged, and byte 15 stays locked. *)
Lemma eof_lock_not_merged :
  let w1 := run_lock 100 101 102 (FileLock 1 1 9 FL_POSIX F_WRLCK 10 20) no_locks in
  let w2 := run_lock 200 201 202 (FileLock 1 1 9 FL_POSIX F_WRLCK 0 OFFSET_MAX) w1 in
  let w3 := run_lock 300 301 302 (FileLock 1 1 9 FL_POSIX F_UNLCK 5 30) w2 in
  lock_on w3 1 1 15 = Some F_WRLCK.
Proof. reflexivity. Qed.

(** A lease taken after an exclusive FLOCK lock hides it: another open file
    gets an exclusive lock too. *)
Lemma lease_hides_flock :
  ∃ w1 w2 w3,
    sys_flock 2 (Task 1 1) (Some (File 901 0 3 0 0 false None)) LOCK_EX (Some 10) no_locks = Ok (FReturns 0 w1) ∧
    fcntl_setlease (Task 1 1) 901 F_RDLCK true true false true 0 (Some 11) w1 = Ok (0, w2) ∧
    sys_flock 2 (Task 2 2) (Some (File 902 0 3 0 0 false None)) LOCK_EX (Some 12) w2 = Ok (FReturns 0 w3) ∧
    fl_store w3 !! 10 = Some (flock_make_lock (Task 1 1) 901 F_WRLCK) ∧
    fl_store w3 !! 12 = Some (flock_make_lock (Task 2 2) 902 F_WRLCK) ∧
    i_flock w3 = [12; 11; 10].
Proof. eexists _, _, _. repeat split; reflexivity. Qed.

(** The list is sorted by start within an owner only, but the check of
    mandatory locks stops at the first lock that starts behind the area: the
    write lock of owner 2 on 0..10 does not stop owner 3 from writing there. *)
Lemma mandatory_area_misses :
  let w1 := run_lock 100 101 102 (FileLock 1 1 9 FL_POSIX F_WRLCK 50 60) no_locks in
  let w2 := run_lock 200 201 202 (FileLock 2 2 9 FL_POSIX F_WRLCK 0 10) w1 in
  lock_on w2 2 2 5 = Some F_WRLCK ∧
  locks_mandatory_area 0 (Task 3 3) FLOCK_VERIFY_WRITE None 0 8 (Some 300) w2 = Ok (Returns 0 w2).
Proof. split; reflexivity. Qed.
