(* ===== verification/LockDeadlock.v ===== *)
(** Deadlock detection for record locks: the wait-for graph of the blocked
    processes stays free of cycles, and [posix_locks_deadlock], a loop that
    follows the graph, always ends. *)

From S2P Require Import Prelude Errno PosixLock LockSim LockThm.

(** ** The wait-for graph *)

Definition owner_of (f : file_lock) : Z * Z := (fl_owner f, fl_pid f).

(** The process [k] is blocked by a lock of [k']. *)
Definition waits (w : locks) (k k' : Z * Z) : Prop :=
  ∃ a b f g, (a, b) ∈ blocked w ∧ fl_store w !! a = Some f ∧ fl_store w !! b = Some g ∧
    owner_of f = k ∧ owner_of g = k'.

Definition no_deadlock (w : locks) : Prop := ∀ k, ¬ tc (waits w) k k.

(** The structures are there, and a task waits for one lock at a time. *)
Record blocked_ok (w : locks) : Prop := {
  bl_store : ∀ a b, (a, b) ∈ blocked w → is_Some (fl_store w !! a) ∧ is_Some (fl_store w !! b);
  bl_once : ∀ a b f a' b' f', (a, b) ∈ blocked w → (a', b') ∈ blocked w →
    fl_store w !! a = Some f → fl_store w !! a' = Some f' → owner_of f = owner_of f' → (a, b) = (a', b')
}.

Lemma waits_functional w k k1 k2 : blocked_ok w → waits w k k1 → waits w k k2 → k1 = k2.
Proof.
  intros [_ H] (a & b & f & g & H1 & H2 & H3 & H4 & H5) (a' & b' & f' & g' & H1' & H2' & H3' & H4' & H5').
  assert ((a, b) = (a', b')) as [= <- <-] by (eapply H; eauto; congruence). congruence.
Qed.

(** ** Paths in a graph without cycles *)

Section graph.
Context {A : Type} (R : A → A → Prop).

(** The sources of a path are different, so it is no longer than their list. *)
Lemma path_sources (L : list A) n x y :
  (∀ k, ¬ tc R k k) → (∀ k k', R k k' → k ∈ L) → nsteps R n x y →
  ∃ l, length l = n ∧ NoDup l ∧ (∀ z, z ∈ l → z ∈ L ∧ rtc R x z).
Proof.
  intros Hac HL. induction 1 as [x|n x x' y Hx Hp (l & H1 & H2 & H3)].
  - exists []. split; [done|]. split; [constructor|]. intros z Hz. by apply elem_of_nil in Hz.
  - exists (x :: l). split; [simpl; congruence|]. split.
    + apply list.NoDup_cons. split; [|done]. intros Hin. destruct (H3 x Hin) as [_ Hr].
      apply (Hac x). by apply (tc_rtc_r _ x'); [apply tc_once|].
    + intros z Hz. apply elem_of_cons in Hz as [->|Hz]; [split; [by eapply HL|done]|].
      destruct (H3 z Hz) as [? ?]. split; [done|]. by eapply rtc_l.
Qed.

Lemma path_bound (L : list A) n x y :
  (∀ k, ¬ tc R k k) → (∀ k k', R k k' → k ∈ L) → nsteps R n x y → (n <= length L)%nat.
Proof.
  intros Hac HL Hp. destruct (path_sources L n x y Hac HL Hp) as (l & <- & Hnd & Hin).
  apply submseteq_length, NoDup_submseteq; [done|]. intros z Hz. by apply Hin.
Qed.

(** A new edge back to where nothing leads closes no cycle. *)
Lemma add_edge u v x y :
  tc (λ k k', R k k' ∨ (k, k') = (u, v)) x y → tc R x y ∨ rtc R x u ∧ rtc R v y.
Proof.
  induction 1 as [x y [H|[= -> ->]]|x z y [H|[= -> ->]] Ht IH].
  - left. by apply tc_once.
  - right. done.
  - destruct IH as [IH|[H1 H2]]; [left; by eapply tc_l|right]. split; [by eapply rtc_l|done].
  - right. destruct IH as [IH|[H1 H2]]; [split; [done|by apply tc_rtc]|]. split; [done|]. done.
Qed.
End graph.

(** ** [posix_locks_deadlock] *)

(** The sources of the graph. *)
Definition sources (w : locks) : list (Z * Z) :=
  omap (λ p, owner_of <$> fl_store w !! p.1) (blocked w).

Lemma waits_source w k k' : waits w k k' → k ∈ sources w.
Proof.
  intros (a & b & f & g & H1 & H2 & _ & <- & _). apply list_elem_of_omap.
  exists (a, b). split; [done|]. simpl. by rewrite H2.
Qed.

Lemma sources_length w : (length (sources w) <= length (blocked w))%nat.
Proof. unfold sources. induction (blocked w) as [|x l IH]; csimpl; [lia|]. case_match; simpl; lia. Qed.

(** The search for a waiter of an owner finds the edge of the graph. *)
Lemma find_waiter w k :
  blocked_ok w →
  let P := λ f, (fl_owner f =? k.1) && (fl_pid f =? k.2) in
  (find_lock P (fst <$> blocked w) w = Ok None ∧ ∀ k', ¬ waits w k k') ∨
  (∃ a b g, find_lock P (fst <$> blocked w) w = Ok (Some a) ∧
     (∃ i, list_find (λ p, p.1 = a) (blocked w) = Some (i, (a, b))) ∧
     fl_store w !! b = Some g ∧ waits w k (owner_of g)).
Proof.
  intros Hok P. pose proof Hok as [H1 H2].
  assert (Forall (λ a, is_Some (fl_store w !! a)) (fst <$> blocked w)) as Hs.
  { apply Forall_lookup. intros i a Ha%list_elem_of_lookup_2.
    apply list_elem_of_fmap in Ha as ([a' b'] & -> & Hin). by destruct (H1 a' b' Hin). }
  destruct (find_lock_spec P (fst <$> blocked w) w Hs) as [[-> Hno]|(a & f & -> & Ha & Hf & HP)].
  - left. split; [done|]. intros k' (a & b & f & g & Hin & Hf & _ & <- & _).
    assert (P f = false) as HP; [|unfold P in HP; simpl in HP; by rewrite !Z.eqb_refl in HP].
    apply (Hno a f); [|done]. apply list_elem_of_fmap. by exists (a, b).
  - right. unfold P in HP. apply andb_prop in HP as [E1%Z.eqb_eq E2%Z.eqb_eq].
    apply list_elem_of_fmap in Ha as ([a' b] & -> & Hin). simpl in *.
    destruct (H1 a' b Hin) as [_ [g Hg]].
    assert (waits w k (owner_of g)) as Hw.
    { exists a', b, f, g. split_and!; try done. unfold owner_of. rewrite E1, E2. by destruct k. }
    destruct (list_find (λ p, p.1 = a') (blocked w)) as [[i [a2 b2]]|] eqn:E.
    + pose proof E as E'. apply list_find_Some in E as (Hi & Ea & _). simpl in Ea. subst a2.
      assert ((a', b) = (a', b2)) as [= <-].
      { apply (H2 a' b f a' b2 f); try done. by eapply list_elem_of_lookup_2. }
      exists a', b, g. split; [done|]. split; [exists i; exact E'|done].
    + apply list_find_None in E. rewrite Forall_lookup in E. apply list_elem_of_lookup in Hin as [i Hi].
      by destruct (E i _ Hi).
Qed.

Lemma deadlock_from_spec fuel w C k :
  blocked_ok w →
  (deadlock_from fuel C k.1 k.2 w = Ok true ∧ rtc (waits w) k (owner_of C)) ∨
  (deadlock_from fuel C k.1 k.2 w = Ok false ∧ ¬ rtc (waits w) k (owner_of C)) ∨
  (∃ y, nsteps (waits w) fuel k y).
Proof.
  intros Hok. revert k. induction fuel as [|fuel IH]; intros k; cbn [deadlock_from].
  { right. right. exists k. constructor. }
  destruct (decide (k = owner_of C)) as [->|Hne].
  { left. simpl. rewrite !Z.eqb_refl. done. }
  assert ((fl_owner C =? k.1) && (fl_pid C =? k.2) = false) as ->.
  { apply andb_false_iff. rewrite !Z.eqb_neq. destruct k as [o p]. unfold owner_of in Hne. simpl.
    destruct (decide (fl_owner C = o)) as [<-|]; [right|by left]. intros <-. by apply Hne. }
  destruct (find_waiter w k Hok) as [[-> Hno]|(a & b & g & -> & [i Hi] & Hg & Hw)]; cbn [mbind outcome_bind].
  - right. left. split; [done|]. intros Hr. apply rtc_inv in Hr as [?|(y & Hy & _)]; [done|by apply (Hno y)].
  - rewrite Hi. unfold get. rewrite Hg. cbn [mbind outcome_bind].
    destruct (IH (owner_of g)) as [[E Hr]|[[E Hr]|[y Hy]]].
    + left. split; [done|]. by eapply rtc_l.
    + right. left. split; [done|]. intros Hr2. apply rtc_inv in Hr2 as [?|(y & Hy & Hr2)]; [done|].
      by rewrite (waits_functional w k y (owner_of g)) in Hr2.
    + right. right. exists y. by eapply nsteps_l.
Qed.

(** In a graph without cycles the loop ends and its answer is exact. *)
Lemma posix_locks_deadlock_spec fuel w C f :
  blocked_ok w → no_deadlock w → (length (blocked w) < fuel)%nat →
  (posix_locks_deadlock fuel C f w = Ok true ∧ rtc (waits w) (owner_of f) (owner_of C)) ∨
  (posix_locks_deadlock fuel C f w = Ok false ∧ ¬ rtc (waits w) (owner_of f) (owner_of C)).
Proof.
  intros Hok Hnd Hfuel. unfold posix_locks_deadlock.
  destruct (deadlock_from_spec fuel w C (owner_of f) Hok) as [H|[H|[y Hy]]]; [by left|by right|].
  exfalso. apply (path_bound (waits w) (sources w)) in Hy; [|done|apply waits_source].
  pose proof (sources_length w). lia.
Qed.

(** ** Going to sleep *)

Lemma insert_block_waits w a f c C k k' :
  fl_store w !! a = Some f → fl_store w !! c = Some C →
  waits (locks_insert_block a c w) k k' → waits w k k' ∨ (k, k') = (owner_of C, owner_of f).
Proof.
  intros Hf HC (x & y & g & h & H1 & H2 & H3 & <- & <-). simpl in *.
  apply elem_of_cons in H1 as [[= -> ->]|H1]; [right; congruence|left].
  apply list_elem_of_filter in H1 as [_ H1]. exists x, y, g, h. done.
Qed.

Lemma insert_block_ok w a f c C :
  blocked_ok w → fl_store w !! a = Some f → fl_store w !! c = Some C → (owner_of C ∉ sources w) →
  blocked_ok (locks_insert_block a c w).
Proof.
  intros [H1 H2] Hf HC Hrun.
  assert (∀ x y g, (x, y) ∈ blocked w → fl_store w !! x = Some g → owner_of g ≠ owner_of C) as Hne.
  { intros x y g Hin Hg E. apply Hrun. rewrite <- E. apply list_elem_of_omap. exists (x, y).
    split; [done|]. simpl. by rewrite Hg. }
  constructor; simpl.
  - intros x y [[= -> ->]|Hin]%elem_of_cons; [split; by eexists|].
    apply list_elem_of_filter in Hin as [_ Hin]. auto.
  - intros x y g x' y' g' Hin Hin' Hg Hg' E.
    apply elem_of_cons in Hin as [[= -> ->]|Hin]; apply elem_of_cons in Hin' as [[= -> ->]|Hin']; [done|..].
    + apply list_elem_of_filter in Hin' as [_ Hin']. destruct (Hne x' y' g'); try done. congruence.
    + apply list_elem_of_filter in Hin as [_ Hin]. destruct (Hne x y g); try done. congruence.
    + apply list_elem_of_filter in Hin as [_ Hin]. apply list_elem_of_filter in Hin' as [_ Hin'].
      by eapply H2.
Qed.


(** Owner 10 waits for the write lock of owner 11 in [sample]; with owner 11
    asking for the range of owner 10's locks, sleeping would close the circle. *)
Definition sample_waiting : locks :=
  Locks (<[9 := FileLock 11 2 72 FL_POSIX F_WRLCK 0 3]> (<[7 := FileLock 10 1 71 FL_POSIX F_WRLCK 40 41]>
          (fl_store sample))) [1; 2; 3; 4] [(7, 4)] [].

