(* ===== verification/Pipe.v ===== *)
(** Pipes, [fs/pipe.c], and the opening of FIFOs, [fs/fifo.c].

    A call runs with the semaphore of the inode until it returns or sleeps in
    [pipe_wait]; each such stretch is one function here.  A stretch yields the
    new state of the pipe, whether it woke the processes that wait for the
    pipe, the bytes it moved and how it ended.  What follows a sleep is a
    function of its own ([.._wake]). *)

From S2P Require Import Prelude Errno.

Definition PIPE_SIZE : Z := 4096.
Definition PIPE_BUF : Z := 4096.

(** [struct pipe_inode_info] with [PIPE_LEN], the size of the inode; [page] are
    the bytes of the page at [base]. *)
Record pipe := Pipe {
  page : Z → Z; start : Z; len : Z; readers : Z; writers : Z;
  waiting_readers : Z; waiting_writers : Z; r_counter : Z; w_counter : Z
}.

Definition set_data (pg : Z → Z) (s l : Z) (p : pipe) : pipe :=
  Pipe pg s l (readers p) (writers p) (waiting_readers p) (waiting_writers p) (r_counter p) (w_counter p).
Definition set_waiting (r w : Z) (p : pipe) : pipe :=
  Pipe (page p) (start p) (len p) (readers p) (writers p) r w (r_counter p) (w_counter p).
Definition set_users (r w rc wc : Z) (p : pipe) : pipe :=
  Pipe (page p) (start p) (len p) r w (waiting_readers p) (waiting_writers p) rc wc.

Definition PIPE_FREE (p : pipe) : Z := PIPE_SIZE - len p.
Definition PIPE_END (p : pipe) : Z := Z.land (start p + len p) (PIPE_SIZE - 1).
Definition PIPE_MAX_RCHUNK (p : pipe) : Z := PIPE_SIZE - start p.
Definition PIPE_MAX_WCHUNK (p : pipe) : Z := PIPE_SIZE - PIPE_END p.

(** ** Stretches *)

(** How a stretch ends: with a result, or asleep with what is left to do. *)
Inductive ending (A : Type) := Returned (ret : Z) | Asleep (rest : A).
Arguments Returned {A} _.
Arguments Asleep {A} _.

Record stretch (A : Type) := Stretch {
  st_pipe : pipe; st_woke : bool; st_data : list Z; st_end : ending A
}.
Arguments Stretch {A} _ _ _ _.
Arguments st_pipe {A} _.
Arguments st_woke {A} _.
Arguments st_data {A} _.
Arguments st_end {A} _.

(** ** Reading *)

(** [rd_room]: how many bytes of the user's buffer can be written. *)
Record reading := Rd { rd_nonblock : bool; rd_count : Z; rd_read : Z; rd_room : Z }.

Definition copy_to_user (r : reading) (chars : Z) : bool := chars <=? rd_room r.

Definition bytes_of (pg : Z → Z) (off n : Z) : list Z := pg <$> seqZ off n.

(** [if (read) ret = read;] *)
Definition or_moved (moved ret : Z) : Z := if moved =? 0 then ret else moved.

(** The copying loop; [false] when the user's buffer faults. *)
Fixpoint read_loop (fuel : nat) (p : pipe) (r : reading) (out : list Z)
    : outcome (bool * pipe * reading * list Z) :=
  match fuel with
  | O => Trap Fuel
  | S fuel =>
      if (rd_count r =? 0) || (len p =? 0) then Ok (true, p, r, out) else
      let chars := PIPE_MAX_RCHUNK p in
      let chars := if rd_count r <? chars then rd_count r else chars in
      let chars := if len p <? chars then len p else chars in
      if negb (copy_to_user r chars) then Ok (false, p, r, out) else
      read_loop fuel (set_data (page p) (Z.land (start p + chars) (PIPE_SIZE - 1)) (len p - chars) p)
        (Rd (rd_nonblock r) (rd_count r - chars) (rd_read r + chars) (rd_room r - chars))
        (out ++ bytes_of (page p) (start p) chars)
  end.

(** [do_more_read:] up to the sleep. *)
Definition do_more_read (p : pipe) (r : reading) (woke : bool) (out : list Z) : stretch reading :=
  if writers p =? 0 then Stretch p woke out (Returned (or_moved (rd_read r) 0))
  else if rd_nonblock r then Stretch p woke out (Returned (or_moved (rd_read r) (- EAGAIN)))
  else Stretch (set_waiting (u32 (waiting_readers p + 1)) (waiting_writers p) p) woke out (Asleep r).

(** From "Read what data is available" on. *)
Definition read_data (fuel : nat) (p : pipe) (r : reading) : outcome (stretch reading) :=
  '(ok, p, r, out) ← read_loop fuel p r [];
  if negb ok then Ok (Stretch p false out (Returned (or_moved (rd_read r) (- EFAULT)))) else
  let p := if len p =? 0 then set_data (page p) 0 (len p) p else p in
  if negb (rd_count r =? 0) && negb (waiting_writers p =? 0) && negb (rd_nonblock r) then
    if negb (len p =? 0) then Trap Bug else Ok (do_more_read p r true out)
  else Ok (Stretch p true out (Returned (rd_read r))).

(** [pipe_read], once the semaphore is held. *)
Definition pipe_read (fuel : nat) (p : pipe) (r : reading) : outcome (stretch reading) :=
  if rd_count r =? 0 then Ok (Stretch p false [] (Returned 0))
  else if len p =? 0 then Ok (do_more_read p r false []) else read_data fuel p r.

(** After [pipe_wait] in the loop of [do_more_read]. *)
Definition pipe_read_wake (fuel : nat) (signal : bool) (p : pipe) (r : reading)
    : outcome (stretch reading) :=
  let p := set_waiting (u32 (waiting_readers p - 1)) (waiting_writers p) p in
  if signal then Ok (Stretch p false [] (Returned (or_moved (rd_read r) (- ERESTARTSYS))))
  else if negb (len p =? 0) then read_data fuel p r
  else if writers p =? 0 then Ok (Stretch p false [] (Returned (or_moved (rd_read r) 0)))
  else Ok (Stretch (set_waiting (u32 (waiting_readers p + 1)) (waiting_writers p) p) false [] (Asleep r)).

(** ** Writing *)

(** [wr_src]: the bytes still to be written, [None] where the user's buffer
    cannot be read; [wr_started]: the call is in the copying loop already. *)
Record writing := Wr {
  wr_nonblock : bool; wr_src : list (option Z); wr_written : Z; wr_started : bool
}.

Definition wr_count (w : writing) : Z := zlen (wr_src w).

(** [copy_from_user]: whether all bytes could be read, and what it stores. *)
Definition copy_from_user (src : list (option Z)) (chars : Z) : bool * list Z :=
  let l := take (Z.to_nat chars) src in (forallb (λ b, bool_decide (is_Some b)) l, default 0 <$> l).

Definition put_bytes (pg : Z → Z) (off : Z) (l : list Z) : Z → Z :=
  λ o, if (off <=? o) && (o <? off + zlen l) then l !!! Z.to_nat (o - off) else pg o.

Inductive write_stop := WDone | WFault | WFull.

(** The copying loop up to its end, a fault or a full pipe. *)
Fixpoint write_loop (fuel : nat) (p : pipe) (w : writing) (out : list Z)
    : outcome (write_stop * pipe * writing * list Z) :=
  match fuel with
  | O => Trap Fuel
  | S fuel =>
      if wr_count w =? 0 then Ok (WDone, p, w, out) else
      let chars := PIPE_MAX_WCHUNK p in
      let space := PIPE_FREE p in
      if space =? 0 then Ok (WFull, p, w, out) else
      let chars := if wr_count w <? chars then wr_count w else chars in
      let chars := if space <? chars then space else chars in
      let '(ok, bytes) := copy_from_user (wr_src w) chars in
      let pg := put_bytes (page p) (PIPE_END p) bytes in
      if negb ok then Ok (WFault, set_data pg (start p) (len p) p, w, out) else
      write_loop fuel (set_data pg (start p) (len p + chars) p)
        (Wr (wr_nonblock w) (drop (Z.to_nat chars) (wr_src w)) (wr_written w + chars) (wr_started w))
        (out ++ bytes)
  end.

(** [sigpipe:] *)
Definition broken (p : pipe) (w : writing) : stretch writing :=
  Stretch p false [] (Returned (if wr_written w =? 0 then - EPIPE else wr_written w)).

Definition write_sleep (p : pipe) (woke : bool) (out : list Z) (w : writing) : stretch writing :=
  Stretch (set_waiting (waiting_readers p) (u32 (waiting_writers p + 1)) p) woke out (Asleep w).

(** From "Copy into available space" on. *)
Definition write_data (fuel : nat) (p : pipe) (w : writing) : outcome (stretch writing) :=
  '(stop, p, w, out) ← write_loop fuel p w [];
  match stop with
  | WFault => Ok (Stretch p false out (Returned (or_moved (wr_written w) (- EFAULT))))
  | WDone => Ok (Stretch p true out (Returned (or_moved (wr_written w) (- EFAULT))))
  | WFull =>
      if wr_nonblock w then Ok (Stretch p true out (Returned (wr_written w)))
      else Ok (write_sleep p true out (Wr (wr_nonblock w) (wr_src w) (wr_written w) true))
  end.

(** The space the call waits for. *)
Definition wanted (w : writing) : Z :=
  if wr_started w then 1 else if wr_count w <=? PIPE_BUF then wr_count w else 1.

(** [pipe_write], once the semaphore is held. *)
Definition pipe_write (fuel : nat) (p : pipe) (w : writing) : outcome (stretch writing) :=
  if wr_count w =? 0 then Ok (Stretch p false [] (Returned 0))
  else if readers p =? 0 then Ok (broken p w)
  else if PIPE_FREE p <? wanted w then
    if wr_nonblock w then Ok (Stretch p false [] (Returned (- EAGAIN)))
    else Ok (write_sleep p false [] w)
  else write_data fuel p w.

(** After [pipe_wait], in the loop that waits for space before anything is
    written or in the one that waits for more. *)
Definition pipe_write_wake (fuel : nat) (signal : bool) (p : pipe) (w : writing)
    : outcome (stretch writing) :=
  let p := set_waiting (waiting_readers p) (u32 (waiting_writers p - 1)) p in
  if signal then
    Ok (Stretch p false [] (Returned (or_moved (wr_written w) (if wr_started w then 0 else - ERESTARTSYS))))
  else if readers p =? 0 then Ok (broken p w)
  else if PIPE_FREE p <? wanted w then Ok (write_sleep p (wr_started w) [] w)
  else write_data fuel p w.

(** ** Polling, opening and closing *)

Definition POLLIN : Z := 1.
Definition POLLOUT : Z := 4.
Definition POLLERR : Z := 8.
Definition POLLHUP : Z := 16.
Definition POLLRDNORM : Z := 64.
Definition POLLWRNORM : Z := POLLOUT.

(** [version]: the [f_version] of the open file. *)
Definition pipe_poll (version : Z) (p : pipe) : Z :=
  let mask := Z.lor POLLIN POLLRDNORM in
  let mask := if len p =? 0 then Z.lor POLLOUT POLLWRNORM else mask in
  let mask := if (writers p =? 0) && negb (version =? w_counter p) then Z.lor mask POLLHUP else mask in
  if readers p =? 0 then Z.lor mask POLLERR else mask.

(** The pipe is freed ([None]) with its last user; others are woken. *)
Definition pipe_release (decr decw : Z) (p : pipe) : option pipe :=
  let p := set_users (u32 (readers p - decr)) (u32 (writers p - decw)) (r_counter p) (w_counter p) p in
  if (readers p =? 0) && (writers p =? 0) then None else Some p.

Definition pipe_read_open (p : pipe) : pipe :=
  set_users (u32 (readers p + 1)) (writers p) (r_counter p) (w_counter p) p.
Definition pipe_write_open (p : pipe) : pipe :=
  set_users (readers p) (u32 (writers p + 1)) (r_counter p) (w_counter p) p.
Definition pipe_rdwr_open (mode : Z) (p : pipe) : pipe :=
  let p := if c_true (Z.land mode 1) then pipe_read_open p else p in
  if c_true (Z.land mode 2) then pipe_write_open p else p.

(** [pipe_new]: the page is what the allocator returned. *)
Definition pipe_new (pg : Z → Z) : pipe := Pipe pg 0 0 0 0 0 0 1 1.

(** [get_pipe_inode]: one reader and one writer. *)
Definition get_pipe_inode (pg : Z → Z) : pipe :=
  let p := pipe_new pg in set_users 1 1 (r_counter p) (w_counter p) p.

(** *** [fifo_open] *)

(** An open returns with the [f_version] of the file, fails, or waits until the
    counter of its partner differs from [cur]. *)
Inductive opening :=
| Opened (version : Z)
| OpenError (ret : Z)
| WaitsFor (cur : Z).

Record open_result := OpenResult { op_pipe : option pipe; op_woke : bool; op_end : opening }.

(** [err:], the pipe goes with its last user. *)
Definition open_err (ret : Z) (woke : bool) (p : pipe) : open_result :=
  OpenResult (if (readers p =? 0) && (writers p =? 0) then None else Some p) woke (OpenError ret).

(** [fifo_open] with the semaphore held; [pg] is the page for a new pipe. *)
Definition fifo_open (mode : Z) (nonblock : bool) (pg : option (Z → Z)) (p : option pipe) : open_result :=
  match p, pg with
  | None, None => OpenResult None false (OpenError (- ENOMEM))
  | _, _ =>
      let p := match p with Some p => p | None => pipe_new (default (λ _, 0) pg) end in
      if mode =? 1 then
        let woke := readers p =? 0 in
        let p := set_users (u32 (readers p + 1)) (writers p) (u32 (r_counter p + 1)) (w_counter p) p in
        if writers p =? 0 then
          if nonblock then OpenResult (Some p) woke (Opened (w_counter p))
          else OpenResult (Some p) woke (WaitsFor (w_counter p))
        else OpenResult (Some p) woke (Opened 0)
      else if mode =? 2 then
        if nonblock && (readers p =? 0) then open_err (- ENXIO) false p else
        let woke := writers p =? 0 in
        let p := set_users (readers p) (u32 (writers p + 1)) (r_counter p) (u32 (w_counter p + 1)) p in
        if readers p =? 0 then OpenResult (Some p) woke (WaitsFor (r_counter p))
        else OpenResult (Some p) woke (Opened 0)
      else if mode =? 3 then
        let p := set_users (u32 (readers p + 1)) (u32 (writers p + 1))
                   (u32 (r_counter p + 1)) (u32 (w_counter p + 1)) p in
        OpenResult (Some p) ((readers p =? 1) || (writers p =? 1)) (Opened 0)
      else open_err (- EINVAL) false p
  end.

(** After [pipe_wait] in [wait_for_partner]. *)
Definition fifo_open_wake (mode cur : Z) (signal : bool) (p : pipe) : open_result :=
  if signal then
    if mode =? 1 then
      let p := set_users (u32 (readers p - 1)) (writers p) (r_counter p) (w_counter p) p in
      open_err (- ERESTARTSYS) (readers p =? 0) p
    else
      let p := set_users (readers p) (u32 (writers p - 1)) (r_counter p) (w_counter p) p in
      open_err (- ERESTARTSYS) (writers p =? 0) p
  else if cur =? (if mode =? 1 then w_counter p else r_counter p)
  then OpenResult (Some p) false (WaitsFor cur)
  else OpenResult (Some p) false (Opened 0).

(** ** The bytes in the pipe *)

Definition contents (p : pipe) : list Z :=
  (λ i, page p ((start p + i) mod PIPE_SIZE)) <$> seqZ 0 (len p).

Definition pipe_ok (p : pipe) : Prop := 0 <= start p < PIPE_SIZE ∧ 0 <= len p <= PIPE_SIZE.

Lemma land_page z : Z.land z (PIPE_SIZE - 1) = z mod PIPE_SIZE.
Proof. change (PIPE_SIZE - 1) with (Z.ones 12). by rewrite Z.land_ones by lia. Qed.

Lemma contents_length p : pipe_ok p → zlen (contents p) = len p.
Proof. intros [_ H]. unfold zlen, contents. rewrite length_fmap, length_seqZ. lia. Qed.

Lemma seqZ_shift n m : seqZ n m = Z.add n <$> seqZ 0 m.
Proof. rewrite fmap_add_seqZ. f_equal. lia. Qed.

(** Reading a piece that does not run over the end of the page. *)
Lemma contents_read p chars :
  pipe_ok p → 0 <= chars <= len p → start p + chars <= PIPE_SIZE →
  contents p = bytes_of (page p) (start p) chars ++
    contents (set_data (page p) (Z.land (start p + chars) (PIPE_SIZE - 1)) (len p - chars) p).
Proof.
  intros [Hs Hl] Hc He. unfold contents, bytes_of, PIPE_SIZE in *. cbn [set_data start len page].
  replace (len p) with (chars + (len p - chars)) at 1 by lia.
  rewrite seqZ_app, fmap_app by lia. f_equal.
  - rewrite (seqZ_shift (start p)), <- list_fmap_compose. apply list_fmap_ext.
    intros i x Hx. apply lookup_seqZ in Hx. simpl. f_equal. rewrite Z.mod_small; lia.
  - rewrite (seqZ_shift (0 + chars)), <- list_fmap_compose. apply list_fmap_ext. intros i x _. simpl.
    change 4095 with (PIPE_SIZE - 1). rewrite land_page. unfold PIPE_SIZE.
    rewrite Zplus_mod_idemp_l. do 2 f_equal. lia.
Qed.

Lemma list_seqZ (l : list Z) : (λ k, l !!! Z.to_nat k) <$> seqZ 0 (zlen l) = l.
Proof.
  apply list_eq. intros i. rewrite list_lookup_fmap. destruct (decide (i < length l)%nat) as [Hi|Hi].
  - rewrite (proj2 (lookup_seqZ 0 (zlen l) i (Z.of_nat i))) by (unfold zlen; lia). simpl.
    rewrite Nat2Z.id. symmetry. by apply list_lookup_lookup_total_lt.
  - rewrite lookup_seqZ_ge by (unfold zlen; lia). simpl. symmetry. apply lookup_ge_None. lia.
Qed.

Lemma mod_page z :
  0 <= z < 2 * PIPE_SIZE →
  z mod PIPE_SIZE = z ∧ z < PIPE_SIZE ∨ z mod PIPE_SIZE = z - PIPE_SIZE ∧ PIPE_SIZE <= z.
Proof.
  intros H. destruct (decide (z < PIPE_SIZE)); [left|right]; (split; [|lia]).
  - apply Z.mod_small. lia.
  - symmetry. apply (Z.mod_unique _ _ 1); lia.
Qed.

(** Writing a piece into the free part: what is there stays, *)
Lemma contents_put p l :
  pipe_ok p → zlen l <= PIPE_FREE p → PIPE_END p + zlen l <= PIPE_SIZE →
  contents (set_data (put_bytes (page p) (PIPE_END p) l) (start p) (len p) p) = contents p.
Proof.
  unfold PIPE_END, PIPE_FREE. rewrite land_page. intros [Hs Hl] Hf He.
  pose proof (Z.mod_pos_bound (start p + len p) PIPE_SIZE ltac:(done)) as Hb.
  unfold contents, put_bytes. cbn [set_data start len page].
  apply list_fmap_ext. intros i x Hx. apply lookup_seqZ in Hx as [-> Hx]. simpl.
  rewrite Z.add_0_l. set (o := (start p + Z.of_nat i) mod PIPE_SIZE).
  destruct (Z.leb_spec ((start p + len p) mod PIPE_SIZE) o); [|done].
  destruct (Z.ltb_spec o ((start p + len p) mod PIPE_SIZE + zlen l)); [|done]. exfalso. subst o.
  destruct (mod_page (start p + len p)), (mod_page (start p + Z.of_nat i)); lia.
Qed.

(** and once it counts it follows. *)
Lemma contents_write p l :
  pipe_ok p → zlen l <= PIPE_FREE p → PIPE_END p + zlen l <= PIPE_SIZE →
  contents (set_data (put_bytes (page p) (PIPE_END p) l) (start p) (len p + zlen l) p) = contents p ++ l.
Proof.
  intros Hok Hf He. assert (0 <= zlen l) as Hz by (unfold zlen; lia). pose proof Hok as [Hs Hl].
  rewrite <- (contents_put p l) by done. unfold contents. cbn [set_data start len page].
  rewrite seqZ_app, fmap_app by lia. f_equal.
  rewrite (seqZ_shift (0 + len p)), <- list_fmap_compose. etrans; [|apply list_seqZ].
  apply list_fmap_ext. intros i x Hx. apply lookup_seqZ in Hx as [-> Hx]. simpl. rewrite !Z.add_0_l.
  unfold put_bytes, PIPE_END, PIPE_FREE in *. rewrite land_page in *.
  pose proof (Z.mod_pos_bound (start p + len p) PIPE_SIZE ltac:(done)) as Hb.
  assert ((start p + (len p + Z.of_nat i)) mod PIPE_SIZE = (start p + len p) mod PIPE_SIZE + Z.of_nat i) as ->
    by (destruct (mod_page (start p + len p)), (mod_page (start p + (len p + Z.of_nat i))); lia).
  rewrite (proj2 (Z.leb_le _ _)), (proj2 (Z.ltb_lt _ _)) by lia. simpl. f_equal. lia.
Qed.

(** ** What the loops do *)

(** The counters of users are not touched. *)
Definition same_users (p p' : pipe) : Prop :=
  readers p' = readers p ∧ writers p' = writers p ∧
  waiting_readers p' = waiting_readers p ∧ waiting_writers p' = waiting_writers p.

(** A reader has taken the bytes [l] from the front of the pipe. *)
Record took (p : pipe) (r : reading) (p' : pipe) (r' : reading) (l : list Z) : Prop := {
  tk_ok : pipe_ok p';
  tk_contents : contents p = l ++ contents p';
  tk_users : same_users p p';
  tk_nonblock : rd_nonblock r' = rd_nonblock r;
  tk_count : rd_count r' = rd_count r - zlen l ∧ 0 <= rd_count r';
  tk_read : rd_read r' = rd_read r + zlen l;
  tk_room : rd_room r' = rd_room r - zlen l
}.

Lemma took_nothing p r : pipe_ok p → 0 <= rd_count r → took p r p r [].
Proof. intros. constructor; try done; unfold zlen; simpl; try lia. Qed.

Lemma took_trans p r p1 r1 l1 p2 r2 l2 :
  took p r p1 r1 l1 → took p1 r1 p2 r2 l2 → took p r p2 r2 (l1 ++ l2).
Proof.
  intros [A1 A2 (A3 & U1 & U2 & U3) A4 A5 A6 A7] [B1 B2 (B3 & V1 & V2 & V3) B4 B5 B6 B7].
  constructor; try done; rewrite ?zlen_app; try lia.
  - by rewrite A2, B2, app_assoc.
  - repeat split; congruence.
  - congruence.
Qed.

(** One piece. *)
Definition rchunk (p : pipe) (r : reading) : Z :=
  let chars := PIPE_MAX_RCHUNK p in
  let chars := if rd_count r <? chars then rd_count r else chars in
  if len p <? chars then len p else chars.

Lemma rchunk_spec p r :
  pipe_ok p → 0 < rd_count r → 0 < len p →
  rchunk p r = Z.min (Z.min (rd_count r) (len p)) (PIPE_SIZE - start p) ∧ 0 < rchunk p r.
Proof.
  intros [Hs Hl] Hc Hp. unfold rchunk, PIPE_MAX_RCHUNK. zbool; lia.
Qed.

Definition after_chunk (p : pipe) (r : reading) : pipe * reading :=
  let chars := rchunk p r in
  (set_data (page p) (Z.land (start p + chars) (PIPE_SIZE - 1)) (len p - chars) p,
   Rd (rd_nonblock r) (rd_count r - chars) (rd_read r + chars) (rd_room r - chars)).

Lemma took_chunk p r :
  pipe_ok p → 0 < rd_count r → 0 < len p →
  took p r (after_chunk p r).1 (after_chunk p r).2 (bytes_of (page p) (start p) (rchunk p r)).
Proof.
  intros Hok Hc Hp. destruct (rchunk_spec p r Hok Hc Hp) as [E Hpos]. pose proof Hok as [Hs Hl].
  assert (zlen (bytes_of (page p) (start p) (rchunk p r)) = rchunk p r) as Hz.
  { unfold zlen, bytes_of. rewrite length_fmap, length_seqZ. lia. }
  constructor; simpl; try rewrite Hz; try done; try lia.
  - split; simpl; [|lia]. rewrite land_page. by apply Z.mod_pos_bound.
  - apply contents_read; [done|lia|lia].
Qed.

(** How the loop ends: all is read that was asked for or is there, unless the
    user's buffer faults. *)
Definition read_stops (ok : bool) (r r' : reading) (p' : pipe) : Prop :=
  (ok = true → rd_count r' = 0 ∨ len p' = 0) ∧ (rd_count r <= rd_room r → ok = true).

Definition reads (fuel : nat) (p : pipe) (r : reading) (out : list Z) : Prop :=
  ∃ ok p' r' l, read_loop fuel p r out = Ok (ok, p', r', out ++ l) ∧ took p r p' r' l ∧ read_stops ok r r' p'.

Lemma read_loop_step fuel p r out :
  pipe_ok p → 0 <= rd_count r →
  (0 < rd_count r → 0 < len p →
     reads fuel (after_chunk p r).1 (after_chunk p r).2 (out ++ bytes_of (page p) (start p) (rchunk p r))) →
  reads (S fuel) p r out.
Proof.
  intros Hok Hc IH. pose proof Hok as [_ Hl]. unfold reads. cbn [read_loop].
  destruct (Z.eqb_spec (rd_count r) 0); [|destruct (Z.eqb_spec (len p) 0)]; cbn [orb].
  1, 2: exists true, p, r, []; rewrite app_nil_r; split; [done|]; split; [by apply took_nothing|]; split; auto.
  fold (rchunk p r). destruct (copy_to_user r (rchunk p r)) eqn:Ec; cbn [negb].
  - destruct IH as (ok & p' & r' & l & E & Ht & [S1 S2]); [lia|lia|].
    exists ok, p', r', (bytes_of (page p) (start p) (rchunk p r) ++ l). rewrite app_assoc.
    split; [exact E|]. split; [eapply took_trans; [apply took_chunk; lia || done|done]|].
    split; [done|]. intros Hr. apply S2. simpl. lia.
  - exists false, p, r, []. rewrite app_nil_r. split; [done|]. split; [by apply took_nothing|].
    split; [done|]. intros Hr. unfold copy_to_user in Ec. apply Z.leb_gt in Ec.
    destruct (rchunk_spec p r Hok); [lia|lia|]. lia.
Qed.

(** Two pieces are enough: the second one starts at the start of the page. *)
Lemma read_loop_spec fuel p r out :
  pipe_ok p → 0 <= rd_count r → reads (S (S (S fuel))) p r out.
Proof.
  intros Hok Hc. apply read_loop_step; [done|done|]. intros H1 H2.
  destruct (took_chunk p r Hok H1 H2) as [T1 _ _ _ [_ T2] _ _].
  apply read_loop_step; [done|done|]. intros H3 H4.
  destruct (took_chunk _ _ T1 H3 H4) as [T3 _ _ _ [_ T4] _ _].
  apply read_loop_step; [done|done|]. intros H5 H6. exfalso.
  destruct (rchunk_spec p r Hok H1 H2) as [E1 E1'], (rchunk_spec _ _ T1 H3 H4) as [E2 E2'].
  destruct Hok as [Hs Hl]. simpl in *. rewrite land_page in *.
  destruct (mod_page (start p + rchunk p r)) as [[Em Em']|[Em Em']]; [unfold PIPE_SIZE in *; lia|..];
    rewrite Em in *; unfold PIPE_SIZE in *; lia.
Qed.

(** ** The stretches of a read *)

Definition reading_ok (r : reading) : Prop := 0 <= rd_count r ∧ 0 <= rd_read r.

(** The whole buffer of the user can be written. *)
Definition rd_safe (r : reading) : Prop := rd_count r <= rd_room r.

(** What any stretch of a read does: it takes its bytes from the front of the
    pipe, counts them, and sleeps only on an empty pipe that has a writer. *)
Record read_effect (p : pipe) (r : reading) (st : stretch reading) : Prop := {
  re_ok : pipe_ok (st_pipe st);
  re_contents : contents p = st_data st ++ contents (st_pipe st);
  re_users : readers (st_pipe st) = readers p ∧ writers (st_pipe st) = writers p;
  re_woke : rd_safe r → st_data st ≠ [] → st_woke st = true;
  re_end :
    match st_end st with
    | Returned ret => 0 < rd_read r + zlen (st_data st) → ret = rd_read r + zlen (st_data st)
    | Asleep r' =>
        len (st_pipe st) = 0 ∧ writers p ≠ 0 ∧ rd_nonblock r' = false ∧
        rd_count r' = rd_count r - zlen (st_data st) ∧ 0 < rd_count r' ∧
        rd_read r' = rd_read r + zlen (st_data st) ∧ (rd_safe r → rd_safe r')
    end
}.

Lemma or_moved_pos moved ret : 0 < moved → or_moved moved ret = moved.
Proof. intros. unfold or_moved. by destruct (Z.eqb_spec moved 0); [lia|]. Qed.

(** [do_more_read] after the bytes [out] have been taken. *)
Lemma do_more_read_effect p r p1 r1 woke out :
  took p r p1 r1 out → 0 < rd_count r1 → reading_ok r → len p1 = 0 →
  (rd_safe r → out ≠ [] → woke = true) → read_effect p r (do_more_read p1 r1 woke out).
Proof.
  intros [A1 A2 (U1 & U2 & _) A4 [A5 A5'] A6 A7] Hc [_ Hr] Hl Hw. pose proof (zlen_nonneg out).
  unfold do_more_read. destruct (Z.eqb_spec (writers p1) 0); [|destruct (rd_nonblock r1) eqn:En];
    constructor; simpl; try done; try (intros; rewrite A6; apply or_moved_pos; lia).
  rewrite <- U2. unfold rd_safe. split_and!; try done; lia.
Qed.

Lemma read_data_spec fuel p r :
  pipe_ok p → 0 < rd_count r → 0 <= rd_read r → 0 < len p →
  ∃ st, read_data (S (S (S fuel))) p r = Ok st ∧ read_effect p r st ∧
    (rd_safe r → zlen (st_data st) = Z.min (rd_count r) (len p)).
Proof.
  intros Hok Hc Hr Hp. unfold read_data.
  destruct (read_loop_spec fuel p r [] Hok ltac:(lia)) as (ok & p1 & r1 & l & -> & Ht & S1 & S2).
  pose proof Ht as [A1 A2 (U1 & U2 & U3 & U4) A4 [A5 A5'] A6 A7]. pose proof (zlen_nonneg l).
  cbn [mbind outcome_bind app].
  assert (zlen l + len p1 = len p) as Hlen.
  { rewrite <- (contents_length p), A2, zlen_app, contents_length by done. done. }
  destruct ok; simpl.
  2: { eexists. split; [done|]. split; [constructor; simpl; try done|].
       - intros Hs. by specialize (S2 Hs).
       - intros. rewrite A6. apply or_moved_pos. lia.
       - intros Hs. by specialize (S2 Hs). }
  specialize (S1 eq_refl).
  assert (∀ p2, p2 = (if len p1 =? 0 then set_data (page p1) 0 (len p1) p1 else p1) →
    took p r p2 r1 l ∧ len p2 = len p1 ∧ waiting_writers p2 = waiting_writers p1) as Hreset.
  { intros p2 ->. destruct (Z.eqb_spec (len p1) 0) as [E|]; [|done]. split; [|done].
    constructor; simpl; try done.
    - split; [done|]. simpl. apply A1.
    - rewrite A2. f_equal. unfold contents. simpl. by rewrite E. }
  set (p2 := if len p1 =? 0 then _ else _) in *. destruct (Hreset p2 eq_refl) as (Ht2 & El & Ew).
  clearbody p2. rewrite El, Ew.
  destruct (negb (rd_count r1 =? 0) && negb (waiting_writers p1 =? 0) && negb (rd_nonblock r1)) eqn:E.
  - rewrite !andb_true_iff, !negb_true_iff, !Z.eqb_neq in E. destruct E as [[E1 E2] E3].
    destruct S1 as [|S1]; [done|]. rewrite S1. simpl. eexists. split; [done|].
    split; [|simpl; intros _; unfold do_more_read; repeat case_match; simpl; lia].
    assert (len p2 = 0) by lia.
    apply (do_more_read_effect p r p2 r1); try done; [lia|split; lia].
  - eexists. split; [done|]. split; [|simpl; intros _; destruct A1; lia]. destruct Ht2 as [B1 B2 (V1 & V2 & _) _ _ _ _].
    constructor; simpl; try done.
Qed.

Lemma pipe_read_spec fuel p r :
  pipe_ok p → 0 <= rd_count r → rd_read r = 0 →
  ∃ st, pipe_read (S (S (S fuel))) p r = Ok st ∧ read_effect p r st ∧
    (rd_safe r → zlen (st_data st) = Z.min (rd_count r) (len p)).
Proof.
  intros Hok Hc Hr. pose proof Hok as [_ Hl]. unfold pipe_read.
  destruct (Z.eqb_spec (rd_count r) 0) as [E|].
  { eexists. split; [done|]. split; [|intros _; unfold zlen; simpl; lia].
    constructor; simpl; try done. rewrite Hr. done. }
  destruct (Z.eqb_spec (len p) 0) as [El|]; [|apply read_data_spec; lia || done].
  eexists. split; [done|]. split.
  - apply (do_more_read_effect p r p r); try done; [by apply took_nothing|lia|split; lia].
  - intros _. unfold do_more_read, zlen. repeat case_match; simpl; lia.
Qed.

Lemma pipe_read_wake_spec fuel signal p r :
  pipe_ok p → 0 < rd_count r → 0 <= rd_read r → rd_nonblock r = false →
  ∃ st, pipe_read_wake (S (S (S fuel))) signal p r = Ok st ∧ read_effect p r st.
Proof.
  intros Hok Hc Hr Hn. unfold pipe_read_wake.
  set (p1 := set_waiting _ (waiting_writers p) p).
  assert (pipe_ok p1 ∧ contents p1 = contents p ∧ len p1 = len p ∧ readers p1 = readers p ∧ writers p1 = writers p)
    as (A1 & A2 & A3 & A4 & A5) by (split; [exact Hok|by repeat split]).
  clearbody p1. pose proof A1 as [_ Hl]. destruct signal.
  { eexists. split; [done|]. constructor; simpl; try done.
    intros. rewrite or_moved_pos; unfold zlen in *; simpl in *; lia. }
  destruct (Z.eqb_spec (len p1) 0) as [El|El]; simpl.
  2: { destruct (read_data_spec fuel p1 r) as (st & -> & [B1 B2 [B3 B3'] B4 B5] & _); try done; [lia|].
       exists st. split; [done|]. constructor; try done; [congruence|split; congruence|].
       destruct (st_end st); [done|]. by rewrite <- A5. }
  destruct (Z.eqb_spec (writers p1) 0) as [Ew|Ew]; (eexists; split; [done|]); constructor; simpl; try done.
  - intros. rewrite or_moved_pos; unfold zlen in *; simpl in *; lia.
  - unfold zlen. simpl. split_and!; try done; lia || congruence.
Qed.

(** ** The loop of a write *)

(** A writer has appended the bytes [l]. *)
Record gave (p : pipe) (w : writing) (p' : pipe) (w' : writing) (l : list Z) : Prop := {
  gv_ok : pipe_ok p';
  gv_contents : contents p' = contents p ++ l;
  gv_users : same_users p p';
  gv_src : wr_src w = (Some <$> l) ++ wr_src w';
  gv_written : wr_written w' = wr_written w + zlen l;
  gv_flags : wr_nonblock w' = wr_nonblock w ∧ wr_started w' = wr_started w
}.

Lemma gave_nothing p w : pipe_ok p → gave p w p w [].
Proof. intros. constructor; try done; rewrite ?app_nil_r; unfold zlen; simpl; try lia; done. Qed.

Lemma gave_trans p w p1 w1 l1 p2 w2 l2 :
  gave p w p1 w1 l1 → gave p1 w1 p2 w2 l2 → gave p w p2 w2 (l1 ++ l2).
Proof.
  intros [A1 A2 (A3 & U1 & U2 & U3) A4 A5 [A6 A7]] [B1 B2 (B3 & V1 & V2 & V3) B4 B5 [B6 B7]].
  constructor; try done.
  - by rewrite B2, A2, app_assoc.
  - repeat split; congruence.
  - by rewrite A4, B4, fmap_app, app_assoc.
  - rewrite zlen_app. lia.
  - split; congruence.
Qed.

Definition wchunk (p : pipe) (w : writing) : Z :=
  let chars := PIPE_MAX_WCHUNK p in
  let chars := if wr_count w <? chars then wr_count w else chars in
  if PIPE_FREE p <? chars then PIPE_FREE p else chars.

Lemma wchunk_spec p w :
  pipe_ok p → 0 < wr_count w → 0 < PIPE_FREE p →
  wchunk p w = Z.min (Z.min (wr_count w) (PIPE_FREE p)) (PIPE_SIZE - PIPE_END p) ∧ 0 < wchunk p w.
Proof.
  intros [Hs Hl] Hc Hp. unfold wchunk, PIPE_MAX_WCHUNK, PIPE_END. rewrite land_page.
  pose proof (Z.mod_pos_bound (start p + len p) PIPE_SIZE ltac:(done)). zbool; lia.
Qed.

Definition after_wchunk (p : pipe) (w : writing) : pipe * writing :=
  let chars := wchunk p w in
  (set_data (put_bytes (page p) (PIPE_END p) (copy_from_user (wr_src w) chars).2) (start p) (len p + chars) p,
   Wr (wr_nonblock w) (drop (Z.to_nat chars) (wr_src w)) (wr_written w + chars) (wr_started w)).

Lemma copy_from_user_length src n : 0 <= n <= zlen src → zlen (copy_from_user src n).2 = n.
Proof. unfold zlen. simpl. intros. rewrite length_fmap, length_take. lia. Qed.

Lemma copy_from_user_some src n :
  (copy_from_user src n).1 = true → Some <$> (copy_from_user src n).2 = take (Z.to_nat n) src.
Proof.
  simpl. generalize (take (Z.to_nat n) src). intros l. induction l as [|b l IH]; simpl; [done|].
  intros [H1%bool_decide_eq_true H2]%andb_prop. destruct H1 as [x ->]. simpl. f_equal. auto.
Qed.

Lemma gave_chunk p w :
  pipe_ok p → 0 < wr_count w → 0 < PIPE_FREE p → (copy_from_user (wr_src w) (wchunk p w)).1 = true →
  gave p w (after_wchunk p w).1 (after_wchunk p w).2 (copy_from_user (wr_src w) (wchunk p w)).2.
Proof.
  intros Hok Hc Hp Hcopy. destruct (wchunk_spec p w Hok Hc Hp) as [E Hpos].
  assert (zlen (copy_from_user (wr_src w) (wchunk p w)).2 = wchunk p w) as Hz.
  { apply copy_from_user_length. unfold wr_count in *. lia. }
  pose proof Hok as [Hs Hl]. unfold PIPE_FREE in *. unfold after_wchunk.
  set (bytes := (copy_from_user (wr_src w) (wchunk p w)).2) in *.
  constructor; cbn [fst snd wr_src wr_written wr_nonblock wr_started]; try done.
  - split; simpl; lia.
  - rewrite <- Hz at 1. apply contents_write; unfold PIPE_FREE; lia || done.
  - unfold bytes. rewrite copy_from_user_some by done. by rewrite take_drop.
  - by rewrite Hz.
Qed.

(** The whole buffer of the user can be read. *)
Definition wr_safe (w : writing) : Prop := Forall is_Some (wr_src w).

Definition write_stops (stop : write_stop) (w w' : writing) (p' : pipe) : Prop :=
  match stop with
  | WDone => wr_src w' = []
  | WFull => PIPE_FREE p' = 0 ∧ 0 < wr_count w'
  | WFault => ¬ wr_safe w
  end.

Definition writes (fuel : nat) (p : pipe) (w : writing) (out : list Z) : Prop :=
  ∃ stop p' w' l, write_loop fuel p w out = Ok (stop, p', w', out ++ l) ∧ gave p w p' w' l ∧
    write_stops stop w w' p'.

Lemma copy_faults w n : (copy_from_user (wr_src w) n).1 = false → ¬ wr_safe w.
Proof.
  simpl. intros H Hs. apply not_true_iff_false in H. apply H, List.forallb_forall. intros b Hb.
  apply bool_decide_eq_true. apply list_elem_of_In, list_elem_of_lookup in Hb as [i Hb].
  apply lookup_take_Some in Hb as [Hb _]. unfold wr_safe in Hs. rewrite Forall_lookup in Hs. by eapply Hs.
Qed.

Lemma write_loop_step fuel p w out :
  pipe_ok p →
  (0 < wr_count w → 0 < PIPE_FREE p → (copy_from_user (wr_src w) (wchunk p w)).1 = true →
     writes fuel (after_wchunk p w).1 (after_wchunk p w).2 (out ++ (copy_from_user (wr_src w) (wchunk p w)).2)) →
  writes (S fuel) p w out.
Proof.
  intros Hok IH. pose proof Hok as [_ Hl]. unfold writes. cbn [write_loop].
  assert (0 <= wr_count w) as Hc by (unfold wr_count, zlen; lia).
  destruct (Z.eqb_spec (wr_count w) 0) as [E|E].
  { exists WDone, p, w, []. rewrite app_nil_r. split; [done|]. split; [by apply gave_nothing|].
    unfold wr_count, zlen in E. apply nil_length_inv. lia. }
  destruct (Z.eqb_spec (PIPE_FREE p) 0) as [Ef|Ef].
  { exists WFull, p, w, []. rewrite app_nil_r. split; [done|]. split; [by apply gave_nothing|].
    split; [done|lia]. }
  fold (wchunk p w). assert (0 < PIPE_FREE p) as Hf by (unfold PIPE_FREE in *; lia).
  destruct (wchunk_spec p w Hok ltac:(lia) Hf) as [Ew Hpos].
  destruct (copy_from_user (wr_src w) (wchunk p w)) as [ok bytes] eqn:Ec.
  assert ((copy_from_user (wr_src w) (wchunk p w)).2 = bytes ∧ (copy_from_user (wr_src w) (wchunk p w)).1 = ok)
    as [E2 E1] by (by rewrite Ec).
  assert (zlen bytes = wchunk p w) as Hz.
  { rewrite <- E2. apply copy_from_user_length. unfold wr_count in *. lia. }
  destruct ok; cbn [negb].
  - destruct IH as (stop & p' & w' & l & H1 & H2 & H3); [lia|done|done|].
    exists stop, p', w', (bytes ++ l). rewrite app_assoc.
    unfold after_wchunk in H1. rewrite Ec in H1. split; [exact H1|].
    pose proof (gave_chunk p w Hok ltac:(lia) Hf E1) as Hg. rewrite Ec in Hg.
    split; [by eapply gave_trans|]. destruct stop; [done|..|done].
    intros Hs. apply H3. unfold wr_safe in *. simpl. by apply Forall_drop.
  - exists WFault, (set_data (put_bytes (page p) (PIPE_END p) bytes) (start p) (len p) p), w, [].
    rewrite app_nil_r. split; [done|]. split; [|by apply (copy_faults w (wchunk p w))].
    constructor; simpl; try done; [|unfold zlen; simpl; lia]. rewrite app_nil_r.
    apply contents_put; [done|unfold PIPE_FREE in *; lia|lia].
Qed.

Lemma write_loop_spec fuel p w out : pipe_ok p → writes (S (S (S fuel))) p w out.
Proof.
  intros Hok. apply write_loop_step; [done|]. intros H1 H2 C1.
  destruct (gave_chunk p w Hok H1 H2 C1) as [T1 _ _ _ _ _].
  apply write_loop_step; [done|]. intros H3 H4 C2.
  destruct (gave_chunk _ _ T1 H3 H4 C2) as [T2 _ _ _ _ _].
  apply write_loop_step; [done|]. intros H5 H6 _. exfalso.
  destruct (wchunk_spec p w Hok H1 H2) as [E1 E1'], (wchunk_spec _ _ T1 H3 H4) as [E2 E2'].
  assert (wr_count (after_wchunk p w).2 = wr_count w - wchunk p w) as K1.
  { unfold wr_count, zlen, after_wchunk in *. simpl. rewrite length_drop. lia. }
  assert (wr_count (after_wchunk (after_wchunk p w).1 (after_wchunk p w).2).2 =
    wr_count (after_wchunk p w).2 - wchunk (after_wchunk p w).1 (after_wchunk p w).2) as K2.
  { unfold after_wchunk at 1. unfold wr_count, zlen in *. simpl in *. rewrite length_drop. lia. }
  destruct Hok as [Hs Hl]. rewrite K2, K1 in H5. rewrite K1 in E2.
  assert (PIPE_END (after_wchunk p w).1 = (PIPE_END p + wchunk p w) mod PIPE_SIZE) as K3.
  { unfold PIPE_END. rewrite !land_page. simpl. rewrite Zplus_mod_idemp_l. f_equal. lia. }
  assert (0 <= PIPE_END p < PIPE_SIZE) as K4 by (unfold PIPE_END; rewrite land_page; by apply Z.mod_pos_bound).
  destruct (mod_page (PIPE_END p + wchunk p w)) as [[Em Em']|[Em Em']]; [lia|..];
    rewrite K3, Em in E2; unfold PIPE_FREE in *; simpl in *; lia.
Qed.

(** ** The stretches of a write *)

(** What any stretch of a write does: it appends its bytes, counts them, and
    sleeps only when there is less room than it waits for and a reader. *)
Record write_effect (p : pipe) (w : writing) (st : stretch writing) : Prop := {
  we_ok : pipe_ok (st_pipe st);
  we_contents : contents (st_pipe st) = contents p ++ st_data st;
  we_users : readers (st_pipe st) = readers p ∧ writers (st_pipe st) = writers p;
  we_src : ∃ rest, wr_src w = (Some <$> st_data st) ++ rest;
  we_woke : wr_safe w → st_data st ≠ [] → st_woke st = true;
  we_end :
    match st_end st with
    | Returned ret => 0 < wr_written w + zlen (st_data st) → ret = wr_written w + zlen (st_data st)
    | Asleep w' =>
        PIPE_FREE (st_pipe st) < wanted w' ∧ readers p ≠ 0 ∧ wr_nonblock w' = false ∧
        wr_src w = (Some <$> st_data st) ++ wr_src w' ∧ 0 < wr_count w' ∧
        wr_written w' = wr_written w + zlen (st_data st) ∧
        (wr_started w' = false → wr_written w' = wr_written w ∧ st_data st = [])
    end
}.

(** A write of at most PIPE_BUF bytes is atomic: it goes in as a whole. *)
Definition all_or_nothing (w : writing) (l : list Z) : Prop := l = [] ∨ Some <$> l = wr_src w.

Lemma write_data_spec fuel p w :
  pipe_ok p → 0 < wr_count w → 0 <= wr_written w → readers p ≠ 0 →
  ∃ st, write_data (S (S (S fuel))) p w = Ok st ∧ write_effect p w st ∧
    (wr_safe w → wr_count w <= PIPE_FREE p → Some <$> st_data st = wr_src w) ∧
    (wr_safe w → zlen (st_data st) = Z.min (wr_count w) (PIPE_FREE p)).
Proof.
  intros Hok Hc Hw Hrd. unfold write_data.
  destruct (write_loop_spec fuel p w [] Hok) as (stop & p1 & w1 & l & -> & Hg & Hst).
  pose proof Hg as [A1 A2 (U1 & U2 & U3 & U4) A4 A5 [A6 A7]]. pose proof (zlen_nonneg l).
  cbn [mbind outcome_bind app].
  assert (len p1 = len p + zlen l) as Hlen.
  { rewrite <- (contents_length p1), A2, zlen_app, contents_length by done. done. }
  assert (wr_count w = zlen l + wr_count w1) as Hcnt.
  { unfold wr_count, zlen. rewrite A4, length_app, length_fmap. lia. }
  pose proof A1 as [_ Hl1]. pose proof (zlen_nonneg (wr_src w1)) as Hw1. fold (wr_count w1) in Hw1.
  destruct stop; simpl in Hst.
  - eexists. split; [done|]. simpl. rewrite Hst, app_nil_r in A4.
    assert (wr_count w1 = 0) as E0 by (unfold wr_count; by rewrite Hst).
    split; [|split; [done|intros; unfold PIPE_FREE in *; lia]].
    constructor; simpl; try done; [exists []; by rewrite app_nil_r|].
    intros. rewrite A5. by apply or_moved_pos.
  - eexists. split; [done|]. simpl. split; [|split; [intros Hs; by destruct Hst|intros Hs; by destruct Hst]].
    constructor; simpl; try done; [by eexists|].
    intros. rewrite A5. by apply or_moved_pos.
  - destruct Hst as [Hf Hcw]. rewrite A6.
    destruct (wr_nonblock w) eqn:En; (eexists; split; [done|]; simpl; unfold PIPE_FREE in *; split;
      [constructor; simpl; try done; try by eexists|split; [intros; lia|intros; lia]]).
    unfold wanted. simpl. split_and!; try done; unfold PIPE_FREE; simpl; lia.
Qed.

Lemma write_sleep_effect p p0 w woke :
  pipe_ok p → contents p = contents p0 → readers p = readers p0 → writers p = writers p0 →
  PIPE_FREE p < wanted w → readers p ≠ 0 → wr_nonblock w = false → 0 < wr_count w →
  write_effect p0 w (write_sleep p woke [] w).
Proof.
  intros Hok Hct Hr Hw Hf Hrd Hn Hc. constructor; simpl; try done.
  - by rewrite app_nil_r.
  - by exists (wr_src w).
  - rewrite <- Hr. split_and!; try done. unfold zlen. simpl. lia.
Qed.

Lemma broken_effect p p0 w :
  pipe_ok p → contents p = contents p0 → readers p = readers p0 → writers p = writers p0 →
  0 <= wr_written w → write_effect p0 w (broken p w).
Proof.
  intros Hok Hct Hr Hw Hn. constructor; simpl; try done.
  - by rewrite app_nil_r.
  - by exists (wr_src w).
  - unfold zlen. simpl. destruct (Z.eqb_spec (wr_written w) 0); lia.
Qed.

Lemma pipe_write_spec fuel p w :
  pipe_ok p → wr_written w = 0 → wr_started w = false →
  ∃ st, pipe_write (S (S (S fuel))) p w = Ok st ∧ write_effect p w st ∧
    (wr_safe w → wr_count w <= PIPE_BUF → all_or_nothing w (st_data st)).
Proof.
  intros Hok Hw Hs. unfold pipe_write. pose proof (zlen_nonneg (wr_src w)) as Hc. fold (wr_count w) in Hc.
  destruct (Z.eqb_spec (wr_count w) 0) as [E|E].
  { eexists. split; [done|]. split; [|by left]. constructor; simpl; try done.
    - by rewrite app_nil_r.
    - by exists (wr_src w).
    - rewrite Hw. unfold zlen. simpl. lia. }
  destruct (Z.eqb_spec (readers p) 0) as [Er|Er].
  { eexists. split; [done|]. split; [|by left]. apply broken_effect; lia || done. }
  destruct (Z.ltb_spec (PIPE_FREE p) (wanted w)) as [Hf|Hf].
  - destruct (wr_nonblock w) eqn:En; (eexists; split; [done|]; split; [|by left]).
    + constructor; simpl; try done.
      * by rewrite app_nil_r.
      * by exists (wr_src w).
      * rewrite Hw. unfold zlen. simpl. lia.
    + apply write_sleep_effect; lia || done.
  - destruct (write_data_spec fuel p w) as (st & -> & He & Hall & _); [done|lia|lia|done|].
    exists st. split; [done|]. split; [done|]. intros Hsafe Hb. right. apply Hall; [done|].
    unfold wanted in Hf. rewrite Hs in Hf. destruct (Z.leb_spec (wr_count w) PIPE_BUF); lia.
Qed.

Lemma pipe_write_wake_spec fuel signal p w :
  pipe_ok p → 0 < wr_count w → 0 <= wr_written w → wr_nonblock w = false →
  ∃ st, pipe_write_wake (S (S (S fuel))) signal p w = Ok st ∧ write_effect p w st ∧
    (wr_started w = false → wr_safe w → wr_count w <= PIPE_BUF → all_or_nothing w (st_data st)).
Proof.
  intros Hok Hc Hw Hn. unfold pipe_write_wake.
  set (p1 := set_waiting (waiting_readers p) _ p).
  assert (pipe_ok p1 ∧ contents p1 = contents p ∧ PIPE_FREE p1 = PIPE_FREE p ∧
          readers p1 = readers p ∧ writers p1 = writers p)
    as (A1 & A2 & A3 & A4 & A5) by (split; [exact Hok|by repeat split]).
  clearbody p1. destruct signal.
  { eexists. split; [done|]. split; [|by left]. constructor; simpl; try done.
    - by rewrite app_nil_r.
    - by exists (wr_src w).
    - intros. rewrite or_moved_pos; unfold zlen in *; simpl in *; lia. }
  destruct (Z.eqb_spec (readers p1) 0) as [Er|Er].
  { eexists. split; [done|]. split; [|by left]. by apply broken_effect. }
  destruct (Z.ltb_spec (PIPE_FREE p1) (wanted w)) as [Hf|Hf].
  { eexists. split; [done|]. split; [|by left]. by apply write_sleep_effect. }
  destruct (write_data_spec fuel p1 w) as (st & -> & [B1 B2 [B3 B3'] B4 B5 B6] & Hall & _); try done.
  exists st. split; [done|]. split.
  - constructor; try done; [congruence|split; congruence|].
    destruct (st_end st); [done|]. by rewrite <- A4.
  - intros Hs Hsafe Hb. right. apply Hall; [done|].
    unfold wanted in Hf. rewrite Hs in Hf. destruct (Z.leb_spec (wr_count w) PIPE_BUF); lia.
Qed.


