(* ===== verification/PipeSystem.v ===== *)
(** A pipe shared by any number of readers and writers: the calls interleave
    at their sleeps.  The bytes come out in the order in which they went in, and
    nobody sleeps on a pipe that has what he waits for. *)

From S2P Require Import Prelude Errno Pipe.

(** ** The system *)

(** A sleeping call with whether it has been woken. *)
Record system := System {
  sy_pipe : pipe; sy_readers : list (bool * reading); sy_writers : list (bool * writing);
  sy_sent : list Z; sy_received : list Z
}.

(** [wake_up_interruptible] on the queue of the pipe wakes everybody. *)
Definition wake_all {A} (woke : bool) (l : list (bool * A)) : list (bool * A) :=
  (λ x, (woke || x.1, x.2)) <$> l.

Definition goes_to_sleep {A} (e : ending A) (l : list (bool * A)) : list (bool * A) :=
  match e with Returned _ => l | Asleep x => l ++ [(false, x)] end.

(** The system after a stretch of a reader or a writer; [rs], [ws] are the other
    sleeping calls. *)
Definition after_read (s : system) (rs : list (bool * reading)) (st : stretch reading) : system :=
  System (st_pipe st) (goes_to_sleep (st_end st) (wake_all (st_woke st) rs))
    (wake_all (st_woke st) (sy_writers s)) (sy_sent s) (sy_received s ++ st_data st).

Definition after_write (s : system) (ws : list (bool * writing)) (st : stretch writing) : system :=
  System (st_pipe st) (wake_all (st_woke st) (sy_readers s))
    (goes_to_sleep (st_end st) (wake_all (st_woke st) ws)) (sy_sent s ++ st_data st) (sy_received s).

Definition set_pipe (woke : bool) (p : pipe) (s : system) : system :=
  System p (wake_all woke (sy_readers s)) (wake_all woke (sy_writers s)) (sy_sent s) (sy_received s).

(** The rounds of a copying loop: two pieces and the end. *)
Definition copy_rounds : nat := 3.

(** One stretch of a call, an open or a close; a sleeping call goes on once it
    has been woken or has a signal.  Without [faults] every buffer of a user can
    be accessed. *)
Inductive pipe_step (faults : bool) (s : system) : system → Prop :=
| step_read r st :
    0 <= rd_count r → rd_read r = 0 → (faults = false → rd_safe r) →
    pipe_read copy_rounds (sy_pipe s) r = Ok st → pipe_step faults s (after_read s (sy_readers s) st)
| step_read_wake rs1 woken r rs2 signal st :
    sy_readers s = rs1 ++ (woken, r) :: rs2 → woken = true ∨ signal = true →
    pipe_read_wake copy_rounds signal (sy_pipe s) r = Ok st → pipe_step faults s (after_read s (rs1 ++ rs2) st)
| step_write w st :
    wr_written w = 0 → wr_started w = false → (faults = false → wr_safe w) →
    pipe_write copy_rounds (sy_pipe s) w = Ok st → pipe_step faults s (after_write s (sy_writers s) st)
| step_write_wake ws1 woken w ws2 signal st :
    sy_writers s = ws1 ++ (woken, w) :: ws2 → woken = true ∨ signal = true →
    pipe_write_wake copy_rounds signal (sy_pipe s) w = Ok st → pipe_step faults s (after_write s (ws1 ++ ws2) st)
| step_open mode :
    readers (sy_pipe s) < 2 ^ 32 - 1 → writers (sy_pipe s) < 2 ^ 32 - 1 →
    pipe_step faults s (set_pipe false (pipe_rdwr_open mode (sy_pipe s)) s)
| step_release decr decw p :
    pipe_release decr decw (sy_pipe s) = Some p → pipe_step faults s (set_pipe true p s).

Definition new_system (pg : Z → Z) : system := System (get_pipe_inode pg) [] [] [] [].

(** ** Invariants *)

Definition reader_ok (faults : bool) (r : reading) : Prop :=
  0 < rd_count r ∧ 0 <= rd_read r ∧ rd_nonblock r = false ∧ (faults = false → rd_safe r).

Definition writer_ok (faults : bool) (w : writing) : Prop :=
  0 < wr_count w ∧ 0 <= wr_written w ∧ wr_nonblock w = false ∧ (faults = false → wr_safe w).

(** A sleeper that has not been woken has nothing to do. *)
Definition rightly_asleep (s : system) : Prop :=
  Forall (λ x, x.1 = false → len (sy_pipe s) = 0 ∧ writers (sy_pipe s) ≠ 0) (sy_readers s) ∧
  Forall (λ x, x.1 = false → PIPE_FREE (sy_pipe s) < wanted x.2 ∧ readers (sy_pipe s) ≠ 0) (sy_writers s).

Record system_ok (faults : bool) (s : system) : Prop := {
  so_pipe : pipe_ok (sy_pipe s);
  so_users : 0 <= readers (sy_pipe s) ∧ 0 <= writers (sy_pipe s);
  so_fifo : sy_sent s = sy_received s ++ contents (sy_pipe s);
  so_readers : Forall (λ x, reader_ok faults x.2) (sy_readers s);
  so_writers : Forall (λ x, writer_ok faults x.2) (sy_writers s);
  so_asleep : faults = false → rightly_asleep s
}.

Lemma wake_all_calls {A} (P : A → Prop) woke (l : list (bool * A)) :
  Forall (λ x, P x.2) l → Forall (λ x, P x.2) (wake_all woke l).
Proof. intros H. apply Forall_fmap. eapply Forall_impl; [|exact H]. done. Qed.

(** Whoever is still not woken was asleep before, and nothing was moved. *)
Lemma wake_all_asleep {A} (P Q : A → Prop) woke (l : list (bool * A)) :
  Forall (λ x, x.1 = false → P x.2) l → (woke = false → ∀ a, P a → Q a) →
  Forall (λ x, x.1 = false → Q x.2) (wake_all woke l).
Proof.
  intros H HPQ. apply Forall_fmap. eapply Forall_impl; [|exact H]. intros [b a] Hb. simpl in *.
  intros [Hw ->]%orb_false_iff. auto.
Qed.

Lemma wake_all_true {A} (P : bool * A → Prop) (l : list (bool * A)) :
  Forall (λ x, x.1 = false → P x) (wake_all true l).
Proof. apply Forall_fmap, Forall_true. done. Qed.

Lemma goes_to_sleep_all {A} (P : bool * A → Prop) e l :
  Forall P l → (∀ a, e = Asleep a → P (false, a)) → Forall P (goes_to_sleep e l).
Proof. intros Hl He. destruct e as [ret|a]; [done|]. apply Forall_app. split; [done|]. constructor; auto. Qed.

Lemma effect_read_ok faults s rs r st :
  system_ok faults s → Forall (λ x, reader_ok faults x.2) rs →
  (faults = false → Forall (λ x, x.1 = false → len (sy_pipe s) = 0 ∧ writers (sy_pipe s) ≠ 0) rs) →
  0 <= rd_read r → (faults = false → rd_safe r) → read_effect (sy_pipe s) r st →
  system_ok faults (after_read s rs st).
Proof.
  intros [H1 [H2 H2'] H3 H4 H5 H6] Hrs Hras Hr Hsafe [B1 B2 [B3 B3'] B4 B5].
  pose proof (zlen_nonneg (st_data st)) as Hz.
  assert (faults = false → st_woke st = false → st_data st = [] ∧ len (st_pipe st) = len (sy_pipe s)) as Hmoved.
  { intros Hf Hw. assert (st_data st = []) as E.
    { destruct (st_data st); [done|]. by rewrite B4 in Hw by auto. }
    split; [done|]. rewrite E in B2. simpl in B2.
    rewrite <- (contents_length (sy_pipe s)), <- (contents_length (st_pipe st)) by done. by rewrite B2. }
  constructor; simpl; try done.
  - rewrite B3, B3'. done.
  - by rewrite H3, B2, app_assoc.
  - apply goes_to_sleep_all; [by apply wake_all_calls|]. intros r' E. rewrite E in B5.
    destruct B5 as (_ & _ & E1 & E2 & E3 & E4 & E5). split_and!; try done; simpl; [lia|auto].
  - by apply wake_all_calls.
  - intros Hf. specialize (H6 Hf) as [Hr6 Hw6]. specialize (Hmoved Hf). split; simpl.
    + apply goes_to_sleep_all.
      * apply (wake_all_asleep (λ _, len (sy_pipe s) = 0 ∧ writers (sy_pipe s) ≠ 0)
          (λ _, len (st_pipe st) = 0 ∧ writers (st_pipe st) ≠ 0)); [auto|].
        intros Hw _ [K1 K2]. destruct (Hmoved Hw) as [_ ->]. by rewrite B3'.
      * intros r' E _. rewrite E in B5. rewrite B3'. tauto.
    + apply (wake_all_asleep (λ a, PIPE_FREE (sy_pipe s) < wanted a ∧ readers (sy_pipe s) ≠ 0)
        (λ a, PIPE_FREE (st_pipe st) < wanted a ∧ readers (st_pipe st) ≠ 0)); [exact Hw6|]. intros Hw a [K1 K2]. unfold PIPE_FREE in *.
      destruct (Hmoved Hw) as [_ ->]. by rewrite B3.
Qed.

Lemma effect_write_ok faults s ws w st :
  system_ok faults s → Forall (λ x, writer_ok faults x.2) ws →
  (faults = false →
   Forall (λ x, x.1 = false → PIPE_FREE (sy_pipe s) < wanted x.2 ∧ readers (sy_pipe s) ≠ 0) ws) →
  0 <= wr_written w → (faults = false → wr_safe w) → write_effect (sy_pipe s) w st →
  system_ok faults (after_write s ws st).
Proof.
  intros [H1 [H2 H2'] H3 H4 H5 H6] Hws Hwas Hr Hsafe [B1 B2 [B3 B3'] B4 B5 B6].
  pose proof (zlen_nonneg (st_data st)) as Hz.
  assert (faults = false → st_woke st = false → st_data st = [] ∧ len (st_pipe st) = len (sy_pipe s)) as Hmoved.
  { intros Hf Hw. assert (st_data st = []) as E.
    { destruct (st_data st); [done|]. by rewrite B5 in Hw by auto. }
    split; [done|]. rewrite E, app_nil_r in B2.
    rewrite <- (contents_length (sy_pipe s)), <- (contents_length (st_pipe st)) by done. by rewrite B2. }
  constructor; simpl; try done.
  - rewrite B3, B3'. done.
  - by rewrite H3, B2, app_assoc.
  - by apply wake_all_calls.
  - apply goes_to_sleep_all; [by apply wake_all_calls|]. intros w' E. rewrite E in B6.
    destruct B6 as (_ & _ & E1 & E2 & E3 & E4 & _). split_and!; try done; simpl; [lia|].
    intros Hf. specialize (Hsafe Hf). unfold wr_safe in *. rewrite E2 in Hsafe. by apply Forall_app in Hsafe as [_ ?].
  - intros Hf. specialize (H6 Hf) as [Hr6 Hw6]. specialize (Hmoved Hf). split; simpl.
    + apply (wake_all_asleep (λ _, len (sy_pipe s) = 0 ∧ writers (sy_pipe s) ≠ 0)
        (λ _, len (st_pipe st) = 0 ∧ writers (st_pipe st) ≠ 0)); [exact Hr6|].
      intros Hw _ [K1 K2]. destruct (Hmoved Hw) as [_ ->]. by rewrite B3'.
    + apply goes_to_sleep_all.
      * apply (wake_all_asleep (λ a, PIPE_FREE (sy_pipe s) < wanted a ∧ readers (sy_pipe s) ≠ 0)
          (λ a, PIPE_FREE (st_pipe st) < wanted a ∧ readers (st_pipe st) ≠ 0)); [auto|].
        intros Hw a [K1 K2]. unfold PIPE_FREE in *. destruct (Hmoved Hw) as [_ ->]. by rewrite B3.
      * intros w' E _. rewrite E in B6. rewrite B3. simpl. tauto.
Qed.

Lemma Forall_middle {A} (P : A → Prop) l1 x l2 :
  Forall P (l1 ++ x :: l2) → P x ∧ Forall P (l1 ++ l2).
Proof.
  intros [H1 [Hx H2]%Forall_cons_1]%Forall_app. split; [done|]. by apply Forall_app.
Qed.

Lemma pipe_step_ok faults s s' : system_ok faults s → pipe_step faults s s' → system_ok faults s'.
Proof.
  intros Hs Hstep. pose proof Hs as [H1 [H2 H2'] H3 H4 H5 H6].
  destruct Hstep as [r st Hc Hr Hsafe E|rs1 woken r rs2 signal st El Hw E|w st Hw Hst Hsafe E
    |ws1 woken w ws2 signal st El Hw E|mode Hb1 Hb2|decr decw p E].
  - destruct (pipe_read_spec 0 (sy_pipe s) r H1 Hc Hr) as (st' & E' & He & _).
    unfold copy_rounds in E. rewrite E' in E. injection E as ->. eapply effect_read_ok; try done; [|lia]. intros Hf. apply H6, Hf.
  - rewrite El in H4. apply Forall_middle in H4 as [(R1 & R2 & R3 & R4) H4]. simpl in *.
    destruct (pipe_read_wake_spec 0 signal (sy_pipe s) r H1 R1 R2 R3) as (st' & E' & He).
    unfold copy_rounds in E. rewrite E' in E. injection E as ->. eapply effect_read_ok; try done.
    intros Hf. destruct (H6 Hf) as [K _]. rewrite El in K. by apply Forall_middle in K as [_ ?].
  - destruct (pipe_write_spec 0 (sy_pipe s) w H1 Hw Hst) as (st' & E' & He & _).
    unfold copy_rounds in E. rewrite E' in E. injection E as ->. eapply effect_write_ok; try done; [|lia]. intros Hf. apply H6, Hf.
  - rewrite El in H5. apply Forall_middle in H5 as [(R1 & R2 & R3 & R4) H5]. simpl in *.
    destruct (pipe_write_wake_spec 0 signal (sy_pipe s) w H1 R1 R2 R3) as (st' & E' & He & _).
    unfold copy_rounds in E. rewrite E' in E. injection E as ->. eapply effect_write_ok; try done.
    intros Hf. destruct (H6 Hf) as [_ K]. rewrite El in K. by apply Forall_middle in K as [_ ?].
  - set (p := sy_pipe s) in *.
    assert (len (pipe_rdwr_open mode p) = len p ∧ contents (pipe_rdwr_open mode p) = contents p ∧
      pipe_ok (pipe_rdwr_open mode p) ∧ readers p <= readers (pipe_rdwr_open mode p) ∧
      writers p <= writers (pipe_rdwr_open mode p)) as (A1 & A2 & A3 & A4 & A5).
    { unfold pipe_rdwr_open, pipe_read_open, pipe_write_open.
      destruct (c_true (Z.land mode 1)), (c_true (Z.land mode 2)); simpl; rewrite ?wrap_small by lia;
        (split; [done|split; [done|split; [done|lia]]]). }
    constructor; simpl; try done; [lia|by rewrite A2|by apply wake_all_calls|by apply wake_all_calls|].
    intros Hf. destruct (H6 Hf) as [K1 K2]. split; simpl.
    + apply (wake_all_asleep (λ _, len p = 0 ∧ writers p ≠ 0)
        (λ _, len (pipe_rdwr_open mode p) = 0 ∧ writers (pipe_rdwr_open mode p) ≠ 0)); [exact K1|]. intros _ _ [? ?].
      rewrite A1. split; [done|lia].
    + apply (wake_all_asleep (λ a, PIPE_FREE p < wanted a ∧ readers p ≠ 0)
        (λ a, PIPE_FREE (pipe_rdwr_open mode p) < wanted a ∧ readers (pipe_rdwr_open mode p) ≠ 0)); [exact K2|].
      intros _ a [? ?]. unfold PIPE_FREE in *.
      rewrite A1. split; [done|lia].
  - unfold pipe_release in E. case_match; [done|]. injection E as <-.
    constructor; simpl; try done.
    + pose proof (wrap_bound 32 (readers (sy_pipe s) - decr)). pose proof (wrap_bound 32 (writers (sy_pipe s) - decw)). lia.
    + by apply wake_all_calls.
    + by apply wake_all_calls.
    + intros Hf. destruct (H6 Hf) as [K1 K2]. split; simpl.
      * by apply wake_all_true.
      * by apply wake_all_true.
Qed.

Lemma new_system_ok faults pg : system_ok faults (new_system pg).
Proof. constructor; simpl; try done. Qed.

Lemma reachable_ok faults pg s : rtc (pipe_step faults) (new_system pg) s → system_ok faults s.
Proof.
  intros Hr. pose proof (new_system_ok faults pg) as H0. induction Hr; eauto using pipe_step_ok.
Qed.

(** C14: A pipe is a queue: over any interleaving of reads, writes, sleeps,
    wake-ups, signals, opens and closes, with buffers that may fault, the bytes
    received so far, in the order in which they were delivered, followed by the
    bytes in the pipe are exactly the bytes sent so far, in the order in which
    they were accepted. *)
Theorem pipe_fifo faults pg s :
  rtc (pipe_step faults) (new_system pg) s →
  sy_sent s = sy_received s ++ contents (sy_pipe s) ∧ zlen (contents (sy_pipe s)) <= PIPE_SIZE.
Proof.
  intros Hr. destruct (reachable_ok _ _ _ Hr) as [H1 _ H3 _ _ _]. split; [done|].
  rewrite contents_length by done. apply H1.
Qed.

(** C16: No wake-up is lost as long as the buffers of the users can be accessed:
    a reader that sleeps without having been woken sees an empty pipe that has a
    writer, a sleeping writer has a reader and less room than its write needs. *)
Theorem pipe_no_lost_wakeup pg s :
  rtc (pipe_step false) (new_system pg) s →
  (∀ r, (false, r) ∈ sy_readers s → len (sy_pipe s) = 0 ∧ writers (sy_pipe s) ≠ 0) ∧
  (∀ w, (false, w) ∈ sy_writers s → PIPE_FREE (sy_pipe s) < wanted w ∧ readers (sy_pipe s) ≠ 0).
Proof.
  intros Hr. destruct (reachable_ok _ _ _ Hr) as [_ _ _ _ _ H6]. destruct (H6 eq_refl) as [K1 K2].
  rewrite Forall_lookup in K1. rewrite Forall_lookup in K2. split.
  - intros r [i Hi]%list_elem_of_lookup. by apply (K1 i _ Hi).
  - intros w [i Hi]%list_elem_of_lookup. by apply (K2 i _ Hi).
Qed.

(** A reader falls asleep on the empty pipe, a writer fills in three bytes, the
    reader takes them, and sleeps no more. *)
Definition sample_reader : reading := Rd false 3 0 3.
Definition sample_writer : writing := Wr false [Some 7; Some 8; Some 9] 0 false.

Definition sample_trace (s1 s2 s3 : system) : Prop :=
  pipe_step false (new_system (λ _, 0)) s1 ∧ pipe_step false s1 s2 ∧ pipe_step false s2 s3 ∧
  (false, sample_reader) ∈ sy_readers s1 ∧ (true, sample_reader) ∈ sy_readers s2 ∧ sy_readers s3 = [].

Lemma sample_run : ∃ s1 s2 s3, sample_trace s1 s2 s3 ∧ sy_received s3 = [7; 8; 9].
Proof.
  destruct (pipe_read copy_rounds (sy_pipe (new_system (λ _, 0))) sample_reader) as [st1|] eqn:E1; [|done].
  set (s1 := after_read (new_system (λ _, 0)) [] st1).
  destruct (pipe_write copy_rounds (sy_pipe s1) sample_writer) as [st2|] eqn:E2;
    [|injection E1 as <-; discriminate].
  set (s2 := after_write s1 [] st2).
  destruct (pipe_read_wake copy_rounds false (sy_pipe s2) sample_reader) as [st3|] eqn:E3.
  2: { exfalso. injection E1 as <-. vm_compute in E2. injection E2 as <-. vm_compute in E3. discriminate. }
  assert (sy_readers s2 = [] ++ (true, sample_reader) :: []) as Er.
  { injection E1 as <-. vm_compute in E2. injection E2 as <-. reflexivity. }
  exists s1, s2, (after_read s2 ([] ++ []) st3). split; [split_and!|].
  - by apply (step_read false (new_system (λ _, 0)) sample_reader).
  - assert (sy_writers s1 = []) as Ew by (injection E1 as <-; reflexivity). unfold s2. rewrite <- Ew.
    apply (step_write false s1 sample_writer); try done. intros _. by repeat constructor.
  - apply (step_read_wake false s2 [] true sample_reader [] false); auto.
  - injection E1 as <-. vm_compute. by left.
  - rewrite Er. by left.
  - injection E1 as <-. vm_compute in E2. injection E2 as <-. vm_compute in E3. injection E3 as <-. reflexivity.
  - injection E1 as <-. vm_compute in E2. injection E2 as <-. vm_compute in E3. injection E3 as <-. reflexivity.
Qed.

Lemma pipe_fifo_witness : ∃ s, rtc (pipe_step false) (new_system (λ _, 0)) s ∧
  sy_received s = [7; 8; 9] ∧ sy_sent s = [7; 8; 9] ++ contents (sy_pipe s).
Proof.
  destruct sample_run as (s1 & s2 & s3 & (H1 & H2 & H3 & _) & Hr).
  assert (rtc (pipe_step false) (new_system (λ _, 0)) s3) as Hs
    by (eapply rtc_l; [exact H1|]; eapply rtc_l; [exact H2|]; by apply rtc_once).
  exists s3. split; [exact Hs|]. split; [exact Hr|].
  destruct (pipe_fifo false _ _ Hs) as [Hf _]. by rewrite Hr in Hf.
Defined.

Lemma pipe_no_lost_wakeup_witness : ∃ s, rtc (pipe_step false) (new_system (λ _, 0)) s ∧
  (false, sample_reader) ∈ sy_readers s ∧ len (sy_pipe s) = 0.
Proof.
  destruct sample_run as (s1 & s2 & s3 & (H1 & _ & _ & Hin & _) & _).
  assert (rtc (pipe_step false) (new_system (λ _, 0)) s1) as Hs by (by apply rtc_once).
  exists s1. split; [exact Hs|]. split; [exact Hin|].
  destruct (pipe_no_lost_wakeup _ _ Hs) as [Hr _]. by apply (Hr sample_reader).
Defined.

(** Where the guarantee ends: a read of a full pipe whose buffer faults after
    the part up to the end of the page frees room without waking the writer that
    waits for it. *)
Lemma fault_loses_wakeup :
  let p := set_data (λ _, 0) 4000 4096 (get_pipe_inode (λ _, 0)) in
  let w := Wr false (replicate 10 (Some 1)) 5000 true in
  ∃ st1 st2, pipe_write_wake copy_rounds false p w = Ok st1 ∧ st_end st1 = Asleep w ∧
    pipe_read copy_rounds (st_pipe st1) (Rd false 200 0 100) = Ok st2 ∧ st_end st2 = Returned 96 ∧
    st_woke st2 = false ∧ wanted w <= PIPE_FREE (st_pipe st2).
Proof. eexists _, _. repeat (split; [vm_compute; reflexivity|]). vm_compute. discriminate. Qed.
