(* ===== verification/Elf2psx.v ===== *)
(** The converter of ELF files to executables of the PlayStation,
    [tools/elf2psx/elf2psx.c].

    A file is the list of its bytes.  [fread] fails when the file is too short;
    writing does not fail, and opening the output is an input of the model.  The
    converter returns its exit status and what is then in the output file, if
    it was opened. *)

From Stdlib Require Import String Ascii.
From S2P Require Import Prelude.

(** ** Files *)

Definition chars (s : string) : list Z := (λ a, Z.of_N (N_of_ascii a)) <$> list_ascii_of_string s.

(** [fseek] to [off] and [fread] of [n] bytes as one item. *)
Definition fread_at (f : list Z) (off n : Z) : option (list Z) :=
  if (0 <? n) && (off + n <=? zlen f) then Some (take (Z.to_nat n) (drop (Z.to_nat off) f)) else None.

(** [fseek] to [off] and [fwrite]; a gap is filled with zeros. *)
Definition fwrite_at (f : list Z) (off : Z) (l : list Z) : list Z :=
  take (Z.to_nat off) (f ++ replicate (Z.to_nat off) 0) ++ l ++ drop (Z.to_nat off + length l) f.

(** Little-endian fields of a packed structure. *)
Definition byte_at (l : list Z) (o : Z) : Z := l !!! Z.to_nat o.
Definition le16 (l : list Z) (o : Z) : Z := byte_at l o + 256 * byte_at l (o + 1).
Definition le32 (l : list Z) (o : Z) : Z := le16 l o + 65536 * le16 l (o + 2).

Definition put16 (v : Z) : list Z := [u8 v; u8 (Z.shiftr v 8)].
Definition put32 (v : Z) : list Z := put16 v ++ put16 (Z.shiftr v 16).

(** ** Headers *)

Record elf_header := ElfHeader {
  e_magic : list Z; bitness : Z; endianness : Z; elf_type : Z; cpu_type : Z; entry_point : Z;
  phdr_offs : Z; phdr_ent_size : Z; phdr_ent_count : Z
}.

Definition ehdr_size : Z := 52.
Definition read_ehdr (l : list Z) : elf_header :=
  ElfHeader (take 4 l) (byte_at l 4) (byte_at l 5) (le16 l 16) (le16 l 18) (le32 l 24)
    (le32 l 28) (le16 l 42) (le16 l 44).

Record elf_program_header := Phdr { p_type : Z; p_offset : Z; p_vaddr : Z; p_filesz : Z }.

Definition PT_LOAD : Z := 1.
Definition phdr_size : Z := 32.
Definition read_phdr (l : list Z) : elf_program_header :=
  Phdr (le32 l 0) (le32 l 4) (le32 l 8) (le32 l 16).

(** The table: [n] entries. *)
Fixpoint read_phdrs (n : nat) (l : list Z) : list elf_program_header :=
  match n with
  | O => []
  | S n => read_phdr (take 32 l) :: read_phdrs n (drop 32 l)
  end.

Inductive region_t := REGION_NTSC_JAPAN | REGION_NTSC_NORTH_AMERICA | REGION_PAL.

Definition region_flag (s : list Z) : option region_t :=
  if decide (s = chars "-j") then Some REGION_NTSC_JAPAN
  else if decide (s = chars "-n") then Some REGION_NTSC_NORTH_AMERICA
  else if decide (s = chars "-p") then Some REGION_PAL else None.

Definition marker (r : region_t) : list Z :=
  match r with
  | REGION_NTSC_JAPAN => chars "Sony Computer Entertainment Inc. for Japan area"
  | REGION_NTSC_NORTH_AMERICA => chars "Sony Computer Entertainment Inc. for North America area"
  | REGION_PAL => chars "Sony Computer Entertainment Inc. for Europe area"
  end.

(** [strncpy] into the cleared field. *)
Definition padded (n : Z) (l : list Z) : list Z := take (Z.to_nat n) (l ++ replicate (Z.to_nat n) 0).

(** [struct psx_header] as it is written. *)
Definition psx_header (r : region_t) (pc ftext filesz : Z) : list Z :=
  chars "PS-X EXE" ++ replicate 8 0 ++ put32 pc ++ put32 0 ++ put32 ftext ++ put32 filesz ++
  replicate 8 0 ++ put32 0 ++ put32 0 ++ put32 0x801FFFF0 ++ put32 0 ++ replicate 20 0 ++
  padded (0x800 - 0x4C) (marker r).

(** ** The conversion *)

Definition is_load (p : elf_program_header) : bool := (p_type p =? PT_LOAD) && (0 <? p_filesz p).

(** Start and end of the program. *)
Fixpoint find_range (l : list elf_program_header) (ftext edata : Z) : Z * Z :=
  match l with
  | [] => (ftext, edata)
  | p :: l =>
      if is_load p then
        let ftext := if p_vaddr p <? ftext then p_vaddr p else ftext in
        let edata := if edata <? u32 (p_vaddr p + p_filesz p) then u32 (p_vaddr p + p_filesz p) else edata in
        find_range l ftext edata
      else find_range l ftext edata
  end.

(** [n] rounds of the zero-filling loop. *)
Fixpoint zero_fill (n : nat) (psx : list Z) : list Z :=
  match n with
  | O => psx
  | S n => zero_fill n (psx ++ replicate 0x800 0)
  end.

(** The copying of the segments: whether it succeeded, and the file. *)
Fixpoint copy_segments (l : list elf_program_header) (elf : list Z) (ftext filesz : Z) (psx : list Z)
    : bool * list Z :=
  match l with
  | [] => (true, psx)
  | p :: l =>
      if negb (p_type p =? PT_LOAD) then copy_segments l elf ftext filesz psx
      else if p_filesz p =? 0 then copy_segments l elf ftext filesz psx
      else
        let addr := u32 (p_vaddr p - ftext) in
        if (filesz <=? addr) || (filesz <? u32 (addr + p_filesz p)) then (false, psx)
        else
          match fread_at elf (p_offset p) (p_filesz p) with
          | None => (false, psx)
          | Some buf => copy_segments l elf ftext filesz (fwrite_at psx (addr + 0x800) buf)
          end
  end.

(** The checks of the header. *)
Definition ehdr_ok (e : elf_header) : bool :=
  bool_decide (e_magic e = [0x7F; 69; 76; 70]) && (bitness e =? 1) && (endianness e =? 1)
  && (phdr_ent_size e =? 0x20) && (cpu_type e =? 8) && (elf_type e =? 2).

Definition align_end (edata : Z) : Z := Z.land (u32 (edata + 0x7FF)) (u32 (Z.lnot 0x7FF)).

(** [main] with the contents of the source file, [None] if it cannot be opened. *)
Definition elf2psx (argc : Z) (flag : list Z) (elf : option (list Z)) (psx_opens : bool) : Z * option (list Z) :=
  if argc <=? 3 then (1, None) else
  match region_flag flag, elf with
  | None, _ | _, None => (1, None)
  | Some region, Some elf =>
      match fread_at elf 0 ehdr_size with
      | None => (1, None)
      | Some l =>
          let ehdr := read_ehdr l in
          if negb (ehdr_ok ehdr) then (1, None) else
          match fread_at elf (phdr_offs ehdr) (phdr_size * phdr_ent_count ehdr) with
          | None => (1, None)
          | Some l =>
              let phdrs := read_phdrs (Z.to_nat (phdr_ent_count ehdr)) l in
              let '(ftext, edata) := find_range phdrs 0xFFFFFFFF 0 in
              if edata <? ftext then (1, None)
              else if 0x80200000 <? edata then (1, None)
              else if negb (Z.land ftext 0x7FF =? 0) then (1, None)
              else if negb psx_opens then (1, None)
              else
                let filesz := u32 (align_end edata - ftext) in
                let psx := psx_header region (entry_point ehdr) ftext filesz in
                let psx := zero_fill (Z.to_nat ((filesz + 0x7FF) / 0x800)) psx in
                let '(ok, psx) := copy_segments phdrs elf ftext filesz psx in
                (if (ok : bool) then 0 else 1, Some psx)
          end
      end
  end.

(** ** The reference: the memory image *)

(** The byte at address [a]: the last segment that covers it counts. *)
Fixpoint image (l : list elf_program_header) (elf : list Z) (a : Z) : option Z :=
  match l with
  | [] => None
  | p :: l =>
      match image l elf a with
      | Some b => Some b
      | None =>
          if is_load p && (p_vaddr p <=? a) && (a <? p_vaddr p + p_filesz p)
          then Some (byte_at elf (p_offset p + (a - p_vaddr p))) else None
      end
  end.

Definition image_byte (l : list elf_program_header) (elf : list Z) (a : Z) : Z := default 0 (image l elf a).

(** A segment can be loaded. *)
Definition segment_ok (elf : list Z) (p : elf_program_header) : bool :=
  negb (is_load p) || (p_vaddr p + p_filesz p <=? 0x80200000) && (p_offset p + p_filesz p <=? zlen elf).

Definition lowest (l : list elf_program_header) : Z :=
  foldr (λ p m, if is_load p then Z.min (p_vaddr p) m else m) 0xFFFFFFFF l.
Definition highest (l : list elf_program_header) : Z :=
  foldr (λ p m, if is_load p then Z.max (p_vaddr p + p_filesz p) m else m) 0 l.

(** The program headers of a file with a valid header. *)
Definition program_headers (elf : list Z) : option (elf_header * list elf_program_header) :=
  if zlen elf <? ehdr_size then None else
  let e := read_ehdr elf in
  let n := phdr_ent_count e in
  if ehdr_ok e && (0 <? n) && (phdr_offs e + 32 * n <=? zlen elf)
  then Some (e, read_phdrs (Z.to_nat n) (drop (Z.to_nat (phdr_offs e)) elf)) else None.

(** The executable: header and image, padded to 2 KB. *)
Definition executable (region : region_t) (elf : list Z) : option (list Z) :=
  '(e, l) ← program_headers elf;
  if forallb (segment_ok elf) l && existsb is_load l && (lowest l mod 0x800 =? 0) then
    let filesz := (highest l + 0x7FF) / 0x800 * 0x800 - lowest l in
    Some (psx_header region (entry_point e) (lowest l) filesz ++
          (image_byte l elf <$> seqZ (lowest l) filesz))
  else None.

(** ** Reading fields *)

Lemma byte_at_take n l o : 0 <= o → (Z.to_nat o < n)%nat → byte_at (take n l) o = byte_at l o.
Proof. intros H1 H2. unfold byte_at. rewrite !list_lookup_total_alt, lookup_take_lt by lia. done. Qed.

Lemma byte_at_byte l o : Forall byte l → byte (byte_at l o).
Proof.
  intros H. unfold byte_at. rewrite list_lookup_total_alt. destruct (l !! Z.to_nat o) as [b|] eqn:E; [|done].
  simpl. rewrite Forall_lookup in H. by eapply H.
Qed.

Lemma le32_range l o : Forall byte l → 0 <= le32 l o < 2 ^ 32.
Proof.
  intros H. unfold le32, le16. pose proof (byte_at_byte l o H). pose proof (byte_at_byte l (o + 1) H).
  pose proof (byte_at_byte l (o + 2) H). pose proof (byte_at_byte l (o + 2 + 1) H). unfold byte in *. lia.
Qed.

Lemma le16_range l o : Forall byte l → 0 <= le16 l o < 2 ^ 16.
Proof.
  intros H. unfold le16. pose proof (byte_at_byte l o H). pose proof (byte_at_byte l (o + 1) H).
  unfold byte in *. lia.
Qed.

Lemma read_ehdr_take l : read_ehdr (take 52 l) = read_ehdr l.
Proof.
  unfold read_ehdr, le32, le16. rewrite !byte_at_take by lia. f_equal. by rewrite take_take.
Qed.

Lemma read_phdr_take n l : (32 <= n)%nat → read_phdr (take n l) = read_phdr l.
Proof. intros Hn. unfold read_phdr, le32, le16. by rewrite !byte_at_take by lia. Qed.

Lemma read_phdrs_take n k l : (32 * n <= k)%nat → read_phdrs n (take k l) = read_phdrs n l.
Proof.
  revert k l. induction n as [|n IH]; intros k l Hk; simpl; [done|]. f_equal.
  - rewrite take_take. by rewrite Nat.min_l by lia.
  - rewrite skipn_firstn_comm. apply IH. lia.
Qed.

(** The fields of a program header are 32-bit numbers. *)
Definition phdr_ok (p : elf_program_header) : Prop :=
  0 <= p_offset p < 2 ^ 32 ∧ 0 <= p_vaddr p < 2 ^ 32 ∧ 0 <= p_filesz p < 2 ^ 32.

Lemma read_phdrs_ok n l : Forall byte l → Forall phdr_ok (read_phdrs n l).
Proof.
  revert l. induction n as [|n IH]; intros l Hl; simpl; constructor.
  - repeat split; apply le32_range; by apply Forall_take.
  - apply IH. by apply Forall_drop.
Qed.

Lemma fread_at_spec f off n l :
  0 <= off → fread_at f off n = Some l →
  0 < n ∧ off + n <= zlen f ∧ l = take (Z.to_nat n) (drop (Z.to_nat off) f).
Proof.
  intros Ho. unfold fread_at. destruct (Z.ltb_spec 0 n), (Z.leb_spec (off + n) (zlen f)); simpl; try done.
  by intros [= <-].
Qed.

(** What is read, byte by byte from address [v] on. *)
Lemma segment_bytes f off n v :
  0 <= off → 0 <= n → off + n <= zlen f →
  take (Z.to_nat n) (drop (Z.to_nat off) f) = (λ a, byte_at f (off + (a - v))) <$> seqZ v n.
Proof.
  intros Ho Hn Hl. unfold zlen in Hl. apply list_eq. intros i. rewrite list_lookup_fmap.
  destruct (decide (Z.of_nat i < n)) as [Hi|Hi].
  - rewrite (proj2 (lookup_seqZ v n i (v + Z.of_nat i))) by lia. simpl.
    rewrite lookup_take_lt, lookup_drop by lia. unfold byte_at.
    replace (Z.to_nat (off + (v + Z.of_nat i - v))) with (Z.to_nat off + i)%nat by lia.
    apply list_lookup_lookup_total_lt. lia.
  - rewrite lookup_seqZ_ge by lia. apply lookup_ge_None. rewrite length_take, length_drop. lia.
Qed.

(** ** The range of the program *)

Definition highest32 (l : list elf_program_header) : Z :=
  foldr (λ p m, if is_load p then Z.max (u32 (p_vaddr p + p_filesz p)) m else m) 0 l.

Lemma find_range_spec l f e :
  f <= 0xFFFFFFFF → 0 <= e → find_range l f e = (Z.min f (lowest l), Z.max e (highest32 l)).
Proof.
  revert f e. induction l as [|p l IH]; intros f e Hf He.
  { simpl. unfold lowest, highest32. simpl. f_equal; lia. }
  cbn [find_range]. unfold lowest, highest32 in *. cbn [foldr].
  destruct (is_load p); [|by apply IH]. pose proof (wrap_bound 32 (p_vaddr p + p_filesz p)).
  rewrite IH by (zbool; lia). f_equal; zbool; lia.
Qed.

Lemma load_positive p : is_load p = true → p_type p = PT_LOAD ∧ 0 < p_filesz p.
Proof. unfold is_load. rewrite andb_true_iff, Z.eqb_eq, Z.ltb_lt. done. Qed.

Lemma lowest_le l p : p ∈ l → is_load p = true → lowest l <= p_vaddr p.
Proof.
  induction l as [|q l IH]; intros Hp Hl; [by apply elem_of_nil in Hp|].
  unfold lowest in *. simpl. apply elem_of_cons in Hp as [<-|Hp]; [rewrite Hl; lia|].
  specialize (IH Hp Hl). destruct (is_load q); lia.
Qed.

Lemma highest_ge l p : p ∈ l → is_load p = true → p_vaddr p + p_filesz p <= highest l.
Proof.
  induction l as [|q l IH]; intros Hp Hl; [by apply elem_of_nil in Hp|].
  unfold highest in *. simpl. apply elem_of_cons in Hp as [<-|Hp]; [rewrite Hl; lia|].
  specialize (IH Hp Hl). destruct (is_load q); lia.
Qed.

Lemma highest_bounds l m : Forall phdr_ok l → 0 <= m →
  Forall (λ p, is_load p = true → p_vaddr p + p_filesz p <= m) l → 0 <= highest l <= m.
Proof.
  intros Hok Hm H. induction H as [|p l Hp Hl IH]; unfold highest in *; simpl; [lia|].
  apply Forall_cons_1 in Hok as [(_ & ? & ?) Hok]. specialize (IH Hok). destruct (is_load p); [|done].
  specialize (Hp eq_refl). lia.
Qed.

Lemma highest32_eq l m : m < 2 ^ 32 → Forall phdr_ok l →
  Forall (λ p, is_load p = true → p_vaddr p + p_filesz p <= m) l → highest32 l = highest l.
Proof.
  intros Hm Hok H. induction H as [|p l Hp Hl IH]; unfold highest, highest32 in *; simpl; [done|].
  apply Forall_cons_1 in Hok as [(_ & ? & ?) Hok]. specialize (IH Hok). destruct (is_load p); [|done].
  specialize (Hp eq_refl). rewrite wrap_small by lia. by rewrite IH.
Qed.

Lemma lowest_range l : Forall phdr_ok l → 0 <= lowest l <= 0xFFFFFFFF.
Proof.
  induction 1 as [|p l (_ & ? & ?) Hl IH]; unfold lowest in *; simpl; [lia|]. destruct (is_load p); lia.
Qed.

Lemma no_load l : existsb is_load l = false → lowest l = 0xFFFFFFFF ∧ highest32 l = 0.
Proof.
  induction l as [|p l IH]; unfold lowest, highest32 in *; simpl; [done|].
  intros [-> H]%orb_false_iff. auto.
Qed.

Lemma low_page z : Z.land z 0x7FF = z mod 0x800.
Proof. change 0x7FF with (Z.ones 11). by rewrite Z.land_ones by lia. Qed.

Lemma align_end_spec z : 0 <= z <= 0x80200000 → align_end z = (z + 0x7FF) / 0x800 * 0x800.
Proof.
  intros Hz. unfold align_end. rewrite wrap_small by lia.
  pose proof (land_align (z + 0x7FF) 11 ltac:(lia) ltac:(lia)) as H. change (2 ^ 11 - 1) with 0x7FF in H.
  rewrite H. change (2 ^ 11) with 0x800. lia.
Qed.

(** Rounding up to 2 KB stays below a limit that is a multiple of it. *)
Lemma round_bounds z m : 0 <= z <= m → (0x800 | m) → z <= (z + 0x7FF) / 0x800 * 0x800 <= m.
Proof.
  intros Hz [k ->]. pose proof (Z.div_mod (z + 0x7FF) 0x800 ltac:(lia)) as E.
  pose proof (Z.mod_pos_bound (z + 0x7FF) 0x800 ltac:(lia)). nia.
Qed.

(** ** Copying the segments *)

Lemma image_snoc l p elf a :
  image (l ++ [p]) elf a =
  if is_load p && (p_vaddr p <=? a) && (a <? p_vaddr p + p_filesz p)
  then Some (byte_at elf (p_offset p + (a - p_vaddr p))) else image l elf a.
Proof.
  induction l as [|q l IH]; simpl.
  - by destruct (is_load p && (p_vaddr p <=? a) && (a <? p_vaddr p + p_filesz p)).
  - rewrite IH. by destruct (is_load p && (p_vaddr p <=? a) && (a <? p_vaddr p + p_filesz p)).
Qed.

(** A write inside the part behind the header. *)
Lemma fwrite_inside h (g g' : Z → Z) v n addr k buf :
  zlen h = 0x800 → 0 <= addr → 0 <= k → addr + k <= n →
  buf = g' <$> seqZ (v + addr) k →
  (∀ a, v <= a < v + addr ∨ v + addr + k <= a < v + n → g' a = g a) →
  fwrite_at (h ++ (g <$> seqZ v n)) (addr + 0x800) buf = h ++ (g' <$> seqZ v n).
Proof.
  intros Hh Ha Hk Hn -> Hg. unfold zlen in Hh. unfold fwrite_at.
  replace (Z.to_nat (addr + 0x800)) with (length h + Z.to_nat addr)%nat by lia.
  rewrite length_fmap, length_seqZ.
  replace n with (addr + (k + (n - addr - k))) by lia.
  rewrite !seqZ_app, !fmap_app by lia.
  assert (∀ o m, (∀ a, o <= a < o + m → g' a = g a) → g' <$> seqZ o m = g <$> seqZ o m) as Hext.
  { intros o m Hom. apply list_fmap_ext. intros i x Hx. apply lookup_seqZ in Hx. apply Hom. lia. }
  rewrite (Hext v addr) by (intros; apply Hg; lia).
  rewrite (Hext (v + addr + k) (n - addr - k)) by (intros; apply Hg; lia).
  set (A := g <$> seqZ v addr). set (B := g <$> seqZ (v + addr) k).
  set (C := g <$> seqZ (v + addr + k) (n - addr - k)). set (B' := g' <$> seqZ (v + addr) k).
  assert (length A = Z.to_nat addr) as HA by (unfold A; by rewrite length_fmap, length_seqZ).
  assert (length B = Z.to_nat k) as HB by (unfold B; by rewrite length_fmap, length_seqZ).
  rewrite <- HA, <- HB.
  rewrite <- !app_assoc, take_app_add, take_app_length, (app_assoc h A), (app_assoc (h ++ A) B).
  rewrite <- !length_app, drop_app_length, <- !app_assoc. done.
Qed.

Section copy.
Variables (elf : list Z) (ftext filesz : Z) (h : list Z).
Hypothesis h_length : zlen h = 0x800.
Hypothesis ftext_range : 0 <= ftext < 2 ^ 32.
Hypothesis filesz_range : 0 <= filesz ∧ ftext + filesz <= 0x80200000.
Hypothesis elf_length : zlen elf <= 0x7FE00000.

Definition psx_of (l : list elf_program_header) : list Z := h ++ (image_byte l elf <$> seqZ ftext filesz).

(** A segment that passes the checks lies in the image. *)
Lemma checked_segment p buf :
  phdr_ok p → ftext <= p_vaddr p →
  (filesz <=? u32 (p_vaddr p - ftext)) || (filesz <? u32 (u32 (p_vaddr p - ftext) + p_filesz p)) = false →
  fread_at elf (p_offset p) (p_filesz p) = Some buf →
  u32 (p_vaddr p - ftext) = p_vaddr p - ftext ∧ p_vaddr p + p_filesz p <= ftext + filesz ∧
  p_offset p + p_filesz p <= zlen elf.
Proof.
  intros (Ho & Hv & Hf) Hlow [H1%Z.leb_gt H2%Z.ltb_ge]%orb_false_iff Hr.
  apply fread_at_spec in Hr as (Hn & Hl & _); [|lia].
  assert (u32 (p_vaddr p - ftext) = p_vaddr p - ftext) as Ea by (apply wrap_small; lia).
  rewrite Ea in H1. rewrite Ea, wrap_small in H2 by lia. split; [done|lia].
Qed.

Lemma copy_one l p buf :
  phdr_ok p → is_load p = true → ftext <= p_vaddr p → p_vaddr p + p_filesz p <= ftext + filesz →
  fread_at elf (p_offset p) (p_filesz p) = Some buf →
  fwrite_at (psx_of l) (p_vaddr p - ftext + 0x800) buf = psx_of (l ++ [p]).
Proof.
  intros (Ho & Hv & Hf) Hload Hlow Hhigh Hr. apply fread_at_spec in Hr as (Hn & Hl & ->); [|lia].
  apply (fwrite_inside h _ _ ftext filesz (p_vaddr p - ftext) (p_filesz p)); try lia.
  - rewrite (segment_bytes elf (p_offset p) (p_filesz p) (p_vaddr p)) by lia.
    replace (ftext + (p_vaddr p - ftext)) with (p_vaddr p) by lia.
    apply list_fmap_ext. intros i a Ha. apply lookup_seqZ in Ha. unfold image_byte. rewrite image_snoc, Hload.
    rewrite (proj2 (Z.leb_le _ _)), (proj2 (Z.ltb_lt _ _)) by lia. done.
  - intros a Ha. unfold image_byte. rewrite image_snoc.
    destruct (Z.leb_spec (p_vaddr p) a), (Z.ltb_spec a (p_vaddr p + p_filesz p));
      rewrite ?andb_false_r; try done. lia.
Qed.

Lemma image_skip l p a : is_load p = false → image (l ++ [p]) elf a = image l elf a.
Proof. intros H. by rewrite image_snoc, H. Qed.

Lemma psx_skip l p : is_load p = false → psx_of (l ++ [p]) = psx_of l.
Proof.
  intros H. unfold psx_of. f_equal. apply list_fmap_ext. intros i a _. unfold image_byte.
  by rewrite image_skip.
Qed.

(** The loop: it ends well exactly if all segments are good, with the image. *)
Lemma copy_segments_spec l1 l :
  Forall phdr_ok l → Forall (λ p, is_load p = true → ftext <= p_vaddr p) l →
  let good := forallb (λ p, negb (is_load p) || (p_vaddr p + p_filesz p <=? ftext + filesz)
                && (p_offset p + p_filesz p <=? zlen elf)) l in
  ∃ psx, copy_segments l elf ftext filesz (psx_of l1) = (good, psx) ∧ (good = true → psx = psx_of (l1 ++ l)).
Proof.
  revert l1. induction l as [|p l IH]; intros l1 Hok Hlow good.
  { exists (psx_of l1). split; [done|]. by rewrite app_nil_r. }
  apply Forall_cons_1 in Hok as [Hp Hok]. apply Forall_cons_1 in Hlow as [Hpl Hlow].
  replace (l1 ++ p :: l) with ((l1 ++ [p]) ++ l) by (by rewrite <- app_assoc).
  unfold good. cbn [forallb copy_segments].
  destruct (is_load p) eqn:El.
  2: { simpl. rewrite <- (psx_skip l1 p El). destruct (IH (l1 ++ [p]) Hok Hlow) as (psx & E & Hg).
       exists psx. split; [|done]. unfold is_load in El. apply andb_false_iff in El.
       destruct (p_type p =? PT_LOAD); simpl; [|done]. destruct (Z.eqb_spec (p_filesz p) 0); [done|].
       destruct El as [|El%Z.ltb_ge]; [done|]. destruct Hp as (_ & _ & ?). lia. }
  destruct (load_positive p El) as [-> Hpos]. rewrite Z.eqb_refl. simpl.
  destruct (Z.eqb_spec (p_filesz p) 0); [lia|]. specialize (Hpl eq_refl).
  destruct (_ || _) eqn:Ec.
  { exists (psx_of l1). destruct (Z.leb_spec (p_vaddr p + p_filesz p) (ftext + filesz)) as [Hle|]; simpl; [|done].
    exfalso. destruct Hp as (? & ? & ?). apply orb_true_iff in Ec. rewrite Z.leb_le, Z.ltb_lt in Ec.
    assert (u32 (p_vaddr p - ftext) = p_vaddr p - ftext) as Ea by (apply wrap_small; lia).
    rewrite Ea, wrap_small in Ec by lia. lia. }
  destruct (fread_at elf (p_offset p) (p_filesz p)) as [buf|] eqn:Er.
  - destruct (checked_segment p buf Hp Hpl Ec Er) as (Ea & H1 & H2). rewrite Ea.
    rewrite (proj2 (Z.leb_le _ _) H1), (proj2 (Z.leb_le _ _) H2). simpl.
    rewrite (copy_one l1 p buf) by done. apply IH; done.
  - exists (psx_of l1). assert ((p_offset p + p_filesz p <=? zlen elf) = false) as ->.
    { unfold fread_at in Er. destruct (Z.ltb_spec 0 (p_filesz p)); [|lia]. simpl in Er.
      by destruct (p_offset p + p_filesz p <=? zlen elf). }
    rewrite andb_false_r. done.
Qed.
End copy.

(** ** The whole conversion *)

Lemma padded_length n l : 0 <= n → length (padded n l) = Z.to_nat n.
Proof. intros Hn. unfold padded. rewrite length_take, length_app, length_replicate. lia. Qed.

Lemma psx_header_length r pc ftext filesz : zlen (psx_header r pc ftext filesz) = 0x800.
Proof.
  unfold psx_header, zlen. rewrite !length_app, padded_length, !length_replicate by lia. reflexivity.
Qed.

Lemma zero_fill_spec n psx : zero_fill n psx = psx ++ replicate (n * 0x800) 0.
Proof.
  revert psx. induction n as [|n IH]; intros psx; cbn [zero_fill]; [by rewrite app_nil_r|].
  rewrite IH, <- app_assoc, <- replicate_add. done.
Qed.

Lemma fmap_zero {A} (l : list A) : (λ _, 0) <$> l = replicate (length l) 0.
Proof. induction l as [|a l IH]; csimpl; [done|]. by rewrite IH. Qed.

Lemma zero_fill_image h elf ftext filesz :
  0 <= filesz → (0x800 | filesz) →
  zero_fill (Z.to_nat ((filesz + 0x7FF) / 0x800)) h = psx_of elf ftext filesz h [].
Proof.
  intros Hn [k ->]. rewrite zero_fill_spec. unfold psx_of, image_byte. simpl.
  rewrite fmap_zero, length_seqZ. do 2 f_equal.
  replace (k * 0x800 + 0x7FF) with (0x7FF + k * 0x800) by lia. rewrite Z.div_add by lia.
  change (0x7FF / 0x800) with 0. lia.
Qed.

(** From the program headers on. *)
Definition convert (region : region_t) (e : elf_header) (phdrs : list elf_program_header) (elf : list Z)
    : Z * option (list Z) :=
  let '(ftext, edata) := find_range phdrs 0xFFFFFFFF 0 in
  if edata <? ftext then (1, None)
  else if 0x80200000 <? edata then (1, None)
  else if negb (Z.land ftext 0x7FF =? 0) then (1, None)
  else
    let filesz := u32 (align_end edata - ftext) in
    let psx := psx_header region (entry_point e) ftext filesz in
    let psx := zero_fill (Z.to_nat ((filesz + 0x7FF) / 0x800)) psx in
    let '(ok, psx) := copy_segments phdrs elf ftext filesz psx in
    (if (ok : bool) then 0 else 1, Some psx).

Lemma fread_ehdr f : fread_at f 0 ehdr_size = if zlen f <? ehdr_size then None else Some (take 52 f).
Proof.
  unfold fread_at, ehdr_size. change (0 <? 52) with true. rewrite drop_0. simpl andb.
  destruct (Z.ltb_spec (zlen f) 52), (Z.leb_spec (0 + 52) (zlen f)); done || lia.
Qed.

Lemma elf2psx_headers argc flag region elf :
  3 < argc → Forall byte elf → region_flag flag = Some region →
  match program_headers elf with
  | Some (e, l) => elf2psx argc flag (Some elf) true = convert region e l elf ∧ Forall phdr_ok l
  | None => (elf2psx argc flag (Some elf) true).1 = 1
  end.
Proof.
  intros Ha%Z.leb_gt Hb Hr. unfold elf2psx, program_headers. rewrite Ha, Hr, fread_ehdr. unfold ehdr_size.
  destruct (zlen elf <? 52); [done|]. rewrite read_ehdr_take. cbv zeta.
  assert (0 <= phdr_ent_count (read_ehdr elf)) as Hn by (by apply le16_range).
  revert Hn. generalize (read_ehdr elf) as e. intros e Hn.
  destruct (ehdr_ok e); simpl; [|done]. unfold fread_at, phdr_size.
  destruct (Z.ltb_spec 0 (phdr_ent_count e)) as [Hp|Hp].
  2: { assert (phdr_ent_count e = 0) as -> by lia. done. }
  rewrite (proj2 (Z.ltb_lt 0 (32 * phdr_ent_count e))) by lia. simpl.
  destruct (phdr_offs e + 32 * phdr_ent_count e <=? zlen elf); [|done].
  rewrite read_phdrs_take by lia. split; [done|]. apply read_phdrs_ok. by apply Forall_drop.
Qed.

Lemma program_headers_entry elf e l : program_headers elf = Some (e, l) → entry_point e = le32 elf 24.
Proof.
  unfold program_headers. destruct (_ <? _); [done|]. cbv zeta. destruct (_ && _); [|done]. by intros [= <- _].
Qed.

Lemma forallb_Forall {A} (P : A → bool) l : forallb P l = true ↔ Forall (λ x, P x = true) l.
Proof.
  induction l as [|x l IH]; simpl; [done|]. rewrite andb_true_iff, IH. split.
  - intros [? ?]. by constructor.
  - by intros [? ?]%Forall_cons_1.
Qed.

Lemma existsb_low l : existsb is_load l = true → Forall phdr_ok l → lowest l <= highest l.
Proof.
  intros (p & Hp%list_elem_of_In & Hl)%List.existsb_exists Hok.
  pose proof (lowest_le l p Hp Hl). pose proof (highest_ge l p Hp Hl).
  apply load_positive in Hl as [_ ?]. lia.
Qed.

(** With all segments loadable. *)
Lemma convert_good region e l elf :
  zlen elf <= 0x7FE00000 → Forall phdr_ok l →
  forallb (segment_ok elf) l = true → existsb is_load l = true → lowest l mod 0x800 = 0 →
  let filesz := (highest l + 0x7FF) / 0x800 * 0x800 - lowest l in
  convert region e l elf =
    (0, Some (psx_header region (entry_point e) (lowest l) filesz ++ (image_byte l elf <$> seqZ (lowest l) filesz)))
  ∧ 0 < filesz < 2 ^ 32 ∧ (0x800 | filesz).
Proof.
  intros Hlen Hok Hgood Hex Hal filesz. apply forallb_Forall in Hgood.
  assert (Forall (λ p, is_load p = true → p_vaddr p + p_filesz p <= 0x80200000) l) as Hend.
  { eapply Forall_impl; [|exact Hgood]. intros p Hp Hl. unfold segment_ok in Hp. rewrite Hl in Hp.
    simpl in Hp. apply andb_prop in Hp as [Hp%Z.leb_le _]. done. }
  pose proof (highest_bounds l 0x80200000 Hok ltac:(lia) Hend) as Hhi.
  pose proof (highest32_eq l 0x80200000 ltac:(lia) Hok Hend) as E32.
  pose proof (existsb_low l Hex Hok) as Hlh. pose proof (lowest_range l Hok) as Hlo.
  destruct (round_bounds (highest l) 0x80200000 Hhi ltac:(by exists 0x100400)) as [R1 R2].
  assert (0 < filesz) as Hpos.
  { apply List.existsb_exists in Hex as (p & Hp%list_elem_of_In & Hl).
    pose proof (lowest_le l p Hp Hl). pose proof (highest_ge l p Hp Hl).
    apply load_positive in Hl as [_ ?]. unfold filesz. lia. }
  assert ((0x800 | filesz)) as Hdiv.
  { apply Z.divide_sub_r; [by apply Z.divide_factor_r|]. by apply Z.mod_divide. }
  split; [|split; [unfold filesz in *; lia|done]].
  unfold convert. rewrite find_range_spec by lia. rewrite E32, Z.min_r, Z.max_r by lia.
  rewrite (proj2 (Z.ltb_ge _ _)), (proj2 (Z.ltb_ge _ _)), low_page, Hal by lia. cbn [negb Z.eqb].
  rewrite align_end_spec, wrap_small by (unfold filesz in *; lia). fold filesz. cbv zeta.
  set (h := psx_header region (entry_point e) (lowest l) filesz).
  rewrite (zero_fill_image h elf (lowest l)) by (lia || done).
  destruct (copy_segments_spec elf (lowest l) filesz h) with (l1 := @nil elf_program_header) (l := l)
    as (psx & -> & Hpsx); try done; try (unfold filesz in *; lia).
  - apply psx_header_length.
  - apply Forall_lookup. intros i p Hp Hl. eapply lowest_le; [by eapply list_elem_of_lookup_2|done].
  - assert (forallb (λ p, negb (is_load p) || (p_vaddr p + p_filesz p <=? lowest l + filesz)
      && (p_offset p + p_filesz p <=? zlen elf)) l = true) as Hall.
    { apply forallb_Forall, Forall_lookup. intros i p Hi. rewrite Forall_lookup in Hgood.
      specialize (Hgood i p Hi). simpl in Hgood. unfold segment_ok in Hgood.
      destruct (is_load p) eqn:El; [|done]. simpl in *. apply andb_prop in Hgood as [_ ->].
      pose proof (highest_ge l p ltac:(by eapply list_elem_of_lookup_2) El).
      rewrite (proj2 (Z.leb_le _ _)); [done|]. unfold filesz. lia. }
    rewrite Hall in *. by rewrite (Hpsx eq_refl).
Qed.

(** The converter succeeds only on such files. *)
Lemma convert_bad region e l elf :
  zlen elf <= 0x7FE00000 → Forall phdr_ok l → (convert region e l elf).1 = 0 →
  forallb (segment_ok elf) l = true ∧ existsb is_load l = true ∧ lowest l mod 0x800 = 0.
Proof.
  intros Hlen Hok. unfold convert. rewrite find_range_spec by lia.
  pose proof (lowest_range l Hok) as Hlo. rewrite Z.min_r by lia.
  set (edata := Z.max 0 (highest32 l)). destruct (Z.ltb_spec edata (lowest l)) as [|H1]; [done|].
  destruct (Z.ltb_spec 0x80200000 edata) as [|H2]; [done|]. rewrite low_page.
  destruct (Z.eqb_spec (lowest l mod 0x800) 0) as [Hal|]; [|done]. simpl.
  destruct (round_bounds edata 0x80200000 ltac:(lia) ltac:(by exists 0x100400)) as [R1 R2].
  rewrite align_end_spec, wrap_small by lia.
  set (filesz := (edata + 0x7FF) / 0x800 * 0x800 - lowest l).
  assert ((0x800 | filesz)) as Hdiv.
  { apply Z.divide_sub_r; [by apply Z.divide_factor_r|]. by apply Z.mod_divide. }
  set (h := psx_header region (entry_point e) (lowest l) filesz).
  rewrite (zero_fill_image h elf (lowest l)) by (done || (unfold filesz; lia)).
  destruct (copy_segments_spec elf (lowest l) filesz h) with (l1 := @nil elf_program_header) (l := l)
    as (psx & -> & Hpsx); try done; try (unfold filesz in *; lia).
  - apply psx_header_length.
  - apply Forall_lookup. intros i p Hp Hl. eapply lowest_le; [by eapply list_elem_of_lookup_2|done].
  - simpl. destruct (forallb _ l) eqn:Hall; [|done]. intros _. apply forallb_Forall in Hall.
    split_and!; [|..|done].
    + apply forallb_Forall. eapply Forall_impl; [|exact Hall]. intros p Hp. simpl in Hp. unfold segment_ok.
      destruct (is_load p); [|done]. simpl in *. apply andb_prop in Hp as [Hp1%Z.leb_le ->].
      rewrite (proj2 (Z.leb_le _ _)); [done|]. unfold filesz in Hp1. lia.
    + destruct (existsb is_load l) eqn:Hex; [done|]. destruct (no_load l Hex) as [El Eh].
      unfold edata in H1. rewrite El, Eh in H1. lia.
Qed.

(** The fields of the header read back. *)
Lemma put32_le v : 0 <= v < 2 ^ 32 →
  u8 v + 256 * u8 (Z.shiftr v 8)
    + 65536 * (u8 (Z.shiftr v 16) + 256 * u8 (Z.shiftr (Z.shiftr v 16) 8)) = v.
Proof.
  intros Hv. rewrite Z.shiftr_shiftr, !Z.shiftr_div_pow2 by lia. unfold wrap. change (16 + 8) with 24.
  change (2 ^ 8) with 256. change (2 ^ 16) with 65536. change (2 ^ 24) with 16777216.
  pose proof (Z.div_div v 256 256). pose proof (Z.div_div v 65536 256).
  Z.div_mod_to_equations. lia.
Qed.

Lemma psx_header_fields r pc ftext filesz l :
  0 <= pc < 2 ^ 32 → 0 <= ftext < 2 ^ 32 → 0 <= filesz < 2 ^ 32 →
  let out := psx_header r pc ftext filesz ++ l in
  le32 out 16 = pc ∧ le32 out 24 = ftext ∧ le32 out 28 = filesz.
Proof.
  intros Hpc Hf Hs. split_and!; [exact (put32_le pc Hpc)|exact (put32_le ftext Hf)|exact (put32_le filesz Hs)].
Qed.

(** A failing conversion ends with status 1. *)
Lemma convert_status region e l elf : (convert region e l elf).1 = 0 ∨ (convert region e l elf).1 = 1.
Proof.
  unfold convert. destruct (find_range _ _ _) as [ftext edata].
  destruct (edata <? ftext), (0x80200000 <? edata), (negb (Z.land ftext 0x7FF =? 0)); try (by right).
  cbv zeta. destruct (copy_segments _ _ _ _ _) as [[] psx]; [by left|by right].
Qed.

(** C26: Called with three arguments, the converter is exact on files of at most 0x7FE00000 bytes.  It
    succeeds for just the little-endian 32-bit MIPS executables that have a
    segment to load, whose segments are inside the file and end at or below
    0x80200000, and whose lowest address is a multiple of 2 KB.  The output is
    then the 2 KB header with entry point, load address and size, and behind it
    the memory image of the program, where later segments overwrite earlier
    ones and the rest is zero, up to a multiple of 2 KB; a reader of the header
    finds these numbers and the length of the file.  Otherwise the exit status
    is 1. *)
Theorem elf2psx_exact argc flag elf :
  3 < argc → Forall byte elf → zlen elf <= 0x7FE00000 →
  match region_flag flag ≫= (λ r, executable r elf) with
  | Some out =>
      elf2psx argc flag (Some elf) true = (0, Some out) ∧
      le32 out 16 = le32 elf 24 ∧ zlen out = 0x800 + le32 out 28 ∧ (0x800 | le32 out 28)
  | None => (elf2psx argc flag (Some elf) true).1 = 1
  end.
Proof.
  intros Ha Hb Hlen. destruct (region_flag flag) as [region|] eqn:Er; cbn [mbind option_bind].
  2: { unfold elf2psx. rewrite Er. by destruct (argc <=? 3). }
  pose proof (elf2psx_headers argc flag region elf Ha Hb Er) as Hh. unfold executable.
  destruct (program_headers elf) as [[e l]|] eqn:Ep; cbn [mbind option_bind]; [|done]. destruct Hh as [-> Hok].
  destruct (forallb _ l && existsb is_load l && (lowest l mod 0x800 =? 0)) eqn:Ec.
  - rewrite !andb_true_iff, Z.eqb_eq in Ec. destruct Ec as [[H1 H2] H3].
    destruct (convert_good region e l elf Hlen Hok H1 H2 H3) as (-> & Hfs & Hdiv).
    set (filesz := (highest l + 0x7FF) / 0x800 * 0x800 - lowest l) in *.
    assert (entry_point e = le32 elf 24) as Ee by (eapply program_headers_entry; done).
    pose proof (lowest_range l Hok). pose proof (le32_range elf 24 Hb).
    destruct (psx_header_fields region (entry_point e) (lowest l) filesz
      (image_byte l elf <$> seqZ (lowest l) filesz)) as (F1 & _ & F3); [lia..|].
    rewrite F1, F3. split_and!; try done. unfold zlen. rewrite length_app, length_fmap, length_seqZ.
    pose proof (psx_header_length region (entry_point e) (lowest l) filesz) as Hl. unfold zlen in Hl. lia.
  - destruct (convert_status region e l elf) as [E|E]; [|done].
    destruct (convert_bad region e l elf Hlen Hok E) as (H1 & H2 & H3). by rewrite H1, H2, H3 in Ec.
Qed.

(** A program of one segment of five bytes at 0x80010000. *)
Definition tiny_elf : list Z :=
  [0x7F; 69; 76; 70; 1; 1; 1] ++ replicate 9 0 ++ put16 2 ++ put16 8 ++ put32 1 ++ put32 0x80010000
  ++ put32 52 ++ put32 0 ++ put32 0 ++ put16 52 ++ put16 32 ++ put16 1 ++ put16 0 ++ put16 0 ++ put16 0
  ++ put32 PT_LOAD ++ put32 84 ++ put32 0x80010000 ++ put32 0 ++ put32 5 ++ put32 5 ++ put32 5 ++ put32 4
  ++ [1; 2; 3; 4; 5].

Lemma elf2psx_exact_witness :
  ∃ out, elf2psx 4 (chars "-p") (Some tiny_elf) true = (0, Some out) ∧ zlen out = 0x1000.
Proof.
  pose proof (elf2psx_exact 4 (chars "-p") tiny_elf) as H.
  destruct (region_flag (chars "-p") ≫= (λ r, executable r tiny_elf)) as [out|] eqn:E;
    [|vm_compute in E; discriminate E].
  exists out. destruct H as (H1 & _).
  - reflexivity.
  - repeat constructor; discriminate.
  - vm_compute. discriminate.
  - split; [exact H1|]. vm_compute in E. injection E as <-. vm_compute. reflexivity.
Defined.
