(* ===== verification/Printk.v ===== *)
(** The kernel log, [kernel/printk.c]: the ring buffer, [printk] and
    [do_syslog].  Consoles are in [Console].

    Characters are numbers below 256 and arrays functions from indices.  The
    lock of the log is held for one character at a time by the reading calls,
    so a call in progress is a value ([syslog_call]) and one round of its loop a
    function; any number of messages may be printed between two rounds. *)

From S2P Require Import Prelude Errno Vsprintf.

(** ** The ring buffer *)

Definition LOG_BUF_LEN : Z := 16384.
Definition LOG_BUF_MASK : Z := LOG_BUF_LEN - 1.
Definition DEFAULT_MESSAGE_LOGLEVEL : Z := 4.
Definition MINIMUM_CONSOLE_LOGLEVEL : Z := 1.
Definition DEFAULT_CONSOLE_LOGLEVEL : Z := 7.

(** A store into an array. *)
Definition upd (a : Z → Z) (i v : Z) : Z → Z := λ j, if j =? i then v else a j.

(** [n] elements from [i] on. *)
Definition slice (a : Z → Z) (i n : Z) : list Z := a <$> seqZ i n.

(** A string is stored element by element. *)
Fixpoint upd_list (a : Z → Z) (i : Z) (l : list Z) : Z → Z :=
  match l with [] => a | c :: l => upd_list (upd a i c) (i + 1) l end.

Record ring := Ring { log_buf : Z → Z; log_start : Z; log_size : Z; logged_chars : Z }.

(** One character is put into the log. *)
Definition log_char (c : Z) (r : ring) : ring :=
  let b := upd (log_buf r) (Z.land (u32 (log_start r + log_size r)) LOG_BUF_MASK) c in
  let n := u32 (logged_chars r + 1) in
  if log_size r <? LOG_BUF_LEN then Ring b (log_start r) (u32 (log_size r + 1)) n
  else Ring b (u32 (log_start r + 1)) (log_size r) n.

Definition clear_logged (r : ring) : ring := Ring (log_buf r) (log_start r) (log_size r) 0.

(** ** Consoles and levels *)

Definition CON_PRINTBUFFER : Z := 1.
Definition CON_CONSDEV : Z := 2.
Definition CON_ENABLED : Z := 4.

(** The functions of a driver are code of the driver: whether it has [write] and
    [unblank], and what [setup] answers to an index and the options. *)
Record console := Con {
  con_name : list Z; con_write : bool; con_unblank : bool; con_setup : option (Z → option (list Z) → Z);
  con_flags : Z; con_index : Z
}.

Record cmdline := CmdSlot { cl_name : list Z; cl_index : Z; cl_options : option (list Z) }.

Definition MAX_CMDLINECONSOLES : nat := 8.
Definition empty_slot : cmdline := CmdSlot [] 0 None.

Record levels := Levels {
  console_loglevel : Z; default_message_loglevel : Z; minimum_console_loglevel : Z; default_console_loglevel : Z
}.

(** [written] records what the drivers were asked to write, [unblanked] which
    ones were asked to unblank. *)
Record klog := Klog {
  pk_buf : Z → Z; the_ring : ring; msg_level : Z; lv : levels;
  consoles : gmap Z console; console_drivers : list Z;
  console_cmdline : list cmdline; preferred_console : Z;
  written : list (Z * list Z); unblanked : list Z
}.

Definition set_buf (b : Z → Z) (s : klog) : klog :=
  Klog b (the_ring s) (msg_level s) (lv s) (consoles s) (console_drivers s) (console_cmdline s)
    (preferred_console s) (written s) (unblanked s).
Definition set_ring (r : ring) (s : klog) : klog :=
  Klog (pk_buf s) r (msg_level s) (lv s) (consoles s) (console_drivers s) (console_cmdline s)
    (preferred_console s) (written s) (unblanked s).
Definition set_msg_level (m : Z) (s : klog) : klog :=
  Klog (pk_buf s) (the_ring s) m (lv s) (consoles s) (console_drivers s) (console_cmdline s)
    (preferred_console s) (written s) (unblanked s).
Definition set_console_loglevel (n : Z) (s : klog) : klog :=
  Klog (pk_buf s) (the_ring s) (msg_level s)
    (Levels n (default_message_loglevel (lv s)) (minimum_console_loglevel (lv s)) (default_console_loglevel (lv s)))
    (consoles s) (console_drivers s) (console_cmdline s) (preferred_console s) (written s) (unblanked s).
Definition add_written (w : list (Z * list Z)) (s : klog) : klog :=
  Klog (pk_buf s) (the_ring s) (msg_level s) (lv s) (consoles s) (console_drivers s) (console_cmdline s)
    (preferred_console s) (written s ++ w) (unblanked s).

(** A console of the list takes part if it is enabled and has the function. *)
Definition active (f : console → bool) (s : klog) (c : Z) : bool :=
  match consoles s !! c with
  | Some con => c_true (Z.land (con_flags con) CON_ENABLED) && f con
  | None => false
  end.

(** The loop over the consoles. *)
Definition write_consoles (msg : list Z) (s : klog) : klog :=
  add_written ((λ c, (c, msg)) <$> filter (λ c, active con_write s c = true) (console_drivers s)) s.

(** ** printk *)

(** The inner loop: the characters from [p] on up to a line feed, [n] at most.
    Ends with the position where it stopped and whether at a line feed. *)
Fixpoint log_line (n : nat) (buf : Z → Z) (p : Z) (r : ring) : ring * Z * bool :=
  match n with
  | O => (r, p, false)
  | S n =>
      let r := log_char (buf p) r in
      if buf p =? 10 then (r, p, true) else log_line n buf (p + 1) r
  end.

(** A level in front of the text. *)
Definition has_level (buf : Z → Z) (p : Z) : bool :=
  negb (negb (buf p =? 60) || (buf (p + 1) <? 48) || (55 <? buf (p + 1)) || negb (buf (p + 2) =? 62)).

(** The level at the start of a line: the message, the position from which it
    is logged, and the level. *)
Definition line_level (s : klog) (p : Z) : klog * Z * Z :=
  if msg_level s <? 0 then
    let '(s, msg, p) :=
      if negb (has_level (pk_buf s) p) then
        let d := u8 (default_message_loglevel (lv s) + 48) in
        (set_buf (upd (upd (upd (pk_buf s) (p - 3) 60) (p - 2) d) (p - 1) 62) s, p, p - 3)
      else (s, p + 3, p) in
    (set_msg_level (s8 (pk_buf s (p + 1) - 48)) s, msg, p)
  else (s, p, p).

(** One round of the outer loop. *)
Definition printk_line (s : klog) (p buf_end : Z) : klog * Z :=
  let '(s, msg, p) := line_level s p in
  let '(r, p, line_feed) := log_line (Z.to_nat (buf_end - p)) (pk_buf s) p (the_ring s) in
  let s := set_ring r s in
  let s := if (msg_level s <? console_loglevel (lv s)) && negb (bool_decide (console_drivers s = []))
           then write_consoles (slice (pk_buf s) msg (p - msg + (if line_feed then 1 else 0))) s else s in
  let s := if line_feed : bool then set_msg_level (-1) s else s in
  (s, p + 1).

Fixpoint printk_loop (fuel : nat) (s : klog) (p buf_end : Z) : outcome klog :=
  if negb (p <? buf_end) then Ok s else
  match fuel with
  | O => Trap Fuel
  | S fuel => let '(s, p) := printk_line s p buf_end in printk_loop fuel s p buf_end
  end.

(** [printk]; a text that does not fit into [buf] is stored beyond its end. *)
Definition printk (fmt : list Z) (args : list va_val) (s : klog) : outcome (klog * Z) :=
  '(out, i, _) ← vsprintf fmt args;
  if 1020 <? i then Trap Fault else
  let s := set_buf (upd_list (pk_buf s) 3 (out ++ [0])) s in
  s ← printk_loop (S (length out)) s 3 (3 + i);
  Ok (s, i).

(** ** do_syslog *)

(** A call in progress: it waits for characters, reads them (type 2), or copies
    the last [count] characters up to the position [limit] (types 3 and 4) into
    the buffer of the user. *)
Inductive syslog_call :=
| Waiting (len : Z) (ubuf : Z → Z)
| Reading (len i : Z) (ubuf : Z → Z)
| Copying (count limit i : Z) (ubuf : Z → Z).

(** What a stretch of a call ends with. *)
Inductive syslog_end :=
| SReturns (error : Z) (ubuf : Z → Z)
| SGoesOn (c : syslog_call).

(** One round of the reading loop. *)
Definition read_round (len i : Z) (ubuf : Z → Z) (s : klog) : klog * syslog_end :=
  let r := the_ring s in
  if c_true (log_size r) && (i <? len) then
    let c := log_buf r (Z.land (log_start r) LOG_BUF_MASK) in
    (set_ring (Ring (log_buf r) (u32 (log_start r + 1)) (u32 (log_size r - 1)) (logged_chars r)) s,
     SGoesOn (Reading len (i + 1) (upd ubuf i c)))
  else (s, SReturns i ubuf).

(** The buffer of the user is corrected if characters were lost. *)
Fixpoint shift_down (n : nat) (i offset : Z) (ubuf : Z → Z) : Z → Z :=
  match n with
  | O => ubuf
  | S n => shift_down n (i + 1) offset (upd ubuf i (ubuf (i + offset)))
  end.

Definition copy_end (count i : Z) (ubuf : Z → Z) : syslog_end :=
  let error := s32 i in
  SReturns error (if negb (i =? count) then shift_down (Z.to_nat error) 0 (s32 (count - error)) ubuf else ubuf).

(** One round of the copying loop. *)
Definition copy_round (count limit i : Z) (ubuf : Z → Z) (s : klog) : klog * syslog_end :=
  let r := the_ring s in
  if i <? count then
    let j := u32 (limit - 1 - i) in
    if u32 (j + LOG_BUF_LEN) <? u32 (log_start r + log_size r) then (s, copy_end count i ubuf)
    else (s, SGoesOn (Copying count limit (i + 1) (upd ubuf (count - 1 - i) (log_buf r (Z.land j LOG_BUF_MASK)))))
  else (s, copy_end count i ubuf).

(** A sleeping call is woken; [signal] tells whether by a signal. *)
Definition wait_round (len : Z) (signal : bool) (ubuf : Z → Z) (s : klog) : klog * syslog_end :=
  if c_true (log_size (the_ring s)) then (s, SGoesOn (Reading len 0 ubuf))
  else if signal then (s, SReturns (- ERESTARTSYS) ubuf)
  else (s, SGoesOn (Waiting len ubuf)).

(** The checks of the user's buffer; [verify] is the result of [verify_area]. *)
Definition check_buffer (null : bool) (len verify : Z) : option Z :=
  if null || (len <? 0) then Some (- EINVAL)
  else if len =? 0 then Some 0
  else if negb (verify =? 0) then Some verify
  else None.

Definition do_syslog (type : Z) (null : bool) (len verify : Z) (signal : bool) (ubuf : Z → Z) (s : klog)
    : klog * syslog_end :=
  if (type =? 0) || (type =? 1) then (s, SReturns 0 ubuf)
  else if type =? 2 then
    match check_buffer null len verify with
    | Some error => (s, SReturns error ubuf)
    | None => wait_round len signal ubuf s
    end
  else if (type =? 3) || (type =? 4) then
    match check_buffer null len verify with
    | Some error => (s, SReturns error ubuf)
    | None =>
        let count := if LOG_BUF_LEN <? len then LOG_BUF_LEN else len in
        let r := the_ring s in
        let count := if logged_chars r <? count then logged_chars r else count in
        let s := if type =? 4 then set_ring (clear_logged r) s else s in
        (s, SGoesOn (Copying count (u32 (log_start r + log_size r)) 0 ubuf))
    end
  else if type =? 5 then (set_ring (clear_logged (the_ring s)) s, SReturns 0 ubuf)
  else if type =? 6 then (set_console_loglevel (minimum_console_loglevel (lv s)) s, SReturns 0 ubuf)
  else if type =? 7 then (set_console_loglevel (default_console_loglevel (lv s)) s, SReturns 0 ubuf)
  else if type =? 8 then
    if (len <? 1) || (8 <? len) then (s, SReturns (- EINVAL) ubuf)
    else
      let len := if len <? minimum_console_loglevel (lv s) then minimum_console_loglevel (lv s) else len in
      (set_console_loglevel len s, SReturns 0 ubuf)
  else (s, SReturns (- EINVAL) ubuf).

Definition sys_syslog (capable : bool) (type : Z) (null : bool) (len verify : Z) (signal : bool)
    (ubuf : Z → Z) (s : klog) : klog * syslog_end :=
  if negb (type =? 3) && negb capable then (s, SReturns (- EPERM) ubuf)
  else do_syslog type null len verify signal ubuf s.

(** ** References *)

(** A level in front of a text. *)
Definition tagged (t : list Z) : option Z :=
  match t with
  | a :: b :: c :: _ => if (a =? 60) && (48 <=? b) && (b <=? 55) && (c =? 62) then Some (b - 48) else None
  | _ => None
  end.

(** The level of the line a text continues or starts, [m] being the level of the
    unfinished line or negative. *)
Definition level_of (dflt m : Z) (t : list Z) : Z := if m <? 0 then default dflt (tagged t) else m.

Definition next_level (m c : Z) : Z := if c =? 10 then -1 else m.

(** The text as it is logged: each line that has no level gets the default. *)
Fixpoint tag (dflt m : Z) (t : list Z) : list Z :=
  match t with
  | [] => []
  | c :: t' =>
      (if (m <? 0) && negb (bool_decide (is_Some (tagged t))) then [60; dflt + 48; 62] else [])
      ++ c :: tag dflt (next_level (level_of dflt m t) c) t'
  end.

(** The level after a text. *)
Fixpoint end_level (dflt m : Z) (t : list Z) : Z :=
  match t with
  | [] => m
  | c :: t' => end_level dflt (next_level (level_of dflt m t) c) t'
  end.

(** The text as a console shows it: the lines more important than [loglevel],
    without the levels; [skip] characters of a level are left. *)
Fixpoint shown (loglevel dflt m : Z) (skip : nat) (t : list Z) : list Z :=
  match t with
  | [] => []
  | c :: t' =>
      let m' := level_of dflt m t in
      let skip := if m <? 0 then (if bool_decide (is_Some (tagged t)) then 3%nat else 0%nat) else skip in
      (if (m' <? loglevel) && bool_decide (skip = 0%nat) then [c] else [])
      ++ shown loglevel dflt (next_level m' c) (pred skip) t'
  end.

(** What a console was asked to write. *)
Definition console_text (c : Z) (w : list (Z * list Z)) : list Z :=
  concat ((λ x, if x.1 =? c then x.2 else []) <$> w).

(** The ring buffer holds the end of the log [hist]. *)
Record ring_ok (hist : list Z) (r : ring) : Prop := {
  ro_end : u32 (log_start r + log_size r) = u32 (zlen hist);
  ro_start : 0 <= log_start r < 2 ^ 32;
  ro_size : 0 <= log_size r <= LOG_BUF_LEN ∧ log_size r <= zlen hist;
  ro_logged : 0 <= logged_chars r <= zlen hist;
  ro_buf : ∀ k, (Z.to_nat k < length hist)%nat → 0 <= k → zlen hist - LOG_BUF_LEN <= k →
    log_buf r (k mod LOG_BUF_LEN) = hist !!! Z.to_nat k
}.

Lemma mask_mod z : Z.land z LOG_BUF_MASK = z mod LOG_BUF_LEN.
Proof. change LOG_BUF_MASK with (Z.ones 14). by rewrite Z.land_ones by lia. Qed.

Lemma u32_mod z : u32 z mod LOG_BUF_LEN = z mod LOG_BUF_LEN.
Proof. apply Z.mod_mod_divide. by exists 262144. Qed.

Lemma log_char_ok hist c r : ring_ok hist r → ring_ok (hist ++ [c]) (log_char c r).
Proof.
  intros [H1 H2 H3 H4 H5]. assert (zlen (hist ++ [c]) = zlen hist + 1) as El by (by autorewrite with zlen).
  assert (∀ k, (Z.to_nat k < length (hist ++ [c]))%nat → 0 <= k → zlen hist + 1 - LOG_BUF_LEN <= k →
    upd (log_buf r) (Z.land (u32 (log_start r + log_size r)) LOG_BUF_MASK) c (k mod LOG_BUF_LEN)
      = (hist ++ [c]) !!! Z.to_nat k) as Hbuf.
  { intros k Hk Hk0 Hlow. rewrite mask_mod, H1, u32_mod. unfold upd. rewrite length_app in Hk. simpl in Hk.
    unfold zlen in *. destruct (decide (k = Z.of_nat (length hist))) as [->|Hne].
    - rewrite Z.eqb_refl, Nat2Z.id. by rewrite lookup_total_app_r, Nat.sub_diag by lia.
    - destruct (Z.eqb_spec (k mod LOG_BUF_LEN) (Z.of_nat (length hist) mod LOG_BUF_LEN)) as [E|E].
      + exfalso. unfold LOG_BUF_LEN in *. Z.div_mod_to_equations. lia.
      + rewrite lookup_total_app_l by lia. apply H5; unfold zlen; lia. }
  assert (u32 (logged_chars r + 1) <= zlen hist + 1).
  { unfold wrap. pose proof (Z.mod_le (logged_chars r + 1) (2 ^ 32)). lia. }
  pose proof (wrap_bound 32 (logged_chars r + 1)).
  unfold log_char. destruct (Z.ltb_spec (log_size r) LOG_BUF_LEN) as [Hs|Hs]; constructor; simpl; rewrite ?El; try lia; try done.
  - rewrite (wrap_small 32 (log_size r + 1)) by (unfold LOG_BUF_LEN in *; lia).
    unfold wrap in *. rewrite Z.add_assoc, Zplus_mod, H1, <- Zplus_mod. done.
  - rewrite wrap_small by (unfold LOG_BUF_LEN in *; lia). unfold LOG_BUF_LEN in *. lia.
  - unfold wrap in *. rewrite Zplus_mod_idemp_l.
    replace (log_start r + 1 + log_size r) with (log_start r + log_size r + 1) by lia.
    rewrite Zplus_mod, H1, <- Zplus_mod. done.
  - apply wrap_bound. lia.
Qed.

(** ** Lines *)

(** The first line of a text with its line feed, whether it has one, and the
    rest. *)
Fixpoint line_of (t : list Z) : list Z * bool * list Z :=
  match t with
  | [] => ([], false, [])
  | c :: t =>
      if c =? 10 then ([c], true, t)
      else let '(line, fed, rest) := line_of t in (c :: line, fed, rest)
  end.

Lemma line_of_app t line fed rest :
  line_of t = (line, fed, rest) → t = line ++ rest ∧ (fed = false → rest = []) ∧ (t ≠ [] → line ≠ []).
Proof.
  revert line fed rest. induction t as [|c t IH]; intros line fed rest; simpl; [by intros [= <- <- <-]|].
  destruct (Z.eqb_spec c 10); [by intros [= <- <- <-]|].
  destruct (line_of t) as [[l f] r]. intros [= <- <- <-].
  destruct (IH l f r eq_refl) as (-> & H & _). done.
Qed.

Section levels.
Variables (loglevel dflt : Z).
Hypothesis dflt_ok : 0 <= dflt <= 7.

Lemma tagged_level t d : tagged t = Some d → 0 <= d <= 7.
Proof.
  unfold tagged. destruct t as [|a [|b [|c t]]]; try done.
  destruct (Z.leb_spec 48 b), (Z.leb_spec b 55); rewrite ?andb_false_r; try done.
  destruct (_ && _); [|done]. intros [= <-]. lia.
Qed.

Lemma level_of_range m t : m <= 7 → 0 <= level_of dflt m t <= 7.
Proof.
  intros Hm. unfold level_of. destruct (Z.ltb_spec m 0); [|lia].
  destruct (tagged t) as [d|] eqn:E; simpl; [by eapply tagged_level|done].
Qed.

Lemma level_of_id m t : 0 <= m → level_of dflt m t = m.
Proof. intros Hm. unfold level_of. destruct (Z.ltb_spec m 0); [lia|done]. Qed.

Definition level_tag (t : list Z) : list Z := if tagged t is Some _ then [] else [60; dflt + 48; 62].

(** A line that starts without a level behaves as one in progress. *)
Lemma tag_start m t : m < 0 → t ≠ [] → tag dflt m t = level_tag t ++ tag dflt (level_of dflt m t) t.
Proof.
  intros Hm Ht. destruct t as [|c t]; [done|]. pose proof (level_of_range m (c :: t) ltac:(lia)).
  cbn [tag]. rewrite (proj2 (Z.ltb_lt _ _) Hm), (proj2 (Z.ltb_ge (level_of dflt m (c :: t)) 0)) by lia.
  rewrite (level_of_id (level_of _ _ _)) by lia. unfold level_tag. by destruct (tagged (c :: t)).
Qed.

Lemma shown_start m t : m < 0 →
  shown loglevel dflt m 0 t = shown loglevel dflt (level_of dflt m t) (if tagged t is Some _ then 3%nat else 0%nat) t.
Proof.
  intros Hm. destruct t as [|c t]; [done|]. pose proof (level_of_range m (c :: t) ltac:(lia)).
  cbn [shown]. rewrite (proj2 (Z.ltb_lt _ _) Hm), (proj2 (Z.ltb_ge (level_of dflt m (c :: t)) 0)) by lia.
  rewrite (level_of_id (level_of _ _ _)) by lia. by destruct (tagged (c :: t)).
Qed.

Lemma end_level_start m t : m < 0 → t ≠ [] → end_level dflt m t = end_level dflt (level_of dflt m t) t.
Proof.
  intros Hm Ht. destruct t as [|c t]; [done|]. pose proof (level_of_range m (c :: t) ltac:(lia)).
  cbn [end_level]. by rewrite (level_of_id (level_of _ _ _)) by lia.
Qed.

Lemma tag_line m t line fed rest :
  0 <= m → line_of t = (line, fed, rest) → tag dflt m t = line ++ tag dflt (-1) rest.
Proof.
  intros Hm. revert line fed rest. induction t as [|c t IH]; intros line fed rest; [by intros [= <- <- <-]|].
  cbn [line_of tag]. rewrite (proj2 (Z.ltb_ge _ _)), level_of_id by lia. unfold next_level. simpl.
  destruct (Z.eqb_spec c 10); [by intros [= <- <- <-]|]. destruct (line_of t) as [[l f] r].
  intros [= <- <- <-]. simpl. f_equal. by eapply IH.
Qed.

Lemma shown_fresh k t : shown loglevel dflt (-1) k t = shown loglevel dflt (-1) 0 t.
Proof. by destruct t. Qed.

Lemma shown_line m k t line fed rest :
  0 <= m → line_of t = (line, fed, rest) →
  shown loglevel dflt m k t = (if m <? loglevel then drop k line else []) ++ shown loglevel dflt (-1) 0 rest.
Proof.
  intros Hm. revert k line fed rest. induction t as [|c t IH]; intros k line fed rest.
  { intros [= <- <- <-]. simpl. rewrite drop_nil. by destruct (m <? loglevel). }
  cbn [line_of shown]. rewrite (proj2 (Z.ltb_ge m 0)), level_of_id by lia. unfold next_level.
  destruct (Z.eqb_spec c 10).
  - intros [= <- <- <-]. rewrite shown_fresh. f_equal. destruct (m <? loglevel), k; simpl; try done. by rewrite drop_nil.
  - destruct (line_of t) as [[l f] r]. intros [= <- <- <-]. rewrite (IH _ l f r) by done. rewrite app_assoc.
    f_equal. destruct (m <? loglevel), k; done.
Qed.

Lemma end_level_line m t line fed rest :
  0 <= m → line_of t = (line, fed, rest) →
  end_level dflt m t = if fed then end_level dflt (-1) rest else m.
Proof.
  intros Hm. revert line fed rest. induction t as [|c t IH]; intros line fed rest; [by intros [= <- <- <-]|].
  cbn [line_of end_level]. rewrite level_of_id by lia. unfold next_level.
  destruct (Z.eqb_spec c 10); [by intros [= <- <- <-]|]. destruct (line_of t) as [[l f] r].
  intros [= <- <- <-]. by eapply IH.
Qed.
End levels.

(** ** Strings in arrays *)

Lemma slice_cons a i n : 0 < n → slice a i n = a i :: slice a (i + 1) (n - 1).
Proof.
  intros Hn. unfold slice. replace n with (Z.succ (n - 1)) at 1 by lia. rewrite seqZ_cons by lia. csimpl.
  repeat f_equal; lia.
Qed.

Lemma slice_length a i n : 0 <= n → zlen (slice a i n) = n.
Proof. intros Hn. unfold slice, zlen. rewrite length_fmap, length_seqZ. lia. Qed.

Lemma slice_app a i n m : 0 <= n → 0 <= m → slice a i (n + m) = slice a i n ++ slice a (i + n) m.
Proof. intros Hn Hm. unfold slice. by rewrite seqZ_app, fmap_app by lia. Qed.

Lemma slice_ext a b i n : (∀ j, i <= j < i + n → a j = b j) → slice a i n = slice b i n.
Proof. intros H. apply list_fmap_ext. intros k x Hx. apply lookup_seqZ in Hx. apply H. lia. Qed.

Lemma slice_prefix a i l k : slice a i (zlen (l ++ k)) = l ++ k →
  slice a i (zlen l) = l ∧ slice a (i + zlen l) (zlen k) = k.
Proof.
  rewrite zlen_app, slice_app by (apply zlen_nonneg). intros H. apply app_inj_1 in H; [done|].
  unfold slice. rewrite length_fmap, length_seqZ. unfold zlen. lia.
Qed.

Lemma slice_drop a i n k : 0 <= k <= n → drop (Z.to_nat k) (slice a i n) = slice a (i + k) (n - k).
Proof.
  intros Hk. replace n with (k + (n - k)) at 1 by lia. rewrite slice_app by lia.
  rewrite drop_app_length'; [done|]. pose proof (slice_length a i k ltac:(lia)). unfold zlen in *. lia.
Qed.

Lemma upd_list_slice a i l : slice (upd_list a i l) i (zlen l) = l ∧ (∀ j, j < i → upd_list a i l j = a j).
Proof.
  revert a i. induction l as [|c l IH]; intros a i; [done|]. cbn [upd_list]. rewrite zlen_cons.
  pose proof (zlen_nonneg l). destruct (IH (upd a i c) (i + 1)) as [H1 H2]. split.
  - rewrite slice_cons, H2 by lia. unfold upd at 1. rewrite Z.eqb_refl. f_equal.
    replace (zlen l + 1 - 1) with (zlen l) by lia. done.
  - intros j Hj. rewrite H2 by lia. unfold upd. destruct (Z.eqb_spec j i); [lia|done].
Qed.

(** ** printk *)

Definition log_chars (l : list Z) (r : ring) : ring := foldl (λ r c, log_char c r) r l.

Lemma log_chars_app l k r : log_chars (l ++ k) r = log_chars k (log_chars l r).
Proof. apply foldl_app. Qed.

Lemma log_chars_ok hist l r : ring_ok hist r → ring_ok (hist ++ l) (log_chars l r).
Proof.
  revert hist r. induction l as [|c l IH]; intros hist r H; simpl; [by rewrite app_nil_r|].
  rewrite cons_middle, app_assoc. apply IH. by apply log_char_ok.
Qed.

Lemma log_line_spec n buf p r line fed rest :
  line_of (slice buf p (Z.of_nat n)) = (line, fed, rest) →
  log_line n buf p r = (log_chars line r, p + zlen line - (if fed then 1 else 0), fed).
Proof.
  revert p r line fed rest. induction n as [|n IH]; intros p r line fed rest; cbn [log_line].
  { intros [= <- <- <-]. simpl. by rewrite zlen_nil, Z.add_0_r, Z.sub_0_r. }
  rewrite slice_cons by lia. cbn [line_of]. replace (Z.of_nat (S n) - 1) with (Z.of_nat n) by lia.
  destruct (Z.eqb_spec (buf p) 10); [intros [= <- <- <-]; simpl; do 2 f_equal; rewrite zlen_cons, zlen_nil; lia|].
  destruct (line_of (slice buf (p + 1) (Z.of_nat n))) as [[l f] r'] eqn:El. intros [= <- <- <-].
  rewrite (IH _ _ l f r') by done. simpl. do 2 f_equal. rewrite zlen_cons. lia.
Qed.

(** The text of length [zlen t] at [p], with the NUL behind it. *)
Definition text_at (buf : Z → Z) (p : Z) (t : list Z) : Prop :=
  slice buf p (zlen t) = t ∧ buf (p + zlen t) = 0.

Lemma text_at_cons buf p c t : text_at buf p (c :: t) ↔ buf p = c ∧ text_at buf (p + 1) t.
Proof.
  unfold text_at. rewrite zlen_cons. pose proof (zlen_nonneg t). rewrite slice_cons by lia.
  replace (zlen t + 1 - 1) with (zlen t) by lia. replace (p + (zlen t + 1)) with (p + 1 + zlen t) by lia.
  split; [intros [[= ? ?] ?]|intros (-> & -> & ?)]; done.
Qed.

Lemma text_at_app buf p l k : text_at buf p (l ++ k) → text_at buf (p + zlen l) k.
Proof.
  intros [H1 H2]. apply slice_prefix in H1 as [_ H1]. split; [done|].
  rewrite zlen_app in H2. by rewrite <- Z.add_assoc.
Qed.

Lemma text_at_frame buf buf' p t :
  text_at buf p t → (∀ j, p <= j → buf' j = buf j) → text_at buf' p t.
Proof.
  intros [H1 H2] Hj. pose proof (zlen_nonneg t). split; [|rewrite Hj by lia; done].
  rewrite <- H1 at 2. apply slice_ext. intros j ?. apply Hj. lia.
Qed.

Lemma has_level_spec buf p t :
  text_at buf p t → has_level buf p = bool_decide (is_Some (tagged t)) ∧
  (∀ d, tagged t = Some d → buf (p + 1) = d + 48).
Proof.
  intros H. unfold has_level. destruct t as [|a [|b [|c t]]]; rewrite ?text_at_cons in H.
  - destruct H as [_ H]. rewrite zlen_nil, Z.add_0_r in H. rewrite H. done.
  - destruct H as (-> & _ & H). rewrite zlen_nil, Z.add_0_r in H. rewrite H. simpl. by rewrite orb_true_r.
  - destruct H as (-> & -> & _ & H). rewrite zlen_nil, Z.add_0_r in H. replace (p + 1 + 1) with (p + 2) in H by lia.
    rewrite H. simpl. by rewrite orb_true_r.
  - destruct H as (-> & -> & Hc & _). replace (p + 1 + 1) with (p + 2) in Hc by lia. rewrite Hc. unfold tagged.
    destruct (Z.eqb_spec a 60), (Z.ltb_spec b 48), (Z.ltb_spec 55 b), (Z.leb_spec 48 b), (Z.leb_spec b 55),
      (Z.eqb_spec c 62); simpl; try lia; split; try done; intros d [= <-]; lia.
Qed.

(** What [printk] leaves alone. *)
Definition same_setup (s s' : klog) : Prop :=
  lv s' = lv s ∧ consoles s' = consoles s ∧ console_drivers s' = console_drivers s ∧
  console_cmdline s' = console_cmdline s ∧ preferred_console s' = preferred_console s ∧ unblanked s' = unblanked s.

#[export] Instance same_setup_preorder : PreOrder same_setup.
Proof.
  split; unfold same_setup; [done|]. intros x y z (?&?&?&?&?&?) (?&?&?&?&?&?). split_and!; congruence.
Qed.

Definition line_prefix (dflt m : Z) (t : list Z) : list Z := if m <? 0 then level_tag dflt t else [].
Definition skip_of (m : Z) (t : list Z) : Z := if (m <? 0) && bool_decide (is_Some (tagged t)) then 3 else 0.

Lemma line_level_spec s p t :
  let dflt := default_message_loglevel (lv s) in let m := msg_level s in
  0 <= dflt <= 7 → m <= 7 → text_at (pk_buf s) p t →
  ∃ s1, line_level s p = (s1, p + skip_of m t, p - zlen (line_prefix dflt m t)) ∧
    same_setup s s1 ∧ the_ring s1 = the_ring s ∧ written s1 = written s ∧
    msg_level s1 = level_of dflt m t ∧
    text_at (pk_buf s1) (p - zlen (line_prefix dflt m t)) (line_prefix dflt m t ++ t).
Proof.
  intros dflt m Hd Hm Ht. unfold line_level, line_prefix, skip_of, level_of. fold m. fold dflt.
  destruct (Z.ltb_spec m 0) as [Hneg|Hneg]; simpl.
  2: { exists s. change (@zlen Z []) with 0. replace (p + 0) with p by lia. by replace (p - 0) with p by lia. }
  destruct (has_level_spec _ _ _ Ht) as [-> Hlev]. unfold level_tag.
  destruct (tagged t) as [d|] eqn:Et; simpl.
  - eexists. change (@zlen Z []) with 0. replace (p - 0) with p by lia. split; [done|]. cbn. split_and!; try done.
    rewrite (Hlev d) by done. pose proof (tagged_level _ _ Et). rewrite swrap_small by lia. lia.
  - eexists. change (zlen [60; dflt + 48; 62]) with 3. replace (p + 0) with p by lia. split; [done|]. cbn.
    rewrite !text_at_cons. replace (p - 3 + 1) with (p - 2) by lia. replace (p - 2 + 1) with (p - 1) by lia.
    replace (p - 1 + 1) with p by lia.
    assert (upd (upd (upd (pk_buf s) (p - 3) 60) (p - 2) (u8 (dflt + 48))) (p - 1) 62 (p - 2) = dflt + 48) as E2.
    { unfold upd. rewrite Z.eqb_refl, wrap_small by lia. by destruct (Z.eqb_spec (p - 2) (p - 1)); [lia|]. }
    split_and!; try done.
    + fold dflt. rewrite E2, swrap_small by lia. lia.
    + unfold upd. rewrite Z.eqb_refl. destruct (Z.eqb_spec (p - 3) (p - 1)); [lia|].
      by destruct (Z.eqb_spec (p - 3) (p - 2)); [lia|].
    + unfold upd. by rewrite Z.eqb_refl.
    + eapply text_at_frame; [exact Ht|]. intros j Hj. unfold upd.
      destruct (Z.eqb_spec j (p - 1)); [lia|]. destruct (Z.eqb_spec j (p - 2)); [lia|].
      destruct (Z.eqb_spec j (p - 3)); [lia|done].
Qed.

Lemma console_text_app c w w' : console_text c (w ++ w') = console_text c w ++ console_text c w'.
Proof. unfold console_text. by rewrite fmap_app, concat_app. Qed.

(** A message reaches each active console once. *)
Lemma write_consoles_text s c msg :
  NoDup (console_drivers s) →
  console_text c (written (write_consoles msg s)) = console_text c (written s) ++
    (if bool_decide (c ∈ console_drivers s) && active con_write s c then msg else []).
Proof.
  intros Hnd. unfold write_consoles. simpl. rewrite console_text_app. f_equal.
  induction Hnd as [|d l Hd Hnd IH]; [done|]. rewrite filter_cons.
  assert (∀ l', d ∉ l' → console_text d ((λ c, (c, msg)) <$> filter (λ c, active con_write s c = true) l') = []) as Hno.
  { intros l'. clear. induction l' as [|e l IH]; [done|]. intros [He Hl]%not_elem_of_cons. rewrite filter_cons.
    destruct (decide _); [|by apply IH]. rewrite fmap_cons. unfold console_text in *. cbn.
    destruct (Z.eqb_spec e d); [done|]. by rewrite IH. }
  destruct (decide (d = c)) as [->|Hne].
  - rewrite (bool_decide_eq_true_2 (c ∈ c :: l)) by (by left). simpl.
    destruct (active con_write s c) eqn:Ea; simpl; [|by apply Hno].
    unfold console_text in *. cbn. rewrite Z.eqb_refl, Hno by done. by rewrite app_nil_r.
  - assert (bool_decide (c ∈ d :: l) = bool_decide (c ∈ l)) as ->.
    { apply bool_decide_ext. rewrite elem_of_cons. naive_solver. }
    rewrite <- IH. destruct (decide _); [|done]. unfold console_text. cbn. by destruct (Z.eqb_spec d c).
Qed.

Lemma line_of_prefix dflt m t line fed rest :
  0 <= dflt <= 7 → line_of t = (line, fed, rest) →
  line_of (line_prefix dflt m t ++ t) = (line_prefix dflt m t ++ line, fed, rest).
Proof.
  intros Hd El. unfold line_prefix, level_tag. destruct (m <? 0); [|done]. destruct (tagged t); [done|].
  cbn [app line_of]. destruct (Z.eqb_spec (dflt + 48) 10); [lia|]. by rewrite El.
Qed.

(** A level is in the first line. *)
Lemma skip_of_line m t line fed rest : line_of t = (line, fed, rest) → 0 <= skip_of m t <= zlen line.
Proof.
  intros El. pose proof (zlen_nonneg line). unfold skip_of. destruct (m <? 0); simpl; [|lia].
  destruct (tagged t) as [d|] eqn:Et; simpl; [|lia]. unfold tagged in Et.
  destruct t as [|a [|b [|c t]]]; try done.
  destruct (Z.eqb_spec a 60) as [->|], (Z.leb_spec 48 b), (Z.leb_spec b 55), (Z.eqb_spec c 62) as [->|]; try done.
  cbn [line_of] in El. destruct (Z.eqb_spec b 10); [lia|]. simpl in El. destruct (line_of t) as [[l f] r].
  injection El as <- _ _. rewrite !zlen_cons. pose proof (zlen_nonneg l). lia.
Qed.

(** Whether a console gets messages. *)
Definition listens (s : klog) (c : Z) : bool := bool_decide (c ∈ console_drivers s) && active con_write s c.

Lemma listens_setup s s' c : same_setup s s' → listens s' c = listens s c.
Proof. intros (_ & H1 & H2 & _). unfold listens, active. by rewrite H1, H2. Qed.

Lemma printk_line_spec s p t line fed rest :
  let dflt := default_message_loglevel (lv s) in let m := msg_level s in
  let l := level_of dflt m t in
  0 <= dflt <= 7 → m <= 7 → NoDup (console_drivers s) → text_at (pk_buf s) p t → t ≠ [] →
  line_of t = (line, fed, rest) →
  ∃ s', printk_line s p (p + zlen t) = (s', p + zlen line + (if fed then 0 else 1)) ∧
    same_setup s s' ∧ the_ring s' = log_chars (line_prefix dflt m t ++ line) (the_ring s) ∧
    msg_level s' = (if fed then -1 else l) ∧ text_at (pk_buf s') (p + zlen line) rest ∧
    ∀ c, console_text c (written s') = console_text c (written s) ++
      (if listens s c then if l <? console_loglevel (lv s) then drop (Z.to_nat (skip_of m t)) line else [] else []).
Proof.
  intros dflt m l Hd Hm Hnd Ht Hne El. destruct (line_level_spec s p t Hd Hm Ht)
    as (s1 & E1 & Hs1 & Hr1 & Hw1 & Hm1 & Ht1). fold dflt m l in E1, Hm1, Ht1.
  set (pre := line_prefix dflt m t) in *. unfold printk_line. rewrite E1.
  pose proof (line_of_prefix dflt m t line fed rest Hd El) as Elp. fold pre in Elp.
  destruct (line_of_app _ _ _ _ El) as (Et & Hfed & _). pose proof (skip_of_line m t _ _ _ El) as Hskip.
  pose proof (zlen_nonneg pre). pose proof (zlen_nonneg t).
  rewrite (log_line_spec _ _ _ _ (pre ++ line) fed rest).
  2: { rewrite Z2Nat.id by lia. replace (p + zlen t - (p - zlen pre)) with (zlen (pre ++ t)) by (rewrite zlen_app; lia).
       destruct Ht1 as [-> _]. done. }
  replace (p - zlen pre + zlen (pre ++ line) - (if fed then 1 else 0)) with (p + zlen line - (if fed then 1 else 0))
    by (rewrite zlen_app; destruct fed; lia).
  assert (text_at (pk_buf s1) p t) as Ht2.
  { apply text_at_app in Ht1. by replace (p - zlen pre + zlen pre) with p in Ht1 by lia. }
  assert (slice (pk_buf s1) (p + skip_of m t) (p + zlen line - (if fed then 1 else 0) - (p + skip_of m t)
    + (if fed then 1 else 0)) = drop (Z.to_nat (skip_of m t)) line) as Hmsg.
  { destruct Ht2 as [Ht2 _]. rewrite Et in Ht2. apply slice_prefix in Ht2 as [Ht2 _]. rewrite <- Ht2 at 2.
    rewrite slice_drop by lia. f_equal. destruct fed; lia. }
  cbn [the_ring set_ring pk_buf lv msg_level console_drivers]. rewrite Hm1, Hmsg.
  destruct Hs1 as (B1 & B2 & B3 & B4 & B5 & B6). rewrite B1, B3.
  eexists. split; [f_equal; destruct fed; lia|].
  assert (text_at (pk_buf s1) (p + zlen line) rest) as Hrest by (apply text_at_app; by rewrite <- Et).
  assert (∀ c s2, consoles s2 = consoles s → console_drivers s2 = console_drivers s → listens s2 c = listens s c) as Hls.
  { intros c s2 A1 A2. unfold listens, active. by rewrite A1, A2. }
  split_and!.
  - destruct fed, (_ && _); done.
  - rewrite <- Hr1. destruct fed, (_ && _); done.
  - destruct fed, (_ && _); done.
  - destruct fed, (_ && _); done.
  - intros c. assert (∀ b : bool, written (if fed then set_msg_level (-1) (if b then write_consoles
      (drop (Z.to_nat (skip_of m t)) line) (set_ring (log_chars (pre ++ line) (the_ring s1)) s1) else
      set_ring (log_chars (pre ++ line) (the_ring s1)) s1) else (if b then write_consoles
      (drop (Z.to_nat (skip_of m t)) line) (set_ring (log_chars (pre ++ line) (the_ring s1)) s1) else
      set_ring (log_chars (pre ++ line) (the_ring s1)) s1)) = if b then written (write_consoles
      (drop (Z.to_nat (skip_of m t)) line) (set_ring (log_chars (pre ++ line) (the_ring s1)) s1)) else written s1)
      as -> by (intros []; by destruct fed).
    destruct (l <? console_loglevel (lv s)); cbn [andb]; [|rewrite Hw1; destruct (listens s c); by rewrite app_nil_r].
    destruct (bool_decide_reflect (console_drivers s = [])) as [Hnil|_]; cbn [negb].
    + rewrite Hw1. unfold listens. rewrite Hnil. rewrite bool_decide_eq_false_2 by apply not_elem_of_nil.
      simpl. by rewrite app_nil_r.
    + rewrite write_consoles_text by (simpl; by rewrite B3). simpl. rewrite Hw1. f_equal.
      rewrite <- (Hls c (set_ring (log_chars (pre ++ line) (the_ring s1)) s1)) by done. done.
Qed.

Lemma printk_loop_spec fuel s p t :
  let dflt := default_message_loglevel (lv s) in
  0 <= dflt <= 7 → msg_level s <= 7 → NoDup (console_drivers s) → text_at (pk_buf s) p t →
  (length t < fuel)%nat →
  ∃ s', printk_loop fuel s p (p + zlen t) = Ok s' ∧ same_setup s s' ∧
    the_ring s' = log_chars (tag dflt (msg_level s) t) (the_ring s) ∧
    msg_level s' = end_level dflt (msg_level s) t ∧
    ∀ c, console_text c (written s') = console_text c (written s) ++
      (if listens s c then shown (console_loglevel (lv s)) dflt (msg_level s) 0 t else []).
Proof.
  intros dflt Hd. assert (default_message_loglevel (lv s) = dflt) as Ed by done. clearbody dflt.
  revert s p t Ed. induction fuel as [|fuel IH]; intros s p t Ed Hm Hnd Ht Hf; [lia|].
  cbn [printk_loop]. destruct t as [|x t].
  { rewrite zlen_nil, Z.add_0_r, Z.ltb_irrefl. simpl. exists s. split_and!; try done.
    intros c. destruct (listens s c); by rewrite app_nil_r. }
  set (t0 := x :: t) in *. assert (t0 ≠ []) as Hne by done.
  assert (0 < zlen t0) as Hpos by (unfold t0; rewrite zlen_cons; pose proof (zlen_nonneg t); lia).
  rewrite (proj2 (Z.ltb_lt p (p + zlen t0))) by lia. simpl negb. cbn match.
  destruct (line_of t0) as [[line fed] rest] eqn:El.
  destruct (printk_line_spec s p t0 line fed rest) as (s1 & -> & Hs1 & Hr1 & Hm1 & Ht1 & Hw1); try done.
  { by rewrite Ed. }
  rewrite Ed in *. set (m := msg_level s) in *. set (l := level_of dflt m t0) in *.
  destruct (line_of_app _ _ _ _ El) as (Et & Hfed & Hline). specialize (Hline Hne).
  pose proof (level_of_range dflt Hd m t0 Hm) as Hl. fold l in Hl. clearbody t0.
  assert (∀ lg, shown lg dflt m 0 t0 = (if l <? lg then drop (Z.to_nat (skip_of m t0)) line else [])
    ++ shown lg dflt (-1) 0 rest) as Hshown.
  { intros lg. unfold skip_of. destruct (Z.ltb_spec m 0).
    - rewrite shown_start by done. fold l. rewrite (shown_line lg dflt l _ t0 line fed rest) by (lia || done).
      by destruct (tagged t0).
    - simpl. rewrite (shown_line lg dflt m _ t0 line fed rest) by done. unfold l. by rewrite level_of_id by done. }
  assert (tag dflt m t0 = (line_prefix dflt m t0 ++ line) ++ tag dflt (-1) rest) as Htag.
  { unfold line_prefix. destruct (Z.ltb_spec m 0).
    - rewrite tag_start by done. fold l. rewrite (tag_line dflt l t0 line fed rest) by (lia || done).
      by rewrite app_assoc.
    - simpl. by rewrite (tag_line dflt m t0 line fed rest). }
  assert (end_level dflt m t0 = if fed then end_level dflt (-1) rest else l) as Hend.
  { destruct (Z.ltb_spec m 0).
    - rewrite end_level_start by done. fold l. by rewrite (end_level_line dflt l t0 line fed rest) by (lia || done).
    - rewrite (end_level_line dflt m t0 line fed rest) by done. unfold l. by rewrite level_of_id by done. }
  assert (zlen t0 = zlen line + zlen rest) as Ezl by (rewrite Et; apply zlen_app).
  destruct fed.
  - rewrite Z.add_0_r, Ezl, Z.add_assoc. destruct Hs1 as (B1 & B2 & B3 & B4).
    destruct (IH s1 (p + zlen line) rest) as (s2 & -> & Hs2 & Hr2 & Hm2 & Hw2); try done.
    { by rewrite B1. } { rewrite Hm1. lia. } { by rewrite B3. }
    { rewrite Et, length_app in Hf. destruct line; [done|]. simpl in Hf. lia. }
    assert (same_setup s s1) as Hs1 by done.
    exists s2. rewrite Hm1 in *. split_and!; [done|by transitivity s1|..].
    + by rewrite Hr2, Htag, log_chars_app, Hr1.
    + by rewrite Hm2, Hend.
    + intros c. rewrite Hw2, Hw1, Hshown, (listens_setup s s1) by done. rewrite <- app_assoc, B1.
      by destruct (listens s c).
  - specialize (Hfed eq_refl) as ->. rewrite zlen_nil, Z.add_0_r in Ezl.
    exists s1. rewrite app_nil_r in Htag. simpl in Hshown.
    split; [destruct fuel; simpl; rewrite (proj2 (Z.ltb_ge _ _)) by lia; done|].
    split_and!; [done|by rewrite Htag|by rewrite Hend|].
    intros c. rewrite Hw1, Hshown. by destruct (listens s c); rewrite ?app_nil_r.
Qed.

(** The state in which messages are printed: levels are digits and a console is
    listed once. *)
Record klog_ok (hist : list Z) (s : klog) : Prop := {
  ko_ring : ring_ok hist (the_ring s);
  ko_default : 0 <= default_message_loglevel (lv s) <= 7;
  ko_level : msg_level s <= 7;
  ko_drivers : NoDup (console_drivers s)
}.

Lemma end_level_le dflt m t : 0 <= dflt <= 7 → m <= 7 → end_level dflt m t <= 7.
Proof.
  intros Hd. revert m. induction t as [|c t IH]; intros m Hm; cbn [end_level]; [done|]. apply IH.
  unfold next_level. pose proof (level_of_range dflt Hd m (c :: t) Hm). destruct (c =? 10); lia.
Qed.

(** [printk] on a text that fits. *)
Lemma printk_spec fmt args out ns hist s :
  klog_ok hist s → vsprintf fmt args = Ok (out, zlen out, ns) → zlen out <= 1020 →
  let dflt := default_message_loglevel (lv s) in
  ∃ s', printk fmt args s = Ok (s', zlen out) ∧ klog_ok (hist ++ tag dflt (msg_level s) out) s' ∧
    same_setup s s' ∧ the_ring s' = log_chars (tag dflt (msg_level s) out) (the_ring s) ∧
    msg_level s' = end_level dflt (msg_level s) out ∧
    ∀ c, console_text c (written s') = console_text c (written s) ++
      (if listens s c then shown (console_loglevel (lv s)) dflt (msg_level s) 0 out else []).
Proof.
  intros [H1 H2 H3 H4] Ev Hlen dflt. unfold printk. rewrite Ev. cbn [mbind outcome_bind].
  rewrite (proj2 (Z.ltb_ge _ _)) by lia. set (s1 := set_buf _ s).
  destruct (printk_loop_spec (S (length out)) s1 3 out) as (s2 & -> & Hs & Hr & Hm & Hw); try done; try lia.
  { destruct (upd_list_slice (pk_buf s) 3 (out ++ [0])) as [Hsl _]. apply slice_prefix in Hsl as [A B].
    split; [done|]. change (zlen [0]) with 1 in B. rewrite slice_cons in B by lia. by injection B. }
  exists s2. destruct Hs as (B1 & B2 & B3 & B4). split_and!; try done.
  constructor; simpl in *.
  - rewrite Hr. by apply log_chars_ok.
  - by rewrite B1.
  - rewrite Hm. by apply end_level_le.
  - by rewrite B3.
Qed.

(** C24: [printk] terminates for every format whose text fits into its buffer
    and returns the length of the text.  The log then holds what it held,
    followed by the text in which each line without a level got the default
    level; the line that an earlier call left unfinished is continued.  Each
    enabled console of the list has been asked to write exactly the lines that
    are more important than the console level, without the levels; nothing else
    changes. *)
Theorem printk_correct fmt args out ns hist s :
  klog_ok hist s → vsprintf fmt args = Ok (out, zlen out, ns) → zlen out <= 1020 →
  let dflt := default_message_loglevel (lv s) in
  ∃ s', printk fmt args s = Ok (s', zlen out) ∧
    klog_ok (hist ++ tag dflt (msg_level s) out) s' ∧
    msg_level s' = end_level dflt (msg_level s) out ∧
    (∀ c, console_text c (written s') = console_text c (written s) ++
      (if listens s c then shown (console_loglevel (lv s)) dflt (msg_level s) 0 out else [])) ∧
    same_setup s s'.
Proof.
  intros H Ev Hlen dflt. destruct (printk_spec _ _ _ _ _ _ H Ev Hlen) as (s' & E & H1 & H2 & _ & H3 & H4).
  exists s'. done.
Qed.

(** The log at boot, with a console that is enabled. *)
Definition boot_levels : levels :=
  Levels DEFAULT_CONSOLE_LOGLEVEL DEFAULT_MESSAGE_LOGLEVEL MINIMUM_CONSOLE_LOGLEVEL DEFAULT_CONSOLE_LOGLEVEL.

Definition boot_klog (cons : gmap Z console) (drivers : list Z) : klog :=
  Klog (λ _, 0) (Ring (λ _, 0) 0 0 0) (-1) boot_levels cons drivers
    (replicate MAX_CMDLINECONSOLES empty_slot) (-1) [] [].

Lemma boot_klog_ok cons drivers : NoDup drivers → klog_ok [] (boot_klog cons drivers).
Proof.
  intros Hd. constructor; simpl; try done; try lia. constructor; simpl; try done; try (unfold LOG_BUF_LEN; lia).
Qed.

Definition sample_con : console := Con [116; 116; 121] true false None CON_ENABLED 0.

(** [printk("<6>ok\nhi\n")]. *)
Lemma printk_correct_witness :
  let s := boot_klog {[ 1 := sample_con ]} [1] in
  let text := [60; 54; 62; 111; 107; 10; 104; 105; 10] in
  tag 4 (-1) text = [60; 54; 62; 111; 107; 10; 60; 52; 62; 104; 105; 10] ∧
  ∃ s', printk text [] s = Ok (s', 9) ∧ klog_ok (tag 4 (-1) text) s' ∧
    console_text 1 (written s') = [111; 107; 10; 104; 105; 10].
Proof.
  intros s text. split; [done|].
  destruct (printk_correct text [] text [] [] s) as (s' & E & H1 & _ & H2 & _).
  - apply boot_klog_ok. apply NoDup_singleton.
  - vm_compute. reflexivity.
  - vm_compute. discriminate.
  - exists s'. split_and!; [exact E|exact H1|]. rewrite H2. vm_compute. reflexivity.
Defined.
