(* ===== verification/Syslog.v ===== *)
(** The kernel log shared by printing code and any number of reading calls
    ([kernel/printk.c], [do_syslog]).  The calls interleave at every character:
    nothing is read twice, what is lost was overwritten, and the calls that ask
    for the last messages get a contiguous piece. *)

From Stdlib Require Import Sorted.
From S2P Require Import Prelude Errno Vsprintf Printk.

(** ** The system *)

(** A call in progress: whether it was woken and the log when it started. *)
Record entry := Entry { en_woken : bool; en_start : list Z; en_call : syslog_call }.

(** The log with its whole history, the characters that were read (with their
    positions in the history) and the positions that were overwritten unread. *)
Record logsys := Logsys {
  ls_klog : klog; ls_hist : list Z; ls_calls : list entry; ls_read : list (Z * Z); ls_lost : list Z
}.

(** The position of the first unread character. *)
Definition unread (hist : list Z) (r : ring) : Z := zlen hist - log_size r.

(** [wake_up_interruptible] on [log_wait]. *)
Definition wake_waiters (l : list entry) : list entry :=
  (λ e, Entry true (en_start e) (en_call e)) <$> l.

Definition continue (start : list Z) (e : syslog_end) (l : list entry) : list entry :=
  match e with SReturns _ _ => l | SGoesOn c => Entry false start c :: l end.

(** A round of a call in progress. *)
Definition call_round (c : syslog_call) (signal : bool) (s : klog) : klog * syslog_end :=
  match c with
  | Waiting len ubuf => wait_round len signal ubuf s
  | Reading len i ubuf => read_round len i ubuf s
  | Copying count limit i ubuf => copy_round count limit i ubuf s
  end.

(** The character a round of a reading call stored for the user, with the
    position that was read. *)
Definition taken (pos : Z) (c : syslog_call) (e : syslog_end) : list (Z * Z) :=
  match c, e with
  | Reading _ i _, SGoesOn (Reading _ _ ubuf) => [(pos, ubuf i)]
  | _, _ => []
  end.

Definition waits (c : syslog_call) : bool := match c with Waiting _ _ => true | _ => false end.

Inductive log_step (σ : logsys) : logsys → Prop :=
| step_print fmt args out ns k' :
    vsprintf fmt args = Ok (out, zlen out, ns) → zlen out <= 1020 →
    printk fmt args (ls_klog σ) = Ok (k', zlen out) →
    let hist' := ls_hist σ ++ tag (default_message_loglevel (lv (ls_klog σ))) (msg_level (ls_klog σ)) out in
    let u := unread (ls_hist σ) (the_ring (ls_klog σ)) in
    log_step σ (Logsys k' hist' (wake_waiters (ls_calls σ)) (ls_read σ)
      (ls_lost σ ++ seqZ u (unread hist' (the_ring k') - u)))
| step_call capable type null len verify signal ubuf k' e :
    - 2 ^ 31 <= len < 2 ^ 31 →
    sys_syslog capable type null len verify signal ubuf (ls_klog σ) = (k', e) →
    log_step σ (Logsys k' (ls_hist σ) (continue (ls_hist σ) e (ls_calls σ)) (ls_read σ) (ls_lost σ))
| step_round l1 woken start c l2 signal k' e :
    ls_calls σ = l1 ++ Entry woken start c :: l2 →
    (waits c = true → woken = true ∨ signal = true) →
    call_round c signal (ls_klog σ) = (k', e) →
    log_step σ (Logsys k' (ls_hist σ) (continue start e (l1 ++ l2))
      (ls_read σ ++ taken (unread (ls_hist σ) (the_ring (ls_klog σ))) c e) (ls_lost σ)).

Definition boot_system (cons : gmap Z console) (drivers : list Z) : logsys :=
  Logsys (boot_klog cons drivers) [] [] [] [].

(** ** Invariant *)

(** A copying call has stored the characters below the end of the log at its
    start, from the last one down. *)
Definition copying_ok (start : list Z) (count limit i : Z) (ubuf : Z → Z) : Prop :=
  limit = zlen start ∧ 0 <= i <= count ∧ count <= LOG_BUF_LEN ∧ count <= zlen start ∧
  ∀ k, 0 <= k < i → ubuf (count - 1 - k) = start !!! Z.to_nat (limit - 1 - k).

(** The positions stay below 2^32. *)
Definition short_log (hist : list Z) : Prop := zlen hist + LOG_BUF_LEN < 2 ^ 32.

Definition entry_ok (hist : list Z) (r : ring) (e : entry) : Prop :=
  en_start e `prefix_of` hist ∧
  match en_call e with
  | Waiting _ _ => en_woken e = false → log_size r = 0
  | Reading _ i _ => 0 <= i
  | Copying count limit i ubuf => short_log hist → copying_ok (en_start e) count limit i ubuf
  end.

Record sys_ok (σ : logsys) : Prop := {
  so_klog : klog_ok (ls_hist σ) (ls_klog σ);
  so_read : Forall (λ x, 0 <= x.1 ∧ ls_hist σ !! Z.to_nat x.1 = Some x.2) (ls_read σ);
  so_once : (ls_read σ).*1 ++ ls_lost σ ≡ₚ seqZ 0 (unread (ls_hist σ) (the_ring (ls_klog σ)));
  so_order : StronglySorted Z.lt (ls_read σ).*1;
  so_lost : Forall (λ k, k + LOG_BUF_LEN < zlen (ls_hist σ)) (ls_lost σ);
  so_calls : Forall (entry_ok (ls_hist σ) (the_ring (ls_klog σ))) (ls_calls σ)
}.

Lemma boot_system_ok cons drivers : NoDup drivers → sys_ok (boot_system cons drivers).
Proof. intros H. constructor; simpl; try done; [by apply boot_klog_ok|constructor]. Qed.

(** ** Printing *)

Lemma log_chars_size hist l r : ring_ok hist r →
  log_size (log_chars l r) = Z.min LOG_BUF_LEN (log_size r + zlen l).
Proof.
  revert hist r. induction l as [|c l IH]; intros hist r H.
  { rewrite zlen_nil. destruct H as [_ _ [? ?] _ _]. simpl. lia. }
  simpl. rewrite (IH (hist ++ [c])) by (by apply log_char_ok). rewrite zlen_cons.
  pose proof (zlen_nonneg l). destruct H as [_ _ [? ?] _ _]. unfold log_char. destruct (Z.ltb_spec (log_size r) LOG_BUF_LEN); simpl; [|lia].
  rewrite (wrap_small 32 (log_size r + 1)) by (unfold LOG_BUF_LEN in *; lia). lia.
Qed.

Lemma prefix_lookup_total (l k : list Z) i : l `prefix_of` k → (i < length l)%nat → k !!! i = l !!! i.
Proof. intros [m ->] Hi. by rewrite lookup_total_app_l. Qed.

Lemma short_log_prefix l k : l `prefix_of` k → short_log k → short_log l.
Proof. intros [m ->]. unfold short_log. rewrite zlen_app. pose proof (zlen_nonneg m). lia. Qed.

(** Calls go on in a longer log; those that wait have been woken. *)
Lemma entry_ok_grow hist hist' r r' w e :
  hist `prefix_of` hist' → entry_ok hist r e →
  (waits (en_call e) = true → w = false → log_size r' = 0) → entry_ok hist' r' (Entry w (en_start e) (en_call e)).
Proof.
  intros Hp [H1 H2] Hw. split; [by transitivity hist|]. cbn. destruct (en_call e); auto.
  intros Hs. apply H2. by eapply short_log_prefix.
Qed.

Lemma read_app_lookup (hist l : list Z) (x : Z * Z) :
  0 <= x.1 ∧ hist !! Z.to_nat x.1 = Some x.2 → 0 <= x.1 ∧ (hist ++ l) !! Z.to_nat x.1 = Some x.2.
Proof. intros [? ?]. split; [done|]. by apply lookup_app_l_Some. Qed.

Lemma print_ok σ fmt args out ns k' :
  sys_ok σ → vsprintf fmt args = Ok (out, zlen out, ns) → zlen out <= 1020 →
  printk fmt args (ls_klog σ) = Ok (k', zlen out) →
  let hist' := ls_hist σ ++ tag (default_message_loglevel (lv (ls_klog σ))) (msg_level (ls_klog σ)) out in
  let u := unread (ls_hist σ) (the_ring (ls_klog σ)) in
  sys_ok (Logsys k' hist' (wake_waiters (ls_calls σ)) (ls_read σ)
      (ls_lost σ ++ seqZ u (unread hist' (the_ring k') - u))).
Proof.
  intros [H1 H2 H3 H4 H5 H6] Ev Hlen E hist' u.
  destruct (printk_spec _ _ _ _ _ _ H1 Ev Hlen) as (s' & E' & K1 & _ & K2 & _). rewrite E in E'. injection E' as <-.
  fold hist' in K1. set (l := tag _ _ out) in *. clearbody l.
  assert (log_size (the_ring k') = Z.min LOG_BUF_LEN (log_size (the_ring (ls_klog σ)) + zlen l)) as Esz.
  { rewrite K2. by apply (log_chars_size (ls_hist σ)), H1. }
  destruct H1 as [[_ _ [? ?] _ _] _ _ _]. pose proof (zlen_nonneg l).
  assert (zlen hist' = zlen (ls_hist σ) + zlen l) as El by apply zlen_app.
  assert (0 <= u <= unread hist' (the_ring k')) as Hu by (unfold u, unread in *; lia).
  constructor; simpl; try done.
  - eapply Forall_impl; [|exact H2]. intros x. apply read_app_lookup.
  - rewrite app_assoc, H3. fold u. replace (unread hist' (the_ring k')) with (u + (unread hist' (the_ring k') - u)) at 2 by lia.
    by rewrite seqZ_app by lia.
  - apply Forall_app. split.
    + eapply Forall_impl; [|exact H5]. simpl. lia.
    + apply Forall_lookup. intros i k Hk. apply lookup_seqZ in Hk. subst u. unfold unread in *. lia.
  - apply Forall_fmap. eapply Forall_impl; [|exact H6]. intros e He. unfold compose.
    apply (entry_ok_grow (ls_hist σ) _ (the_ring (ls_klog σ)) _ true e); [by apply prefix_app_r|done|done].
Qed.

(** ** Reading calls *)

Lemma continue_ok P start e l :
  Forall P l → (∀ c, e = SGoesOn c → P (Entry false start c)) → Forall P (continue start e l).
Proof. intros Hl He. destruct e; simpl; [done|]. constructor; auto. Qed.

Lemma copying_start hist r ubuf count :
  ring_ok hist r → short_log hist → 0 <= count <= LOG_BUF_LEN → count <= logged_chars r →
  copying_ok hist count (u32 (log_start r + log_size r)) 0 ubuf.
Proof.
  intros [H1 _ _ H4 _] Hs Hc Hl. unfold short_log, LOG_BUF_LEN in *. pose proof (zlen_nonneg hist).
  unfold copying_ok, LOG_BUF_LEN. rewrite H1, wrap_small by lia. split_and!; lia.
Qed.

(** The state of the log after a call that does not read. *)
Lemma set_level_ok hist s n : klog_ok hist s → klog_ok hist (set_console_loglevel n s).
Proof. by intros [? ? ? ?]. Qed.

Lemma clear_ok hist s : klog_ok hist s → klog_ok hist (set_ring (clear_logged (the_ring s)) s).
Proof.
  intros [[H1 H2 H3 H4 H5] ? ? ?]. constructor; simpl; try done. constructor; simpl; try done.
  pose proof (zlen_nonneg hist). lia.
Qed.

(** Starting a call. *)
Lemma sys_syslog_ok hist capable type null len verify signal ubuf s s' e :
  klog_ok hist s → sys_syslog capable type null len verify signal ubuf s = (s', e) →
  klog_ok hist s' ∧ log_size (the_ring s') = log_size (the_ring s) ∧
  ∀ c, e = SGoesOn c → entry_ok hist (the_ring s') (Entry false hist c).
Proof.
  intros H. unfold sys_syslog. destruct (_ && _); [by intros [= <- <-]|]. unfold do_syslog.
  destruct (_ || _); [by intros [= <- <-]|].
  destruct (type =? 2).
  { destruct (check_buffer null len verify); [by intros [= <- <-]|]. unfold wait_round.
    destruct (c_true _) eqn:Et; [intros [= <- <-]; split_and!; try done; intros c [= <-]; by split|].
    destruct signal; [by intros [= <- <-]|]. intros [= <- <-]. split_and!; try done. intros c [= <-]. split; [done|].
    intros _. unfold c_true in Et. simpl. by destruct (Z.eqb_spec (log_size (the_ring s)) 0). }
  destruct (_ || _).
  { destruct (check_buffer null len verify) eqn:Ec; [by intros [= <- <-]|].
    assert (0 < len) as Hlen.
    { unfold check_buffer in Ec. destruct null; [done|]. simpl in Ec.
      destruct (Z.ltb_spec len 0); [done|]. destruct (Z.eqb_spec len 0); [done|lia]. }
    set (count := if logged_chars (the_ring s) <? _ then _ else _). intros [= <- <-].
    assert (0 <= count <= LOG_BUF_LEN ∧ count <= logged_chars (the_ring s)) as Hcount.
    { destruct H as [[_ _ _ ? _] _ _ _]. unfold count. unfold LOG_BUF_LEN in *. zbool; lia. }
    split; [destruct (type =? 4); [by apply clear_ok|done]|].
    split; [by destruct (type =? 4)|]. intros c [= <-]. split; [done|]. simpl. intros Hs.
    apply copying_start; try tauto. apply H. }
  destruct (type =? 5); [intros [= <- <-]; by split; [apply clear_ok|]|].
  destruct (type =? 6); [intros [= <- <-]; by split; [apply set_level_ok|]|].
  destruct (type =? 7); [intros [= <- <-]; by split; [apply set_level_ok|]|].
  destruct (type =? 8); [|by intros [= <- <-]].
  destruct (_ || _); intros [= <- <-]; [done|]. by split; [apply set_level_ok|].
Qed.

(** ** Rounds *)

(** The first unread character is at [log_start]. *)
Lemma ring_front hist r : ring_ok hist r → log_start r mod LOG_BUF_LEN = unread hist r mod LOG_BUF_LEN.
Proof.
  intros [H1 _ _ _ _]. unfold unread. apply (f_equal (λ z, z mod LOG_BUF_LEN)) in H1. rewrite !u32_mod in H1.
  replace (log_start r) with (log_start r + log_size r - log_size r) by lia.
  by rewrite Zminus_mod, H1, <- Zminus_mod.
Qed.

Lemma ring_front_char hist r :
  ring_ok hist r → log_size r ≠ 0 →
  hist !! Z.to_nat (unread hist r) = Some (log_buf r (Z.land (log_start r) LOG_BUF_MASK)).
Proof.
  intros H Hne. pose proof H as [_ _ [H1 H2] _ H5]. rewrite mask_mod, (ring_front hist) by done.
  unfold unread, zlen in *. rewrite H5 by (unfold zlen; lia). apply list_lookup_lookup_total_lt. lia.
Qed.

Definition pop_ring (r : ring) : ring :=
  Ring (log_buf r) (u32 (log_start r + 1)) (u32 (log_size r - 1)) (logged_chars r).

Lemma pop_ring_ok hist r : ring_ok hist r → log_size r ≠ 0 →
  ring_ok hist (pop_ring r) ∧ log_size (pop_ring r) = log_size r - 1.
Proof.
  intros [H1 H2 [H3 H3'] H4 H5] Hne.
  assert (u32 (log_size r - 1) = log_size r - 1) as E by (apply wrap_small; unfold LOG_BUF_LEN in *; lia).
  split; [|done]. constructor; simpl; rewrite ?E; try done; try lia.
  - rewrite <- H1. unfold wrap. rewrite Zplus_mod_idemp_l. f_equal. lia.
  - apply wrap_bound. lia.
Qed.

Lemma others_ok hist r r' l1 e l2 :
  Forall (entry_ok hist r) (l1 ++ e :: l2) → (log_size r = 0 → log_size r' = 0) →
  Forall (entry_ok hist r') (l1 ++ l2).
Proof.
  intros H Hz. apply Forall_app in H as [H1 [_ H2]%Forall_cons_1].
  apply Forall_app. split; (eapply Forall_impl; [|eassumption]); intros [w start c] [? Hc]; (split; [done|]);
    destruct c; simpl in *; auto.
Qed.

(** The last position that was read is below the unread ones. *)
Lemma once_below {A} (read : list (Z * A)) lost u :
  read.*1 ++ lost ≡ₚ seqZ 0 u → Forall (λ k, 0 <= k < u) read.*1.
Proof.
  intros H. apply Forall_forall. intros k Hk.
  apply list_elem_of_In in Hk. assert (k ∈ seqZ 0 u) as Hin by (rewrite <- H; apply elem_of_app; by left).
  apply elem_of_seqZ in Hin. lia.
Qed.

Lemma sorted_snoc l k : StronglySorted Z.lt l → Forall (λ x, x < k) l → StronglySorted Z.lt (l ++ [k]).
Proof.
  induction 1 as [|x l Hs IH Hx]; intros Hk; simpl; [repeat constructor|].
  apply Forall_cons_1 in Hk as [? ?]. constructor; [auto|]. apply Forall_app. split; [done|]. by constructor.
Qed.

Lemma read_round_ok σ l1 woken start len i ubuf l2 k' e :
  sys_ok σ → ls_calls σ = l1 ++ Entry woken start (Reading len i ubuf) :: l2 →
  read_round len i ubuf (ls_klog σ) = (k', e) →
  sys_ok (Logsys k' (ls_hist σ) (continue start e (l1 ++ l2))
    (ls_read σ ++ taken (unread (ls_hist σ) (the_ring (ls_klog σ))) (Reading len i ubuf) e) (ls_lost σ)).
Proof.
  intros [H1 H2 H3 H4 H5 H6] El. unfold read_round. rewrite El in H6.
  pose proof (H6 : Forall _ _) as H6'. apply Forall_app in H6' as [_ [[Hp Hi] _]%Forall_cons_1]. simpl in Hi, Hp.
  set (r := the_ring (ls_klog σ)) in *. destruct (c_true (log_size r)) eqn:Et; simpl.
  2: { intros [= <- <-]. simpl. rewrite app_nil_r. constructor; simpl; try done. by eapply others_ok. }
  destruct (i <? len).
  2: { intros [= <- <-]. simpl. rewrite app_nil_r. constructor; simpl; try done. by eapply others_ok. }
  intros [= <- <-]. apply c_true_spec in Et. assert (ring_ok (ls_hist σ) r) as Hr by apply H1.
  destruct (pop_ring_ok _ r Hr Et) as [Hr' Esz]. fold (pop_ring r). cbn [taken].
  assert (unread (ls_hist σ) (pop_ring r) = unread (ls_hist σ) r + 1) as Eu by (unfold unread; lia).
  assert (0 <= unread (ls_hist σ) r) as Hu by (unfold unread; destruct Hr as [_ _ [? ?] _ _]; lia).
  constructor; cbn [ls_klog ls_hist ls_calls ls_read ls_lost the_ring set_ring].
  - destruct H1 as [? ? ? ?]. by constructor.
  - apply Forall_app. split; [done|]. constructor; [|done]. simpl. split; [done|].
    unfold upd. rewrite Z.eqb_refl. by apply ring_front_char.
  - rewrite fmap_app. simpl. rewrite Eu, seqZ_app by lia. rewrite <- H3. simpl.
    rewrite <- !app_assoc. f_equiv. apply Permutation_app_comm.
  - rewrite fmap_app. apply sorted_snoc; [done|]. eapply Forall_impl; [|by eapply once_below]. simpl. lia.
  - done.
  - apply continue_ok; [eapply others_ok; [done|done]|]. intros c [= <-]. split; [done|]. simpl. lia.
Qed.

Lemma copy_round_entry hist r start count limit i ubuf s k' e :
  klog_ok hist s → the_ring s = r → start `prefix_of` hist →
  (short_log hist → copying_ok start count limit i ubuf) →
  copy_round count limit i ubuf s = (k', e) →
  k' = s ∧ ∀ c, e = SGoesOn c → entry_ok hist r (Entry false start c) ∧ ∀ pos, taken pos (Copying count limit i ubuf) e = [].
Proof.
  intros Hk <- Hp Hc. unfold copy_round. destruct (Z.ltb_spec i count) as [Hlt|]; [|by intros [= <- <-]].
  destruct (Z.ltb_spec (u32 (u32 (limit - 1 - i) + LOG_BUF_LEN)) (u32 (log_start (the_ring s) + log_size (the_ring s))))
    as [|Hnot]; intros [= <- <-]; [done|]. split; [done|]. intros c [= <-]. split; [|done]. split; [done|].
  cbn. intros Hs. destruct (Hc Hs) as (-> & Hi & H1 & H2 & H3). destruct Hk as [[R1 R2 R3 R4 R5] _ _ _].
  pose proof (prefix_length _ _ Hp). unfold short_log, LOG_BUF_LEN, zlen in *.
  assert (u32 (Z.of_nat (length start) - 1 - i) = Z.of_nat (length start) - 1 - i) as Ej by (apply wrap_small; lia).
  rewrite R1, Ej, !wrap_small in Hnot by lia. rewrite Ej.
  unfold copying_ok, zlen, LOG_BUF_LEN. split_and!; try lia. intros k Hk. unfold upd.
  destruct (Z.eqb_spec (count - 1 - k) (count - 1 - i)) as [E|E].
  - assert (k = i) as -> by lia. rewrite mask_mod, R5 by (unfold LOG_BUF_LEN; lia).
    apply prefix_lookup_total; [done|lia].
  - apply H3. lia.
Qed.

Lemma log_step_ok σ σ' : sys_ok σ → log_step σ σ' → sys_ok σ'.
Proof.
  intros H. destruct 1 as [fmt args out ns k' Ev Hlen E|capable type null len verify signal ubuf k' e Hlen E
    |l1 woken start c l2 signal k' e El Hw E].
  - by eapply print_ok.
  - destruct H as [H1 H2 H3 H4 H5 H6]. destruct (sys_syslog_ok _ _ _ _ _ _ _ _ _ _ _ H1 E) as (K1 & K2 & K3).
    assert (unread (ls_hist σ) (the_ring k') = unread (ls_hist σ) (the_ring (ls_klog σ))) as Eu by (unfold unread; by rewrite K2).
    constructor; simpl; rewrite ?Eu; try done. apply continue_ok; [|done].
    eapply Forall_impl; [|exact H6]. intros [w st c] [? Hc]. split; [done|]. destruct c; simpl in *; auto. by rewrite K2.
  - destruct c as [len ubuf|len i ubuf|count limit i ubuf]; cbn [call_round] in E.
    + unfold wait_round in E. cbn [taken]. rewrite app_nil_r. destruct H as [H1 H2 H3 H4 H5 H6].
      assert (k' = ls_klog σ ∧ ∀ c, e = SGoesOn c → (∃ len ubuf, c = Reading len 0 ubuf) ∨
        log_size (the_ring (ls_klog σ)) = 0 ∧ waits c = true) as [-> Hc].
      { unfold c_true in E. destruct (Z.eqb_spec (log_size (the_ring (ls_klog σ))) 0); simpl in E.
        - destruct signal; injection E as <- <-; (split; [done|]); [done|]. intros c [= <-]. by right.
        - injection E as <- <-. split; [done|]. intros c [= <-]. left. eauto. }
      rewrite El in H6. constructor; simpl; try done. apply continue_ok; [by eapply others_ok|].
      intros c Ec. apply Forall_app in H6 as [_ [[Hp _] _]%Forall_cons_1]. split; [done|]. simpl.
      destruct (Hc c Ec) as [(? & ? & ->)|[Hz Hwt]]; [done|]. by destruct c.
    + by eapply read_round_ok.
    + destruct H as [H1 H2 H3 H4 H5 H6]. rewrite El in H6.
      pose proof (H6 : Forall _ _) as H6'. apply Forall_app in H6' as [_ [[Hp Hc] _]%Forall_cons_1]. simpl in Hp, Hc.
      destruct (copy_round_entry _ _ _ _ _ _ _ _ _ _ H1 eq_refl Hp Hc E) as [-> Hce].
      cbn [taken]. rewrite app_nil_r. constructor; simpl; try done. apply continue_ok; [by eapply others_ok|].
      intros c Ec. by apply Hce.
Qed.

Lemma log_reachable_ok cons drivers σ :
  NoDup drivers → rtc log_step (boot_system cons drivers) σ → sys_ok σ.
Proof.
  intros Hd Hr. pose proof (boot_system_ok cons drivers Hd) as H0. induction Hr; eauto using log_step_ok.
Qed.

(** ** Results *)

Lemma shift_down_spec n i offset ubuf :
  0 <= offset → ∀ j, i <= j < i + Z.of_nat n → shift_down n i offset ubuf j = ubuf (j + offset).
Proof.
  intros Ho. revert i ubuf. assert (∀ n i ubuf j, j < i → shift_down n i offset ubuf j = ubuf j) as Hlow.
  { clear n. intros n. induction n as [|n IH]; intros i ubuf j Hj; cbn [shift_down]; [done|].
    rewrite IH by lia. unfold upd. by destruct (Z.eqb_spec j i); [lia|]. }
  induction n as [|n IH]; intros i ubuf j Hj; cbn [shift_down]; [lia|].
  destruct (decide (j = i)) as [->|Hne].
  - rewrite Hlow by lia. unfold upd. by rewrite Z.eqb_refl.
  - rewrite IH by lia. unfold upd. by destruct (Z.eqb_spec (j + offset) i); [lia|].
Qed.

Lemma slice_of_list a (l : list Z) i n :
  0 <= i → 0 <= n → i + n <= zlen l → (∀ k, 0 <= k < n → a k = l !!! Z.to_nat (i + k)) →
  slice a 0 n = take (Z.to_nat n) (drop (Z.to_nat i) l).
Proof.
  intros Hi Hn Hl Ha. unfold zlen in Hl. apply list_eq. intros k. unfold slice. rewrite list_lookup_fmap.
  destruct (decide (Z.of_nat k < n)) as [Hk|Hk].
  - rewrite (proj2 (lookup_seqZ 0 n k (Z.of_nat k))) by lia. simpl.
    rewrite Ha, lookup_take_lt, lookup_drop by lia. symmetry.
    replace (Z.to_nat (i + Z.of_nat k)) with (Z.to_nat i + k)%nat by lia. apply list_lookup_lookup_total_lt. lia.
  - rewrite lookup_seqZ_ge by lia. symmetry. apply lookup_ge_None. rewrite length_take. lia.
Qed.

(** What a copying call returns. *)
Lemma copy_end_spec start count limit i ubuf error ubuf' :
  copying_ok start count limit i ubuf → copy_end count i ubuf = SReturns error ubuf' →
  error = i ∧ slice ubuf' 0 i = drop (length start - Z.to_nat i) start.
Proof.
  intros (-> & Hi & H1 & H2 & H3). unfold LOG_BUF_LEN in *. unfold copy_end.
  rewrite !(swrap_small 32 i), (swrap_small 32 (count - i)) by lia. intros [= <- <-]. split; [done|].
  assert (∀ k, 0 <= k < i → (if negb (i =? count) then shift_down (Z.to_nat i) 0 (count - i) ubuf else ubuf) k
    = start !!! Z.to_nat (zlen start - i + k)) as Hk.
  { intros k Hk. replace (zlen start - i + k) with (zlen start - 1 - (i - 1 - k)) by lia. rewrite <- H3 by lia.
    destruct (Z.eqb_spec i count) as [->|]; simpl; [f_equal; lia|]. rewrite shift_down_spec by lia. f_equal. lia. }
  rewrite (slice_of_list _ start (zlen start - i) i) by (lia || done). unfold zlen in *.
  replace (Z.to_nat (Z.of_nat (length start) - i)) with (length start - Z.to_nat i)%nat by lia.
  apply take_ge. rewrite length_drop. lia.
Qed.

(** C19: Any number of calls that read the log run at the same time as messages
    are printed, and the lock is released between any two characters.  In each
    state that can be reached, the characters handed to readers stand at
    increasing positions of the log; every position below the first unread one
    was handed out once or is among those that were lost, and a position is lost
    only after at least 16384 further characters were logged.  A reader that
    sleeps without having been woken has nothing to read. *)
Theorem log_read_once cons drivers σ :
  NoDup drivers → rtc log_step (boot_system cons drivers) σ →
  let hist := ls_hist σ in let r := the_ring (ls_klog σ) in
  (ls_read σ).*1 ++ ls_lost σ ≡ₚ seqZ 0 (unread hist r) ∧
  StronglySorted Z.lt (ls_read σ).*1 ∧
  Forall (λ x, hist !! Z.to_nat x.1 = Some x.2) (ls_read σ) ∧
  Forall (λ k, k + LOG_BUF_LEN < zlen hist) (ls_lost σ) ∧
  (∀ start len ubuf, Entry false start (Waiting len ubuf) ∈ ls_calls σ → unread hist r = zlen hist).
Proof.
  intros Hd Hr hist r. destruct (log_reachable_ok _ _ _ Hd Hr) as [H1 H2 H3 H4 H5 H6]. split_and!; try done.
  - eapply Forall_impl; [|exact H2]. by intros x [_ ?].
  - intros start len ubuf He. rewrite Forall_forall in H6. apply list_elem_of_In in He.
    destruct (H6 _ He) as [_ Hw]. simpl in Hw. unfold unread. fold r in Hw. rewrite Hw by done. lia.
Qed.


(** ** A run: a line is printed, then read or copied *)

Definition run_text : list Z := [60; 54; 62; 111; 10].
Definition run_boot : klog := boot_klog ∅ [].
Definition run_klog : klog := match printk run_text [] run_boot with Ok (k, _) => k | Trap _ => run_boot end.
Definition run_printed : logsys := Logsys run_klog run_text [] [] [].

Lemma run_print : log_step (boot_system ∅ []) run_printed.
Proof.
  assert (printk run_text [] run_boot = Ok (run_klog, 5)) as E by (vm_compute; reflexivity).
  pose proof (step_print (boot_system ∅ []) run_text [] run_text [] run_klog) as H. cbn zeta in H.
  change (ls_klog (boot_system ∅ [])) with run_boot in H.
  assert (log_size (the_ring run_klog) = 5) as Es by (vm_compute; reflexivity).
  unfold unread in H. rewrite Es in H. apply H; [vm_compute; reflexivity|vm_compute; discriminate|exact E].
Qed.

(** The last character of the log is asked for. *)
Definition run_call (i : Z) : syslog_call :=
  Copying 1 5 i (if i =? 0 then λ _, 0 else upd (λ _, 0) 0 10).
Definition run_called (i : Z) : logsys := Logsys run_klog run_text [Entry false run_text (run_call i)] [] [].

Lemma run_call_step : log_step run_printed (run_called 0).
Proof.
  apply (step_call run_printed false 3 false 1 0 false (λ _, 0) run_klog (SGoesOn (run_call 0))); [lia|].
  vm_compute. reflexivity.
Qed.

Lemma run_round_step : log_step (run_called 0) (run_called 1).
Proof.
  apply (step_round (run_called 0) [] false run_text (run_call 0) [] false run_klog (SGoesOn (run_call 1)));
    [done|done|]. vm_compute. reflexivity.
Qed.

Lemma run_reachable : rtc log_step (boot_system ∅ []) (run_called 1).
Proof. eapply rtc_l; [exact run_print|]. eapply rtc_l; [exact run_call_step|]. apply rtc_once, run_round_step. Qed.


(** The first character is read. *)
Definition run_reading (i : Z) : syslog_call :=
  Reading 3 i (if i =? 0 then λ _, 0 else upd (λ _, 0) 0 60).
Definition run_popped : klog := set_ring (pop_ring (the_ring run_klog)) run_klog.

Lemma run_read_reachable :
  rtc log_step (boot_system ∅ []) (Logsys run_popped run_text [Entry false run_text (run_reading 1)] [(0, 60)] []).
Proof.
  eapply rtc_l; [exact run_print|].
  eapply rtc_l; [apply (step_call run_printed true 2 false 3 0 false (λ _, 0) run_klog (SGoesOn (run_reading 0)));
    [lia|vm_compute; reflexivity]|].
  apply rtc_once. apply (step_round (Logsys run_klog run_text [Entry false run_text (run_reading 0)] [] [])
    [] false run_text (run_reading 0) [] false run_popped (SGoesOn (run_reading 1))); [done|done|].
  vm_compute. reflexivity.
Qed.

Lemma log_read_once_witness :
  ∃ σ, rtc log_step (boot_system ∅ []) σ ∧ ls_read σ = [(0, 60)] ∧
    (ls_read σ).*1 ++ ls_lost σ ≡ₚ seqZ 0 (unread (ls_hist σ) (the_ring (ls_klog σ))).
Proof.
  eexists. split; [exact run_read_reachable|]. split; [reflexivity|].
  apply (log_read_once ∅ [] _ (NoDup_nil_2) run_read_reachable).
Defined.

(** ** Near the wrap-around

    The positions are 32 bits wide: when the end of the log is within 16384
    characters of the wrap-around, the test for overwritten characters fails and
    the call returns nothing. *)
Lemma copy_near_wraparound (b : Z → Z) (s : klog) :
  the_ring s = Ring b (2 ^ 32 - 20) 10 10 →
  copy_round 10 (2 ^ 32 - 10) 0 (λ _, 0) s = (s, copy_end 10 0 (λ _, 0)).
Proof. intros E. unfold copy_round. by rewrite E. Qed.
