(* ===== verification/Console.v ===== *)
(** The consoles of [kernel/printk.c]: the options of the command line,
    registering and unregistering a console, and the replay of the log when a
    console is registered. *)

From S2P Require Import Prelude Errno Ctype Vsprintf Printk Syslog.

(** ** Setters *)

Definition set_consoles (m : gmap Z console) (s : klog) : klog :=
  Klog (pk_buf s) (the_ring s) (msg_level s) (lv s) m (console_drivers s) (console_cmdline s)
    (preferred_console s) (written s) (unblanked s).
Definition set_drivers (l : list Z) (s : klog) : klog :=
  Klog (pk_buf s) (the_ring s) (msg_level s) (lv s) (consoles s) l (console_cmdline s)
    (preferred_console s) (written s) (unblanked s).
Definition set_cmdline (l : list cmdline) (s : klog) : klog :=
  Klog (pk_buf s) (the_ring s) (msg_level s) (lv s) (consoles s) (console_drivers s) l
    (preferred_console s) (written s) (unblanked s).
Definition set_preferred (i : Z) (s : klog) : klog :=
  Klog (pk_buf s) (the_ring s) (msg_level s) (lv s) (consoles s) (console_drivers s) (console_cmdline s)
    i (written s) (unblanked s).
Definition add_unblanked (l : list Z) (s : klog) : klog :=
  Klog (pk_buf s) (the_ring s) (msg_level s) (lv s) (consoles s) (console_drivers s) (console_cmdline s)
    (preferred_console s) (written s) (unblanked s ++ l).

Definition set_flags (f : Z) (c : console) : console :=
  Con (con_name c) (con_write c) (con_unblank c) (con_setup c) (swrap 16 f) (con_index c).
Definition set_index (i : Z) (c : console) : console :=
  Con (con_name c) (con_write c) (con_unblank c) (con_setup c) (con_flags c) (swrap 16 i).

(** ** The command line *)

Definition digit (c : Z) : bool := (48 <=? c) && (c <=? 57).

(** The part of a string in front of the first character with [f], and the rest
    from that character on. *)
Fixpoint break_at (f : Z → bool) (s : list Z) : list Z * list Z :=
  match s with
  | [] => ([], [])
  | c :: s => if f c then ([], c :: s) else let '(a, b) := break_at f s in (c :: a, b)
  end.

(** The slot of a console that was named before, or the first free one. *)
Fixpoint find_slot (name : list Z) (idx i : Z) (l : list cmdline) : Z * bool :=
  match l with
  | [] => (i, false)
  | c :: l =>
      if bool_decide (cl_name c = []) then (i, false)
      else if bool_decide (cl_name c = name) && (cl_index c =? idx) then (i, true)
      else find_slot name idx (i + 1) l
  end.

Definition console_setup (str : list Z) (s : klog) : klog * Z :=
  let name := if digit (hd0 str) then [116; 116; 121; 83] ++ take 3 str else take 7 str in
  let options := match (break_at (λ c, c =? 44) str).2 with [] => None | _ :: o => Some o end in
  let '(name, digits) := break_at digit name in
  let idx := s32 (simple_strtoul digits 10).1 in
  let '(i, known) := find_slot name idx 0 (console_cmdline s) in
  if known : bool then (set_preferred i s, 1)
  else if i =? Z.of_nat MAX_CMDLINECONSOLES then (s, 1)
  else (set_preferred i (set_cmdline (<[Z.to_nat i := CmdSlot name idx options]> (console_cmdline s)) s), 1).

(** Without a leading [/dev/]. *)
Definition CONSOLE_setup (str : list Z) (s : klog) : klog * Z :=
  if bool_decide (take 5 str = [47; 100; 101; 118; 47]) then console_setup (drop 5 str) s else console_setup str s.

(** ** Output to all consoles *)

Definition console_print (msg : list Z) (s : klog) : klog := write_consoles msg s.

Definition unblank_console (s : klog) : klog :=
  add_unblanked (filter (λ c, active con_unblank s c = true) (console_drivers s)) s.

(** ** Registering *)

Definition run_setup (con : console) (options : option (list Z)) : Z :=
  match con_setup con with None => 0 | Some f => f (con_index con) options end.

(** Without a selected console the first one is taken. *)
Definition take_first (con : console) (preferred : Z) : console * Z :=
  if preferred <? 0 then
    let con := if con_index con <? 0 then set_index 0 con else con in
    if run_setup con None =? 0 then
      (set_flags (Z.lor (con_flags con) (Z.lor CON_ENABLED CON_CONSDEV)) con, 0)
    else (con, preferred)
  else (con, preferred).

(** The loop over the consoles of the command line. *)
Fixpoint match_cmdline (i : Z) (l : list cmdline) (preferred : Z) (con : console) : console :=
  match l with
  | [] => con
  | c :: l =>
      if bool_decide (cl_name c = []) then con
      else if negb (bool_decide (cl_name c = con_name con)) then match_cmdline (i + 1) l preferred con
      else if (0 <=? con_index con) && negb (con_index con =? cl_index c) then match_cmdline (i + 1) l preferred con
      else
        let con := if con_index con <? 0 then set_index (cl_index c) con else con in
        if negb (run_setup con (cl_options c) =? 0) then con
        else
          let con := set_index (cl_index c) (set_flags (Z.lor (con_flags con) CON_ENABLED) con) in
          if i =? preferred then set_flags (Z.lor (con_flags con) CON_CONSDEV) con else con
  end.

(** The level of a piece at the start of a line: level, and what is written. *)
Definition piece_level (dflt m j : Z) (buf : Z → Z) : Z * list Z :=
  if m <? 0 then
    if (buf 0 =? 60) && (48 <=? buf 1) && (buf 1 <=? 55) && (buf 2 =? 62)
    then (s8 (buf 1 - 48), slice buf 3 (j - 3))
    else (s8 dflt, slice buf 0 j)
  else (m, slice buf 0 j).

(** The loop that prints the buffered log in pieces of at most 15 characters:
    [n] characters are left, [p] is the position of the next one, [j]
    characters are in [buf].  The pieces that are written. *)
Fixpoint replay (lv : levels) (r : ring) (n : nat) (p j m : Z) (buf : Z → Z) : list (list Z) :=
  match n with
  | O => []
  | S n =>
      let c := log_buf r p in
      let buf := upd buf j c in
      let j := j + 1 in
      let p := Z.land (p + 1) LOG_BUF_MASK in
      if negb (c =? 10) && bool_decide (n ≠ 0%nat) && (j <? 15) then replay lv r n p j m buf
      else
        let buf := upd buf j 0 in
        let '(m, q) := piece_level (default_message_loglevel lv) m j buf in
        (if m <? console_loglevel lv then [q] else [])
        ++ replay lv r n p 0 (if c =? 10 then -1 else m) buf
  end.

(** [register_console]; [junk] is what is on the stack. *)
Definition register_console (c : Z) (junk : Z → Z) (s : klog) : outcome klog :=
  match consoles s !! c with
  | None => Trap Fault
  | Some con =>
      let '(con, preferred) := take_first con (preferred_console s) in
      let con := match_cmdline 0 (console_cmdline s) preferred con in
      let s := set_consoles (<[c := con]> (consoles s)) (set_preferred preferred s) in
      if negb (c_true (Z.land (con_flags con) CON_ENABLED)) then Ok s else
      let drivers :=
        match console_drivers s with
        | [] => [c]
        | d :: l => if c_true (Z.land (con_flags con) CON_CONSDEV) then c :: d :: l else d :: c :: l
        end in
      let s := set_drivers drivers s in
      if Z.land (con_flags con) CON_PRINTBUFFER =? 0 then Ok s else
      let pieces := replay (lv s) (the_ring s) (Z.to_nat (log_size (the_ring s)))
                      (Z.land (log_start (the_ring s)) LOG_BUF_MASK) 0 (-1) junk in
      match pieces with
      | [] => Ok s
      | _ => if con_write con then Ok (add_written ((λ q, (c, q)) <$> pieces) s) else Trap Fault
      end
  end.

(** The loop of [unregister_console] behind the first console. *)
Fixpoint unlink (c : Z) (l : list Z) : option (list Z) :=
  match l with
  | [] => None
  | a :: l => if a =? c then Some l else (a ::.) <$> unlink c l
  end.

Definition unregister_console (c : Z) (s : klog) : outcome (klog * Z) :=
  '(s, res) ← match console_drivers s with
    | [] => Trap Fault
    | d :: l =>
        if d =? c then Ok (set_drivers l s, 0)
        else match unlink c l with
             | Some l => Ok (set_drivers (d :: l) s, 0)
             | None => Ok (s, 1)
             end
    end;
  Ok (if bool_decide (console_drivers s = []) then set_preferred (-1) s else s, res).

(** ** The replay *)

(** The [n] characters of the ring from position [p] on. *)
Fixpoint ring_text (r : ring) (n : nat) (p : Z) : list Z :=
  match n with
  | O => []
  | S n => log_buf r p :: ring_text r n (Z.land (p + 1) LOG_BUF_MASK)
  end.

Lemma ring_text_hist hist r n u :
  ring_ok hist r → 0 <= u → zlen hist - LOG_BUF_LEN <= u → u + Z.of_nat n <= zlen hist →
  ring_text r n (u mod LOG_BUF_LEN) = take n (drop (Z.to_nat u) hist).
Proof.
  intros H. revert u. induction n as [|n IH]; intros u H1 H2 H3; simpl; [done|].
  destruct H as [A1 A2 A3 A4 A5]. unfold zlen in *.
  assert (hist !! Z.to_nat u = Some (hist !!! Z.to_nat u)) as Hu by (apply list_lookup_lookup_total_lt; lia).
  rewrite (drop_S _ _ _ Hu). simpl. f_equal; [apply A5; lia|].
  rewrite mask_mod, Zplus_mod_idemp_l, IH by (try constructor; lia || done). do 2 f_equal. lia.
Qed.

(** What is unread is what the ring holds from [log_start] on. *)
Lemma ring_text_unread hist r :
  ring_ok hist r →
  ring_text r (Z.to_nat (log_size r)) (Z.land (log_start r) LOG_BUF_MASK) = drop (Z.to_nat (unread hist r)) hist.
Proof.
  intros H. pose proof H as [_ _ [H1 H2] _ _]. rewrite mask_mod, (ring_front hist) by done.
  rewrite (ring_text_hist hist) by (unfold unread; try done; lia).
  apply take_ge. rewrite length_drop. unfold unread, zlen in *. lia.
Qed.

Section shown_pieces.
Variables (lg dflt : Z).
Hypothesis dflt_ok : 0 <= dflt <= 7.

(** A piece without line feed in the middle of a line. *)
Lemma shown_piece m k l t :
  0 <= m → Forall (λ c, c ≠ 10) l → (k <= length l)%nat →
  shown lg dflt m k (l ++ t) = (if m <? lg then drop k l else []) ++ shown lg dflt m 0 t.
Proof.
  intros Hm Hl. revert k. induction Hl as [|c l Hc Hl IH]; intros k Hk; simpl in Hk.
  { assert (k = 0%nat) as -> by lia. simpl. by destruct (m <? lg). }
  cbn [app shown]. rewrite (proj2 (Z.ltb_ge m 0)), level_of_id by lia. unfold next_level.
  destruct (Z.eqb_spec c 10); [done|]. rewrite IH by lia. rewrite app_assoc. f_equal.
  destruct (m <? lg), k; simpl; done.
Qed.

Lemma shown_piece_feed m k l t :
  0 <= m → Forall (λ c, c ≠ 10) l → (k <= length l)%nat →
  shown lg dflt m k (l ++ 10 :: t) = (if m <? lg then drop k (l ++ [10]) else []) ++ shown lg dflt (-1) 0 t.
Proof.
  intros Hm Hl Hk. rewrite shown_piece by done. cbn [shown].
  rewrite (proj2 (Z.ltb_ge m 0)), level_of_id by lia. unfold next_level. simpl. rewrite app_assoc.
  f_equal. destruct (m <? lg); simpl; [|done]. by rewrite drop_app_le by lia.
Qed.

(** Whether a line has a level shows in its first piece. *)
Lemma tagged_piece l t : ((length l < 3)%nat → (∃ l', l = l' ++ [10]) ∨ t = []) → l ≠ [] →
  tagged (l ++ t) = tagged l.
Proof.
  intros H Hl. destruct l as [|a [|b [|c l]]]; try done; simpl in H.
  - destruct H as [[l' E]| ->]; [lia| |done]. destruct l' as [|? [|? ?]]; try done. injection E as ->.
    by destruct t as [|? [|? ?]].
  - destruct H as [[l' E]| ->]; [lia| |done]. destruct l' as [|? [|? [|? ?]]]; try done. injection E as -> ->.
    destruct t as [|c t]; [done|]. simpl. by rewrite !andb_false_r.
Qed.
End shown_pieces.

(** The first [j] elements with one more and the NUL. *)
Lemma slice_snoc buf j c : 0 <= j → slice (upd buf j c) 0 (j + 1) = slice buf 0 j ++ [c].
Proof.
  intros Hj. rewrite slice_app by lia. f_equal.
  - apply slice_ext. intros i Hi. unfold upd. by destruct (Z.eqb_spec i j); [lia|].
  - rewrite slice_cons by lia. unfold upd. by rewrite Z.add_0_l, Z.eqb_refl.
Qed.

Lemma slice_upd_end buf j n c : n <= j → slice (upd buf j c) 0 n = slice buf 0 n.
Proof. intros Hj. apply slice_ext. intros i Hi. unfold upd. by destruct (Z.eqb_spec i j); [lia|]. Qed.

(** A finished piece: its level and what is written. *)
Lemma piece_level_spec dflt m l buf :
  0 <= dflt <= 7 → m <= 7 → slice buf 0 (zlen l) = l → buf (zlen l) = 0 → l ≠ [] →
  piece_level dflt m (zlen l) buf =
    (level_of dflt m l, drop (if (m <? 0) then (if tagged l is Some _ then 3%nat else 0%nat) else 0%nat) l).
Proof.
  intros Hd Hm Hs H0 Hl. unfold piece_level, level_of. destruct (Z.ltb_spec m 0); [|by rewrite Hs].
  assert (text_at buf 0 l) as Ht by done.
  destruct (has_level_spec _ _ _ Ht) as [Hlev Hdig]. unfold has_level in Hlev.
  rewrite !Z.add_0_l in *. rewrite !negb_orb, !negb_involutive, <- !Z.leb_antisym in Hlev. rewrite Hlev.
  destruct (tagged l) as [d|] eqn:Et; simpl.
  - rewrite (Hdig d) by done. pose proof (tagged_level _ _ Et). rewrite swrap_small by lia. f_equal; [lia|].
    assert (3 <= zlen l).
    { unfold tagged in Et. destruct l as [|a [|b [|c l]]]; try done. rewrite !zlen_cons. pose proof (zlen_nonneg l). lia. }
    replace (drop 3 l) with (drop (Z.to_nat 3) (slice buf 0 (zlen l))) by (by rewrite Hs).
    by rewrite slice_drop by lia.
  - rewrite swrap_small by lia. by rewrite Hs.
Qed.

Lemma slice_nonfeed buf j c : Forall (λ c, c ≠ 10) (slice buf 0 j) → c ≠ 10 → 0 <= j →
  Forall (λ c, c ≠ 10) (slice (upd buf j c) 0 (j + 1)).
Proof. intros H1 H2 Hj. rewrite slice_snoc by done. apply Forall_app. split; [done|]. by constructor. Qed.

Lemma replay_spec lv r n p j m buf :
  0 <= default_message_loglevel lv <= 7 → m <= 7 → 0 <= j < 15 → (n = 0%nat → j = 0) →
  Forall (λ c, c ≠ 10) (slice buf 0 j) →
  concat (replay lv r n p j m buf) =
    shown (console_loglevel lv) (default_message_loglevel lv) m 0 (slice buf 0 j ++ ring_text r n p).
Proof.
  intros Hd. set (lg := console_loglevel lv). set (dflt := default_message_loglevel lv) in *.
  revert p j m buf. induction n as [|n IH]; intros p j m buf Hm Hj Hn Hf.
  { rewrite Hn by done. done. }
  cbn [replay ring_text]. set (c := log_buf r p). set (p' := Z.land (p + 1) LOG_BUF_MASK).
  rewrite cons_middle, app_assoc, <- slice_snoc by lia.
  destruct (negb (c =? 10) && bool_decide (n ≠ 0%nat) && (j + 1 <? 15)) eqn:Eb.
  { apply andb_prop in Eb as [[E1 E2]%andb_prop E3%Z.ltb_lt]. apply bool_decide_eq_true in E2.
    destruct (Z.eqb_spec c 10) as [|Hc]; [done|]. apply IH; try done; try lia. by apply slice_nonfeed; [..|lia]. }
  set (l := slice (upd buf j c) 0 (j + 1)). set (t := ring_text r n p').
  assert (l = slice buf 0 j ++ [c]) as El by (apply slice_snoc; lia).
  assert (zlen l = j + 1) as Ezl by (apply slice_length; lia).
  assert (l ≠ []) as Hl by (intros ->; rewrite zlen_nil in Ezl; lia).
  assert (tagged (l ++ t) = tagged l) as Et.
  { apply tagged_piece; [|done]. intros Hlen. apply andb_false_iff in Eb as [Eb|Eb%Z.ltb_ge].
    - apply andb_false_iff in Eb as [Eb|Eb].
      + left. destruct (Z.eqb_spec c 10) as [->|]; [|done]. eauto.
      + right. apply bool_decide_eq_false in Eb. assert (n = 0%nat) as -> by lia. done.
    - unfold zlen in Ezl. lia. }
  assert (slice (upd (upd buf j c) (j + 1) 0) 0 (zlen l) = l) as Hs by (rewrite Ezl; apply slice_upd_end; lia).
  pose proof (piece_level_spec dflt m l (upd (upd buf j c) (j + 1) 0) Hd Hm Hs) as Hp. rewrite Ezl in Hp.
  fold dflt. rewrite Hp; [|unfold upd at 1; by rewrite Z.eqb_refl|done]. clear Hp.
  fold lg. set (k := if m <? 0 then _ else _). set (lev := level_of dflt m l).
  pose proof (level_of_range dflt Hd m l Hm) as Hlev. fold lev in Hlev.
  rewrite concat_app, IH; [|destruct (c =? 10); lia|lia|done|constructor]. 
  change (slice (upd (upd buf j c) (j + 1) 0) 0 0) with (@nil Z). cbn [app].
  assert (shown lg dflt m 0 (l ++ t) = shown lg dflt lev k (l ++ t)) as Esh.
  { unfold k, lev. destruct (Z.ltb_spec m 0).
    - rewrite (shown_start lg dflt Hd) by done. unfold level_of. rewrite Et, (proj2 (Z.ltb_lt m 0)) by done. done.
    - by rewrite level_of_id by lia. }
  assert (k <= length l)%nat as Hk.
  { unfold k. destruct (m <? 0); [|lia]. destruct (tagged l) eqn:Etl; [|lia].
    unfold tagged in Etl. destruct l as [|? [|? [|? ?]]]; try done. simpl. lia. }
  rewrite Esh. destruct (Z.eqb_spec c 10) as [Ec|Ec].
  - rewrite El, Ec, <- app_assoc. cbn [app]. rewrite shown_piece_feed; [|lia|done|].
    + f_equal. destruct (lev <? lg); simpl; by rewrite ?app_nil_r.
    + assert (k ≠ length l) as Hne.
      { unfold k. destruct (m <? 0); [|by destruct l]. destruct (tagged l) eqn:Etl; [|by destruct l].
        rewrite El, Ec in Etl |- *. rewrite length_app. simpl. intros E3.
        destruct (slice buf 0 j) as [|a [|b [|? ?]]]; simpl in E3; try lia. simpl in Etl. by rewrite !andb_false_r in Etl. }
      rewrite El, length_app in Hk, Hne. simpl in Hk, Hne. lia.
  - rewrite shown_piece; [|lia| |done].
    + f_equal. destruct (lev <? lg); simpl; by rewrite ?app_nil_r.
    + rewrite El. apply Forall_app. split; [done|]. by constructor.
Qed.

(** ** Registering and unregistering *)

Lemma console_text_pieces c d (l : list (list Z)) :
  console_text c ((λ q, (d, q)) <$> l) = if d =? c then concat l else [].
Proof.
  induction l as [|q l IH]; [by destruct (d =? c)|]. unfold console_text in *. cbn. rewrite IH.
  by destruct (d =? c).
Qed.

(** The console as it is registered. *)
Definition selected (con : console) (s : klog) : console :=
  let '(con, preferred) := take_first con (preferred_console s) in
  match_cmdline 0 (console_cmdline s) preferred con.

Lemma take_first_write con i : con_write (take_first con i).1 = con_write con.
Proof. unfold take_first. destruct (i <? 0); [|done]. destruct (con_index con <? 0), (_ =? 0); done. Qed.

Lemma match_cmdline_write i l pref con : con_write (match_cmdline i l pref con) = con_write con.
Proof.
  revert i. induction l as [|c l IH]; intros i; cbn [match_cmdline]; [done|].
  destruct (bool_decide _); [done|]. destruct (negb _); [done|]. destruct (_ && _); [done|].
  destruct (con_index con <? 0), (negb _), (i =? pref); done.
Qed.

(** Where a console is put. *)
Definition insert_driver (con : console) (c : Z) (l : list Z) : list Z :=
  match l with
  | [] => [c]
  | d :: l => if c_true (Z.land (con_flags con) CON_CONSDEV) then c :: d :: l else d :: c :: l
  end.

Definition enabled (con : console) : bool := c_true (Z.land (con_flags con) CON_ENABLED).
Definition printbuffer (con : console) : bool := c_true (Z.land (con_flags con) CON_PRINTBUFFER).

Lemma insert_driver_spec con c l :
  c ∉ l → NoDup l → insert_driver con c l ≡ₚ c :: l ∧ NoDup (insert_driver con c l) ∧
  filter (λ d, d ≠ c) (insert_driver con c l) = l.
Proof.
  intros Hc Hnd. assert (insert_driver con c l ≡ₚ c :: l) as Hp.
  { destruct l as [|d l]; [done|]. simpl. destruct (c_true _); [done|]. apply Permutation_swap. }
  assert (filter (λ d, d ≠ c) l = l) as Hf.
  { by apply filter_ne_notin. }
  split_and!; [done|rewrite Hp; by constructor|]. unfold insert_driver. destruct l as [|d l].
  { rewrite filter_cons_False by (intros H; by apply H). done. }
  destruct (c_true _).
  - rewrite filter_cons_False by (intros H; by apply H). done.
  - apply not_elem_of_cons in Hc as [Hd Hc]. rewrite filter_cons_True in Hf |- * by done.
    rewrite filter_cons_False by (intros H; by apply H). done.
Qed.

Lemma unlink_spec c l : NoDup l →
  unlink c l = if bool_decide (c ∈ l) then Some (filter (λ d, d ≠ c) l) else None.
Proof.
  induction 1 as [|d l Hd Hnd IH]; [done|]. cbn [unlink]. rewrite filter_cons.
  destruct (Z.eqb_spec d c) as [->|Hne].
  - rewrite bool_decide_eq_true_2 by (by left). rewrite decide_False by (intros H; by apply H). f_equal. symmetry.
    by apply filter_ne_notin.
  - rewrite decide_True by done. rewrite IH. assert (bool_decide (c ∈ d :: l) = bool_decide (c ∈ l)) as ->.
    { apply bool_decide_ext. rewrite elem_of_cons. naive_solver. }
    by destruct (bool_decide (c ∈ l)).
Qed.

(** The end of [unregister_console]. *)
Lemma reset_preferred s l (s' := if bool_decide (console_drivers s = []) then set_preferred (-1) s else s) :
  console_drivers s = l →
  console_drivers s' = l ∧ preferred_console s' = if bool_decide (console_drivers s' = []) then -1 else preferred_console s.
Proof.
  intros <-. unfold s'. destruct (bool_decide_reflect (console_drivers s = [])) as [E|E].
  - split; [done|]. by rewrite bool_decide_eq_true_2.
  - split; [done|]. by rewrite bool_decide_eq_false_2.
Qed.

Lemma unregister_spec c s :
  NoDup (console_drivers s) → console_drivers s ≠ [] →
  ∃ s', unregister_console c s = Ok (s', if bool_decide (c ∈ console_drivers s) then 0 else 1) ∧
    console_drivers s' = filter (λ d, d ≠ c) (console_drivers s) ∧
    (preferred_console s' = if bool_decide (console_drivers s' = []) then -1 else preferred_console s).
Proof.
  intros Hnd Hne. unfold unregister_console. destruct (console_drivers s) as [|d l] eqn:Ed; [done|].
  pose proof (unlink_spec c (d :: l) Hnd) as Hu. cbn [unlink] in Hu. apply list.NoDup_cons in Hnd as [Hd Hnd].
  destruct (Z.eqb_spec d c) as [->|Hdc].
  - rewrite bool_decide_eq_true_2 in * by (by left). injection Hu as Hu. cbn [mbind outcome_bind].
    eexists. split; [done|]. rewrite <- Hu. apply (reset_preferred (set_drivers l s)). done.
  - rewrite (unlink_spec c l Hnd) in *. assert (bool_decide (c ∈ d :: l) = bool_decide (c ∈ l)) as Eb.
    { apply bool_decide_ext. rewrite elem_of_cons. naive_solver. }
    rewrite Eb in *. destruct (bool_decide_reflect (c ∈ l)) as [Hc|Hc]; cbn [mbind outcome_bind].
    + injection Hu as Hu. eexists. split; [done|]. rewrite <- Hu. by apply (reset_preferred (set_drivers _ s)).
    + eexists. split; [done|]. apply reset_preferred. rewrite Ed. symmetry.
      apply filter_ne_notin. by apply not_elem_of_cons.
Qed.

(** C36: Registering a console that can write never traps.  The console enters
    the list of consoles exactly if it is enabled, by its flags, as the first
    one or by the command line; it is then the first of the list if it is the
    preferred one and the second otherwise, and the others keep their order.  If
    it asks for the buffered messages, it is asked to write just the lines of
    the unread part of the log that are more important than the console level,
    without their levels; no other console is.  Unregistering it gives back the
    list. *)
Theorem register_console_correct hist c con junk s :
  klog_ok hist s → consoles s !! c = Some con → c ∉ console_drivers s → con_write con = true →
  let con' := selected con s in
  ∃ s', register_console c junk s = Ok s' ∧ klog_ok hist s' ∧ consoles s' = <[c := con']> (consoles s) ∧
    console_drivers s' = (if enabled con' then insert_driver con' c (console_drivers s) else console_drivers s) ∧
    (∀ d, console_text d (written s') = console_text d (written s) ++
      (if (d =? c) && enabled con' && printbuffer con'
       then shown (console_loglevel (lv s)) (default_message_loglevel (lv s)) (-1) 0
              (drop (Z.to_nat (unread hist (the_ring s))) hist)
       else [])) ∧
    (enabled con' = true → ∃ s2, unregister_console c s' = Ok (s2, 0) ∧ console_drivers s2 = console_drivers s).
Proof.
  intros [H1 H2 H3 H4] Ec Hc Hw con'. unfold register_console. rewrite Ec.
  assert (con_write con' = true) as Hw'.
  { unfold con', selected. pose proof (take_first_write con (preferred_console s)) as Ht.
    destruct (take_first con _). rewrite match_cmdline_write. simpl in Ht. by rewrite Ht. }
  unfold con', selected in *. destruct (take_first con (preferred_console s)) as [con1 pref].
  set (con2 := match_cmdline 0 (console_cmdline s) pref con1) in *. clear con'. cbv zeta.
  fold (enabled con2). destruct (enabled con2) eqn:Een; cbn [negb].
  2: { eexists. split_and!; try done. intros d. by rewrite andb_false_r, app_nil_r. }
  cbn [console_drivers set_consoles set_preferred]. fold (insert_driver con2 c (console_drivers s)).
  destruct (insert_driver_spec con2 c _ Hc H4) as (P1 & P2 & P3).
  set (s1 := set_drivers (insert_driver con2 c (console_drivers s)) _).
  assert (∀ w s', s' = (if (w : bool) then add_written ((λ q, (c, q)) <$> replay (lv s) (the_ring s)
      (Z.to_nat (log_size (the_ring s))) (Z.land (log_start (the_ring s)) LOG_BUF_MASK) 0 (-1) junk) s1 else s1) →
    ∃ s2, unregister_console c s' = Ok (s2, 0) ∧ console_drivers s2 = console_drivers s) as Hun.
  { intros w s' ->. set (s' := if w then _ else _).
    assert (console_drivers s' = insert_driver con2 c (console_drivers s)) as Ed by (unfold s'; by destruct w).
    destruct (unregister_spec c s') as (s2 & E & Ed2 & _).
    - by rewrite Ed.
    - rewrite Ed. intros En. rewrite En in P1. by apply Permutation_nil_l in P1.
    - exists s2. rewrite E, Ed2, Ed, P3. rewrite bool_decide_eq_true_2; [done|]. rewrite P1. by left. }
  assert (printbuffer con2 = negb (Z.land (con_flags con2) CON_PRINTBUFFER =? 0)) as Epb by done.
  destruct (Z.eqb_spec (Z.land (con_flags con2) CON_PRINTBUFFER) 0); cbn [negb] in Epb; rewrite Epb.
  { exists s1. split_and!; try done; [|intros _; by apply (Hun false)].
    intros d. by rewrite andb_false_r, app_nil_r. }
  cbn [lv the_ring s1 set_drivers set_consoles set_preferred].
  assert (concat (replay (lv s) (the_ring s) (Z.to_nat (log_size (the_ring s)))
    (Z.land (log_start (the_ring s)) LOG_BUF_MASK) 0 (-1) junk) =
    shown (console_loglevel (lv s)) (default_message_loglevel (lv s)) (-1) 0
      (drop (Z.to_nat (unread hist (the_ring s))) hist)) as Hrep.
  { rewrite replay_spec by (try constructor; lia || done). change (slice junk 0 0) with (@nil Z). simpl.
    by rewrite (ring_text_unread hist). }
  exists (add_written ((λ q, (c, q)) <$> replay (lv s) (the_ring s) (Z.to_nat (log_size (the_ring s)))
    (Z.land (log_start (the_ring s)) LOG_BUF_MASK) 0 (-1) junk) s1).
  split; [|split_and!; try done; [|intros _; by apply (Hun true)]].
  - rewrite Hw'. destruct (replay _ _ _ _ _ _ _); [|done]. unfold add_written. simpl. by rewrite app_nil_r.
  - intros d. simpl. rewrite console_text_app, console_text_pieces, Hrep, andb_true_r, (Z.eqb_sym c d). simpl.
    by rewrite andb_true_r.
Qed.

Definition sample_tty : console := Con [116; 116; 121; 83] true false None CON_PRINTBUFFER 1.
Definition sample_klog : klog := set_consoles {[ 1 := sample_tty ]} run_klog.

Lemma register_console_correct_witness :
  ∃ s', register_console 1 (λ _, 0) sample_klog = Ok s' ∧ console_drivers s' = [1] ∧
    console_text 1 (written s') = [111; 10].
Proof.
  destruct (register_console_correct run_text 1 sample_tty (λ _, 0) sample_klog) as (s' & E & _ & _ & Hd & Ht & _).
  - destruct (log_reachable_ok ∅ [] run_printed) as [H _ _ _ _ _]; [constructor|apply rtc_once, run_print|].
    destruct H as [? ? ? ?]. constructor; assumption.
  - reflexivity.
  - exact (not_elem_of_nil 1).
  - reflexivity.
  - exists s'. split; [exact E|]. split; [rewrite Hd; vm_compute; reflexivity|]. rewrite Ht. vm_compute. reflexivity.
Defined.

(** ** Options of the command line *)

(** The name and the index an option gives. *)
Definition option_name (str : list Z) : list Z * Z :=
  let name := if digit (hd0 str) then [116; 116; 121; 83] ++ take 3 str else take 7 str in
  let '(name, digits) := break_at digit name in (name, s32 (simple_strtoul digits 10).1).

Lemma find_slot_bounds name idx i l k b : find_slot name idx i l = (k, b) → i <= k <= i + zlen l.
Proof.
  revert i. induction l as [|c l IH]; intros i; cbn [find_slot]; [intros [= <- <-]; rewrite zlen_nil; lia|].
  rewrite zlen_cons. pose proof (zlen_nonneg l). destruct (bool_decide _); [intros [= <- <-]; lia|].
  destruct (_ && _); [intros [= <- <-]; lia|]. intros Hb%IH. lia.
Qed.

(** A slot that was filled is found again. *)
Lemma find_slot_insert name idx opt i l k :
  name ≠ [] → find_slot name idx i l = (k, false) → k < i + zlen l →
  find_slot name idx i (<[Z.to_nat (k - i) := CmdSlot name idx opt]> l) = (k, true).
Proof.
  intros Hn. revert i. induction l as [|c l IH]; intros i; [rewrite zlen_nil; intros [= <-]; lia|].
  cbn [find_slot]. rewrite zlen_cons. destruct (bool_decide (cl_name c = [])) eqn:Ec.
  { intros [= <-] Hk. rewrite Z.sub_diag. change (Z.to_nat 0) with 0%nat. cbn [insert list_insert find_slot cl_name cl_index]. rewrite bool_decide_eq_false_2, bool_decide_eq_true_2, Z.eqb_refl; done. }
  destruct (_ && _) eqn:Em; [done|]. intros Hf Hk. pose proof (find_slot_bounds _ _ _ _ _ _ Hf).
  replace (Z.to_nat (k - i)) with (S (Z.to_nat (k - (i + 1)))) by lia. cbn [insert list_insert find_slot].
  rewrite Ec, Em. apply IH; [done|lia].
Qed.

(** A console with that name and index is matched at its slot. *)
Lemma match_cmdline_found name idx i l k con pref :
  find_slot name idx i l = (k, true) → con_name con = name → con_index con = idx → 0 <= idx →
  (∀ opt, run_setup con opt = 0) →
  match_cmdline i l pref con =
    let con := set_index idx (set_flags (Z.lor (con_flags con) CON_ENABLED) con) in
    if k =? pref then set_flags (Z.lor (con_flags con) CON_CONSDEV) con else con.
Proof.
  intros Hf Hn Hi H0 Hs. revert i Hf. induction l as [|c l IH]; intros i; cbn [find_slot match_cmdline]; [done|].
  destruct (bool_decide (cl_name c = [])); [done|]. rewrite Hn, Hi, (proj2 (Z.leb_le 0 idx)), (proj2 (Z.ltb_ge idx 0)) by done.
  destruct (bool_decide_reflect (cl_name c = name)) as [_|_]; cbn [negb andb]; [|by apply IH].
  rewrite (Z.eqb_sym idx). destruct (Z.eqb_spec (cl_index c) idx) as [->|]; cbn [negb]; [|by apply IH].
  intros [= <-]. rewrite Hs. done.
Qed.

Lemma small_flags f : 0 <= f < 8 →
  let g := swrap 16 (Z.lor f CON_ENABLED) in
  c_true (Z.land g CON_ENABLED) = true ∧
  c_true (Z.land (swrap 16 (Z.lor g CON_CONSDEV)) CON_ENABLED) = true ∧
  c_true (Z.land (swrap 16 (Z.lor g CON_CONSDEV)) CON_CONSDEV) = true.
Proof.
  intros Hf. assert (f = 0 ∨ f = 1 ∨ f = 2 ∨ f = 3 ∨ f = 4 ∨ f = 5 ∨ f = 6 ∨ f = 7) as H by lia.
  destruct H as [->|[->|[->|[->|[->|[->|[->| ->]]]]]]]; done.
Qed.

(** After an option [console=], the console it names is the preferred one:
    unless all eight slots are taken by other consoles, a driver with that name
    and index whose setup succeeds is enabled when it is registered and becomes
    the head of the list of consoles. *)
Theorem console_setup_preferred str s con :
  let '(name, idx) := option_name str in
  name ≠ [] → 0 <= idx → zlen (console_cmdline s) = 8 → (find_slot name idx 0 (console_cmdline s)).1 < 8 →
  con_name con = name → con_index con = idx → 0 <= con_flags con < 8 → (∀ opt, run_setup con opt = 0) →
  let s' := (console_setup str s).1 in
  let con' := selected con s' in
  0 <= preferred_console s' < 8 ∧ enabled con' = true ∧
  ∀ c l, hd_error (insert_driver con' c l) = Some c.
Proof.
  destruct (option_name str) as [name idx] eqn:Eo. intros Hn H0 Hlen Hroom Hcn Hci Hfl Hsetup s' con'.
  unfold option_name in Eo. destruct (break_at digit _) as [name' digits] eqn:Eb. injection Eo as -> Ei.
  destruct (find_slot name idx 0 (console_cmdline s)) as [k known] eqn:Ef. simpl in Hroom.
  pose proof (find_slot_bounds _ _ _ _ _ _ Ef) as Hk.
  assert (find_slot name idx 0 (console_cmdline s') = (k, true) ∧ preferred_console s' = k) as [Hf Hp].
  { unfold s', console_setup. rewrite Eb, Ei, Ef. destruct known; [done|]. change (Z.of_nat MAX_CMDLINECONSOLES) with 8.
    destruct (Z.eqb_spec k 8); [lia|]. simpl. split; [|done].
    rewrite <- (Z.sub_0_r k) at 1. apply find_slot_insert; [done|done|lia]. }
  split; [lia|]. unfold con', selected, take_first. rewrite Hp, (proj2 (Z.ltb_ge k 0)) by lia.
  rewrite (match_cmdline_found name idx 0 _ k con k) by done. rewrite Z.eqb_refl. cbv zeta.
  destruct (small_flags (con_flags con) Hfl) as (_ & F1 & F2). unfold enabled. simpl in *. split; [done|].
  intros c l. destruct l as [|d l]; [done|]. unfold insert_driver. simpl. by rewrite F2.
Qed.

(** [console=ttyS1,9600]. *)
Lemma console_setup_preferred_witness :
  let s := boot_klog ∅ [] in
  let s' := (console_setup [116; 116; 121; 83; 49; 44; 57; 54; 48; 48] s).1 in
  enabled (selected sample_tty s') = true ∧ preferred_console s' = 0.
Proof.
  intros s s'. split; [|reflexivity].
  pose proof (console_setup_preferred [116; 116; 121; 83; 49; 44; 57; 54; 48; 48] s sample_tty) as H.
  destruct (option_name _) as [name idx] eqn:E. vm_compute in E. injection E as <- <-.
  destruct H as (_ & H & _); try done.
Defined.
