(* ===== verification/Ipc.v ===== *)
(** The identifiers of System V IPC, [ipc/util.c] and [ipc/util.h].

    The objects (semaphore sets, message queues) are known by their address; a
    table of identifiers holds the addresses.  An identifier is made of the slot
    in the table and of a sequence number, so that an identifier of an object
    that is gone is not taken for its successor. *)

From S2P Require Import Prelude Errno.

Definition IPCMNI : Z := 32768.
Definition SEQ_MULTIPLIER : Z := IPCMNI.
Definition USHRT_MAX : Z := 0xffff.
Definition INT_MAX : Z := 2 ^ 31 - 1.
Definition IPC_PRIVATE : Z := 0.
Definition IPC_CREAT : Z := 512.
Definition IPC_EXCL : Z := 1024.
Definition IPC_NOWAIT : Z := 2048.
Definition IPC_RMID : Z := 0.
Definition IPC_SET : Z := 1.
Definition IPC_STAT : Z := 2.
Definition IPC_INFO : Z := 3.
Definition IPC_64 : Z := 256.
Definition IPC_OLD : Z := 0.
Definition S_IRWXUGO : Z := 511.
Definition S_IRUGO : Z := 292.
Definition S_IWUGO : Z := 146.

Record kern_ipc_perm := Perm { p_key : Z; p_uid : Z; p_gid : Z; p_cuid : Z; p_cgid : Z; p_mode : Z; p_seq : Z }.

(** The current process as far as permissions go. *)
Record cred := Cred {
  euid : Z; egid : Z; fsgid : Z; groups : list Z; cap_ipc_owner : bool; cap_sys_admin : bool
}.

Record ipc_ids := Ids { ids_size : Z; in_use : Z; max_id : Z; ids_seq : Z; seq_max : Z; entries : list (option Z) }.

(** [ipc_init_ids]; [alloc] tells whether there is memory.  Without it the loop
    that clears the table runs through a null pointer. *)
Definition ipc_init_ids (size : Z) (alloc : bool) : outcome ipc_ids :=
  let size := if IPCMNI <? size then IPCMNI else size in
  let seq_limit := INT_MAX / SEQ_MULTIPLIER in
  let seq_max := if USHRT_MAX <? seq_limit then USHRT_MAX else seq_limit in
  if alloc then Ok (Ids size 0 (-1) 0 seq_max (replicate (Z.to_nat size) None))
  else if 0 <? size then Trap Fault else Ok (Ids 0 0 (-1) 0 seq_max []).

(** The loop of [ipc_findkey]; [key_of] reads the key of an object. *)
Fixpoint find_from (key_of : Z → Z) (key id : Z) (l : list (option Z)) : Z :=
  match l with
  | [] => -1
  | Some p :: l => if key =? key_of p then id else find_from key_of key (id + 1) l
  | None :: l => find_from key_of key (id + 1) l
  end.

Definition ipc_findkey (key_of : Z → Z) (ids : ipc_ids) (key : Z) : Z :=
  find_from key_of key 0 (take (Z.to_nat (max_id ids + 1)) (entries ids)).

Definition grow_ary (ids : ipc_ids) (newsize : Z) (alloc : bool) : ipc_ids * Z :=
  let newsize := if IPCMNI <? newsize then IPCMNI else newsize in
  if newsize <=? ids_size ids then (ids, newsize)
  else if negb alloc then (ids, ids_size ids)
  else
    (Ids newsize (in_use ids) (max_id ids) (ids_seq ids) (seq_max ids)
       (entries ids ++ replicate (Z.to_nat (newsize - ids_size ids)) None), newsize).

(** The first free entry among [l]. *)
Fixpoint free_from (id : Z) (l : list (option Z)) : option Z :=
  match l with
  | [] => None
  | None :: _ => Some id
  | Some _ :: l => free_from (id + 1) l
  end.

(** [ipc_addid]: the identifier and the permissions that were filled in. *)
Definition ipc_addid (ids : ipc_ids) (new : Z) (size : Z) (cr : cred) (alloc : bool)
    : ipc_ids * option (Z * kern_ipc_perm) :=
  let '(ids, size) := grow_ary ids size alloc in
  match free_from 0 (take (Z.to_nat size) (entries ids)) with
  | None => (ids, None)
  | Some id =>
      let perm := Perm 0 (euid cr) (egid cr) (euid cr) (egid cr) 0 (ids_seq ids) in
      let seq := u16 (ids_seq ids + 1) in
      let seq := if seq_max ids <? seq then 0 else seq in
      (Ids (ids_size ids) (in_use ids + 1) (if max_id ids <? id then id else max_id ids) seq (seq_max ids)
         (<[Z.to_nat id := Some new]> (entries ids)), Some (id, perm))
  end.

(** The largest entry in use below [n]. *)
Fixpoint last_used (n : nat) (l : list (option Z)) : Z :=
  match n with
  | O => -1
  | S n => match l !! n with Some (Some _) => Z.of_nat n | _ => last_used n l end
  end.

(** [entries[lid].p]; the test in front of it lets [lid] be the size. *)
Definition entry (ids : ipc_ids) (lid : Z) : outcome (option Z) :=
  match entries ids !! Z.to_nat lid with Some p => Ok p | None => Trap Fault end.

Definition ipc_rmid (ids : ipc_ids) (id : Z) : outcome (ipc_ids * Z) :=
  let lid := Z.rem id SEQ_MULTIPLIER in
  BUG_if (ids_size ids <? lid) (
  p ← entry ids lid;
  match p with
  | None => Trap Bug
  | Some p =>
      let l := <[Z.to_nat lid := None]> (entries ids) in
      let m := if lid =? max_id ids then last_used (Z.to_nat lid) l else max_id ids in
      Ok (Ids (ids_size ids) (in_use ids - 1) m (ids_seq ids) (seq_max ids) l, p)
  end).

Definition ipc_get (ids : ipc_ids) (id : Z) : outcome (option Z) :=
  let lid := Z.rem id SEQ_MULTIPLIER in
  if ids_size ids <? lid then Ok None else entry ids lid.

(** The lock of the table apart, [ipc_lock] is [ipc_get]. *)
Definition ipc_lock (ids : ipc_ids) (id : Z) : outcome (option Z) :=
  let lid := Z.rem id SEQ_MULTIPLIER in
  if ids_size ids <? lid then Ok None else entry ids lid.

Definition ipc_buildid (id seq : Z) : Z := s32 (SEQ_MULTIPLIER * seq + id).

Definition ipc_checkid (p : kern_ipc_perm) (uid : Z) : bool := negb (Z.quot uid SEQ_MULTIPLIER =? p_seq p).

Definition in_group_p (cr : cred) (grp : Z) : bool :=
  if negb (grp =? fsgid cr) then bool_decide (grp ∈ groups cr) else true.

(** Whether access is refused. *)
Definition ipcperms (cr : cred) (p : kern_ipc_perm) (flag : Z) : bool :=
  let requested := Z.lor (Z.lor (Z.shiftr flag 6) (Z.shiftr flag 3)) flag in
  let granted :=
    if (euid cr =? p_cuid p) || (euid cr =? p_uid p) then Z.shiftr (p_mode p) 6
    else if in_group_p cr (p_cgid p) || in_group_p cr (p_gid p) then Z.shiftr (p_mode p) 3
    else p_mode p in
  c_true (Z.land (Z.land requested (Z.lnot granted)) 7) && negb (cap_ipc_owner cr).

(** The command without the version, and the version. *)
Definition ipc_parse_version (cmd : Z) : Z * Z :=
  if c_true (Z.land cmd IPC_64) then (Z.lxor cmd IPC_64, IPC_64) else (cmd, IPC_OLD).

(** The permissions as they are handed to the user: key, owner, group, creator,
    the creator's group, mode and sequence number. *)
Definition kernel_to_ipc64_perm (p : kern_ipc_perm) : list Z :=
  [p_key p; s32 (p_uid p); s32 (p_gid p); s32 (p_cuid p); s32 (p_cgid p); p_mode p; u16 (p_seq p)].

Definition DEFAULT_OVERFLOWUID : Z := 65534.
Definition DEFAULT_OVERFLOWGID : Z := 65534.
Definition high2lowuid (uid : Z) : Z := if 65535 <? uid then DEFAULT_OVERFLOWUID else uid.
Definition high2lowgid (gid : Z) : Z := if 65535 <? gid then DEFAULT_OVERFLOWGID else gid.

(** As an old program sees them. *)
Definition ipc64_perm_to_ipc_perm (l : list Z) : list Z :=
  match l with
  | [key; uid; gid; cuid; cgid; mode; seq] =>
      [key; high2lowuid uid; high2lowgid gid; high2lowuid cuid; high2lowgid cgid; mode; seq]
  | _ => []
  end.

(** ** The table *)

Definition used (o : option Z) : bool := bool_decide (is_Some o).

Record ids_ok (ids : ipc_ids) : Prop := {
  io_size : zlen (entries ids) = ids_size ids ∧ ids_size ids <= IPCMNI;
  io_in_use : in_use ids = zlen (filter (λ o, used o = true) (entries ids));
  io_max : max_id ids = last_used (length (entries ids)) (entries ids);
  io_seq : 0 <= ids_seq ids <= USHRT_MAX ∧ seq_max ids = USHRT_MAX
}.

Lemma ipc_init_ids_ok size : 0 <= size → ∃ ids, ipc_init_ids size true = Ok ids ∧ ids_ok ids ∧
  ids_size ids = Z.min size IPCMNI ∧ Forall (λ o, o = None) (entries ids).
Proof.
  intros Hs. unfold ipc_init_ids. eexists. split; [done|]. split; [|split; [simpl; zbool; lia|]].
  2: { simpl. apply Forall_replicate. done. }
  constructor; simpl; try done.
  - unfold zlen. rewrite length_replicate. unfold IPCMNI. zbool; lia.
  - generalize (Z.to_nat (if IPCMNI <? size then IPCMNI else size)). intros n. induction n as [|n IH]; [done|].
    cbn [replicate]. by rewrite filter_cons_False by done.
  - rewrite length_replicate. generalize (Z.to_nat (if IPCMNI <? size then IPCMNI else size)) at 2. intros m.
    generalize (Z.to_nat (if IPCMNI <? size then IPCMNI else size)). intros n. induction n as [|n IH]; [done|].
    simpl. destruct (replicate m None !! n) as [o|] eqn:E; [|done]. apply lookup_replicate in E as [-> _]. done.
Qed.

Lemma last_used_spec n l :
  -1 <= last_used n l < Z.of_nat n ∧
  (∀ i p, l !! i = Some (Some p) → (i < n)%nat → Z.of_nat i <= last_used n l) ∧
  (0 <= last_used n l → ∃ p, l !! Z.to_nat (last_used n l) = Some (Some p)).
Proof.
  induction n as [|n (IH1 & IH2 & IH3)]; cbn [last_used]; [split_and!; lia|].
  destruct (l !! n) as [[p|]|] eqn:E.
  - split_and!; [lia|lia|lia|]. intros _. exists p. by rewrite Nat2Z.id.
  - split_and!; [lia|lia| |done]. intros i p Hi Hn. apply (IH2 i p); [done|]. destruct (decide (i = n)) as [->|]; [congruence|lia].
  - split_and!; [lia|lia| |done]. intros i p Hi Hn. apply (IH2 i p); [done|]. destruct (decide (i = n)) as [->|]; [congruence|lia].
Qed.

(** The last used entry is determined by what the table holds. *)
Lemma last_used_unique l m :
  -1 <= m → (∀ i p, l !! i = Some (Some p) → Z.of_nat i <= m) → (0 <= m → ∃ p, l !! Z.to_nat m = Some (Some p)) →
  m = last_used (length l) l.
Proof.
  intros Hm H1 H2. destruct (last_used_spec (length l) l) as ([? ?] & H4 & H5).
  destruct (decide (m < last_used (length l) l)) as [Hlt|].
  - destruct H5 as [p Hp]; [lia|]. apply H1 in Hp. lia.
  - destruct (decide (m = last_used (length l) l)) as [|Hne]; [done|]. destruct H2 as [p Hp]; [lia|].
    pose proof (lookup_lt_Some _ _ _ Hp). apply H4 in Hp; lia.
Qed.

Lemma ids_ok_max ids m l :
  -1 <= m → (∀ i p, l !! i = Some (Some p) → Z.of_nat i <= m) → (0 <= m → ∃ p, l !! Z.to_nat m = Some (Some p)) →
  zlen l = ids_size ids → ids_size ids <= IPCMNI → in_use ids = zlen (filter (λ o, used o = true) l) →
  max_id ids = m → entries ids = l → 0 <= ids_seq ids <= USHRT_MAX → seq_max ids = USHRT_MAX → ids_ok ids.
Proof.
  intros H1 H2 H3 H4 H5 H6 H7 <- H8 H9. constructor; try done. rewrite H7. by apply last_used_unique.
Qed.

(** What the highest identifier bounds. *)
Lemma ids_max ids : ids_ok ids → -1 <= max_id ids < zlen (entries ids) ∧
  (∀ i p, entries ids !! i = Some (Some p) → Z.of_nat i <= max_id ids) ∧
  (0 <= max_id ids → ∃ p, entries ids !! Z.to_nat (max_id ids) = Some (Some p)).
Proof.
  intros [_ _ H _]. rewrite H. destruct (last_used_spec (length (entries ids)) (entries ids)) as (H1 & H2 & H3).
  split; [unfold zlen; lia|]. split; [|done]. intros i p Hi. apply (H2 i p); [done|]. by eapply lookup_lt_Some.
Qed.

Lemma filter_used_none (l : list (option Z)) n : filter (λ o, used o = true) (l ++ replicate n None) =
  filter (λ o, used o = true) l.
Proof.
  rewrite list.filter_app. assert (filter (λ o : option Z, used o = true) (replicate n None) = []) as ->; [|by rewrite app_nil_r].
  induction n as [|n IH]; [done|]. cbn [replicate]. by rewrite filter_cons_False by done.
Qed.

Lemma grow_ary_ok ids newsize alloc ids' size :
  ids_ok ids → grow_ary ids newsize alloc = (ids', size) →
  ids_ok ids' ∧ size <= ids_size ids' ∧
  ∃ n, entries ids' = entries ids ++ replicate n None ∧ ids_seq ids' = ids_seq ids ∧ in_use ids' = in_use ids.
Proof.
  intros H. pose proof (ids_max _ H) as (M1 & M2 & M3). destruct H as [[H1 H1'] H2 H3 [H4 H4']]. unfold grow_ary.
  set (n := if IPCMNI <? newsize then IPCMNI else newsize).
  assert (n <= IPCMNI) by (unfold n; zbool; lia).
  assert (ids_ok ids) as Hok by (by constructor).
  destruct (Z.leb_spec n (ids_size ids)).
  { intros [= <- <-]. split_and!; [done|lia|]. exists 0%nat. by rewrite app_nil_r. }
  destruct alloc; cbn [negb]; intros [= <- <-].
  2: { split_and!; [done|lia|]. exists 0%nat. by rewrite app_nil_r. }
  split_and!; [|simpl; lia|eauto].
  eapply (ids_ok_max _ (max_id ids) (entries ids ++ replicate (Z.to_nat (n - ids_size ids)) None)); try done; simpl; try lia.
  - intros i p Hi. apply lookup_app_Some in Hi as [Hi|[_ Hi]]; [by eapply M2|].
    apply lookup_replicate in Hi as [? _]. done.
  - intros Hm. destruct (M3 Hm) as [p Hp]. exists p. by apply lookup_app_l_Some.
  - unfold zlen in *. rewrite length_app, length_replicate. lia.
  - by rewrite filter_used_none.
Qed.

Lemma free_from_spec id l :
  match free_from id l with
  | Some k => id <= k < id + zlen l ∧ l !! Z.to_nat (k - id) = Some None
  | None => Forall (λ o, is_Some o) l
  end.
Proof.
  revert id. induction l as [|[p|] l IH]; intros id; cbn [free_from]; [done| |].
  - specialize (IH (id + 1)). destruct (free_from (id + 1) l) as [k|].
    + destruct IH as [Hk E]. rewrite zlen_cons. split; [lia|].
      by replace (Z.to_nat (k - id)) with (S (Z.to_nat (k - (id + 1)))) by lia.
    + constructor; [by eauto|done].
  - rewrite zlen_cons. pose proof (zlen_nonneg l). split; [lia|]. by rewrite Z.sub_diag.
Qed.

(** Filling a free entry, clearing one. *)
Lemma filter_used_insert (l : list (option Z)) k p :
  l !! k = Some None →
  zlen (filter (λ o, used o = true) (<[k := Some p]> l)) = zlen (filter (λ o, used o = true) l) + 1.
Proof.
  revert k. induction l as [|o l IH]; intros [|k] Hk; [done|done| |]; simpl in Hk.
  - injection Hk as ->. cbn [insert list_insert]. rewrite filter_cons_True, filter_cons_False by done.
    by rewrite zlen_cons.
  - cbn [insert list_insert]. rewrite !filter_cons. destruct (decide _); rewrite ?zlen_cons; fold (insert (M := list (option Z)));
      specialize (IH k Hk); unfold insert in *; lia.
Qed.

Lemma filter_used_delete (l : list (option Z)) k p :
  l !! k = Some (Some p) →
  zlen (filter (λ o, used o = true) (<[k := None]> l)) = zlen (filter (λ o, used o = true) l) - 1.
Proof.
  intros Hk. pose proof (lookup_lt_Some _ _ _ Hk).
  assert (l = <[k := Some p]> (<[k := None]> l)) as E by (by rewrite list_insert_insert_eq, list_insert_id).
  rewrite E at 2. rewrite filter_used_insert; [lia|]. by apply list_lookup_insert_eq.
Qed.

Lemma ipc_addid_ok ids new size cr alloc ids' r :
  ids_ok ids → ipc_addid ids new size cr alloc = (ids', r) →
  ids_ok ids' ∧
  match r with
  | None => Forall (λ o, is_Some o) (take (Z.to_nat (grow_ary ids size alloc).2) (entries ids'))
  | Some (id, perm) =>
      0 <= id < ids_size ids' ∧ p_seq perm = ids_seq ids ∧
      (∀ o, entries ids !! Z.to_nat id = Some o → o = None) ∧
      ∃ n, entries ids' = <[Z.to_nat id := Some new]> (entries ids ++ replicate n None)
  end.
Proof.
  intros H. unfold ipc_addid. destruct (grow_ary ids size alloc) as [ids1 size1] eqn:Eg.
  destruct (grow_ary_ok _ _ _ _ _ H Eg) as (H1 & Hsz & n & En & Es & Eu).
  pose proof (free_from_spec 0 (take (Z.to_nat size1) (entries ids1))) as Hf.
  destruct (free_from 0 _) as [id|]; intros [= <- <-]; [|done].
  destruct Hf as [Hid Hnone]. rewrite Z.sub_0_r in Hnone.
  apply lookup_take_Some in Hnone as [Hnone Hlt]. pose proof (lookup_lt_Some _ _ _ Hnone).
  pose proof (ids_max _ H1) as (M1 & M2 & M3). destruct H1 as [[A1 A1'] A2 A3 [A4 A4']].
  split; [|split_and!; simpl; [lia|unfold zlen in *; lia|done| |exists n; by rewrite <- En]].
  - eapply (ids_ok_max _ (if max_id ids1 <? id then id else max_id ids1) (<[Z.to_nat id := Some new]> (entries ids1))); try done; simpl.
    + zbool; lia.
    + intros i p Hi. destruct (decide (i = Z.to_nat id)) as [->|Hne]; [zbool; lia|].
      rewrite list_lookup_insert_ne in Hi by done. apply M2 in Hi. zbool; lia.
    + intros Hm. destruct (Z.ltb_spec (max_id ids1) id).
      * exists new. by apply list_lookup_insert_eq.
      * destruct (M3 Hm) as [p Hp]. exists p. rewrite list_lookup_insert_ne; [done|]. intros E. congruence.
    + unfold zlen in *. by rewrite length_insert.
    + rewrite filter_used_insert by done. lia.
    + rewrite A4'. pose proof (wrap_bound 16 (ids_seq ids1 + 1)). zbool; lia.
  - intros o Ho. rewrite En in Hnone. pose proof (lookup_app_l_Some _ (replicate n None) _ _ Ho). congruence.
Qed.

Lemma ipc_rmid_ok ids id ids' p :
  ids_ok ids → 0 <= id → ipc_rmid ids id = Ok (ids', p) →
  ids_ok ids' ∧ entries ids !! Z.to_nat (id mod SEQ_MULTIPLIER) = Some (Some p) ∧
  entries ids' = <[Z.to_nat (id mod SEQ_MULTIPLIER) := None]> (entries ids) ∧ ids_seq ids' = ids_seq ids ∧
  ids_size ids' = ids_size ids.
Proof.
  intros H Hid. pose proof (ids_max _ H) as (M1 & M2 & M3). unfold ipc_rmid, entry.
  rewrite Z.rem_mod_nonneg by (unfold SEQ_MULTIPLIER, IPCMNI; lia). set (lid := id mod SEQ_MULTIPLIER).
  assert (0 <= lid) by (apply Z.mod_pos_bound; unfold SEQ_MULTIPLIER, IPCMNI; lia).
  intros E. inv_ok E. destruct (entries ids !! Z.to_nat lid) as [o|] eqn:El; [|done]. inv_ok E1.
  destruct x as [q|]; [|done]. inv_ok E. pose proof (lookup_lt_Some _ _ _ El).
  destruct H as [[A1 A1'] A2 A3 [A4 A4']]. split_and!; try done.
  set (l := <[Z.to_nat lid := None]> (entries ids)). assert (length l = length (entries ids)) as Ell by apply length_insert.
  assert (∀ i p, l !! i = Some (Some p) → entries ids !! i = Some (Some p) ∧ i ≠ Z.to_nat lid) as Hl.
  { intros i r Hi. destruct (decide (i = Z.to_nat lid)) as [->|Hne].
    - unfold l in Hi. by rewrite list_lookup_insert_eq in Hi.
    - unfold l in Hi. by rewrite list_lookup_insert_ne in Hi. }
  destruct (last_used_spec (Z.to_nat lid) l) as (L1 & L2 & L3).
  eapply (ids_ok_max _ (if lid =? max_id ids then last_used (Z.to_nat lid) l else max_id ids) l); try done; simpl.
  - zbool; lia.
  - intros i r [Hi Hne]%Hl. pose proof (M2 _ _ Hi). destruct (Z.eqb_spec lid (max_id ids)); [|done].
    apply (L2 i r); [unfold l; by rewrite list_lookup_insert_ne|lia].
  - destruct (Z.eqb_spec lid (max_id ids)); [done|]. intros Hm. destruct (M3 Hm) as [r Hr]. exists r. unfold l.
    rewrite list_lookup_insert_ne; [done|lia].
  - unfold zlen in *. by rewrite Ell.
  - unfold l. rewrite (filter_used_delete _ _ _ El). lia.
Qed.

(** ** Identifiers *)

Lemma buildid_spec id seq : 0 <= id < SEQ_MULTIPLIER → 0 <= seq <= USHRT_MAX →
  let uid := ipc_buildid id seq in
  0 <= uid <= INT_MAX ∧ Z.rem uid SEQ_MULTIPLIER = id ∧ Z.quot uid SEQ_MULTIPLIER = seq.
Proof.
  intros Hid Hs. unfold ipc_buildid, SEQ_MULTIPLIER, IPCMNI, USHRT_MAX, INT_MAX in *. cbv zeta.
  rewrite swrap_small by lia. rewrite Z.rem_mod_nonneg, Z.quot_div_nonneg by lia.
  split; [lia|]. Z.div_mod_to_equations. lia.
Qed.

Lemma ipc_lock_some ids lid uid o :
  Z.rem uid SEQ_MULTIPLIER = lid → 0 <= lid → zlen (entries ids) = ids_size ids →
  entries ids !! Z.to_nat lid = Some o → ipc_lock ids uid = Ok o.
Proof.
  intros E H0 Hz Ho. unfold ipc_lock, entry. rewrite E, Ho. pose proof (lookup_lt_Some _ _ _ Ho). unfold zlen in *.
  by destruct (Z.ltb_spec (ids_size ids) lid); [lia|].
Qed.

Lemma next_seq ids : ids_ok ids →
  (if seq_max ids <? u16 (ids_seq ids + 1) then 0 else u16 (ids_seq ids + 1)) = (ids_seq ids + 1) mod 2 ^ 16.
Proof.
  intros [_ _ _ [H1 H2]]. rewrite H2. pose proof (wrap_bound 16 (ids_seq ids + 1)). unfold USHRT_MAX.
  by destruct (Z.ltb_spec 0xffff (u16 (ids_seq ids + 1))); [lia|].
Qed.

Lemma lock_entry ids semid a : 0 <= semid → ipc_lock ids semid = Ok (Some a) →
  entries ids !! Z.to_nat (semid mod SEQ_MULTIPLIER) = Some (Some a).
Proof.
  intros H0. unfold ipc_lock, entry. rewrite Z.rem_mod_nonneg by (unfold SEQ_MULTIPLIER, IPCMNI; lia).
  destruct (_ <? _); [done|]. by destruct (entries ids !! _) as [o|]; [intros [= ->]|].
Qed.

(** Removing the identifier of [a] leaves the other identifiers. *)
Lemma rmid_lock ids uid a ids' :
  ids_ok ids → (∀ i j b, entries ids !! i = Some (Some b) → entries ids !! j = Some (Some b) → i = j) →
  0 <= uid → ipc_rmid ids uid = Ok (ids', a) →
  ids_ok ids' ∧ (∀ i b, entries ids' !! i = Some (Some b) → entries ids !! i = Some (Some b) ∧ b ≠ a) ∧
  ∀ id b, 0 <= id → b ≠ a → ipc_lock ids id = Ok (Some b) → ipc_lock ids' id = Ok (Some b).
Proof.
  intros Hok Hinj H0 E. destruct (ipc_rmid_ok _ _ _ _ Hok H0 E) as (Hok' & Ek & Eids & _ & Esize).
  set (k := Z.to_nat (uid mod SEQ_MULTIPLIER)) in *. split; [done|]. split.
  - intros i b Hi. rewrite Eids in Hi. destruct (decide (i = k)) as [->|Hne].
    + rewrite list_lookup_insert_eq in Hi; [done|]. by eapply lookup_lt_Some.
    + rewrite list_lookup_insert_ne in Hi by done. split; [done|]. intros ->. apply Hne. by eapply Hinj.
  - intros id b Hid Hne Hlk. pose proof (lock_entry _ _ _ Hid Hlk) as He.
    assert (0 <= id mod SEQ_MULTIPLIER) by (apply Z.mod_pos_bound; unfold SEQ_MULTIPLIER, IPCMNI; lia).
    apply (ipc_lock_some ids' (id mod SEQ_MULTIPLIER)); [by apply Z.rem_mod_nonneg|done|apply Hok'|].
    rewrite Eids. destruct (decide (Z.to_nat (id mod SEQ_MULTIPLIER) = k)) as [Ee|Hnk]; [rewrite Ee in He; congruence|].
    by rewrite list_lookup_insert_ne.
Qed.

Lemma rmid_exists ids uid a : ipc_lock ids uid = Ok (Some a) → ∃ ids', ipc_rmid ids uid = Ok (ids', a).
Proof.
  intros Hl. unfold ipc_rmid. unfold ipc_lock in Hl. destruct (_ <? _); [done|]. simpl. rewrite Hl. simpl. by eexists.
Qed.

(** The slot that was found by key holds a set. *)
Lemma find_from_entry key_of key id l :
  find_from key_of key id l = -1 ∨ 0 <= find_from key_of key id l - id < zlen l ∧
    ∃ p, l !! Z.to_nat (find_from key_of key id l - id) = Some (Some p).
Proof.
  revert id. induction l as [|o l IH]; intros id; cbn [find_from]; [by left|]. rewrite zlen_cons. pose proof (zlen_nonneg l).
  assert (find_from key_of key (id + 1) l = -1 ∨ 0 <= find_from key_of key (id + 1) l - id < zlen l + 1 ∧
    ∃ p, (o :: l) !! Z.to_nat (find_from key_of key (id + 1) l - id) = Some (Some p)) as Hnext.
  { destruct (IH (id + 1)) as [?|[? [p Hp]]]; [by left|right]. split; [lia|]. exists p.
    by replace (Z.to_nat (find_from key_of key (id + 1) l - id)) with (S (Z.to_nat (find_from key_of key (id + 1) l - (id + 1)))) by lia. }
  destruct o as [p|]; [|done]. destruct (_ =? _); [|done]. right. split; [lia|]. exists p. by rewrite Z.sub_diag.
Qed.

(** A table that refuses is full. *)
Lemma addid_full ids new size cr alloc ids' :
  ids_ok ids → ipc_addid ids new size cr alloc = (ids', None) → (grow_ary ids size alloc).2 <= in_use ids'.
Proof.
  intros H E. pose proof (ipc_addid_ok _ _ _ _ _ _ _ H E) as [[[A1 _] A2 _ _] Hr]. rewrite A2.
  set (n := (grow_ary ids size alloc).2) in *.
  assert (zlen (take (Z.to_nat n) (entries ids')) <= zlen (filter (λ o, used o = true) (entries ids'))) as Hle.
  { rewrite <- (take_drop (Z.to_nat n) (entries ids')) at 2. rewrite list.filter_app, zlen_app.
    pose proof (zlen_nonneg (filter (λ o, used o = true) (drop (Z.to_nat n) (entries ids')))).
    enough (filter (λ o, used o = true) (take (Z.to_nat n) (entries ids')) = take (Z.to_nat n) (entries ids')) as -> by lia.
    clear -Hr. induction Hr as [|o l [p ->] Hl IH]; [done|]. rewrite filter_cons_True by done. by rewrite IH. }
  assert (n <= zlen (entries ids')) as Hsz.
  { unfold n, ipc_addid in *. destruct (grow_ary ids size alloc) as [ids1 s1] eqn:Eg.
    destruct (grow_ary_ok _ _ _ _ _ H Eg) as ([[B1 _] _ _ _] & B2 & _). destruct (free_from 0 _); [done|].
    injection E as <-. simpl. lia. }
  unfold zlen in *. rewrite length_take in Hle. lia.
Qed.

(** The entries after an addition. *)
Lemma addid_entries ids new size cr alloc ids' o :
  ids_ok ids → ipc_addid ids new size cr alloc = (ids', o) →
  (∀ i b, entries ids !! i = Some (Some b) → entries ids' !! i = Some (Some b)) ∧
  (∀ i b, entries ids' !! i = Some (Some b) → entries ids !! i = Some (Some b) ∨
     ∃ id perm, o = Some (id, perm) ∧ i = Z.to_nat id ∧ b = new).
Proof.
  intros H E. assert (∀ n i b, (entries ids ++ replicate n None) !! i = Some (Some b) ↔ entries ids !! i = Some (Some b)) as Hg.
  { intros n i b. split; [|by apply lookup_app_l_Some]. intros [Hp|[_ Hp]]%lookup_app_Some; [done|].
    by apply lookup_replicate in Hp as [? _]. }
  destruct o as [[id perm]|].
  - destruct (ipc_addid_ok _ _ _ _ _ _ _ H E) as (_ & _ & _ & Hfree & n & ->). split.
    + intros i b Hi. rewrite list_lookup_insert_ne; [by apply Hg|]. intros <-. by apply Hfree in Hi.
    + intros i b. destruct (decide (i = Z.to_nat id)) as [->|Hne].
      * intros [(_ & [= ->] & _)|(Hne & _)]%list_lookup_insert_Some; [right; eauto|done].
      * rewrite list_lookup_insert_ne by done. intros Hi%Hg. by left.
  - unfold ipc_addid in E. destruct (grow_ary ids size alloc) as [ids1 s1] eqn:Eg. destruct (free_from 0 _); [done|].
    injection E as <-. destruct (grow_ary_ok _ _ _ _ _ H Eg) as (_ & _ & n & -> & _). split; intros i b; rewrite Hg; auto.
Qed.

Lemma addid_size ids new size cr alloc ids' o :
  ids_ok ids → ipc_addid ids new size cr alloc = (ids', o) → ids_size ids <= ids_size ids'.
Proof.
  intros H. unfold ipc_addid. destruct (grow_ary ids size alloc) as [ids1 s1] eqn:Eg.
  destruct (grow_ary_ok _ _ _ _ _ H Eg) as ([[B1 _] _ _ _] & _ & n & En & _). destruct H as [[A1 _] _ _ _].
  rewrite En, zlen_app in B1. pose proof (zlen_nonneg (replicate n (@None Z))).
  destruct (free_from 0 _); intros [= <- _]; simpl; lia.
Qed.

(** The new object is found under its identifier. *)
Lemma addid_found ids new size cr alloc ids' id perm :
  ids_ok ids → ipc_addid ids new size cr alloc = (ids', Some (id, perm)) →
  let uid := ipc_buildid id (p_seq perm) in
  0 <= uid <= INT_MAX ∧ Z.rem uid SEQ_MULTIPLIER = id ∧ 0 <= id < ids_size ids' ∧
  entries ids' !! Z.to_nat id = Some (Some new) ∧ ipc_lock ids' uid = Ok (Some new) ∧ ipc_checkid perm uid = false ∧
  p_uid perm = euid cr ∧ p_cuid perm = euid cr ∧ in_use ids' = in_use ids + 1.
Proof.
  intros H E uid. pose proof (ipc_addid_ok _ _ _ _ _ _ _ H E) as [H' (Hid & Hseq & Hfree & n & En)].
  pose proof H' as [[A1 A1'] _ _ _]. pose proof H as [_ _ _ [B4 _]].
  destruct (buildid_spec id (p_seq perm)) as (U1 & U2 & U3); [unfold SEQ_MULTIPLIER; lia|by rewrite Hseq|].
  assert (entries ids' !! Z.to_nat id = Some (Some new)) as Hnew.
  { assert (Z.to_nat id < length (entries ids'))%nat as Hlt by (unfold zlen in *; lia).
    rewrite En in Hlt |- *. rewrite length_insert in Hlt. by apply list_lookup_insert_eq. }
  assert (p_uid perm = euid cr ∧ p_cuid perm = euid cr ∧ in_use ids' = in_use ids + 1) as (P1 & P2 & P3).
  { unfold ipc_addid in E. destruct (grow_ary ids size alloc) as [ids1 s1] eqn:Eg.
    destruct (grow_ary_ok _ _ _ _ _ H Eg) as (_ & _ & _ & _ & _ & Eu). destruct (free_from 0 _); [|done].
    injection E as <- <- <-. simpl. split_and!; try done. lia. }
  split_and!; try done; try lia; [by eapply ipc_lock_some; [done|lia|done|]|].
  unfold ipc_checkid, uid. by rewrite U3, Z.eqb_refl.
Qed.


Definition sample_cred : cred := Cred 5 5 5 [] false false.
Definition sample_ids : ipc_ids := Ids 3 1 1 7 USHRT_MAX [None; Some 40; None].


(** A sequence of additions and removals, with the identifiers handed out. *)
Inductive ids_op := AddId (new size : Z) (cr : cred) (alloc : bool) | RmId (id : Z).

Fixpoint run_ids (ids : ipc_ids) (ops : list ids_op) : outcome (list Z) :=
  match ops with
  | [] => Ok []
  | AddId new size cr alloc :: ops =>
      let '(ids, r) := ipc_addid ids new size cr alloc in
      uids ← run_ids ids ops;
      Ok (match r with Some (id, perm) => ipc_buildid id (p_seq perm) :: uids | None => uids end)
  | RmId id :: ops => '(ids, _) ← ipc_rmid ids (Z.abs id); run_ids ids ops
  end.

Lemma addid_seq ids new size cr alloc ids' r :
  ids_ok ids → ipc_addid ids new size cr alloc = (ids', r) →
  ids_seq ids' = if r is Some _ then (ids_seq ids + 1) mod 2 ^ 16 else ids_seq ids.
Proof.
  intros H. unfold ipc_addid. destruct (grow_ary ids size alloc) as [ids1 s1] eqn:Eg.
  destruct (grow_ary_ok _ _ _ _ _ H Eg) as (H1 & _ & _ & _ & Es & _).
  destruct (free_from 0 _); intros [= <- <-]; simpl; [|done]. rewrite next_seq by done. by rewrite Es.
Qed.

Lemma run_ids_seqs ids ops uids :
  ids_ok ids → run_ids ids ops = Ok uids →
  ∀ i uid, uids !! i = Some uid → Z.quot uid SEQ_MULTIPLIER = (ids_seq ids + Z.of_nat i) mod 2 ^ 16.
Proof.
  revert ids uids. induction ops as [|[new size cr alloc|id] ops IH]; intros ids uids H E; cbn [run_ids] in E.
  - inv_ok E. done.
  - destruct (ipc_addid ids new size cr alloc) as [ids1 r] eqn:Ea. inv_ok E.
    destruct (ipc_addid_ok _ _ _ _ _ _ _ H Ea) as [Hok1 Hr]. pose proof (addid_seq _ _ _ _ _ _ _ H Ea) as Es.
    specialize (IH ids1 x Hok1 E0). destruct r as [[id perm]|]; [|rewrite <- Es; by apply IH].
    destruct Hr as (Hid & Hseq & _). destruct H as [_ _ _ [Hs _]]. destruct Hok1 as [[_ ?] _ _ _].
    destruct (buildid_spec id (p_seq perm)) as (_ & _ & U3); [unfold SEQ_MULTIPLIER; lia|by rewrite Hseq|].
    rename H1 into Hi. destruct i as [|i]; simpl in Hi.
    + injection Hi as <-. rewrite U3, Hseq, Z.add_0_r, Z.mod_small; [done|]. unfold USHRT_MAX in Hs. lia.
    + rewrite (IH i uid Hi), Es. rewrite Zplus_mod_idemp_l. f_equal. lia.
  - inv_ok E. destruct x as [ids1 p]. destruct (ipc_rmid_ok _ _ _ _ H (Z.abs_nonneg id) E0) as (Hok1 & _ & _ & Es & _).
    rewrite <- Es. by apply IH.
Qed.

(** Identifiers do not come back soon: among any 65536 objects created one
    after the other, with removals in between, no two have the same identifier,
    so the identifier of a removed object is refused for its successors in the
    slot. *)
Theorem ipc_ids_unique ids ops uids :
  ids_ok ids → run_ids ids ops = Ok uids → zlen uids <= 65536 → NoDup uids.
Proof.
  intros H E Hlen. apply NoDup_alt. intros i j uid Hi Hj.
  pose proof (run_ids_seqs _ _ _ H E _ _ Hi) as Ei. pose proof (run_ids_seqs _ _ _ H E _ _ Hj) as Ej.
  apply lookup_lt_Some in Hi, Hj. unfold zlen in *. rewrite Ei in Ej. Z.div_mod_to_equations. lia.
Qed.

Lemma ipc_ids_unique_witness : NoDup [7 * 32768; 8 * 32768].
Proof.
  apply (ipc_ids_unique sample_ids [AddId 41 3 sample_cred true; RmId (7 * 32768); AddId 42 3 sample_cred true]).
  - constructor; vm_compute; repeat split; discriminate.
  - vm_compute. reflexivity.
  - vm_compute. discriminate.
Defined.

(** ** The end of the table

    The test against the size lets through the slot just behind the table, which
    is then read, in [ipc_lock], [ipc_get] and [ipc_rmid]. *)
Lemma ipc_lock_behind_table ids : ids_ok ids → 0 <= ids_size ids < IPCMNI →
  ipc_lock ids (ids_size ids) = Trap Fault.
Proof.
  intros [[H1 _] _ _ _] Hs. unfold ipc_lock, entry. rewrite Z.rem_small by (unfold SEQ_MULTIPLIER; lia).
  rewrite Z.ltb_irrefl. rewrite lookup_ge_None_2; [done|]. unfold zlen in H1. lia.
Qed.
