(* ===== verification/Sem.v ===== *)
(** System V semaphores, [ipc/sem.c].

    Semaphore sets and undo structures live in stores and are known by their
    address.  A process has at most one [sem_queue], on its stack, so the queue
    of a sleeping process is known by the process.  A call runs until it sleeps;
    the functions [semop_alloc] and [semop_wake] continue it.  Time stamps and
    the text of /proc are left out. *)

From S2P Require Import Prelude Errno Ipc.

Definition SEM_UNDO : Z := 0x1000.
Definition SEMMNI : Z := 128.
Definition SEMMSL : Z := 250.
Definition SEMMNS : Z := SEMMNI * SEMMSL.
Definition SEMOPM : Z := 32.
Definition SEMVMX : Z := 32767.
Definition SEMUME : Z := SEMOPM.
Definition SEMMNU : Z := SEMMNS.
Definition SEMAEM : Z := Z.shiftr SEMVMX 1.
Definition SEMMAP : Z := SEMMNS.
Definition SEMUSZ : Z := 20.

(** ** Data *)

Record sem := Sem { semval : Z; sempid : Z }.
Record sembuf := Sembuf { sem_num : Z; sem_op : Z; sem_flg : Z }.

#[export] Instance sem_eq_dec : EqDecision sem.
Proof. solve_decision. Defined.
#[export] Instance sem_inhabited : Inhabited sem := populate (Sem 0 0).

(** [linked] is [prev != NULL]; [woken] tells whether the process was woken. *)
Record sem_queue := Queue {
  q_undo : option Z; q_pid : Z; q_status : Z; q_sma : Z; q_id : Z; q_sops : list sembuf; q_alter : bool;
  q_linked : bool; q_woken : bool
}.

Record sem_undo := Undo { u_semid : Z; semadj : list Z }.

(** The queue of pending operations holds processes, [sma_undo] addresses. *)
Record sem_array := SemArray {
  sem_perm : kern_ipc_perm; sem_base : list sem; sem_pending : list Z; sma_undo : list Z
}.

Definition sem_nsems (sma : sem_array) : Z := zlen (sem_base sma).

(** A call that waits for memory for an undo structure. *)
Record allocating := Allocating { al_semid : Z; al_sma : Z; al_nsems : Z; al_sops : list sembuf }.

(** All of [sem.c]'s state: the table, the sets, the undo structures, the lists
    of undo structures of the processes, the sleeping processes, the calls that
    allocate; [next_addr] is the next address that memory comes from. *)
Record world := World {
  sem_ids : ipc_ids; arrays : gmap Z sem_array; undos : gmap Z sem_undo; semundo : gmap Z (list Z);
  queues : gmap Z sem_queue; allocs : gmap Z allocating; used_sems : Z; next_addr : Z
}.

Definition set_ids (i : ipc_ids) (w : world) : world :=
  World i (arrays w) (undos w) (semundo w) (queues w) (allocs w) (used_sems w) (next_addr w).
Definition set_arrays (m : gmap Z sem_array) (w : world) : world :=
  World (sem_ids w) m (undos w) (semundo w) (queues w) (allocs w) (used_sems w) (next_addr w).
Definition set_undos (m : gmap Z sem_undo) (w : world) : world :=
  World (sem_ids w) (arrays w) m (semundo w) (queues w) (allocs w) (used_sems w) (next_addr w).
Definition set_semundo (m : gmap Z (list Z)) (w : world) : world :=
  World (sem_ids w) (arrays w) (undos w) m (queues w) (allocs w) (used_sems w) (next_addr w).
Definition set_queues (m : gmap Z sem_queue) (w : world) : world :=
  World (sem_ids w) (arrays w) (undos w) (semundo w) m (allocs w) (used_sems w) (next_addr w).
Definition set_allocs (m : gmap Z allocating) (w : world) : world :=
  World (sem_ids w) (arrays w) (undos w) (semundo w) (queues w) m (used_sems w) (next_addr w).
Definition set_used (n : Z) (w : world) : world :=
  World (sem_ids w) (arrays w) (undos w) (semundo w) (queues w) (allocs w) n (next_addr w).
Definition set_next (a : Z) (w : world) : world :=
  World (sem_ids w) (arrays w) (undos w) (semundo w) (queues w) (allocs w) (used_sems w) a.

Definition set_base (b : list sem) (sma : sem_array) : sem_array :=
  SemArray (sem_perm sma) b (sem_pending sma) (sma_undo sma).
Definition set_pending (l : list Z) (sma : sem_array) : sem_array :=
  SemArray (sem_perm sma) (sem_base sma) l (sma_undo sma).
Definition set_sma_undo (l : list Z) (sma : sem_array) : sem_array :=
  SemArray (sem_perm sma) (sem_base sma) (sem_pending sma) l.
Definition set_perm (p : kern_ipc_perm) (sma : sem_array) : sem_array :=
  SemArray p (sem_base sma) (sem_pending sma) (sma_undo sma).

Definition set_status (st : Z) (q : sem_queue) : sem_queue :=
  Queue (q_undo q) (q_pid q) st (q_sma q) (q_id q) (q_sops q) (q_alter q) (q_linked q) (q_woken q).
Definition set_linked (b : bool) (q : sem_queue) : sem_queue :=
  Queue (q_undo q) (q_pid q) (q_status q) (q_sma q) (q_id q) (q_sops q) (q_alter q) b (q_woken q).
Definition set_woken (b : bool) (q : sem_queue) : sem_queue :=
  Queue (q_undo q) (q_pid q) (q_status q) (q_sma q) (q_id q) (q_sops q) (q_alter q) (q_linked q) b.

Definition flag_set (f : Z) (sop : sembuf) : bool := c_true (Z.land (sem_flg sop) f).

(** ** try_atomic_semop *)

(** The adjustment of an undo structure; [un] is [None] for a null pointer. *)
Definition adjust (un : option (list Z)) (sop : sembuf) (d : Z) : outcome (option (list Z)) :=
  if flag_set SEM_UNDO sop then
    match un with
    | None => Trap Fault
    | Some adj =>
        match adj !! Z.to_nat (sem_num sop) with
        | None => Trap Fault
        | Some v => Ok (Some (<[Z.to_nat (sem_num sop) := s16 (v + d)]> adj))
        end
    end
  else Ok un.

Definition would_block (sop : sembuf) : Z := if flag_set IPC_NOWAIT sop then - EAGAIN else 1.

(** The loop.  [stack] holds the operations done so far, the last one first; the
    result is the code with which the loop is left, if it is left early. *)
Fixpoint forward (sops stack : list sembuf) (pid : Z) (base : list sem) (un : option (list Z))
    : outcome (option Z * list sembuf * list sem * option (list Z)) :=
  match sops with
  | [] => Ok (None, stack, base, un)
  | sop :: sops =>
      match base !! Z.to_nat (sem_num sop) with
      | None => Trap Fault
      | Some curr =>
          if (sem_op sop =? 0) && c_true (semval curr) then Ok (Some (would_block sop), sop :: stack, base, un)
          else
            let v := s32 (semval curr + sem_op sop) in
            let curr := Sem v (s32 (Z.lor (Z.shiftl (sempid curr) 16) pid)) in
            let base := <[Z.to_nat (sem_num sop) := curr]> base in
            un ← adjust un sop (- sem_op sop);
            if v <? 0 then Ok (Some (would_block sop), sop :: stack, base, un)
            else if SEMVMX <? v then Ok (Some (- ERANGE), sop :: stack, base, un)
            else forward sops (sop :: stack) pid base un
      end
  end.

(** The loop at [undo]. *)
Fixpoint backward (stack : list sembuf) (base : list sem) (un : option (list Z))
    : outcome (list sem * option (list Z)) :=
  match stack with
  | [] => Ok (base, un)
  | sop :: stack =>
      match base !! Z.to_nat (sem_num sop) with
      | None => Trap Fault
      | Some curr =>
          let base := <[Z.to_nat (sem_num sop) := Sem (s32 (semval curr - sem_op sop)) (Z.shiftr (sempid curr) 16)]> base in
          un ← adjust un sop (sem_op sop);
          backward stack base un
      end
  end.

Definition try_atomic_semop (base : list sem) (un : option (list Z)) (sops : list sembuf) (pid : Z) (do_undo : bool)
    : outcome (list sem * option (list Z) * Z) :=
  '(early, stack, base, un) ← forward sops [] pid base un;
  match early with
  | None =>
      if do_undo then '(base, un) ← backward stack base un; Ok (base, un, 0) else Ok (base, un, 0)
  | Some result => '(base, un) ← backward stack base un; Ok (base, un, result)
  end.

(** With the set at [a] and the undo structure at [un]. *)
Definition try_on (w : world) (a : Z) (un : option Z) (sops : list sembuf) (pid : Z) (do_undo : bool)
    : outcome (world * Z) :=
  sma ← deref (arrays w) a;
  match un with
  | None =>
      '(base, _, error) ← try_atomic_semop (sem_base sma) None sops pid do_undo;
      Ok (set_arrays (<[a := set_base base sma]> (arrays w)) w, error)
  | Some u =>
      und ← deref (undos w) u;
      '(base, adj, error) ← try_atomic_semop (sem_base sma) (Some (semadj und)) sops pid do_undo;
      Ok (set_undos (<[u := Undo (u_semid und) (default [] adj)]> (undos w))
            (set_arrays (<[a := set_base base sma]> (arrays w)) w), error)
  end.

(** ** The queue *)

Definition update_q (f : sem_queue → sem_queue) (pid : Z) (w : world) : outcome world :=
  q ← deref (queues w) pid; Ok (set_queues (<[pid := f q]> (queues w)) w).

Definition append_to_queue (a pid : Z) (w : world) : outcome world :=
  sma ← deref (arrays w) a;
  update_q (set_linked true) pid (set_arrays (<[a := set_pending (sem_pending sma ++ [pid]) sma]> (arrays w)) w).

Definition prepend_to_queue (a pid : Z) (w : world) : outcome world :=
  sma ← deref (arrays w) a;
  update_q (set_linked true) pid (set_arrays (<[a := set_pending (pid :: sem_pending sma) sma]> (arrays w)) w).

Definition remove_from_queue (a pid : Z) (w : world) : outcome world :=
  sma ← deref (arrays w) a;
  update_q (set_linked false) pid
    (set_arrays (<[a := set_pending (filter (λ p, p ≠ pid) (sem_pending sma)) sma]> (arrays w)) w).

(** The loop of [update_queue] over the rest [l] of the queue. *)
Fixpoint update_loop (l : list Z) (a : Z) (w : world) : outcome world :=
  match l with
  | [] => Ok w
  | p :: l =>
      q ← deref (queues w) p;
      if q_status q =? 1 then update_loop l a w
      else
        '(w, error) ← try_on w a (q_undo q) (q_sops q) (q_pid q) (q_alter q);
        if error <=? 0 then
          w ← update_q (set_woken true) p w;
          if (error =? 0) && q_alter q then update_q (set_status 1) p w
          else
            w ← update_q (set_status error) p w;
            w ← remove_from_queue a p w;
            update_loop l a w
        else update_loop l a w
  end.

Definition update_queue (a : Z) (w : world) : outcome world :=
  sma ← deref (arrays w) a; update_loop (sem_pending sma) a w.

(** Tasks that wait for an increase, or for zero. *)
Definition count_ops (f : sembuf → bool) (semnum : Z) (sops : list sembuf) : Z :=
  zlen (filter (λ sop, (sem_num sop =? semnum) && f sop && negb (flag_set IPC_NOWAIT sop) = true) sops).

Fixpoint count_queue (f : sembuf → bool) (semnum : Z) (l : list Z) (w : world) : outcome Z :=
  match l with
  | [] => Ok 0
  | p :: l => q ← deref (queues w) p; n ← count_queue f semnum l w; Ok (count_ops f semnum (q_sops q) + n)
  end.

Definition count_semncnt (a semnum : Z) (w : world) : outcome Z :=
  sma ← deref (arrays w) a; count_queue (λ sop, sem_op sop <? 0) semnum (sem_pending sma) w.

Definition count_semzcnt (a semnum : Z) (w : world) : outcome Z :=
  sma ← deref (arrays w) a; count_queue (λ sop, sem_op sop =? 0) semnum (sem_pending sma) w.

(** ** Sets *)

(** The limits, [sem_ctls]. *)
Record limits := Limits { sc_semmsl : Z; sc_semmns : Z; sc_semopm : Z; sc_semmni : Z }.
Definition sem_ctls : limits := Limits SEMMSL SEMMNS SEMOPM SEMMNI.

Definition sem_init (lim : limits) (alloc : bool) : outcome world :=
  ids ← ipc_init_ids (sc_semmni lim) alloc; Ok (World ids ∅ ∅ ∅ ∅ ∅ 0 1).

(** [alloc] and [grow] tell whether there is memory for the set and for a larger
    table. *)
Definition newary (lim : limits) (cr : cred) (key nsems semflg : Z) (alloc grow : bool) (w : world) : world * Z :=
  if nsems =? 0 then (w, - EINVAL)
  else if sc_semmns lim <? s32 (used_sems w + nsems) then (w, - ENOSPC)
  else if negb alloc then (w, - ENOMEM)
  else
    let a := next_addr w in
    match ipc_addid (sem_ids w) a (sc_semmni lim) cr grow with
    | (ids, None) => (set_ids ids w, - ENOSPC)
    | (ids, Some (id, p)) =>
        let p := Perm key (p_uid p) (p_gid p) (p_cuid p) (p_cgid p) (Z.land semflg S_IRWXUGO) (p_seq p) in
        let sma := SemArray p (replicate (Z.to_nat nsems) (Sem 0 0)) [] [] in
        (set_next (a + 1) (set_used (used_sems w + nsems) (set_arrays (<[a := sma]> (arrays w)) (set_ids ids w))),
         ipc_buildid id (p_seq p))
    end.

Definition key_of (w : world) (a : Z) : Z :=
  match arrays w !! a with Some sma => p_key (sem_perm sma) | None => 0 end.

Definition sys_semget (lim : limits) (cr : cred) (key nsems semflg : Z) (alloc grow : bool) (w : world)
    : outcome (world * Z) :=
  if (nsems <? 0) || (sc_semmsl lim <? nsems) then Ok (w, - EINVAL)
  else if key =? IPC_PRIVATE then Ok (newary lim cr key nsems semflg alloc grow w)
  else
    let id := ipc_findkey (key_of w) (sem_ids w) key in
    if id =? -1 then
      if negb (c_true (Z.land semflg IPC_CREAT)) then Ok (w, - ENOENT)
      else Ok (newary lim cr key nsems semflg alloc grow w)
    else if c_true (Z.land semflg IPC_CREAT) && c_true (Z.land semflg IPC_EXCL) then Ok (w, - EEXIST)
    else
      p ← ipc_lock (sem_ids w) id;
      match p with
      | None => Trap Bug
      | Some a =>
          sma ← deref (arrays w) a;
          if sem_nsems sma <? nsems then Ok (w, - EINVAL)
          else if ipcperms cr (sem_perm sma) semflg then Ok (w, - EACCES)
          else Ok (w, ipc_buildid id (p_seq (sem_perm sma)))
      end.

(** 0, or why the set is no longer the one that was found before. *)
Definition sem_revalidate (cr : cred) (semid a nsems flg : Z) (w : world) : outcome Z :=
  p ← ipc_lock (sem_ids w) semid;
  match p with
  | None => Ok (- EIDRM)
  | Some a' =>
      if negb (a' =? a) then Ok (- EIDRM) else
      sma ← deref (arrays w) a;
      if ipc_checkid (sem_perm sma) semid || negb (sem_nsems sma =? nsems) then Ok (- EIDRM)
      else if ipcperms cr (sem_perm sma) flg then Ok (- EACCES)
      else Ok 0
  end.

(** The undo structures of a set are invalidated. *)
Fixpoint invalidate (l : list Z) (w : world) : outcome world :=
  match l with
  | [] => Ok w
  | u :: l =>
      und ← deref (undos w) u;
      invalidate l (set_undos (<[u := Undo (-1) (semadj und)]> (undos w)) w)
  end.

(** The pending processes are woken. *)
Fixpoint wake_removed (l : list Z) (w : world) : outcome world :=
  match l with
  | [] => Ok w
  | p :: l =>
      w ← update_q (λ q, set_woken true (set_linked false (set_status (- EIDRM) q))) p w;
      wake_removed l w
  end.

Definition freeary (semid : Z) (w : world) : outcome world :=
  '(ids, a) ← ipc_rmid (sem_ids w) semid;
  sma ← deref (arrays w) a;
  w ← invalidate (sma_undo sma) (set_ids ids w);
  w ← wake_removed (sem_pending sma) w;
  Ok (set_used (used_sems w - sem_nsems sma) (set_arrays (delete a (arrays w)) w)).

(** ** semctl *)

Definition GETPID : Z := 11.
Definition GETVAL : Z := 12.
Definition GETALL : Z := 13.
Definition GETNCNT : Z := 14.
Definition GETZCNT : Z := 15.
Definition SETVAL : Z := 16.
Definition SETALL : Z := 17.
Definition SEM_STAT : Z := 18.
Definition SEM_INFO : Z := 19.
Definition SEMMSL_FAST : Z := 256.

(** A call returns, with what it stored for the user, or has let go of the lock
    of the set [a] of [nsems] semaphores: GETALL to allocate, SETALL to read the
    user's array. *)
Inductive ctl_end :=
| CReturns (err : Z) (out : list Z)
| CGetall (a nsems : Z)
| CSetall (a nsems : Z).

(** The adjustments of the undo structures of [l] are cleared: of one semaphore,
    or of all. *)
Fixpoint clear_adj (l : list Z) (semnum : option Z) (w : world) : outcome world :=
  match l with
  | [] => Ok w
  | u :: l =>
      und ← deref (undos w) u;
      let adj := match semnum with
                 | Some i => <[Z.to_nat i := 0]> (semadj und)
                 | None => replicate (length (semadj und)) 0
                 end in
      clear_adj l semnum (set_undos (<[u := Undo (u_semid und) adj]> (undos w)) w)
  end.

Definition getall (a : Z) (copy : bool) (w : world) : outcome (world * ctl_end) :=
  sma ← deref (arrays w) a;
  if copy then Ok (w, CReturns 0 (u16 ∘ semval <$> sem_base sma)) else Ok (w, CReturns (- EFAULT) []).

(** What is stored for the user: the permissions and the number of semaphores,
    16 bits wide for an old program. *)
Definition copy_semid_to_user (version : Z) (perm : list Z) (nsems : Z) : list Z :=
  if version =? IPC_64 then perm ++ [nsems] else ipc64_perm_to_ipc_perm perm ++ [u16 nsems].

Definition semctl_main (cr : cred) (semid semnum cmd version val : Z) (copy : bool) (w : world)
    : outcome (world * ctl_end) :=
  p ← ipc_lock (sem_ids w) semid;
  match p with
  | None => Ok (w, CReturns (- EINVAL) [])
  | Some a =>
      sma ← deref (arrays w) a;
      let nsems := sem_nsems sma in
      if ipc_checkid (sem_perm sma) semid then Ok (w, CReturns (- EIDRM) [])
      else if ipcperms cr (sem_perm sma) (if (cmd =? SETVAL) || (cmd =? SETALL) then S_IWUGO else S_IRUGO)
      then Ok (w, CReturns (- EACCES) [])
      else if cmd =? GETALL then
        if SEMMSL_FAST <? nsems then Ok (w, CGetall a nsems) else getall a copy w
      else if cmd =? SETALL then Ok (w, CSetall a nsems)
      else if cmd =? IPC_STAT then
        if copy then Ok (w, CReturns 0 (copy_semid_to_user version (kernel_to_ipc64_perm (sem_perm sma)) nsems)) else Ok (w, CReturns (- EFAULT) [])
      else if (semnum <? 0) || (nsems <=? semnum) then Ok (w, CReturns (- EINVAL) [])
      else
        match sem_base sma !! Z.to_nat semnum with
        | None => Trap Fault
        | Some curr =>
            if cmd =? GETVAL then Ok (w, CReturns (semval curr) [])
            else if cmd =? GETPID then Ok (w, CReturns (Z.land (sempid curr) 0xffff) [])
            else if cmd =? GETNCNT then n ← count_semncnt a semnum w; Ok (w, CReturns n [])
            else if cmd =? GETZCNT then n ← count_semzcnt a semnum w; Ok (w, CReturns n [])
            else if cmd =? SETVAL then
              if (SEMVMX <? val) || (val <? 0) then Ok (w, CReturns (- ERANGE) [])
              else
                w ← clear_adj (sma_undo sma) (Some semnum) w;
                sma ← deref (arrays w) a;
                let base := <[Z.to_nat semnum := Sem val (sempid curr)]> (sem_base sma) in
                w ← update_queue a (set_arrays (<[a := set_base base sma]> (arrays w)) w);
                Ok (w, CReturns 0 [])
            else Ok (w, CReturns (- EINVAL) [])
        end
  end.

(** GETALL on a large set after its allocation. *)
Definition getall_resume (cr : cred) (semid a nsems : Z) (alloc copy : bool) (w : world)
    : outcome (world * ctl_end) :=
  if negb alloc then Ok (w, CReturns (- ENOMEM) [])
  else
    err ← sem_revalidate cr semid a nsems S_IRUGO w;
    if negb (err =? 0) then Ok (w, CReturns err []) else getall a copy w.

(** SETALL after the user's array was read. *)
Definition setall_resume (cr : cred) (semid a nsems : Z) (array : list Z) (alloc copy : bool) (w : world)
    : outcome (world * ctl_end) :=
  if (SEMMSL_FAST <? nsems) && negb alloc then Ok (w, CReturns (- ENOMEM) [])
  else if negb copy then Ok (w, CReturns (- EFAULT) [])
  else if existsb (λ v, SEMVMX <? v) array then Ok (w, CReturns (- ERANGE) [])
  else
    err ← sem_revalidate cr semid a nsems S_IWUGO w;
    if negb (err =? 0) then Ok (w, CReturns err []) else
    sma ← deref (arrays w) a;
    let base := zip_with (λ s v, Sem v (sempid s)) (sem_base sma) array in
    w ← clear_adj (sma_undo sma) None (set_arrays (<[a := set_base base sma]> (arrays w)) w);
    w ← update_queue a w;
    Ok (w, CReturns 0 []).

(** IPC_RMID and IPC_SET; [setbuf] is what was read from the user, if it could
    be. *)
Definition semctl_down (cr : cred) (semid cmd : Z) (setbuf : option (Z * Z * Z)) (w : world) : outcome (world * Z) :=
  if (cmd =? IPC_SET) && bool_decide (setbuf = None) then Ok (w, - EFAULT) else
  p ← ipc_lock (sem_ids w) semid;
  match p with
  | None => Ok (w, - EINVAL)
  | Some a =>
      sma ← deref (arrays w) a;
      let p := sem_perm sma in
      if ipc_checkid p semid then Ok (w, - EIDRM)
      else if negb (euid cr =? p_cuid p) && negb (euid cr =? p_uid p) && negb (cap_sys_admin cr) then Ok (w, - EPERM)
      else if cmd =? IPC_RMID then w ← freeary semid w; Ok (w, 0)
      else if cmd =? IPC_SET then
        match setbuf with
        | None => Ok (w, - EFAULT)
        | Some (uid, gid, mode) =>
            let m := Z.lor (Z.land (p_mode p) (Z.lnot S_IRWXUGO)) (Z.land mode S_IRWXUGO) in
            let p := Perm (p_key p) uid gid (p_cuid p) (p_cgid p) m (p_seq p) in
            Ok (set_arrays (<[a := set_perm p sma]> (arrays w)) w, 0)
        end
      else Ok (w, - EINVAL)
  end.

(** [struct seminfo] as IPC_INFO and SEM_INFO fill it. *)
Definition seminfo (lim : limits) (cmd : Z) (w : world) : list Z :=
  [SEMMAP; sc_semmni lim; sc_semmns lim; SEMMNU; sc_semmsl lim; sc_semopm lim; SEMUME;
   if cmd =? SEM_INFO then in_use (sem_ids w) else SEMUSZ;
   SEMVMX;
   if cmd =? SEM_INFO then used_sems w else SEMAEM].

(** The commands that are not about a set in use. *)
Definition semctl_nolock (lim : limits) (cr : cred) (semid cmd version : Z) (copy : bool) (w : world) : outcome (world * ctl_end) :=
  if (cmd =? IPC_INFO) || (cmd =? SEM_INFO) then
    if copy then Ok (w, CReturns (if max_id (sem_ids w) <? 0 then 0 else max_id (sem_ids w)) (seminfo lim cmd w))
    else Ok (w, CReturns (- EFAULT) [])
  else if cmd =? SEM_STAT then
    if ids_size (sem_ids w) <? semid then Ok (w, CReturns (- EINVAL) []) else
    p ← ipc_lock (sem_ids w) semid;
    match p with
    | None => Ok (w, CReturns (- EINVAL) [])
    | Some a =>
        sma ← deref (arrays w) a;
        if ipcperms cr (sem_perm sma) S_IRUGO then Ok (w, CReturns (- EACCES) [])
        else if copy then Ok (w, CReturns (ipc_buildid semid (p_seq (sem_perm sma)))
                                   (copy_semid_to_user version (kernel_to_ipc64_perm (sem_perm sma)) (sem_nsems sma)))
        else Ok (w, CReturns (- EFAULT) [])
    end
  else Ok (w, CReturns (- EINVAL) []).

Definition sys_semctl (lim : limits) (cr : cred) (semid semnum cmd val : Z) (copy : bool) (setbuf : option (Z * Z * Z))
    (w : world) : outcome (world * ctl_end) :=
  if semid <? 0 then Ok (w, CReturns (- EINVAL) []) else
  let '(cmd, version) := ipc_parse_version cmd in
  if (cmd =? IPC_INFO) || (cmd =? SEM_INFO) || (cmd =? SEM_STAT) then semctl_nolock lim cr semid cmd version copy w
  else if bool_decide (cmd ∈ [GETALL; GETVAL; GETPID; GETNCNT; GETZCNT; IPC_STAT; SETVAL; SETALL])
  then semctl_main cr semid semnum cmd version val copy w
  else if (cmd =? IPC_RMID) || (cmd =? IPC_SET) then
    '(w, err) ← semctl_down cr semid cmd setbuf w; Ok (w, CReturns err [])
  else Ok (w, CReturns (- EINVAL) []).

(** ** semop *)

Definition SEMOPM_FAST : Z := 64.

Definition decreases (sops : list sembuf) : bool := existsb (λ sop, sem_op sop <? 0) sops.
Definition alters (sops : list sembuf) : bool := existsb (λ sop, 0 <? sem_op sop) sops || decreases sops.
Definition wants_undo (sops : list sembuf) : bool := existsb (flag_set SEM_UNDO) sops.

Inductive semop_end := SReturned (error : Z) | SAsleep | SAllocates.

(** The operation is tried; a process that cannot go on is queued and sleeps. *)
Definition semop_try (pid semid a : Z) (un : option Z) (sops : list sembuf) (w : world)
    : outcome (world * semop_end) :=
  '(w, error) ← try_on w a un sops pid false;
  if error <=? 0 then
    w ← (if alters sops then update_queue a w else Ok w);
    Ok (w, SReturned error)
  else
    let q := Queue un pid (- EINTR) a semid sops (decreases sops) false false in
    let w := set_queues (<[pid := q]> (queues w)) w in
    w ← (if alters sops then append_to_queue a pid w else prepend_to_queue a pid w);
    Ok (w, SAsleep).

(** [freeundos]: the structure is taken out of the list of the process. *)
Definition freeundos (pid u : Z) (w : world) : world :=
  let l := default [] (semundo w !! pid) in
  if bool_decide (u ∈ l) then
    set_undos (delete u (undos w)) (set_semundo (<[pid := filter (λ x, x ≠ u) l]> (semundo w)) w)
  else w.

(** The undo structure of the process for the set; stale ones on the way are
    freed. *)
Fixpoint find_undo (l : list Z) (pid semid : Z) (w : world) : outcome (world * option Z) :=
  match l with
  | [] => Ok (w, None)
  | u :: l =>
      und ← deref (undos w) u;
      if u_semid und =? semid then Ok (w, Some u)
      else if u_semid und =? -1 then find_undo l pid semid (freeundos pid u w)
      else find_undo l pid semid w
  end.

(** [sys_semop] up to its first sleep; [alloc] tells whether there is memory for
    more than [SEMOPM_FAST] operations, [copy] whether they can be read. *)
Definition sys_semop (lim : limits) (cr : cred) (pid semid : Z) (sops : list sembuf) (alloc copy : bool) (w : world)
    : outcome (world * semop_end) :=
  if (zlen sops <? 1) || (semid <? 0) then Ok (w, SReturned (- EINVAL))
  else if sc_semopm lim <? zlen sops then Ok (w, SReturned (- E2BIG))
  else if (SEMOPM_FAST <? zlen sops) && negb alloc then Ok (w, SReturned (- ENOMEM))
  else if negb copy then Ok (w, SReturned (- EFAULT))
  else
    p ← ipc_lock (sem_ids w) semid;
    match p with
    | None => Ok (w, SReturned (- EINVAL))
    | Some a =>
        sma ← deref (arrays w) a;
        if ipc_checkid (sem_perm sma) semid then Ok (w, SReturned (- EIDRM))
        else if existsb (λ sop, sem_nsems sma <=? sem_num sop) sops then Ok (w, SReturned (- EFBIG))
        else if ipcperms cr (sem_perm sma) (if alters sops then S_IWUGO else S_IRUGO) then Ok (w, SReturned (- EACCES))
        else if wants_undo sops then
          '(w, un) ← find_undo (default [] (semundo w !! pid)) pid semid w;
          match un with
          | Some u => semop_try pid semid a (Some u) sops w
          | None =>
              Ok (set_allocs (<[pid := Allocating semid a (sem_nsems sma) sops]> (allocs w)) w, SAllocates)
          end
        else semop_try pid semid a None sops w
    end.

(** [alloc_undo] after its allocation, and the rest of the call. *)
Definition semop_alloc (cr : cred) (pid : Z) (alloc : bool) (w : world) : outcome (world * semop_end) :=
  al ← deref (allocs w) pid;
  let w := set_allocs (delete pid (allocs w)) w in
  if negb alloc then Ok (w, SReturned (- ENOMEM)) else
  error ← sem_revalidate cr (al_semid al) (al_sma al) (al_nsems al) (if alters (al_sops al) then S_IWUGO else S_IRUGO) w;
  if negb (error =? 0) then Ok (w, SReturned error) else
  sma ← deref (arrays w) (al_sma al);
  let u := next_addr w in
  let w := set_next (u + 1) (set_undos (<[u := Undo (al_semid al) (replicate (Z.to_nat (al_nsems al)) 0)]> (undos w)) w) in
  let w := set_semundo (<[pid := u :: default [] (semundo w !! pid)]> (semundo w)) w in
  let w := set_arrays (<[al_sma al := set_sma_undo (u :: sma_undo sma) sma]> (arrays w)) w in
  semop_try pid (al_semid al) (al_sma al) (Some u) (al_sops al) w.

(** The end of a call that was queued. *)
Definition semop_leave (pid : Z) (q : sem_queue) (error : Z) (w : world) : outcome (world * semop_end) :=
  w ← remove_from_queue (q_sma q) pid w;
  let w := set_queues (delete pid (queues w)) w in
  w ← (if alters (q_sops q) then update_queue (q_sma q) w else Ok w);
  Ok (w, SReturned error).

(** A sleeping process runs again. *)
Definition semop_wake (pid : Z) (w : world) : outcome (world * semop_end) :=
  q ← deref (queues w) pid;
  tmp ← ipc_lock (sem_ids w) (q_id q);
  match tmp with
  | None =>
      BUG_if (negb (q_status q =? - EIDRM))
        (Ok (set_queues (delete pid (queues w)) w, SReturned (- EIDRM)))
  | Some _ =>
      if q_status q =? 1 then
        '(w, error) ← try_on w (q_sma q) (q_undo q) (q_sops q) (q_pid q) false;
        if error <=? 0 then semop_leave pid q error w
        else
          w ← update_q (λ q, set_woken false (set_status (- EINTR) q)) pid w;
          Ok (w, SAsleep)
      else if q_linked q then semop_leave pid q (q_status q) w
      else Ok (set_queues (delete pid (queues w)) w, SReturned (q_status q))
  end.

(** ** sem_exit *)

(** The adjustments are added to the semaphores. *)
Definition exit_sem (pid : Z) (s : sem) (adj : Z) : sem :=
  let v := s32 (semval s + adj) in Sem (if v <? 0 then 0 else v) pid.

Definition exit_undo (pid u : Z) (w : world) : outcome world :=
  und ← deref (undos w) u;
  let w' := set_undos (delete u (undos w)) w in
  if u_semid und =? -1 then Ok w' else
  p ← ipc_lock (sem_ids w) (u_semid und);
  match p with
  | None => Ok w'
  | Some a =>
      sma ← deref (arrays w) a;
      if ipc_checkid (sem_perm sma) (u_semid und) then Ok w'
      else if negb (bool_decide (u ∈ sma_undo sma)) then Ok w'
      else
        let sma := set_sma_undo (filter (λ x, x ≠ u) (sma_undo sma)) sma in
        let base := zip_with (exit_sem pid) (sem_base sma) (semadj und) in
        w ← update_queue a (set_arrays (<[a := set_base base sma]> (arrays w)) w);
        Ok (set_undos (delete u (undos w)) w)
  end.

(** A structure leaves the list of the process, which only the process itself
    looks at, when it is dealt with. *)
Fixpoint exit_undos (pid : Z) (l : list Z) (w : world) : outcome world :=
  match l with
  | [] => Ok w
  | u :: l => w ← exit_undo pid u (set_semundo (<[pid := l]> (semundo w)) w); exit_undos pid l w
  end.

Definition sem_exit (pid : Z) (w : world) : outcome world :=
  w ← match queues w !! pid with
      | None => Ok w
      | Some q =>
          sma ← ipc_lock (sem_ids w) (q_id q);
          w ← (if q_linked q then BUG_if (bool_decide (sma = None)) (remove_from_queue (q_sma q) pid w) else Ok w);
          Ok (set_queues (delete pid (queues w)) w)
      end;
  w ← exit_undos pid (default [] (semundo w !! pid)) w;
  Ok (set_semundo (delete pid (semundo w)) w).
