(* ===== verification/SemAtomic.v ===== *)
(** The operations of one [semop] call take effect together or not at all
    ([ipc/sem.c], [try_atomic_semop]), and the adjustments made at exit cancel
    what a process did. *)

From S2P Require Import Prelude Errno Ipc Sem.

(** ** Reference: operations on the values *)

(** The values after the operations, or the code with which they are refused. *)
Fixpoint run_ops (vals : list Z) (sops : list sembuf) : list Z + Z :=
  match sops with
  | [] => inl vals
  | sop :: sops =>
      let v := vals !!! Z.to_nat (sem_num sop) in
      if (sem_op sop =? 0) && negb (v =? 0) then inr (would_block sop)
      else if v + sem_op sop <? 0 then inr (would_block sop)
      else if SEMVMX <? v + sem_op sop then inr (- ERANGE)
      else run_ops (<[Z.to_nat (sem_num sop) := v + sem_op sop]> vals) sops
  end.

(** The adjustments after successful operations. *)
Fixpoint run_adj (adj : list Z) (sops : list sembuf) : list Z :=
  match sops with
  | [] => adj
  | sop :: sops =>
      let i := Z.to_nat (sem_num sop) in
      run_adj (if flag_set SEM_UNDO sop then <[i := s16 (adj !!! i - sem_op sop)]> adj else adj) sops
  end.

Definition vals_of (base : list sem) : list Z := semval <$> base.

(** An operation in range, with 16-bit fields. *)
Definition sop_ok (n : nat) (sop : sembuf) : Prop :=
  0 <= sem_num sop ∧ (Z.to_nat (sem_num sop) < n)%nat ∧ - 2 ^ 15 <= sem_op sop < 2 ^ 15.

(** The undo structure the operations need. *)
Definition un_ok (n : nat) (un : option (list Z)) (sops : list sembuf) : Prop :=
  match un with
  | Some adj => length adj = n ∧ Forall (λ v, - 2 ^ 15 <= v < 2 ^ 15) adj
  | None => wants_undo sops = false
  end.

Definition small (v : Z) : Prop := 0 <= v < 2 ^ 30.

Lemma swrap_range w z : 0 < w → - 2 ^ (w - 1) <= swrap w z < 2 ^ (w - 1).
Proof.
  intros Hw. unfold swrap. pose proof (Z.mod_pos_bound (z + 2 ^ (w - 1)) (2 ^ w)).
  assert (2 ^ w = 2 * 2 ^ (w - 1)) by (rewrite <- Z.pow_succ_r by lia; f_equal; lia).
  assert (0 < 2 ^ (w - 1)) by (apply Z.pow_pos_nonneg; lia). lia.
Qed.

Lemma s16_cancel v d : - 2 ^ 15 <= v < 2 ^ 15 → s16 (s16 (v - d) + d) = v.
Proof.
  intros Hv. unfold swrap. change (2 ^ 16) with 65536. change (2 ^ (16 - 1)) with 32768.
  replace ((v - d + 32768) mod 65536 - 32768 + d + 32768) with ((v - d + 32768) mod 65536 + d) by lia.
  rewrite Zplus_mod_idemp_l. replace (v - d + 32768 + d) with (v + 32768) by lia.
  rewrite Z.mod_small by lia. lia.
Qed.

(** ** Going forward and back *)

Lemma adjust_ok n un sop sops d :
  un_ok n un (sop :: sops) → (Z.to_nat (sem_num sop) < n)%nat →
  adjust un sop d = Ok (if flag_set SEM_UNDO sop then
    (λ adj, <[Z.to_nat (sem_num sop) := s16 (adj !!! Z.to_nat (sem_num sop) + d)]> adj) <$> un else un).
Proof.
  intros Hu Hn. unfold adjust. destruct (flag_set SEM_UNDO sop) eqn:Ef; [|done].
  destruct un as [adj|]; [|unfold un_ok, wants_undo in Hu; simpl in Hu; by rewrite Ef in Hu].
  destruct Hu as [Hl _]. destruct (lookup_lt_is_Some_2 adj (Z.to_nat (sem_num sop))) as [v Hv]; [lia|].
  rewrite Hv. simpl. by rewrite (list_lookup_total_correct _ _ _ Hv).
Qed.

(** The undo structure after an adjustment. *)
Definition adjusted (un : option (list Z)) (sop : sembuf) (d : Z) : option (list Z) :=
  if flag_set SEM_UNDO sop then
    (λ adj, <[Z.to_nat (sem_num sop) := s16 (adj !!! Z.to_nat (sem_num sop) + d)]> adj) <$> un else un.

Lemma un_ok_adjusted n un sop sops d : un_ok n un (sop :: sops) → un_ok n (adjusted un sop d) sops.
Proof.
  unfold adjusted. destruct un as [adj|].
  - intros [H1 H2]. destruct (flag_set SEM_UNDO sop); simpl; [|done]. rewrite length_insert. split; [done|].
    apply Forall_insert; [done|]. by apply (swrap_range 16).
  - unfold un_ok, wants_undo. simpl. intros [_ H]%orb_false_iff. by destruct (flag_set SEM_UNDO sop).
Qed.

Lemma adjusted_cancel n un sop sops d :
  un_ok n un (sop :: sops) → (Z.to_nat (sem_num sop) < n)%nat →
  adjusted (adjusted un sop (- d)) sop d = un.
Proof.
  unfold adjusted. intros Hu Hn. destruct (flag_set SEM_UNDO sop); [|done]. destruct un as [adj|]; [|done].
  simpl. f_equal. destruct Hu as [<- Hr]. rewrite list_lookup_total_insert_eq by done. rewrite list_insert_insert_eq.
  apply list_insert_id. destruct (lookup_lt_is_Some_2 adj (Z.to_nat (sem_num sop))) as [v Hv]; [lia|].
  rewrite Hv. f_equal. rewrite (list_lookup_total_correct _ _ _ Hv). replace (v + - d) with (v - d) by lia.
  rewrite s16_cancel; [done|]. rewrite Forall_lookup in Hr. by eapply Hr.
Qed.

(** The values after an operation of a [backward] run, which cannot fail. *)
Definition back (vals : list Z) (sop : sembuf) : list Z :=
  <[Z.to_nat (sem_num sop) := s32 (vals !!! Z.to_nat (sem_num sop) - sem_op sop)]> vals.

Lemma vals_insert base i s : vals_of (<[i := s]> base) = <[i := semval s]> (vals_of base).
Proof. apply list_fmap_insert. Qed.

Lemma vals_lookup base i s : base !! i = Some s → vals_of base !!! i = semval s.
Proof. intros H. unfold vals_of. apply list_lookup_total_correct. by rewrite list_lookup_fmap, H. Qed.

Lemma backward_spec n stack base un :
  length base = n → Forall (sop_ok n) stack → un_ok n un stack →
  ∃ base', backward stack base un = Ok (base', foldl (λ un sop, adjusted un sop (sem_op sop)) un stack) ∧
    vals_of base' = foldl back (vals_of base) stack ∧ length base' = n.
Proof.
  revert base un. induction stack as [|sop stack IH]; intros base un Hl Hs Hu; cbn [backward foldl]; [by eauto|].
  apply Forall_cons_1 in Hs as [(H0 & Hn & Hop) Hs].
  destruct (lookup_lt_is_Some_2 base (Z.to_nat (sem_num sop))) as [curr Hc]; [lia|]. rewrite Hc.
  rewrite (adjust_ok n un sop stack) by done. cbn [mbind outcome_bind]. fold (adjusted un sop (sem_op sop)).
  destruct (IH (<[Z.to_nat (sem_num sop) := Sem (s32 (semval curr - sem_op sop)) (Z.shiftr (sempid curr) 16)]> base)
    (adjusted un sop (sem_op sop))) as (b & E & Hv & Hlb).
  - by rewrite length_insert.
  - done.
  - by apply (un_ok_adjusted _ _ sop).
  - exists b. split; [done|]. split; [|done]. rewrite Hv, vals_insert. f_equal. unfold back.
    by rewrite (vals_lookup _ _ _ Hc).
Qed.

(** What undoing the stack on top of the current state gives. *)
Definition undone (stack : list sembuf) (vals : list Z) (un : option (list Z)) : list Z * option (list Z) :=
  (foldl back vals stack, foldl (λ un sop, adjusted un sop (sem_op sop)) un stack).

(** An operation done in front, and undone. *)
Lemma undone_cons n stack sop vals un sops :
  length vals = n → sop_ok n sop → un_ok n un (sop :: sops) → small (vals !!! Z.to_nat (sem_num sop)) →
  undone (sop :: stack)
    (<[Z.to_nat (sem_num sop) := s32 (vals !!! Z.to_nat (sem_num sop) + sem_op sop)]> vals)
    (adjusted un sop (- sem_op sop)) = undone stack vals un.
Proof.
  intros Hl (H0 & Hn & Hop) Hu Hs. unfold undone. cbn [foldl]. rewrite (adjusted_cancel n un sop sops) by done.
  f_equal. f_equal. unfold back. rewrite list_lookup_total_insert_eq by lia. rewrite list_insert_insert_eq.
  unfold small in Hs. rewrite (swrap_small 32 (_ + _)) by lia. rewrite swrap_small by lia.
  replace (vals !!! Z.to_nat (sem_num sop) + sem_op sop - sem_op sop) with (vals !!! Z.to_nat (sem_num sop)) by lia.
  apply list_insert_id. apply list_lookup_lookup_total_lt. lia.
Qed.

Lemma back_zero vals sop n : length vals = n → sop_ok n sop → small (vals !!! Z.to_nat (sem_num sop)) →
  sem_op sop = 0 → back vals sop = vals.
Proof.
  intros Hl (_ & Hn & _) Hs E. unfold back, small in *. rewrite E, Z.sub_0_r, swrap_small by lia.
  apply list_insert_id, list_lookup_lookup_total_lt. lia.
Qed.

Lemma adjusted_zero n un sop sops : un_ok n un (sop :: sops) → (Z.to_nat (sem_num sop) < n)%nat → sem_op sop = 0 →
  adjusted un sop (sem_op sop) = un.
Proof.
  intros Hu Hn E. unfold adjusted. destruct (flag_set SEM_UNDO sop); [|done]. destruct un as [adj|]; [|done].
  simpl. f_equal. destruct Hu as [<- Hr]. rewrite E, Z.add_0_r. rewrite Forall_lookup in Hr.
  destruct (lookup_lt_is_Some_2 adj (Z.to_nat (sem_num sop))) as [v Hv]; [lia|].
  rewrite (list_lookup_total_correct _ _ _ Hv). rewrite (swrap_small 16); [by apply list_insert_id|done|by eapply Hr].
Qed.

(** The loop: it follows the reference, and undoing leads back to the start. *)
Lemma forward_spec n sops stack pid base un :
  length base = n → Forall (sop_ok n) sops → un_ok n un sops → Forall small (vals_of base) →
  ∃ early stack' base' un',
    forward sops stack pid base un = Ok (early, stack', base', un') ∧ length base' = n ∧
    (∃ done, stack' = done ++ stack ∧ done ⊆ sops) ∧ (∀ more, un_ok n un (sops ++ more) → un_ok n un' more) ∧
    undone stack' (vals_of base') un' = undone stack (vals_of base) un ∧
    match run_ops (vals_of base) sops with
    | inl vals' => early = None ∧ vals_of base' = vals' ∧ (λ adj, run_adj adj sops) <$> un = un' ∧ Forall small vals'
    | inr code => early = Some code
    end.
Proof.
  revert stack base un. induction sops as [|sop sops IH]; intros stack base un Hl Hs Hu Hv; cbn [forward run_ops].
  { exists None, stack, base, un. split_and!; try done; [by exists []|by destruct un]. }
  apply Forall_cons_1 in Hs as [Hsop Hs]. pose proof Hsop as (H0 & Hn & Hop).
  destruct (lookup_lt_is_Some_2 base (Z.to_nat (sem_num sop))) as [curr Hc]; [lia|]. rewrite Hc.
  rewrite (vals_lookup _ _ _ Hc). set (i := Z.to_nat (sem_num sop)) in *.
  assert (small (semval curr)) as Hsm.
  { rewrite Forall_lookup in Hv. apply (Hv i). unfold vals_of. by rewrite list_lookup_fmap, Hc. }
  unfold c_true. destruct ((sem_op sop =? 0) && negb (semval curr =? 0)) eqn:Ez.
  { exists (Some (would_block sop)), (sop :: stack), base, un. apply andb_prop in Ez as [Ez%Z.eqb_eq _].
    split_and!; try done; [exists [sop]; split; [done|set_solver]| |].
    - intros more. unfold un_ok. destruct un as [adj|]; [done|]. unfold wants_undo. rewrite existsb_app.
      by intros [_ ?]%orb_false_iff.
    - unfold undone. cbn [foldl]. rewrite (back_zero _ _ n), (adjusted_zero n un sop sops); try done.
      + unfold vals_of. by rewrite length_fmap.
      + fold i. by rewrite (vals_lookup _ _ _ Hc). }
  rewrite (adjust_ok n un sop sops) by done. cbn [mbind outcome_bind]. fold (adjusted un sop (- sem_op sop)).
  unfold small in Hsm. rewrite (swrap_small 32 (semval curr + sem_op sop)) by lia.
  set (base' := <[i := Sem (semval curr + sem_op sop) _]> base).
  assert (vals_of base' = <[i := semval curr + sem_op sop]> (vals_of base)) as Ev by (unfold base'; by rewrite vals_insert).
  assert (undone (sop :: stack) (vals_of base') (adjusted un sop (- sem_op sop)) = undone stack (vals_of base) un) as Hund.
  { rewrite Ev. rewrite <- (undone_cons n stack sop (vals_of base) un sops); try done.
    - fold i. rewrite (vals_lookup _ _ _ Hc), (swrap_small 32 (_ + _)) by lia. done.
    - unfold vals_of. by rewrite length_fmap.
    - fold i. by rewrite (vals_lookup _ _ _ Hc). }
  assert (length base' = n) as Hl' by (unfold base'; by rewrite length_insert).
  assert (∀ more, un_ok n un ((sop :: sops) ++ more) → un_ok n (adjusted un sop (- sem_op sop)) more) as Hmore.
  { intros more Hm. apply (un_ok_adjusted _ _ sop). unfold un_ok in *. destruct un as [adj|]; [done|].
    unfold wants_undo in *. rewrite existsb_app in Hm. apply orb_false_iff in Hm as [Hm1 Hm2]. simpl in *.
    apply orb_false_iff in Hm1 as [-> _]. done. }
  destruct (semval curr + sem_op sop <? 0) eqn:En.
  { exists (Some (would_block sop)), (sop :: stack), base', (adjusted un sop (- sem_op sop)). split_and!; try done.
    exists [sop]. split; [done|set_solver]. }
  destruct (SEMVMX <? semval curr + sem_op sop) eqn:Er.
  { exists (Some (- ERANGE)), (sop :: stack), base', (adjusted un sop (- sem_op sop)). split_and!; try done.
    exists [sop]. split; [done|set_solver]. }
  apply Z.ltb_ge in En, Er.
  destruct (IH (sop :: stack) base' (adjusted un sop (- sem_op sop))) as (e & st & b & u & E & Hlb & (dn & Hdn & Hsub) & Hun & Hundo & Hres);
    try done.
  { by apply (un_ok_adjusted _ _ sop). }
  { rewrite Ev. apply Forall_insert; [done|]. unfold small, SEMVMX in *. lia. }
  exists e, st, b, u. split_and!; try done.
  - exists (dn ++ [sop]). split; [by rewrite Hdn, <- app_assoc|set_solver].
  - intros more Hm. apply Hun. apply (un_ok_adjusted n un sop (sops ++ more)). done.
  - by rewrite Hundo.
  - rewrite Ev in Hres. destruct (run_ops _ sops); [|done]. destruct Hres as (-> & -> & <- & ?). split_and!; try done.
    unfold adjusted. cbn [run_adj]. fold i. destruct (flag_set SEM_UNDO sop); [|done]. by destruct un.
Qed.

Lemma un_ok_stack n un sops stack : un_ok n un sops → stack ⊆ sops → un_ok n un stack.
Proof.
  unfold un_ok. destruct un as [adj|]; [done|]. unfold wants_undo. intros H Hs.
  apply not_true_is_false. intros (sop & Hin & Hf)%List.existsb_exists. apply list_elem_of_In in Hin.
  apply not_true_iff_false in H. apply H. apply List.existsb_exists. exists sop. split; [|done].
  apply list_elem_of_In. by apply Hs.
Qed.

Lemma run_ops_codes vals sops code : run_ops vals sops = inr code → code = 1 ∨ code = - EAGAIN ∨ code = - ERANGE.
Proof.
  revert vals. induction sops as [|sop sops IH]; intros vals; cbn [run_ops]; [done|].
  unfold would_block. destruct (_ && _); [intros [= <-]; destruct (flag_set IPC_NOWAIT sop); auto|].
  destruct (_ <? 0); [intros [= <-]; destruct (flag_set IPC_NOWAIT sop); auto|].
  destruct (SEMVMX <? _); [intros [= <-]; auto|]. apply IH.
Qed.

(** Whether the operations go through does not depend on the flags for undoing. *)
Lemma try_spec n base un sops pid do_undo :
  length base = n → Forall (sop_ok n) sops → un_ok n un sops → Forall small (vals_of base) →
  ∃ base', length base' = n ∧
    match run_ops (vals_of base) sops with
    | inl vals' =>
        try_atomic_semop base un sops pid do_undo =
          Ok (base', if do_undo then un else (λ adj, run_adj adj sops) <$> un, 0) ∧
        vals_of base' = (if do_undo then vals_of base else vals') ∧ Forall small vals'
    | inr code => try_atomic_semop base un sops pid do_undo = Ok (base', un, code) ∧ vals_of base' = vals_of base
    end.
Proof.
  intros Hl Hs Hu Hv.
  destruct (forward_spec n sops [] pid base un Hl Hs Hu Hv) as (e & st & b & u & E & Hlb & (dn & Hdn & Hsub) & Hun & Hundo & Hres).
  rewrite app_nil_r in Hdn. subst dn. unfold try_atomic_semop. rewrite E. cbn [mbind outcome_bind].
  assert (un_ok n u []) as Hu0 by (apply Hun; by rewrite app_nil_r).
  unfold undone in Hundo. cbn [foldl] in Hundo. injection Hundo as Hvals Hunb.
  destruct (backward_spec n st b u) as (b' & Eb & Hvb & Hlb').
  { done. } { apply Forall_forall. intros sop Hin. rewrite Forall_forall in Hs. apply Hs.
    apply list_elem_of_In, Hsub. by apply list_elem_of_In. }
  { destruct u as [adj|]; [done|]. unfold un_ok.
    assert (un = None) as ->.
    { rewrite <- Hunb. clear. induction st as [|s st IH]; [done|]. simpl. unfold adjusted at 2.
      by destruct (flag_set SEM_UNDO s). }
    by apply (un_ok_stack n None sops). }
  rewrite Hvals in Hvb. rewrite Hunb in Eb.
  destruct (run_ops (vals_of base) sops) as [vals'|code].
  - destruct Hres as (-> & Evals & <- & Hsm). destruct do_undo; [rewrite Eb; exists b'|exists b]; done.
  - subst e. rewrite Eb. exists b'. done.
Qed.

(** C17: The operations of a call are atomic.  [try_atomic_semop] refuses them
    with the code of the first operation that cannot be done, and all values and
    adjustments are then as they were; if they can all be done it returns 0, and
    the values and adjustments are those after all of them, or, when the caller
    only asks, as they were.  No pointer is followed outside the set. *)
Theorem try_atomic_semop_exact base un sops pid do_undo :
  let n := length base in
  Forall (sop_ok n) sops → un_ok n un sops → Forall small (vals_of base) →
  ∃ base', length base' = n ∧
    match run_ops (vals_of base) sops with
    | inl vals' =>
        try_atomic_semop base un sops pid do_undo =
          Ok (base', if do_undo then un else (λ adj, run_adj adj sops) <$> un, 0) ∧
        vals_of base' = (if do_undo then vals_of base else vals')
    | inr code =>
        try_atomic_semop base un sops pid do_undo = Ok (base', un, code) ∧ vals_of base' = vals_of base ∧
        (code = 1 ∨ code = - EAGAIN ∨ code = - ERANGE)
    end.
Proof.
  intros n Hs Hu Hv. destruct (try_spec n base un sops pid do_undo eq_refl Hs Hu Hv) as (b & Hl & H).
  exists b. split; [done|]. destruct (run_ops (vals_of base) sops) eqn:E; [tauto|].
  destruct H. split_and!; try done. by eapply run_ops_codes.
Qed.

(** Two operations of which the second fails. *)
Lemma try_atomic_semop_exact_witness :
  ∃ base', try_atomic_semop [Sem 3 0; Sem 0 0] (Some [0; 0]) [Sembuf 0 (-2) SEM_UNDO; Sembuf 1 (-1) IPC_NOWAIT] 9 false
    = Ok (base', Some [0; 0], - EAGAIN) ∧ vals_of base' = [3; 0].
Proof.
  destruct (try_atomic_semop_exact [Sem 3 0; Sem 0 0] (Some [0; 0])
    [Sembuf 0 (-2) SEM_UNDO; Sembuf 1 (-1) IPC_NOWAIT] 9 false) as (base' & _ & H).
  - repeat constructor; vm_compute; discriminate.
  - repeat constructor; vm_compute; discriminate.
  - repeat constructor; vm_compute; discriminate.
  - exists base'. destruct H as (H1 & H2 & _). split; [exact H1|exact H2].
Defined.

(** The process of the last operation is forgotten when an operation waits for
    zero: undoing shifts [sempid] although it was not set. *)
Lemma zero_wait_loses_pid :
  try_atomic_semop [Sem 1 77] None [Sembuf 0 0 IPC_NOWAIT] 9 false = Ok ([Sem 1 0], None, - EAGAIN).
Proof. reflexivity. Qed.

(** ** Adjustments at exit *)

(** The sum of the operations on semaphore [i]. *)
Fixpoint total (i : nat) (sops : list sembuf) : Z :=
  match sops with
  | [] => 0
  | sop :: sops => (if decide (Z.to_nat (sem_num sop) = i) then sem_op sop else 0) + total i sops
  end.

Lemma run_ops_total n vals sops vals' i :
  length vals = n → Forall (sop_ok n) sops → run_ops vals sops = inl vals' → (i < n)%nat →
  vals' !!! i = vals !!! i + total i sops ∧ length vals' = n.
Proof.
  revert vals. induction sops as [|sop sops IH]; intros vals Hl Hs; cbn [run_ops total].
  { intros [= <-]. split; [lia|done]. }
  apply Forall_cons_1 in Hs as [(_ & Hn & _) Hs].
  destruct (_ && _); [done|]. destruct (_ <? 0); [done|]. destruct (SEMVMX <? _); [done|].
  intros H Hi. destruct (IH _ (eq_trans (length_insert _ _ _) Hl) Hs H Hi) as [-> Hl']. split; [|done].
  destruct (decide _) as [->|Hne].
  - rewrite list_lookup_total_insert_eq by lia. lia.
  - rewrite list_lookup_total_insert_ne by done. lia.
Qed.

Lemma s16_sub a b : s16 (s16 a - b) = s16 (a - b).
Proof.
  unfold swrap. f_equal. replace ((a + 2 ^ (16 - 1)) mod 2 ^ 16 - 2 ^ (16 - 1) - b + 2 ^ (16 - 1))
    with ((a + 2 ^ (16 - 1)) mod 2 ^ 16 + - b) by lia.
  rewrite Zplus_mod_idemp_l. f_equal. lia.
Qed.

Lemma run_adj_total n adj sops i :
  length adj = n → Forall (sop_ok n) sops → Forall (λ sop, flag_set SEM_UNDO sop = true) sops → (i < n)%nat →
  s16 (run_adj adj sops !!! i) = s16 (adj !!! i - total i sops) ∧ length (run_adj adj sops) = n.
Proof.
  revert adj. induction sops as [|sop sops IH]; intros adj Hl Hs Hf Hi; cbn [run_adj total].
  { split; [f_equal; lia|done]. }
  apply Forall_cons_1 in Hs as [(_ & Hn & _) Hs]. apply Forall_cons_1 in Hf as [-> Hf].
  destruct (IH (<[Z.to_nat (sem_num sop) := s16 (adj !!! Z.to_nat (sem_num sop) - sem_op sop)]> adj)) as [-> Hl'];
    [by rewrite length_insert|done..|]. split; [|done].
  destruct (decide _) as [->|Hne].
  - rewrite list_lookup_total_insert_eq, s16_sub by lia. f_equal; lia.
  - rewrite list_lookup_total_insert_ne by done. done.
Qed.

Lemma run_adj_range n adj sops : un_ok n (Some adj) sops → Forall (sop_ok n) sops → un_ok n (Some (run_adj adj sops)) [].
Proof.
  revert adj. induction sops as [|sop sops IH]; intros adj Hu Hs; cbn [run_adj]; [done|].
  apply Forall_cons_1 in Hs as [_ Hs]. apply IH; [|done]. destruct Hu as [H1 H2].
  destruct (flag_set SEM_UNDO sop); [|done]. split; [by rewrite length_insert|]. apply Forall_insert; [done|].
  by apply (swrap_range 16).
Qed.

(** Calls of one process, which has an undo structure, and of others with
    theirs; all succeed. *)
Fixpoint run_calls (calls : list (bool * Z * list sembuf)) (base : list sem) (mine other : list Z)
    : option (list sem * list Z) :=
  match calls with
  | [] => Some (base, mine)
  | (true, pid, sops) :: calls =>
      match try_atomic_semop base (Some mine) sops pid false with
      | Ok (base, Some mine, 0) => run_calls calls base mine other
      | _ => None
      end
  | (false, pid, sops) :: calls =>
      match try_atomic_semop base (Some other) sops pid false with
      | Ok (base, Some other, 0) => run_calls calls base mine other
      | _ => None
      end
  end.

(** The operations of the process, and of the others. *)
Definition ops_of (b : bool) (calls : list (bool * Z * list sembuf)) : list sembuf :=
  concat ((λ c, if bool_decide (c.1.1 = b) then c.2 else []) <$> calls).

Lemma total_app i l k : total i (l ++ k) = total i l + total i k.
Proof. induction l as [|s l IH]; cbn [total app]; [done|]. rewrite IH. lia. Qed.

Lemma try_ok_inv n base adj sops pid base' un' :
  length base = n → Forall (sop_ok n) sops → un_ok n (Some adj) sops → Forall small (vals_of base) →
  try_atomic_semop base (Some adj) sops pid false = Ok (base', un', 0) →
  run_ops (vals_of base) sops = inl (vals_of base') ∧ un' = Some (run_adj adj sops) ∧
  length base' = n ∧ Forall small (vals_of base').
Proof.
  intros Hl Hs Hu Hv E. destruct (try_spec n base (Some adj) sops pid false Hl Hs Hu Hv) as (b & Hlb & H).
  destruct (run_ops (vals_of base) sops) as [vals'|code] eqn:Er.
  - destruct H as (E' & Ev & Hsm). rewrite E in E'. injection E' as -> ->. simpl in Ev. by subst.
  - destruct H as (E' & _). rewrite E in E'. injection E' as _ _ <-.
    destruct (run_ops_codes _ _ _ Er) as [?|[?|?]]; done.
Qed.

Lemma run_calls_total n calls base mine other base' mine' i :
  length base = n → Forall small (vals_of base) → un_ok n (Some mine) [] → un_ok n (Some other) [] →
  Forall (λ c, Forall (sop_ok n) c.2) calls →
  Forall (λ sop, flag_set SEM_UNDO sop = true) (ops_of true calls) →
  run_calls calls base mine other = Some (base', mine') → (i < n)%nat →
  vals_of base' !!! i = vals_of base !!! i + total i (ops_of true calls) + total i (ops_of false calls) ∧
  s16 (mine' !!! i) = s16 (mine !!! i - total i (ops_of true calls)) ∧
  length base' = n ∧ un_ok n (Some mine') [] ∧ Forall small (vals_of base').
Proof.
  intros Hl Hv Hm Ho Hs Hf. revert base mine other Hl Hv Hm Ho. induction calls as [|[[b pid] sops] calls IH];
    intros base mine other Hl Hv Hm Ho; cbn [run_calls].
  { intros [= <- <-] Hi. simpl. split_and!; try done; [lia|f_equal; lia|apply Hm|apply Hm]. }
  apply Forall_cons_1 in Hs as [Hsops Hs]. simpl in Hsops. unfold ops_of in *. cbn [fmap list_fmap concat fst snd] in *.
  assert (length (vals_of base) = n) as Hlv by (unfold vals_of; by rewrite length_fmap).
  destruct b; simpl in Hf |- *.
  - apply Forall_app in Hf as [Hfs Hf].
    destruct (try_atomic_semop base (Some mine) sops pid false) as [[[b1 [m1|]] [| |]]|] eqn:E; try done.
    destruct (try_ok_inv n base mine sops pid b1 (Some m1)) as (Er & [= ->] & Hl1 & Hv1); try done.
    intros H Hi. destruct (run_ops_total n _ _ _ i Hlv Hsops Er Hi) as [Et _].
    destruct (run_adj_total n mine sops i) as [Ea _]; try done; [apply Hm|].
    destruct (IH Hs Hf b1 (run_adj mine sops) other) as (E1 & E2 & E3); try done; [by apply run_adj_range|].
    rewrite total_app. split; [rewrite E1, Et; lia|]. split; [|done].
    rewrite E2, <- s16_sub, Ea, s16_sub. f_equal. lia.
  - destruct (try_atomic_semop base (Some other) sops pid false) as [[[b1 [m1|]] [| |]]|] eqn:E; try done.
    destruct (try_ok_inv n base other sops pid b1 (Some m1)) as (Er & [= ->] & Hl1 & Hv1); try done.
    intros H Hi. destruct (run_ops_total n _ _ _ i Hlv Hsops Er Hi) as [Et _].
    destruct (IH Hs Hf b1 mine (run_adj other sops)) as (E1 & E2 & E3); try done; [by apply run_adj_range|].
    rewrite total_app. split; [rewrite E1, Et; lia|]. done.
Qed.

(** C33: When a process whose operations all asked to be undone exits, its
    operations are cancelled: whatever calls of other processes succeeded in
    between, each semaphore ends with the value it started with and the
    operations of the others, or zero if that is negative, as long as what the
    process did to a semaphore in total is a 16-bit number. *)
Theorem semop_exit_cancels calls base base' mine other pid :
  let n := length base in
  Forall small (vals_of base) → length other = n → Forall (λ v, - 2 ^ 15 <= v < 2 ^ 15) other →
  Forall (λ c, Forall (sop_ok n) c.2) calls →
  Forall (λ sop, flag_set SEM_UNDO sop = true) (ops_of true calls) →
  run_calls calls base (replicate n 0) other = Some (base', mine) →
  ∀ i, (i < n)%nat → - 2 ^ 15 < total i (ops_of true calls) < 2 ^ 15 →
  vals_of (zip_with (exit_sem pid) base' mine) !!! i = Z.max 0 (vals_of base !!! i + total i (ops_of false calls)).
Proof.
  intros n Hv Hlo Hro Hs Hf H i Hi Ht.
  destruct (run_calls_total n calls base (replicate n 0) other base' mine i) as (E1 & E2 & Hlb & [Hlm Hrm] & Hsm); try done.
  { split; [by apply length_replicate|]. by apply Forall_replicate. }
  rewrite lookup_total_replicate_2, Z.sub_0_l, (swrap_small 16 (- _)) in E2 by lia.
  destruct (lookup_lt_is_Some_2 base' i) as [s Hsi]; [lia|].
  destruct (lookup_lt_is_Some_2 mine i) as [v Hvi]; [lia|].
  rewrite (list_lookup_total_correct _ _ _ Hvi) in E2.
  rewrite Forall_lookup in Hrm. rewrite (swrap_small 16 v) in E2 by (try done; by eapply Hrm).
  rewrite (vals_lookup _ _ _ Hsi) in E1. rewrite Forall_lookup in Hsm.
  assert (small (semval s)) as Hss by (apply (Hsm i); unfold vals_of; by rewrite list_lookup_fmap, Hsi).
  unfold small in Hss. rewrite (vals_lookup _ i (exit_sem pid s v)).
  - unfold exit_sem. simpl. rewrite (swrap_small 32 (semval s + v)) by lia. zbool; lia.
  - by rewrite lookup_zip_with, Hsi, Hvi.
Qed.

(** A process takes two units, another one gives one, the first exits. *)
Lemma semop_exit_cancels_witness :
  ∃ base mine, run_calls [(true, 5, [Sembuf 0 (-2) SEM_UNDO]); (false, 6, [Sembuf 0 1 0])] [Sem 3 0] [0] [0]
      = Some (base, mine) ∧
    vals_of (zip_with (exit_sem 5) base mine) !!! 0%nat = Z.max 0 (3 + 1).
Proof.
  eexists _, _. split; [reflexivity|].
  apply (semop_exit_cancels [(true, 5, [Sembuf 0 (-2) SEM_UNDO]); (false, 6, [Sembuf 0 1 0])] [Sem 3 0] _ _ [0] 5).
  - repeat constructor; vm_compute; discriminate.
  - reflexivity.
  - repeat constructor; vm_compute; discriminate.
  - repeat constructor; vm_compute; discriminate.
  - repeat constructor.
  - reflexivity.
  - repeat constructor.
  - vm_compute. split; reflexivity.
Defined.

(** The adjustment is a short: a process that takes 32767 units twice is made to
    give back two less than nothing. *)
Lemma semadj_overflows :
  run_adj [0] [Sembuf 0 (-32767) SEM_UNDO; Sembuf 0 32767 0; Sembuf 0 (-32767) SEM_UNDO] = [-2].
Proof. reflexivity. Qed.

(** The adjustment at exit does not respect the limit of the values. *)
Lemma exit_exceeds_limit : SEMVMX < semval (exit_sem 5 (Sem 32767 0) 32767).
Proof. reflexivity. Qed.
