(* ===== verification/SemSystem.v ===== *)
(** Semaphore sets shared by any number of processes ([ipc/sem.c]): the
    invariant of the tables, queues and undo structures, and the wake-ups. *)

From S2P Require Import Prelude Errno Ipc Sem SemAtomic.

(** ** Invariant *)

(** An identifier that names the set at [a]. *)
Definition live (w : world) (semid a : Z) : Prop :=
  0 <= semid ∧ ipc_lock (sem_ids w) semid = Ok (Some a) ∧
  ∃ sma, arrays w !! a = Some sma ∧ ipc_checkid (sem_perm sma) semid = false.

Definition und_ok (n : nat) (und : sem_undo) : Prop :=
  length (semadj und) = n ∧ Forall (λ v, - 2 ^ 15 <= v < 2 ^ 15) (semadj und).

(** The table, the sets and the undo structures. *)
Record base_ok (w : world) : Prop := {
  bo_ids : ids_ok (sem_ids w);
  bo_entries : ∀ i a, entries (sem_ids w) !! i = Some (Some a) → is_Some (arrays w !! a);
  bo_inj : ∀ i j a, entries (sem_ids w) !! i = Some (Some a) → entries (sem_ids w) !! j = Some (Some a) → i = j;
  bo_addr : (∀ a, is_Some (arrays w !! a) → a < next_addr w) ∧ (∀ u, is_Some (undos w !! u) → u < next_addr w);
  bo_undos : ∀ a sma u, arrays w !! a = Some sma → u ∈ sma_undo sma →
    ∃ und, undos w !! u = Some und ∧ und_ok (length (sem_base sma)) und ∧ live w (u_semid und) a;
  bo_semundo : ∀ p l u, semundo w !! p = Some l → u ∈ l →
    ∃ und, undos w !! u = Some und ∧ (u_semid und = -1 ∨ ∃ a sma, arrays w !! a = Some sma ∧ u ∈ sma_undo sma);
  bo_owner : ∀ p p' l l' u, semundo w !! p = Some l → semundo w !! p' = Some l' → u ∈ l → u ∈ l' → p = p';
  bo_nodup : ∀ p l, semundo w !! p = Some l → NoDup l;
  bo_small : ∀ a sma, arrays w !! a = Some sma → Forall small (vals_of (sem_base sma))
}.

(** A process in the queue of a set. *)
Definition queued_ok (w : world) (p : Z) (q : sem_queue) : Prop :=
  ∃ sma, arrays w !! q_sma q = Some sma ∧ p ∈ sem_pending sma ∧ live w (q_id q) (q_sma q) ∧
    Forall (sop_ok (length (sem_base sma))) (q_sops q) ∧
    match q_undo q with
    | Some u => u ∈ sma_undo sma ∧ u ∈ default [] (semundo w !! p)
    | None => wants_undo (q_sops q) = false
    end ∧
    q_alter q = decreases (q_sops q) ∧
    (q_status q = - EINTR ∨ q_status q = 1 ∧ q_woken q = true ∧ q_alter q = true).

(** A sleeping process is in a queue, or it was taken out and woken with the
    result of its call. *)
Definition queue_ok (w : world) (p : Z) (q : sem_queue) : Prop :=
  if q_linked q then queued_ok w p q else q_status q <= 0 ∧ q_woken q = true.

Definition alloc_ok (al : allocating) : Prop :=
  0 <= al_semid al ∧ 0 <= al_nsems al ∧ Forall (sop_ok (Z.to_nat (al_nsems al))) (al_sops al).

Record sem_ok (w : world) : Prop := {
  so_base : base_ok w;
  so_queues : ∀ p q, queues w !! p = Some q → queue_ok w p q;
  so_pending : ∀ a sma p, arrays w !! a = Some sma → p ∈ sem_pending sma →
    ∃ q, queues w !! p = Some q ∧ q_linked q = true ∧ q_sma q = a;
  so_nodup : ∀ a sma, arrays w !! a = Some sma → NoDup (sem_pending sma);
  so_allocs : ∀ p al, allocs w !! p = Some al → alloc_ok al
}.

Definition blocked (vals : list Z) (sops : list sembuf) : Prop := run_ops vals sops = inr 1.
Definition enabled (vals : list Z) (sops : list sembuf) : Prop := ∃ vals', run_ops vals sops = inl vals'.

(** Operations that decrease nothing increase nothing. *)
Definition pure_ops (sops : list sembuf) : Prop := decreases sops = false → alters sops = false.
Definition pure_queues (w : world) : Prop :=
  ∀ p q, queues w !! p = Some q → q_linked q = true → pure_ops (q_sops q).

(** A process of the queue of [a] that was told to try again, and will succeed. *)
Definition has_runner (w : world) (a : Z) : Prop :=
  ∃ sma p q, arrays w !! a = Some sma ∧ p ∈ sem_pending sma ∧ queues w !! p = Some q ∧ q_status q = 1 ∧
    enabled (vals_of (sem_base sma)) (q_sops q).

(** The processes of [l] that are still in the queue and not told to try again
    are rightly asleep. *)
Definition rightly_blocked (w : world) (a : Z) (l : list Z) : Prop :=
  ∀ sma p q, arrays w !! a = Some sma → p ∈ sem_pending sma → p ∈ l → queues w !! p = Some q → q_status q ≠ 1 →
    blocked (vals_of (sem_base sma)) (q_sops q).

Definition awake_set (w : world) (a : Z) : Prop :=
  has_runner w a ∨ ∀ l, rightly_blocked w a l.

Definition awake_ok (w : world) : Prop := pure_queues w → ∀ a, awake_set w a.

(** ** What a call on the set [a] leaves alone *)

Definition undo_like (o o' : option sem_undo) : Prop :=
  match o, o' with
  | Some x, Some y =>
      u_semid x = u_semid y ∧ length (semadj x) = length (semadj y) ∧
      (Forall (λ v, - 2 ^ 15 <= v < 2 ^ 15) (semadj x) → Forall (λ v, - 2 ^ 15 <= v < 2 ^ 15) (semadj y))
  | None, None => True
  | _, _ => False
  end.

Definition set_like (o o' : option sem_array) : Prop :=
  match o, o' with
  | Some x, Some y =>
      sem_perm x = sem_perm y ∧ length (sem_base x) = length (sem_base y) ∧ sma_undo x = sma_undo y
  | None, None => True
  | _, _ => False
  end.

Record touch (a : Z) (w w' : world) : Prop := {
  to_ids : sem_ids w' = sem_ids w;
  to_semundo : semundo w' = semundo w;
  to_allocs : allocs w' = allocs w;
  to_next : next_addr w' = next_addr w;
  to_others : ∀ b, b ≠ a → arrays w' !! b = arrays w !! b;
  to_set : set_like (arrays w !! a) (arrays w' !! a);
  to_undos : ∀ u, undo_like (undos w !! u) (undos w' !! u)
}.

Lemma undo_like_refl o : undo_like o o.
Proof. by destruct o. Qed.

Lemma set_like_refl o : set_like o o.
Proof. by destruct o. Qed.

#[export] Instance touch_preorder a : PreOrder (touch a).
Proof.
  split.
  - intros w. constructor; auto using undo_like_refl, set_like_refl.
  - intros x y z [A1 A2 A3 A4 A5 A6 A7] [B1 B2 B3 B4 B5 B6 B7]. constructor; try congruence.
    + intros b Hb. by rewrite B5, A5.
    + destruct (arrays x !! a), (arrays y !! a), (arrays z !! a); simpl in *; try done.
      destruct A6 as (? & ? & ?), B6 as (? & ? & ?). split_and!; congruence.
    + intros u. specialize (A7 u). specialize (B7 u). destruct (undos x !! u), (undos y !! u), (undos z !! u); simpl in *; try done.
      destruct A7 as (? & ? & ?), B7 as (? & ? & ?). split_and!; [congruence..|auto].
Qed.

(** Sets keep their permissions, sizes and undo lists. *)
Lemma touch_set a w w' b sma : touch a w w' → arrays w !! b = Some sma →
  ∃ sma', arrays w' !! b = Some sma' ∧ sem_perm sma' = sem_perm sma ∧
    length (sem_base sma') = length (sem_base sma) ∧ sma_undo sma' = sma_undo sma ∧ (b ≠ a → sma' = sma).
Proof.
  intros H E. destruct (decide (b = a)) as [->|Hne].
  - pose proof (to_set _ _ _ H) as Hs. rewrite E in Hs. destruct (arrays w' !! a) as [sma'|]; [|done].
    destruct Hs as (? & ? & ?). exists sma'. by split_and!.
  - exists sma. rewrite (to_others _ _ _ H) by done. by split_and!.
Qed.

Lemma touch_set_inv a w w' b sma' : touch a w w' → arrays w' !! b = Some sma' →
  ∃ sma, arrays w !! b = Some sma ∧ sem_perm sma' = sem_perm sma ∧
    length (sem_base sma') = length (sem_base sma) ∧ sma_undo sma' = sma_undo sma ∧ (b ≠ a → sma' = sma).
Proof.
  intros H E. destruct (decide (b = a)) as [->|Hne].
  - pose proof (to_set _ _ _ H) as Hs. rewrite E in Hs. destruct (arrays w !! a) as [sma|]; [|done].
    destruct Hs as (? & ? & ?). exists sma. by split_and!.
  - exists sma'. rewrite <- (to_others _ _ _ H b) by done. by split_and!.
Qed.

Lemma touch_live a w w' semid b : touch a w w' → live w semid b → live w' semid b.
Proof.
  intros H (H0 & Hl & sma & Ea & Hc). destruct (touch_set _ _ _ _ _ H Ea) as (sma' & E' & Ep & _).
  split; [done|]. rewrite (to_ids _ _ _ H). split; [done|]. exists sma'. by rewrite Ep.
Qed.

Lemma touch_base a w w' :
  base_ok w → touch a w w' →
  (∀ sma, arrays w' !! a = Some sma → Forall small (vals_of (sem_base sma))) → base_ok w'.
Proof.
  intros [B1 B2 B3 [B4 B4'] B5 B6 B7 B8 B9] H Hsm. pose proof H as [A1 A2 A3 A4 A5 A6 A7].
  constructor; rewrite ?A1, ?A2, ?A4; try done.
  - intros i b Hi. destruct (B2 i b Hi) as [sma E]. destruct (touch_set _ _ _ _ _ H E) as (sma' & -> & _). eauto.
  - split.
    + intros b [sma E]. destruct (touch_set_inv _ _ _ _ _ H E) as (sma' & E' & _). apply B4. eauto.
    + intros u [und E]. apply B4'. specialize (A7 u). rewrite E in A7. destruct (undos w !! u); [eauto|done].
  - intros b sma' u E Hu. destruct (touch_set_inv _ _ _ _ _ H E) as (sma & E' & Ep & El & Eu & _).
    rewrite Eu in Hu. destruct (B5 b sma u E' Hu) as (und & Ex & [Hl Hr] & Hlive).
    specialize (A7 u). rewrite Ex in A7. destruct (undos w' !! u) as [und'|]; [|done].
    destruct A7 as (Es & Elen & Hrange). exists und'. split; [done|]. rewrite El, <- Es. split; [|by eapply touch_live].
    split; [congruence|auto].
  - intros p l u El Hu. specialize (A7 u). destruct (B6 p l u El Hu) as (und & Ex & Hd). rewrite Ex in A7.
    destruct (undos w' !! u) as [und'|]; [|done]. exists und'. split; [done|]. destruct A7 as (<- & _).
    destruct Hd as [?|(b & sma & E & Hin)]; [by left|right].
    destruct (touch_set _ _ _ _ _ H E) as (sma' & E' & _ & _ & Eu & _). exists b, sma'. by rewrite Eu.
  - intros b sma' E. destruct (decide (b = a)) as [->|Hne]; [auto|]. rewrite A5 in E by done. eauto.
Qed.

(** ** Trying operations *)

Definition undo_given (un : option Z) (sma : sem_array) (sops : list sembuf) : Prop :=
  match un with Some u => u ∈ sma_undo sma | None => wants_undo sops = false end.

Lemma try_on_spec w a sma un sops pid du :
  base_ok w → arrays w !! a = Some sma → Forall (sop_ok (length (sem_base sma))) sops → undo_given un sma sops →
  ∃ w' code base', try_on w a un sops pid du = Ok (w', code) ∧ touch a w w' ∧ queues w' = queues w ∧
    arrays w' !! a = Some (set_base base' sma) ∧ base_ok w' ∧
    match run_ops (vals_of (sem_base sma)) sops with
    | inl vals' => code = 0 ∧ vals_of base' = (if du then vals_of (sem_base sma) else vals')
    | inr c => code = c ∧ vals_of base' = vals_of (sem_base sma)
    end.
Proof.
  intros Hb Ea Hs Hu. set (n := length (sem_base sma)) in *. pose proof (bo_small _ Hb _ _ Ea) as Hsm.
  assert (∀ (un' : option (list Z)), un_ok n un' sops → ∃ base' un2 code,
    try_atomic_semop (sem_base sma) un' sops pid du = Ok (base', un2, code) ∧ length base' = n ∧
    Forall small (vals_of base') ∧
    (∀ adj, un' = Some adj → ∃ adj', un2 = Some adj' ∧ length adj' = n ∧ Forall (λ v, - 2 ^ 15 <= v < 2 ^ 15) adj') ∧
    match run_ops (vals_of (sem_base sma)) sops with
    | inl vals' => code = 0 ∧ vals_of base' = (if du then vals_of (sem_base sma) else vals')
    | inr c => code = c ∧ vals_of base' = vals_of (sem_base sma)
    end) as Htry.
  { intros un' Hun. destruct (try_spec n (sem_base sma) un' sops pid du eq_refl Hs Hun Hsm) as (b & Hl & H).
    assert (∀ adj, un' = Some adj → un_ok n (Some (run_adj adj sops)) [] ∧ un_ok n (Some adj) []) as Hadj.
    { intros adj ->. split; [by apply run_adj_range|done]. }
    destruct (run_ops (vals_of (sem_base sma)) sops) as [vals'|c].
    - destruct H as (E & Ev & Hsm'). exists b. eexists _, _. split; [exact E|]. split_and!; try done.
      + rewrite Ev. by destruct du.
      + intros adj Eadj. destruct (Hadj adj Eadj) as [[? ?] [? ?]]. subst un'. destruct du; simpl; eauto.
    - destruct H as (E & Ev). exists b. eexists _, _. split; [exact E|]. split_and!; try done.
      + by rewrite Ev.
      + intros adj Eadj. destruct (Hadj adj Eadj) as [_ [? ?]]. subst un'. eauto. }
  assert (∀ base' w', length base' = n → Forall small (vals_of base') → touch a w w' →
    arrays w' !! a = Some (set_base base' sma) → base_ok w') as Hbase.
  { intros base' w' Hl Hsm' Ht Ea'. eapply touch_base; [done|done|]. rewrite Ea'. by intros ? [= <-]. }
  unfold try_on. rewrite (deref_ok _ _ _ Ea). cbn [mbind outcome_bind].
  destruct un as [u|].
  - destruct (bo_undos _ Hb a sma u Ea Hu) as (und & Eu & [Hul Hur] & _). rewrite (deref_ok _ _ _ Eu). cbn [mbind outcome_bind].
    destruct (Htry (Some (semadj und))) as (b & un2 & code & -> & Hl & Hsm' & Hadj & Hres); [by split|].
    destruct (Hadj _ eq_refl) as (adj' & -> & Hla & Hra). cbn [mbind outcome_bind default].
    assert (touch a w (set_undos (<[u := Undo (u_semid und) adj']> (undos w))
      (set_arrays (<[a := set_base b sma]> (arrays w)) w))) as Ht.
    { constructor; simpl; try done.
      - intros b' Hne. by rewrite lookup_insert_ne.
      - rewrite Ea, lookup_insert_eq. simpl. by rewrite Hl.
      - intros u'. destruct (decide (u' = u)) as [->|].
        + rewrite Eu, lookup_insert_eq. simpl. split_and!; [done|by rewrite Hul, Hla|done].
        + rewrite lookup_insert_ne by done. apply undo_like_refl. }
    eexists _, code, b. split; [done|]. split; [done|]. split; [done|]. split; [apply lookup_insert_eq|]. split; [|done].
    eapply Hbase; try done. apply lookup_insert_eq.
  - destruct (Htry None) as (b & un2 & code & -> & Hl & Hsm' & _ & Hres); [done|]. cbn [mbind outcome_bind].
    assert (touch a w (set_arrays (<[a := set_base b sma]> (arrays w)) w)) as Ht.
    { constructor; simpl; try done.
      - intros b' Hne. by rewrite lookup_insert_ne.
      - rewrite Ea, lookup_insert_eq. simpl. by rewrite Hl.
      - intros u'. apply undo_like_refl. }
    eexists _, code, b. split; [done|]. split; [done|]. split; [done|]. split; [apply lookup_insert_eq|]. split; [|done].
    eapply Hbase; try done. apply lookup_insert_eq.
Qed.

(** ** Queues *)

Lemma queued_ok_touch a w w' p q :
  touch a w w' → queued_ok w p q →
  (∀ sma sma', arrays w !! q_sma q = Some sma → arrays w' !! q_sma q = Some sma' →
    p ∈ sem_pending sma → p ∈ sem_pending sma') →
  queued_ok w' p q.
Proof.
  intros H (sma & Ea & Hp & Hl & Hs & Hu & Hq) Hpend.
  destruct (touch_set _ _ _ _ _ H Ea) as (sma' & Ea' & _ & El & Eu & _).
  exists sma'. rewrite El, Eu, (to_semundo _ _ _ H). split; [done|].
  split; [by eapply Hpend|]. split; [by eapply touch_live|done].
Qed.

(** A change of the values only. *)
Lemma sem_ok_vals a w w' sma base' :
  sem_ok w → touch a w w' → queues w' = queues w → base_ok w' →
  arrays w !! a = Some sma → arrays w' !! a = Some (set_base base' sma) → sem_ok w'.
Proof.
  intros [S1 S2 S3 S4 S5] Ht Eq Hb Ea Ea'.
  assert (∀ b s', arrays w' !! b = Some s' → ∃ s, arrays w !! b = Some s ∧ sem_pending s' = sem_pending s) as Hpend.
  { intros b s' E. destruct (decide (b = a)) as [->|Hne].
    - rewrite Ea' in E. injection E as <-. by exists sma.
    - rewrite (to_others _ _ _ Ht) in E by done. by exists s'. }
  constructor; [done|..].
  - intros p q. rewrite Eq. intros Hq. specialize (S2 p q Hq). unfold queue_ok in *. destruct (q_linked q); [|done].
    eapply queued_ok_touch; [done|done|]. intros s s' E E' Hp. destruct (Hpend _ _ E') as (s2 & E2 & ->). congruence.
  - intros b s' p E Hp. destruct (Hpend _ _ E) as (s & E2 & E3). rewrite Eq. eapply S3; [done|by rewrite <- E3].
  - intros b s' E. destruct (Hpend _ _ E) as (s & E2 & ->). eauto.
  - rewrite (to_allocs _ _ _ Ht). done.
Qed.

(** Setting the marks of a process that stays in its queue. *)
Lemma sem_ok_mark w p q q' :
  sem_ok w → queues w !! p = Some q → q_linked q = true →
  q' = Queue (q_undo q) (q_pid q) (q_status q') (q_sma q) (q_id q) (q_sops q) (q_alter q) true (q_woken q') →
  (q_status q' = - EINTR ∨ q_status q' = 1 ∧ q_woken q' = true ∧ q_alter q = true) →
  sem_ok (set_queues (<[p := q']> (queues w)) w).
Proof.
  intros [S1 S2 S3 S4 S5] Hq Hl Eq' Hst. constructor; simpl; try done.
  - destruct S1 as [? ? ? ? ? ? ? ? ?]. by constructor.
  - intros p' q1. destruct (decide (p' = p)) as [->|Hne].
    + rewrite lookup_insert_eq. intros [= <-]. specialize (S2 p q Hq). unfold queue_ok in *. rewrite Hl in S2.
      destruct S2 as (sma & A1 & A2 & A3 & A4 & A5 & A6 & _).
      rewrite Eq'. simpl. exists sma. rewrite Eq' in Hst. simpl in *. by split_and!.
    + rewrite lookup_insert_ne by done. apply S2.
  - intros a sma p' Ea Hp. destruct (S3 a sma p' Ea Hp) as (q1 & E1 & E2 & E3).
    destruct (decide (p' = p)) as [->|Hne].
    + exists q'. rewrite lookup_insert_eq. split; [done|]. rewrite Eq'. simpl. split; [done|]. congruence.
    + exists q1. by rewrite lookup_insert_ne.
Qed.

(** A process is taken out of its queue, with the result of its call; it may be
    forgotten at once. *)
Lemma sem_ok_unlink w w' p q a sma o :
  sem_ok w → queues w !! p = Some q → q_linked q = true → q_sma q = a → arrays w !! a = Some sma →
  w' = set_queues (match o with Some q' => <[p := q']> (queues w) | None => delete p (queues w) end)
         (set_arrays (<[a := set_pending (filter (λ x, x ≠ p) (sem_pending sma)) sma]> (arrays w)) w) →
  match o with Some q' => q_linked q' = false ∧ q_status q' <= 0 ∧ q_woken q' = true | None => True end →
  sem_ok w' ∧ touch a w w'.
Proof.
  intros [S1 S2 S3 S4 S5] Hq Hl Hsma Ea -> Ho.
  set (w' := set_queues _ _). set (sma' := set_pending (filter (λ x, x ≠ p) (sem_pending sma)) sma).
  assert (touch a w w') as Ht.
  { constructor; simpl; try done.
    - intros b Hne. by rewrite lookup_insert_ne.
    - rewrite Ea, lookup_insert_eq. done.
    - intros u. apply undo_like_refl. }
  split; [|done].
  assert (arrays w' !! a = Some sma') as Ea' by apply lookup_insert_eq.
  assert (∀ p', p' ≠ p → queues w' !! p' = queues w !! p') as Hother.
  { intros p' Hne. unfold w'. simpl. destruct o; [by rewrite lookup_insert_ne|by rewrite lookup_delete_ne]. }
  constructor.
  - eapply touch_base; [done|done|]. rewrite Ea'. intros ? [= <-]. simpl. by eapply bo_small.
  - intros p' q1 Hq1. destruct (decide (p' = p)) as [->|Hne].
    + unfold w' in Hq1. simpl in Hq1. destruct o as [q'|]; [|by rewrite lookup_delete_eq in Hq1].
      rewrite lookup_insert_eq in Hq1. injection Hq1 as <-. unfold queue_ok. by destruct Ho as (-> & ? & ?).
    + rewrite Hother in Hq1 by done. specialize (S2 p' q1 Hq1). unfold queue_ok in *. destruct (q_linked q1); [|done].
      eapply queued_ok_touch; [done|done|]. intros s s' E E' Hp.
      destruct (decide (q_sma q1 = a)) as [Eq|Hna].
      * rewrite Eq in *. rewrite Ea' in E'. injection E' as <-. simpl. rewrite Ea in E. injection E as <-.
        apply list_elem_of_filter. done.
      * rewrite (to_others _ _ _ Ht) in E' by done. congruence.
  - intros b s p' E Hp. assert (p' ≠ p ∧ ∃ s0, arrays w !! b = Some s0 ∧ p' ∈ sem_pending s0) as [Hne (s0 & E0 & Hp0)].
    { destruct (decide (b = a)) as [->|Hnb].
      - rewrite Ea' in E. injection E as <-. simpl in Hp. apply list_elem_of_filter in Hp as [? ?]. eauto.
      - rewrite (to_others _ _ _ Ht) in E by done. split; [|eauto]. intros ->.
        destruct (S3 b s p E Hp) as (q1 & Hq1 & _ & Hb). congruence. }
    rewrite Hother by done. eauto.
  - intros b s E. destruct (decide (b = a)) as [->|Hnb].
    + rewrite Ea' in E. injection E as <-. simpl. apply list.NoDup_filter. eauto.
    + rewrite (to_others _ _ _ Ht) in E by done. eauto.
  - done.
Qed.

(** ** update_queue *)

Definition queue_like (o o' : option sem_queue) : Prop :=
  match o, o' with
  | Some q, Some q' => q_sops q' = q_sops q ∧ (q_linked q' = true → q_linked q = true)
  | None, None => True
  | _, _ => False
  end.

(** The effect of the loop over the processes [l] of the queue of [a]. *)
Record updated (l : list Z) (a : Z) (w w' : world) : Prop := {
  up_touch : touch a w w';
  up_like : ∀ p, queue_like (queues w !! p) (queues w' !! p);
  up_others : ∀ p, p ∉ l → queues w' !! p = queues w !! p;
  up_pending : ∀ sma sma', arrays w !! a = Some sma → arrays w' !! a = Some sma' →
    ∀ p, p ∈ sem_pending sma' → p ∈ sem_pending sma;
  up_vals : pure_queues w → ∀ sma sma', arrays w !! a = Some sma → arrays w' !! a = Some sma' →
    vals_of (sem_base sma') = vals_of (sem_base sma)
}.

Lemma queue_like_trans x y z : queue_like x y → queue_like y z → queue_like x z.
Proof. destruct x, y, z; simpl; try done. intros [-> ?] [-> ?]. auto. Qed.

Lemma pure_queues_like w w' :
  (∀ p, queue_like (queues w !! p) (queues w' !! p)) → pure_queues w → pure_queues w'.
Proof.
  intros H Hp p q' Eq Hl. specialize (H p). rewrite Eq in H. destruct (queues w !! p) as [q|] eqn:E; [|done].
  destruct H as [-> H]. eapply Hp; [done|auto].
Qed.

Lemma updated_trans l a w w1 w2 :
  updated l a w w1 → updated l a w1 w2 → updated l a w w2.
Proof.
  intros [A1 A2 A3 A4 A5] [B1 B2 B3 B4 B5]. constructor.
  - by transitivity w1.
  - intros p. eapply queue_like_trans; [apply A2|apply B2].
  - intros p Hp. rewrite B3 by done. auto.
  - intros sma sma' E E' p Hp. destruct (touch_set _ _ _ _ _ A1 E) as (s1 & E1 & _). eapply A4; [done|done|]. by eapply B4.
  - intros Hpure sma sma' E E'. destruct (touch_set _ _ _ _ _ A1 E) as (s1 & E1 & _).
    rewrite (B5 (pure_queues_like _ _ A2 Hpure) s1 sma') by done. auto.
Qed.

Lemma updated_weaken l l' a w w' : updated l a w w' → (∀ p, p ∈ l → p ∈ l') → updated l' a w w'.
Proof. intros [A1 A2 A3 A4 A5] Hl. constructor; auto. Qed.

(** Operations that change nothing. *)
Lemma run_ops_pure n vals sops vals' :
  length vals = n → Forall (sop_ok n) sops → alters sops = false → run_ops vals sops = inl vals' → vals' = vals.
Proof.
  intros Hl Hs. revert vals Hl. induction Hs as [|sop sops (_ & Hn & _) Hs IH]; intros vals Hl; cbn [run_ops]; [by intros _ [= <-]|].
  unfold alters, decreases. simpl. intros H. apply orb_false_iff in H as [[H1 H2]%orb_false_iff [H3 H4]%orb_false_iff].
  apply Z.ltb_ge in H1, H3. assert (sem_op sop = 0) as -> by lia. rewrite Z.add_0_r.
  destruct (_ && _); [done|]. destruct (_ <? 0); [done|]. destruct (SEMVMX <? _); [done|]. intros E.
  rewrite (IH (<[Z.to_nat (sem_num sop) := vals !!! Z.to_nat (sem_num sop)]> vals)); [|by rewrite length_insert| |done].
  - apply list_insert_id, list_lookup_lookup_total_lt. lia.
  - unfold alters, decreases. by rewrite H2, H4.
Qed.

Lemma update_q_ok f p q w : queues w !! p = Some q → update_q f p w = Ok (set_queues (<[p := f q]> (queues w)) w).
Proof. intros H. unfold update_q. by rewrite (deref_ok _ _ _ H). Qed.

(** A process is told to try again. *)
Lemma mark_runner w a sma p q w1 base' :
  sem_ok w → arrays w !! a = Some sma → p ∈ sem_pending sma → queues w !! p = Some q →
  sem_ok w1 → touch a w w1 → queues w1 = queues w → arrays w1 !! a = Some (set_base base' sma) →
  vals_of base' = vals_of (sem_base sma) → q_alter q = true →
  enabled (vals_of (sem_base sma)) (q_sops q) →
  ∃ w', (w2 ← update_q (set_woken true) p w1; update_q (set_status 1) p w2) = Ok w' ∧
    sem_ok w' ∧ updated [p] a w w' ∧ has_runner w' a.
Proof.
  intros Hw Ea Hp Hq Hw1 Ht Eq Ea1 Hvals Halt Hen.
  destruct (so_pending _ Hw a sma p Ea Hp) as (q0 & Hq0 & Hlk & Hsma). rewrite Hq in Hq0. injection Hq0 as <-.
  rewrite (update_q_ok _ p q w1) by (by rewrite Eq). cbn [mbind outcome_bind].
  rewrite (update_q_ok _ p (set_woken true q)) by (simpl; apply lookup_insert_eq). simpl.
  set (q' := set_status 1 (set_woken true q)). rewrite insert_insert_eq. eexists. split; [done|].
  assert (sem_ok (set_queues (<[p := q']> (queues w1)) w1)) as Hok.
  { eapply (sem_ok_mark w1 p q q'); [done|by rewrite Eq|done| |by right]. unfold q'. destruct q. simpl in *. by subst. }
  split; [done|]. split.
  - constructor; simpl.
    + destruct Ht as [A1 A2 A3 A4 A5 A6 A7]. by constructor.
    + intros p'. rewrite Eq. destruct (decide (p' = p)) as [->|].
      * rewrite lookup_insert_eq, Hq. by split.
      * rewrite lookup_insert_ne by done. by destruct (queues w !! p').
    + intros p' Hp'. rewrite Eq, lookup_insert_ne; [done|]. intros ->. apply Hp'. by left.
    + rewrite Ea, Ea1. by intros ? ? [= <-] [= <-].
    + rewrite Ea, Ea1. intros _ ? ? [= <-] [= <-]. done.
  - exists (set_base base' sma), p, q'. simpl. rewrite lookup_insert_eq. split_and!; try done. by rewrite Hvals.
Qed.

(** A process is taken out and woken. *)
Lemma finish_sleeper w a sma p q w1 base' error :
  sem_ok w → arrays w !! a = Some sma → p ∈ sem_pending sma → queues w !! p = Some q →
  sem_ok w1 → touch a w w1 → queues w1 = queues w → arrays w1 !! a = Some (set_base base' sma) →
  (pure_queues w → vals_of base' = vals_of (sem_base sma)) → error <= 0 →
  ∃ w', (w2 ← update_q (set_woken true) p w1; w3 ← update_q (set_status error) p w2; remove_from_queue a p w3) = Ok w' ∧
    sem_ok w' ∧ updated [p] a w w' ∧
    (∀ sma', arrays w' !! a = Some sma' →
       sem_pending sma' = filter (λ x, x ≠ p) (sem_pending sma) ∧ sem_base sma' = base').
Proof.
  intros Hw Ea Hp Hq Hw1 Ht Eq Ea1 Hvals Herr.
  destruct (so_pending _ Hw a sma p Ea Hp) as (q0 & Hq0 & Hlk & Hsma). rewrite Hq in Hq0. injection Hq0 as <-.
  rewrite (update_q_ok _ p q w1) by (by rewrite Eq). cbn [mbind outcome_bind].
  rewrite (update_q_ok _ p (set_woken true q)) by (simpl; apply lookup_insert_eq). cbn [mbind outcome_bind].
  unfold remove_from_queue. rewrite (deref_ok _ a (set_base base' sma)) by done. cbn [mbind outcome_bind].
  rewrite (update_q_ok _ p (set_status error (set_woken true q))) by (simpl; apply lookup_insert_eq). simpl.
  rewrite !insert_insert_eq.
  set (q' := set_linked false (set_status error (set_woken true q))). eexists. split; [done|].
  destruct (sem_ok_unlink w1 (set_queues (<[p := q']> (queues w1)) (set_arrays (<[a := set_pending
    (filter (λ x, x ≠ p) (sem_pending sma)) (set_base base' sma)]> (arrays w1)) w1)) p q a (set_base base' sma) (Some q'))
    as [Hok Ht2]; try done; [by rewrite Eq|].
  split; [done|]. split.
  - constructor; simpl.
    + by transitivity w1.
    + intros p'. rewrite Eq. destruct (decide (p' = p)) as [->|].
      * rewrite lookup_insert_eq, Hq. by split.
      * rewrite lookup_insert_ne by done. by destruct (queues w !! p').
    + intros p' Hp'. rewrite Eq, lookup_insert_ne; [done|]. intros ->. apply Hp'. by left.
    + rewrite Ea, lookup_insert_eq. intros ? ? [= <-] [= <-] p' Hp'. simpl in Hp'. by apply list_elem_of_filter in Hp' as [_ ?].
    + rewrite Ea, lookup_insert_eq. intros Hpure ? ? [= <-] [= <-]. by apply Hvals.
  - simpl. rewrite lookup_insert_eq. by intros ? [= <-].
Qed.

Lemma update_loop_spec l a w sma :
  sem_ok w → arrays w !! a = Some sma → NoDup l → (∀ p, p ∈ l → p ∈ sem_pending sma) →
  ∃ w', update_loop l a w = Ok w' ∧ sem_ok w' ∧ updated l a w w' ∧
    (pure_queues w → has_runner w' a ∨ rightly_blocked w' a l).
Proof.
  intros Hw Ea Hnd. revert w sma Hw Ea. induction Hnd as [|p l Hpl Hnd IH]; intros w sma Hw Ea Hsub; cbn [update_loop].
  { exists w. split_and!; try done.
    - constructor; try done; [intros p; by destruct (queues w !! p)|congruence|congruence].
    - intros _. right. intros ? ? ? ? ? H. by apply elem_of_nil in H. }
  assert (p ∈ sem_pending sma) as Hp by (apply Hsub; by left).
  destruct (so_pending _ Hw a sma p Ea Hp) as (q & Hq & Hlk & Hsma). rewrite (deref_ok _ _ _ Hq). cbn [mbind outcome_bind].
  assert (∀ p', p' ∈ l → p' ∈ sem_pending sma) as Hsub' by (intros; apply Hsub; by right).
  pose proof (so_queues _ Hw p q Hq) as Hqok. unfold queue_ok in Hqok. rewrite Hlk in Hqok.
  destruct Hqok as (sma0 & Ea0 & _ & _ & Hops & Hun & Halt & Hst). rewrite Hsma, Ea in Ea0. injection Ea0 as <-.
  destruct (Z.eqb_spec (q_status q) 1) as [Es|Es].
  { destruct (IH w sma Hw Ea Hsub') as (w' & -> & Hok & Hup & Hres). exists w'. split_and!; try done.
    - eapply updated_weaken; [done|]. intros p' ?. by right.
    - intros Hpure. destruct (Hres Hpure) as [?|Hb]; [by left|right].
      intros s p' q' Es' Hp' Hin Hq' Hne. apply elem_of_cons in Hin as [->|Hin]; [|by eapply Hb].
      rewrite (up_others _ _ _ _ Hup) in Hq' by done. congruence. }
  destruct (try_on_spec w a sma (q_undo q) (q_sops q) (q_pid q) (q_alter q)) as (w1 & code & base' & -> & Ht & Eq & Ea1 & Hb1 & Hres);
    [apply Hw|done|done|by destruct (q_undo q) as [u|]; [destruct Hun|]|]. cbn [mbind outcome_bind].
  assert (sem_ok w1) as Hw1 by (by eapply sem_ok_vals).
  assert (length (vals_of (sem_base sma)) = length (sem_base sma)) as Hlen by apply length_fmap.
  assert (code <= 0 → pure_queues w → vals_of base' = vals_of (sem_base sma)) as Hpv.
  { intros Hc Hpure. destruct (run_ops _ _) as [vals'|c] eqn:Er; [|tauto]. destruct Hres as [_ ->].
    destruct (q_alter q) eqn:Eal; [done|]. eapply run_ops_pure; [done|done| |done].
    apply (Hpure p q); [done|done|]. congruence. }
  destruct (Z.leb_spec code 0) as [Hc|Hc].
  2: { assert (code = 1 ∧ blocked (vals_of (sem_base sma)) (q_sops q) ∧ vals_of base' = vals_of (sem_base sma)) as (-> & Hbl & Hvals).
       { unfold blocked. destruct (run_ops _ _) as [vals'|c] eqn:Er; destruct Hres as [-> ?]; [lia|].
         apply run_ops_codes in Er as [->|[->| ->]]; try done. }
       destruct (IH w1 (set_base base' sma) Hw1 Ea1 Hsub') as (w' & -> & Hok & Hup & Hres').
       exists w'. assert (updated [] a w w1) as Hup1.
       { constructor; try done.
         - intros p'. rewrite Eq. by destruct (queues w !! p').
         - intros p' _. by rewrite Eq.
         - rewrite Ea, Ea1. by intros ? ? [= <-] [= <-].
         - rewrite Ea, Ea1. by intros _ ? ? [= <-] [= <-]. }
       split_and!; try done.
       - eapply updated_trans; (eapply updated_weaken; [done|]); [intros ? H; by apply elem_of_nil in H|].
         intros p' ?. by right.
       - intros Hpure. assert (pure_queues w1) as Hpure1 by (eapply pure_queues_like; [apply Hup1|done]).
         destruct (Hres' Hpure1) as [?|Hb]; [by left|right]. intros s p' q' Es' Hp' Hin Hq' Hne.
         apply elem_of_cons in Hin as [->|Hin]; [|by eapply Hb].
         rewrite (up_others _ _ _ _ Hup), Eq in Hq' by done. assert (q' = q) as -> by congruence.
         rewrite (up_vals _ _ _ _ Hup Hpure1 (set_base base' sma) s) by done. simpl. by rewrite Hvals. }
  destruct ((code =? 0) && q_alter q) eqn:Eca.
  - apply andb_prop in Eca as [Ec%Z.eqb_eq Eal]. subst code.
    assert (enabled (vals_of (sem_base sma)) (q_sops q) ∧ vals_of base' = vals_of (sem_base sma)) as [Hen Hvals].
    { unfold enabled. destruct (run_ops _ _) as [vals'|c] eqn:Er; destruct Hres as [E0 Ev].
      - split; [eauto|]. by rewrite Eal in Ev.
      - apply run_ops_codes in Er as [->|[->| ->]]; done. }
    destruct (mark_runner w a sma p q w1 base') as (w' & E & Hok & Hup & Hrun); try done.
    destruct (update_q (set_woken true) p w1) as [w2|]; cbn [mbind outcome_bind] in E |- *; [|done]. rewrite E.
    exists w'. split_and!; try done; [|by left]. eapply updated_weaken; [done|]. intros p' ->%list_elem_of_singleton. by left.
  - destruct (finish_sleeper w a sma p q w1 base' code) as (w2 & E & Hok & Hup & Hpend); try done; [auto|].
    destruct (update_q (set_woken true) p w1) as [w3|]; cbn [mbind outcome_bind] in E |- *; [|done].
    destruct (update_q (set_status code) p w3) as [w4|]; cbn [mbind outcome_bind] in E |- *; [|done]. rewrite E.
    cbn [mbind outcome_bind]. destruct (touch_set _ _ _ _ _ (up_touch _ _ _ _ Hup) Ea) as (sma2 & Ea2 & _).
    destruct (Hpend sma2 Ea2) as [Hp2 _].
    destruct (IH w2 sma2 Hok Ea2) as (w' & -> & Hok' & Hup' & Hres').
    { intros p' Hin. rewrite Hp2. apply list_elem_of_filter. split; [|auto]. intros ->. done. }
    exists w'. split_and!; try done.
    + eapply updated_trans; (eapply updated_weaken; [done|]); [intros p' ->%list_elem_of_singleton; by left|].
      intros p' ?. by right.
    + intros Hpure. assert (pure_queues w2) as Hpure2 by (eapply pure_queues_like; [apply Hup|done]).
      destruct (Hres' Hpure2) as [?|Hb]; [by left|right]. intros s p' q' Es' Hp' Hin Hq' Hne.
      apply elem_of_cons in Hin as [->|Hin]; [|by eapply Hb]. exfalso.
      apply (up_pending _ _ _ _ Hup' sma2 s Ea2 Es') in Hp'. rewrite Hp2 in Hp'.
      apply list_elem_of_filter in Hp' as [? _]. done.
Qed.

Lemma update_queue_spec a w sma :
  sem_ok w → arrays w !! a = Some sma →
  ∃ w', update_queue a w = Ok w' ∧ sem_ok w' ∧ updated (sem_pending sma) a w w' ∧ (pure_queues w → awake_set w' a).
Proof.
  intros Hw Ea. unfold update_queue. rewrite (deref_ok _ _ _ Ea). cbn [mbind outcome_bind].
  destruct (update_loop_spec (sem_pending sma) a w sma) as (w' & E & Hok & Hup & Hres); try done; [by eapply so_nodup|].
  exists w'. split_and!; try done. intros Hpure. destruct (Hres Hpure) as [?|Hb]; [by left|right].
  intros l s p q Es Hp _ Hq Hne. eapply Hb; try done. by eapply (up_pending _ _ _ _ Hup).
Qed.

(** ** Wake-ups of the sets *)

Definition pending_at (w : world) (a p : Z) : Prop := ∃ sma, arrays w !! a = Some sma ∧ p ∈ sem_pending sma.

(** The set keeps its values and queue. *)
Lemma awake_keep w w' b :
  match arrays w !! b, arrays w' !! b with
  | Some s, Some s' => sem_pending s' = sem_pending s ∧ vals_of (sem_base s') = vals_of (sem_base s)
  | None, Some s' => sem_pending s' = []
  | _, None => True
  end →
  (∀ p, pending_at w b p → queues w' !! p = queues w !! p) →
  awake_set w b → awake_set w' b.
Proof.
  intros Hb Hq Hw. destruct (arrays w' !! b) as [s'|] eqn:E'.
  2: { right. intros l sma p q E. congruence. }
  destruct (arrays w !! b) as [s|] eqn:E.
  2: { right. intros l sma p q Es Hp. rewrite E' in Es. injection Es as <-. rewrite Hb in Hp. by apply elem_of_nil in Hp. }
  destruct Hb as [Hp Hv]. destruct Hw as [(s0 & p & q & E0 & Hin & Hqp & Hst & Hen)|Hbl].
  - rewrite E in E0. injection E0 as <-. left. exists s', p, q. rewrite Hp, Hv, Hq by (by exists s). done.
  - right. intros l sma p q Es Hin Hl Hqp Hne. rewrite E' in Es. injection Es as <-. rewrite Hp in Hin. rewrite Hv.
    rewrite Hq in Hqp by (by exists s). by eapply Hbl.
Qed.

(** Work on the set [a] does not disturb the others. *)
Lemma awake_updated l a w w' b :
  sem_ok w → updated l a w w' → (∀ p, p ∈ l → pending_at w a p) → b ≠ a → awake_set w b → awake_set w' b.
Proof.
  intros Hw Hup Hl Hne. apply awake_keep.
  - rewrite (to_others _ _ _ (up_touch _ _ _ _ Hup)) by done. by destruct (arrays w !! b).
  - intros p (s & Es & Hp). apply (up_others _ _ _ _ Hup). intros Hin. destruct (Hl p Hin) as (s2 & Es2 & Hp2).
    destruct (so_pending _ Hw _ _ _ Es Hp) as (q & E1 & _ & E2). destruct (so_pending _ Hw _ _ _ Es2 Hp2) as (q2 & E3 & _ & E4).
    congruence.
Qed.

(** All calls so far were pure. *)
Definition pure_ok (w : world) : Prop :=
  pure_queues w ∧ (∀ p al, allocs w !! p = Some al → pure_ops (al_sops al)) ∧ ∀ a, awake_set w a.

(** [update_queue] on a set whose values have changed. *)
Lemma update_queue_ok a w sma :
  sem_ok w → arrays w !! a = Some sma → ∃ w', update_queue a w = Ok w' ∧ sem_ok w' ∧ touch a w w' ∧
    (∀ p, queue_like (queues w !! p) (queues w' !! p)) ∧
    (pure_queues w ∧ (∀ p al, allocs w !! p = Some al → pure_ops (al_sops al)) ∧ (∀ b, b ≠ a → awake_set w b) → pure_ok w').
Proof.
  intros Hw Ea. destruct (update_queue_spec a w sma Hw Ea) as (w' & E & Hok & Hup & Haw). exists w'.
  split; [done|]. split; [done|]. split; [apply Hup|]. split; [apply Hup|]. intros (H1 & H2 & H3). split_and!.
  - eapply pure_queues_like; [apply Hup|done].
  - rewrite (to_allocs _ _ _ (up_touch _ _ _ _ Hup)). done.
  - intros b. destruct (decide (b = a)) as [->|Hne]; [auto|].
    apply (awake_updated (sem_pending sma) a w); auto. intros p Hp. by exists sma.
Qed.
