(* ===== verification/SemCalls.v ===== *)
(** The calls of [ipc/sem.c] keep the invariant of [SemSystem], and lose no
    wake-up. *)

From S2P Require Import Prelude Errno Ipc Sem SemAtomic SemSystem.

(** ** semop *)

Lemma default_semundo w p u : u ∈ default [] (semundo w !! p) → ∃ l, semundo w !! p = Some l ∧ u ∈ l.
Proof. destruct (semundo w !! p) as [l|]; simpl; [eauto|]. intros H. by apply elem_of_nil in H. Qed.

(** A process is put into the queue of [a]. *)
Lemma enqueue_ok w a sma p q pend :
  sem_ok w → arrays w !! a = Some sma → queues w !! p = None → q_sma q = a → q_linked q = true →
  pend ≡ₚ p :: sem_pending sma →
  queued_ok (set_arrays (<[a := set_pending pend sma]> (arrays w)) w) p q →
  sem_ok (set_queues (<[p := q]> (queues w)) (set_arrays (<[a := set_pending pend sma]> (arrays w)) w)).
Proof.
  intros [S1 S2 S3 S4 S5] Ea Hnone Hsma Hlk Hpend Hq. set (w1 := set_arrays _ w) in *.
  assert (arrays w1 !! a = Some (set_pending pend sma)) as Ea1 by apply lookup_insert_eq.
  assert (touch a w w1) as Ht.
  { constructor; simpl; try done.
    - intros b Hne. by rewrite lookup_insert_ne.
    - rewrite Ea, lookup_insert_eq. done.
    - intros u. apply undo_like_refl. }
  constructor; simpl; try done.
  - assert (base_ok w1) as [? ? ? ? ? ? ? ? ?]; [|by constructor]. eapply touch_base; [done|done|]. rewrite Ea1.
    intros ? [= <-]. simpl. by eapply bo_small.
  - intros p' q'. destruct (decide (p' = p)) as [->|Hne].
    + rewrite lookup_insert_eq. intros [= <-]. unfold queue_ok. by rewrite Hlk.
    + rewrite lookup_insert_ne by done. intros Hq'. specialize (S2 p' q' Hq'). unfold queue_ok in *.
      destruct (q_linked q'); [|done]. eapply (queued_ok_touch a w w1); [done|done|]. intros s s' E E' Hp.
      destruct (decide (q_sma q' = a)) as [Eq|Hna].
      * rewrite Eq in *. rewrite Ea1 in E'. injection E' as <-. rewrite Ea in E. injection E as <-. simpl.
        rewrite Hpend. by right.
      * rewrite (to_others _ _ _ Ht) in E' by done. congruence.
  - intros b s p' E Hp. destruct (decide (b = a)) as [->|Hnb].
    + rewrite lookup_insert_eq in E. injection E as <-. simpl in Hp. rewrite Hpend in Hp.
      apply elem_of_cons in Hp as [->|Hp]; [exists q; by rewrite lookup_insert_eq|].
      destruct (S3 a sma p' Ea Hp) as (q' & E1 & E2 & E3). exists q'. rewrite lookup_insert_ne; [done|]. congruence.
    + rewrite lookup_insert_ne in E by done. destruct (S3 b s p' E Hp) as (q' & E1 & E2 & E3).
      exists q'. rewrite lookup_insert_ne; [done|]. congruence.
  - intros b s E. destruct (decide (b = a)) as [->|Hnb].
    + rewrite lookup_insert_eq in E. injection E as <-. simpl. rewrite Hpend. apply list.NoDup_cons. split; [|by eapply S4].
      intros Hin. destruct (S3 a sma p Ea Hin) as (q' & E1 & _). congruence.
    + rewrite lookup_insert_ne in E by done. eauto.
Qed.

(** The new process is rightly asleep. *)
Lemma awake_enqueue w a sma p q pend b :
  sem_ok w → arrays w !! a = Some sma → queues w !! p = None → pend ≡ₚ p :: sem_pending sma →
  blocked (vals_of (sem_base sma)) (q_sops q) → awake_set w b →
  awake_set (set_queues (<[p := q]> (queues w)) (set_arrays (<[a := set_pending pend sma]> (arrays w)) w)) b.
Proof.
  intros Hw Ea Hnone Hpend Hbl Hb.
  assert (∀ p', pending_at w b p' → p' ≠ p) as Hne.
  { intros p' (s & Es & Hp) ->. destruct (so_pending _ Hw _ _ _ Es Hp) as (q' & E & _). congruence. }
  destruct (decide (b = a)) as [->|Hnb].
  2: { revert Hb. apply awake_keep; simpl.
       - rewrite lookup_insert_ne by done. by destruct (arrays w !! b).
       - intros p' Hp'. rewrite lookup_insert_ne; [done|]. apply not_eq_sym. auto. }
  destruct Hb as [(s & p' & q' & Es & Hin & Hq & Hst & Hen)|Hb].
  - rewrite Ea in Es. injection Es as <-. left. exists (set_pending pend sma), p', q'. simpl.
    split; [apply lookup_insert_eq|]. split; [rewrite Hpend; by right|]. rewrite lookup_insert_ne; [done|].
    apply not_eq_sym, Hne. by exists sma.
  - right. intros l s p' q' Es Hin Hl Hq Hst. simpl in Es, Hq. rewrite lookup_insert_eq in Es. injection Es as <-.
    simpl in Hin. rewrite Hpend in Hin. apply elem_of_cons in Hin as [->|Hin].
    + rewrite lookup_insert_eq in Hq. by injection Hq as <-.
    + rewrite lookup_insert_ne in Hq by (apply not_eq_sym, Hne; by exists sma). by apply (Hb l sma p' q').
Qed.

(** The values stay as they are. *)
Lemma pure_ok_vals a w w' sma base' :
  touch a w w' → queues w' = queues w → arrays w !! a = Some sma → arrays w' !! a = Some (set_base base' sma) →
  vals_of base' = vals_of (sem_base sma) → pure_ok w → pure_ok w'.
Proof.
  intros Ht Eq Ea Ea' Hv (H1 & H2 & H3). split_and!.
  - intros p q. rewrite Eq. apply H1.
  - by rewrite (to_allocs _ _ _ Ht).
  - intros b. eapply awake_keep; [| |apply (H3 b)].
    + destruct (decide (b = a)) as [->|Hne]; [by rewrite Ea, Ea'|].
      rewrite (to_others _ _ _ Ht) by done. by destruct (arrays w !! b).
    + intros p _. by rewrite Eq.
Qed.

(** The undo structure a call works with. *)
Definition undo_mine (w : world) (pid : Z) (un : option Z) (sma : sem_array) (sops : list sembuf) : Prop :=
  match un with
  | Some u => u ∈ sma_undo sma ∧ u ∈ default [] (semundo w !! pid)
  | None => wants_undo sops = false
  end.

Lemma undo_mine_given w pid un sma sops : undo_mine w pid un sma sops → undo_given un sma sops.
Proof. destruct un as [u|]; simpl; [by intros []|done]. Qed.

(** What an operation of a process leaves. *)
Definition keeps {R} (sops_pure : Prop) (w : world) (o : outcome (world * R)) : Prop :=
  ∃ w' r, o = Ok (w', r) ∧ sem_ok w' ∧ (sops_pure → pure_ok w → pure_ok w').

Lemma semop_sleeps w a sma pid semid un sops :
  sem_ok w → live w semid a → arrays w !! a = Some sma → queues w !! pid = None →
  Forall (sop_ok (length (sem_base sma))) sops → undo_mine w pid un sma sops →
  blocked (vals_of (sem_base sma)) sops →
  let q := Queue un pid (- EINTR) a semid sops (decreases sops) false false in
  let w1 := set_queues (<[pid := q]> (queues w)) w in
  keeps (pure_ops sops) w
    (w ← (if alters sops then append_to_queue a pid w1 else prepend_to_queue a pid w1); Ok (w, SAsleep)).
Proof.
  intros Hw Hl Ea Hnone Hs Hu Hbl q w1. set (q' := set_linked true q).
  set (pend := if alters sops then sem_pending sma ++ [pid] else pid :: sem_pending sma).
  assert (pend ≡ₚ pid :: sem_pending sma) as Hpend.
  { unfold pend. destruct (alters sops); [|done]. symmetry. apply Permutation_cons_append. }
  set (w2 := set_arrays (<[a := set_pending pend sma]> (arrays w)) w).
  assert ((if alters sops then append_to_queue a pid w1 else prepend_to_queue a pid w1) =
    Ok (set_queues (<[pid := q']> (queues w)) w2)) as E.
  { unfold append_to_queue, prepend_to_queue, pend, w2, w1. simpl. rewrite (deref_ok _ _ _ Ea). simpl.
    unfold pend. destruct (alters sops); rewrite (update_q_ok _ pid q) by (simpl; apply lookup_insert_eq); simpl;
      by rewrite insert_insert_eq. }
  rewrite E. simpl. eexists _, _. split; [done|]. split.
  - apply (enqueue_ok w a sma pid q' pend); try done. exists (set_pending pend sma). simpl.
    split; [apply lookup_insert_eq|]. split; [rewrite Hpend; by left|]. split.
    + destruct Hl as (H0 & H1 & s & Es & Hc). split; [done|]. split; [done|]. exists (set_pending pend sma).
      rewrite Ea in Es. injection Es as <-. split; [apply lookup_insert_eq|done].
    + split; [done|]. split; [by destruct un|]. split; [done|]. by left.
  - intros Hpure (H1 & H2 & H3). split_and!; simpl.
    + intros p' q1. simpl. destruct (decide (p' = pid)) as [->|Hne]; [rewrite lookup_insert_eq; by intros [= <-]|].
      rewrite lookup_insert_ne by done. apply H1.
    + done.
    + intros b. by apply (awake_enqueue w a sma pid q' pend b).
Qed.

Lemma semop_try_ok w a sma pid semid un sops :
  sem_ok w → live w semid a → arrays w !! a = Some sma → queues w !! pid = None →
  Forall (sop_ok (length (sem_base sma))) sops → undo_mine w pid un sma sops →
  keeps (pure_ops sops) w (semop_try pid semid a un sops w).
Proof.
  intros Hw Hl Ea Hnone Hs Hu. unfold semop_try.
  destruct (try_on_spec w a sma un sops pid false) as (w1 & code & base' & -> & Ht & Eq & Ea1 & Hb1 & Hres);
    [apply Hw|done|done|by eapply undo_mine_given|]. cbn [mbind outcome_bind].
  assert (sem_ok w1) as Hw1 by (by eapply sem_ok_vals).
  destruct (Z.leb_spec code 0) as [Hc|Hc].
  - destruct (alters sops) eqn:Eal.
    + destruct (update_queue_ok a w1 (set_base base' sma)) as (w' & -> & Hw' & _ & _ & Hp); [done|done|].
      eexists _, _. split; [done|]. split; [done|]. intros _ (H1 & H2 & H3). apply Hp. split_and!.
      * intros p q. rewrite Eq. apply H1.
      * by rewrite (to_allocs _ _ _ Ht).
      * intros b Hne. eapply awake_keep; [| |apply (H3 b)]; [|intros p _; by rewrite Eq].
        rewrite (to_others _ _ _ Ht) by done. by destruct (arrays w !! b).
    + eexists _, _. split; [done|]. split; [done|]. intros _. eapply pure_ok_vals; try done.
      destruct (run_ops _ _) as [vals'|c] eqn:Er; [|by destruct Hres]. destruct Hres as [_ ->].
      eapply run_ops_pure; [|done|done|done]. apply length_fmap.
  - assert (blocked (vals_of (sem_base sma)) sops ∧ vals_of base' = vals_of (sem_base sma)) as [Hbl Hv].
    { unfold blocked. destruct (run_ops _ _) as [vals'|c] eqn:Er; destruct Hres as [-> ?]; [lia|].
      apply run_ops_codes in Er as [->|[->| ->]]; try done. }
    destruct (semop_sleeps w1 a (set_base base' sma) pid semid un sops) as (w' & r & E & Hw' & Hp); try done.
    + by eapply touch_live.
    + by rewrite Eq.
    + simpl. pose proof (to_set _ _ _ Ht) as Hset. rewrite Ea, Ea1 in Hset. destruct Hset as (_ & Hlen & _). simpl in Hlen.
      by rewrite <- Hlen.
    + unfold undo_mine in *. by rewrite (to_semundo _ _ _ Ht).
    + simpl. by rewrite Hv.
    + eexists _, _. split; [exact E|]. split; [done|]. intros Hpure Hok. apply Hp; [done|]. by eapply pure_ok_vals.
Qed.

(** ** Undo structures *)

(** A process stays in its queue. *)
Lemma queued_ok_mono w w' p q :
  queued_ok w p q → (live w (q_id q) (q_sma q) → live w' (q_id q) (q_sma q)) →
  (∀ sma, arrays w !! q_sma q = Some sma → ∃ sma', arrays w' !! q_sma q = Some sma' ∧
    sem_pending sma' = sem_pending sma ∧ length (sem_base sma') = length (sem_base sma) ∧
    ∀ u, q_undo q = Some u → u ∈ sma_undo sma → u ∈ default [] (semundo w !! p) →
      u ∈ sma_undo sma' ∧ u ∈ default [] (semundo w' !! p)) →
  queued_ok w' p q.
Proof.
  intros (sma & Ea & Hp & Hl & Hs & Hu & Hq) Hlive H. destruct (H sma Ea) as (sma' & Ea' & Ep & El & Hundo).
  exists sma'. rewrite Ep, El. split; [done|]. split; [done|]. split; [auto|]. split; [done|]. split; [|done].
  destruct (q_undo q) as [u|]; [|done]. destruct Hu. by apply Hundo.
Qed.

Lemma live_same w w' semid a : sem_ids w' = sem_ids w → arrays w' = arrays w → live w semid a → live w' semid a.
Proof. unfold live. by intros -> ->. Qed.

(** What a process is about to do is pure. *)
Definition pure_allocs (w : world) : Prop := ∀ p al, allocs w !! p = Some al → pure_ops (al_sops al).

Lemma pure_ok_same w w' :
  arrays w' = arrays w → queues w' = queues w → (pure_allocs w → pure_allocs w') → pure_ok w → pure_ok w'.
Proof.
  intros Ea Eq Hal (H1 & H2 & H3). split_and!; [intros p q; rewrite Eq; apply H1|by apply Hal|].
  intros b. eapply awake_keep; [| |apply (H3 b)]; rewrite ?Ea, ?Eq; [by destruct (arrays w !! b)|done].
Qed.

(** The list of undo structures of a process that is not asleep becomes shorter. *)
Lemma sem_ok_pop w pid l l' :
  sem_ok w → semundo w !! pid = Some l → queues w !! pid = None → NoDup l' → (∀ u, u ∈ l' → u ∈ l) →
  sem_ok (set_semundo (<[pid := l']> (semundo w)) w).
Proof.
  intros [[B1 B2 B3 B4 B5 B6 B7 B8 B9] S2 S3 S4 S5] El Hnone Hnd Hsub.
  assert (∀ p k, <[pid := l']> (semundo w) !! p = Some k → ∃ k', semundo w !! p = Some k' ∧ ∀ u, u ∈ k → u ∈ k') as Hk.
  { intros p k. destruct (decide (p = pid)) as [->|Hne].
    - rewrite lookup_insert_eq. intros [= <-]. eauto.
    - rewrite lookup_insert_ne by done. eauto. }
  constructor; simpl; try done; [constructor; simpl; try done|].
  - intros p k u E Hu. destruct (Hk p k E) as (k' & E' & H). eapply B6; [done|auto].
  - intros p p' k k' u E E' Hu Hu'. destruct (Hk p k E) as (k1 & E1 & H1). destruct (Hk p' k' E') as (k2 & E2 & H2).
    eapply B7; [done|done|apply H1, Hu|apply H2, Hu'].
  - intros p k E. destruct (decide (p = pid)) as [->|Hne].
    + rewrite lookup_insert_eq in E. by injection E as <-.
    + rewrite lookup_insert_ne in E by done. eauto.
  - intros p q Hq. specialize (S2 p q Hq). unfold queue_ok in *. destruct (q_linked q); [|done].
    eapply queued_ok_mono; [done|by apply live_same|]. simpl. intros sma Ea. exists sma. split_and!; try done.
    intros u _ ? ?. split; [done|]. rewrite lookup_insert_ne; [done|]. congruence.
Qed.

(** An undo structure that nothing refers to is freed. *)
Lemma sem_ok_free w u :
  sem_ok w → (∀ p l, semundo w !! p = Some l → u ∉ l) → (∀ a sma, arrays w !! a = Some sma → u ∉ sma_undo sma) →
  sem_ok (set_undos (delete u (undos w)) w).
Proof.
  intros [[B1 B2 B3 [B4 B4'] B5 B6 B7 B8 B9] S2 S3 S4 S5] Hl Ha.
  constructor; simpl; try done; constructor; simpl; try done.
  - split; [done|]. intros u' [und E]. apply lookup_delete_Some in E as [_ E]. apply B4'. eauto.
  - intros a sma u' Ea Hu. destruct (B5 a sma u' Ea Hu) as (und & E & H & Hlive). exists und.
    rewrite lookup_delete_ne; [done|]. intros ->. by eapply Ha.
  - intros p l u' El Hu. destruct (B6 p l u' El Hu) as (und & E & H). exists und.
    rewrite lookup_delete_ne; [done|]. intros ->. by eapply Hl.
Qed.

(** Two sets do not share undo structures. *)
Lemma live_fun w semid a b : live w semid a → live w semid b → a = b.
Proof. intros (_ & E1 & _) (_ & E2 & _). congruence. Qed.

Lemma undo_set_unique w a b s s' u :
  base_ok w → arrays w !! a = Some s → arrays w !! b = Some s' → u ∈ sma_undo s → u ∈ sma_undo s' → a = b.
Proof.
  intros H Ea Eb Hu Hu'. destruct (bo_undos _ H a s u Ea Hu) as (und & E & _ & L).
  destruct (bo_undos _ H b s' u Eb Hu') as (und' & E' & _ & L'). rewrite E in E'. injection E' as <-. by eapply live_fun.
Qed.

(** A stale structure is in no set. *)
Lemma stale_undo w a sma u und :
  base_ok w → undos w !! u = Some und → u_semid und = -1 → arrays w !! a = Some sma → u ∉ sma_undo sma.
Proof.
  intros H Eu Es Ea Hu. destruct (bo_undos _ H a sma u Ea Hu) as (und' & E & _ & (L & _)). rewrite Eu in E.
  injection E as <-. lia.
Qed.

Lemma freeundos_ok w pid u und :
  sem_ok w → queues w !! pid = None → undos w !! u = Some und → u_semid und = -1 → sem_ok (freeundos pid u w).
Proof.
  intros Hw Hnone Eu Es. unfold freeundos. case_bool_decide as Hin; [|done].
  destruct (default_semundo _ _ _ Hin) as (l & El & Hul). rewrite El. simpl.
  apply (sem_ok_free (set_semundo (<[pid := filter (λ x, x ≠ u) l]> (semundo w)) w)); simpl.
  - apply (sem_ok_pop w pid l); try done; [apply list.NoDup_filter; by eapply bo_nodup; [apply Hw|]|].
    intros x [_ ?]%list_elem_of_filter. done.
  - intros p k. destruct (decide (p = pid)) as [->|Hne].
    + rewrite lookup_insert_eq. intros [= <-]. intros [? _]%list_elem_of_filter. done.
    + rewrite lookup_insert_ne by done. intros Ek Hk. apply Hne. by eapply (bo_owner _ (so_base _ Hw)).
  - intros a sma Ea. by eapply (stale_undo w); [apply Hw|..].
Qed.

(** Searching the list of a process that is not asleep. *)
Lemma find_undo_ok l pid semid w a sma :
  sem_ok w → queues w !! pid = None → (∀ u, u ∈ l → u ∈ default [] (semundo w !! pid)) → NoDup l →
  live w semid a → arrays w !! a = Some sma →
  ∃ w' un, find_undo l pid semid w = Ok (w', un) ∧ sem_ok w' ∧
    arrays w' = arrays w ∧ sem_ids w' = sem_ids w ∧ queues w' = queues w ∧ allocs w' = allocs w ∧
    ∀ u, un = Some u → u ∈ sma_undo sma ∧ u ∈ default [] (semundo w' !! pid).
Proof.
  intros Hw Hnone Hsub Hnd Hl Ea. revert w Hw Hnone Hsub Hl Ea.
  induction Hnd as [|u l Hu Hnd IH]; intros w Hw Hnone Hsub Hl Ea; cbn [find_undo]; [by exists w, None|].
  assert (u ∈ default [] (semundo w !! pid)) as Hin by (apply Hsub; by left).
  destruct (default_semundo _ _ _ Hin) as (k & Ek & Huk).
  destruct (bo_semundo _ (so_base _ Hw) _ _ _ Ek Huk) as (und & Eu & Hd). rewrite (deref_ok _ _ _ Eu). cbn [mbind outcome_bind].
  destruct (Z.eqb_spec (u_semid und) semid) as [Es|Es].
  - exists w, (Some u). split_and!; try done. intros ? [= <-]. split; [|done].
    destruct Hd as [?|(b & s & Eb & Hb)]; [destruct Hl; lia|].
    destruct (bo_undos _ (so_base _ Hw) b s u Eb Hb) as (und' & E' & _ & L). rewrite Eu in E'. injection E' as <-.
    rewrite Es in L. assert (b = a) as -> by (by eapply live_fun). congruence.
  - destruct (Z.eqb_spec (u_semid und) (-1)) as [Est|Est]; [|apply IH; try done; intros x Hx; apply Hsub; by right].
    assert (freeundos pid u w = set_undos (delete u (undos w))
      (set_semundo (<[pid := filter (λ x, x ≠ u) k]> (semundo w)) w)) as Ef.
    { unfold freeundos. rewrite Ek. simpl. by rewrite bool_decide_true. }
    destruct (IH (freeundos pid u w)) as (w' & un & E & Hw' & A1 & A2 & A3 & A4 & A5).
    + by eapply freeundos_ok.
    + by rewrite Ef.
    + rewrite Ef. simpl. rewrite lookup_insert_eq. simpl. intros x Hx. apply list_elem_of_filter. split; [congruence|].
      specialize (Hsub x). rewrite Ek in Hsub. apply Hsub. by right.
    + rewrite Ef. by apply (live_same w).
    + by rewrite Ef.
    + exists w', un. rewrite E, A1, A2, A3, A4, Ef. done.
Qed.

(** ** semop *)

(** An operation as a user can pass it. *)
Definition user_sop (sop : sembuf) : Prop := 0 <= sem_num sop ∧ - 2 ^ 15 <= sem_op sop < 2 ^ 15.

(** The identifier does not name the slot behind the table. *)
Definition in_table (w : world) (semid : Z) : Prop := 0 <= semid → ∃ o, ipc_lock (sem_ids w) semid = Ok o.

Lemma lock_set w semid a : base_ok w → 0 <= semid → ipc_lock (sem_ids w) semid = Ok (Some a) →
  ∃ sma, arrays w !! a = Some sma ∧ (ipc_checkid (sem_perm sma) semid = false → live w semid a).
Proof.
  intros Hb H0 E. destruct (bo_entries _ Hb _ _ (lock_entry _ _ _ H0 E)) as [sma Ea].
  exists sma. split; [done|]. intros Hc. split; [done|]. split; [done|]. eauto.
Qed.

Lemma sops_in_range n sops :
  Forall user_sop sops → existsb (λ sop, n <=? sem_num sop) sops = false → Forall (sop_ok (Z.to_nat n)) sops.
Proof.
  intros Hs He. apply List.Forall_forall. intros sop Hin. rewrite List.Forall_forall in Hs.
  destruct (Hs sop Hin) as [H0 Hop].
  assert (sem_num sop < n). { apply Z.nle_gt. intros Hle. apply not_true_iff_false in He. apply He, List.existsb_exists.
    exists sop. split; [done|lia]. }
  split_and!; try lia.
Qed.

Lemma keeps_refl {R} P w (r : R) : sem_ok w → keeps P w (Ok (w, r)).
Proof. intros H. by exists w, r. Qed.

Lemma keeps_trans {R} (P Q : Prop) w w' (o : outcome (world * R)) :
  keeps P w' o → (Q → pure_ok w → P ∧ pure_ok w') → keeps Q w o.
Proof.
  intros (w2 & r & -> & Hw & Hp) H. exists w2, r. split; [done|]. split; [done|]. intros HQ Hok.
  destruct (H HQ Hok). auto.
Qed.

Lemma sem_ok_allocs w m : sem_ok w → (∀ p al, m !! p = Some al → alloc_ok al) → sem_ok (set_allocs m w).
Proof. intros [[? ? ? ? ? ? ? ? ?] S2 S3 S4 _] Hm. by constructor. Qed.

Lemma sys_semop_ok lim cr pid semid sops alloc copy w :
  sem_ok w → queues w !! pid = None → Forall user_sop sops → in_table w semid →
  keeps (pure_ops sops) w (sys_semop lim cr pid semid sops alloc copy w).
Proof.
  intros Hw Hnone Hs Hid. unfold sys_semop.
  destruct ((zlen sops <? 1) || (semid <? 0)) eqn:E0; [by apply keeps_refl|]. apply orb_false_iff in E0 as [_ E0%Z.ltb_ge].
  destruct (_ <? _); [by apply keeps_refl|]. destruct (_ && _); [by apply keeps_refl|].
  destruct (negb copy); [by apply keeps_refl|]. destruct (Hid E0) as [o Eo]. rewrite Eo. cbn [mbind outcome_bind].
  destruct o as [a|]; [|by apply keeps_refl].
  destruct (lock_set w semid a (so_base _ Hw) E0 Eo) as (sma & Ea & Hl). rewrite (deref_ok _ _ _ Ea). cbn [mbind outcome_bind].
  destruct (ipc_checkid _ _); [by apply keeps_refl|]. specialize (Hl eq_refl).
  destruct (existsb _ sops) eqn:Eb; [by apply keeps_refl|].
  destruct (ipcperms _ _ _); [by apply keeps_refl|].
  pose proof (sops_in_range _ _ Hs Eb) as Hr.
  assert (Forall (sop_ok (length (sem_base sma))) sops) as Hr'.
  { unfold sem_nsems, zlen in Hr. by rewrite Nat2Z.id in Hr. }
  destruct (wants_undo sops) eqn:Eu; [|by eapply semop_try_ok].
  destruct (find_undo_ok (default [] (semundo w !! pid)) pid semid w a sma) as (w1 & un & -> & Hw1 & A1 & A2 & A3 & A4 & A5);
    try done.
  { destruct (semundo w !! pid) as [l|] eqn:El; simpl; [by eapply bo_nodup; [apply Hw|]|constructor]. }
  assert (pure_ok w → pure_ok w1) as Hp1.
  { apply pure_ok_same; [done|done|]. unfold pure_allocs. by rewrite A4. }
  cbn [mbind outcome_bind]. destruct un as [u|].
  - eapply keeps_trans; [eapply semop_try_ok|by auto]; try done.
    + by apply (live_same w).
    + by rewrite A1.
    + by rewrite A3.
    + by apply A5.
  - eexists _, _. split; [done|]. split.
    + apply sem_ok_allocs; [done|]. intros p al. rewrite A4. destruct (decide (p = pid)) as [->|Hne].
      * rewrite lookup_insert_eq. intros [= <-]. split_and!; simpl; try done. unfold sem_nsems. apply zlen_nonneg.
      * rewrite lookup_insert_ne by done. by apply (so_allocs _ Hw).
    + intros Hpure Hok. eapply pure_ok_same; [..|by apply Hp1]; try done.
      intros Hal p al. simpl. destruct (decide (p = pid)) as [->|Hne]; [rewrite lookup_insert_eq; by intros [= <-]|].
      rewrite lookup_insert_ne by done. apply Hal.
Qed.

(** A new undo structure of [pid] for the set at [a]. *)
Lemma sem_ok_new_undo w a sma semid pid n :
  sem_ok w → live w semid a → arrays w !! a = Some sma → n = length (sem_base sma) →
  let u := next_addr w in
  let w1 := set_next (u + 1) (set_undos (<[u := Undo semid (replicate n 0)]> (undos w)) w) in
  let w2 := set_semundo (<[pid := u :: default [] (semundo w1 !! pid)]> (semundo w1)) w1 in
  sem_ok (set_arrays (<[a := set_sma_undo (u :: sma_undo sma) sma]> (arrays w2)) w2).
Proof.
  intros Hw Hl Ea -> u w1 w2. set (w3 := set_arrays _ w2). set (sma' := set_sma_undo (u :: sma_undo sma) sma).
  destruct Hw as [[B1 B2 B3 [B4 B4'] B5 B6 B7 B8 B9] S2 S3 S4 S5].
  assert (undos w !! u = None) as Hfresh.
  { destruct (undos w !! u) as [und|] eqn:E; [|done]. assert (u < next_addr w) by (apply B4'; eauto). unfold u in *. lia. }
  assert (∀ b s', arrays w3 !! b = Some s' → ∃ s, arrays w !! b = Some s ∧ sem_perm s' = sem_perm s ∧
    sem_base s' = sem_base s ∧ sem_pending s' = sem_pending s ∧ (∀ x, x ∈ sma_undo s' → x ∈ sma_undo s ∨ b = a ∧ x = u)) as Hinv.
  { intros b s'. simpl. destruct (decide (b = a)) as [->|Hne].
    - rewrite lookup_insert_eq. intros [= <-]. exists sma. split_and!; try done. intros x Hx. apply elem_of_cons in Hx as [->|]; auto.
    - rewrite lookup_insert_ne by done. exists s'. split_and!; auto. }
  assert (∀ b s, arrays w !! b = Some s → ∃ s', arrays w3 !! b = Some s' ∧ sem_perm s' = sem_perm s ∧
    sem_base s' = sem_base s ∧ sem_pending s' = sem_pending s ∧ (∀ x, x ∈ sma_undo s → x ∈ sma_undo s')) as Hfw.
  { intros b s Es. simpl. destruct (decide (b = a)) as [->|Hne].
    - rewrite lookup_insert_eq. exists sma'. rewrite Ea in Es. injection Es as <-. split_and!; try done. intros x ?. by right.
    - rewrite lookup_insert_ne by done. exists s. by split_and!. }
  assert (∀ id b, live w id b → live w3 id b) as Hlive.
  { intros id b (H0 & E & s & Es & Hc). split; [done|]. split; [done|]. destruct (Hfw b s Es) as (s' & Es' & Ep & _).
    exists s'. by rewrite Ep. }
  assert (∀ p k x, semundo w3 !! p = Some k → x ∈ k → x = u ∧ p = pid ∨ ∃ k', semundo w !! p = Some k' ∧ x ∈ k') as Hk.
  { intros p k x. simpl. destruct (decide (p = pid)) as [->|Hne].
    - rewrite lookup_insert_eq. intros [= <-]. intros [->|Hx]%elem_of_cons; [by left|right]. by apply default_semundo.
    - rewrite lookup_insert_ne by done. eauto. }
  assert (∀ p k, semundo w !! p = Some k → u ∉ k) as Huk.
  { intros p k E Hu. destruct (B6 p k u E Hu) as (und & E' & _). congruence. }
  constructor; simpl; [constructor; simpl|..]; try done.
  - intros i b Hi. destruct (B2 i b Hi) as [s Es]. destruct (Hfw b s Es) as (s' & E & _). eauto.
  - split.
    + intros b [s' E]. destruct (Hinv b s' E) as (s & Es & _). assert (b < next_addr w) by (apply B4; eauto). unfold u. lia.
    + intros x [und E]. destruct (decide (x = u)) as [->|Hne]; [lia|]. rewrite lookup_insert_ne in E by done.
      assert (x < next_addr w) by (apply B4'; eauto). unfold u. lia.
  - intros b s' x Es' Hx. destruct (Hinv b s' Es') as (s & Es & _ & Eb & _ & H). rewrite Eb.
    destruct (H x Hx) as [Hx'|[-> ->]].
    + destruct (B5 b s x Es Hx') as (und & E & Hok & L). exists und. rewrite lookup_insert_ne by congruence. auto.
    + exists (Undo semid (replicate (length (sem_base sma)) 0)). rewrite lookup_insert_eq. split; [done|].
      rewrite Ea in Es. injection Es as <-. split; [|auto]. split; simpl; [apply length_replicate|]. by apply Forall_replicate.
  - intros p k x Ek Hx. destruct (Hk p k x Ek Hx) as [[-> ->]|(k' & Ek' & Hx')].
    + exists (Undo semid (replicate (length (sem_base sma)) 0)). rewrite lookup_insert_eq. split; [done|]. right. exists a, sma'.
      rewrite lookup_insert_eq. split; [done|]. by left.
    + destruct (B6 p k' x Ek' Hx') as (und & E & Hd). exists und. rewrite lookup_insert_ne by congruence. split; [done|].
      destruct Hd as [?|(b & s & Es & Hb)]; [by left|right]. destruct (Hfw b s Es) as (s' & Es' & _ & _ & _ & H). exists b, s'. auto.
  - intros p p' k k' x Ek Ek' Hx Hx'. destruct (Hk p k x Ek Hx) as [[-> ->]|(k1 & E1 & H1)].
    + destruct (Hk p' k' u Ek' Hx') as [[_ ->]|(k2 & E2 & H2)]; [done|]. exfalso. by eapply Huk.
    + destruct (Hk p' k' x Ek' Hx') as [[-> ->]|(k2 & E2 & H2)]; [exfalso; by eapply Huk|]. by eapply B7.
  - intros p k Ek. destruct (decide (p = pid)) as [->|Hne].
    + rewrite lookup_insert_eq in Ek. injection Ek as <-. destruct (semundo w !! pid) as [k|] eqn:E; simpl.
      * apply list.NoDup_cons. eauto.
      * apply NoDup_singleton.
    + rewrite lookup_insert_ne in Ek by done. eauto.
  - intros b s' Es'. destruct (Hinv b s' Es') as (s & Es & _ & -> & _). eauto.
  - intros p q Hq. specialize (S2 p q Hq). unfold queue_ok in *. destruct (q_linked q); [|done].
    eapply queued_ok_mono; [done|apply Hlive|]. intros s Es. destruct (Hfw _ s Es) as (s' & Es' & _ & Eb & Ep & H).
    exists s'. rewrite Eb, Ep. split_and!; try done. intros x _ Hx Hx'. split; [auto|]. simpl.
    destruct (decide (p = pid)) as [->|Hne]; [rewrite lookup_insert_eq; simpl; by right|by rewrite lookup_insert_ne].
  - intros b s' p Es' Hp. destruct (Hinv b s' Es') as (s & Es & _ & _ & Ep & _). rewrite Ep in Hp. eauto.
  - intros b s' Es'. destruct (Hinv b s' Es') as (s & Es & _ & _ & -> & _). eauto.
Qed.

Lemma sem_revalidate_ok cr semid a nsems flg w :
  base_ok w → 0 <= semid → in_table w semid →
  ∃ err, sem_revalidate cr semid a nsems flg w = Ok err ∧
    (err = 0 → live w semid a ∧ ∃ sma, arrays w !! a = Some sma ∧ sem_nsems sma = nsems).
Proof.
  intros Hb H0 Hid. unfold sem_revalidate. destruct (Hid H0) as [o Eo]. rewrite Eo. cbn [mbind outcome_bind].
  destruct o as [a'|]; [|by eexists]. destruct (Z.eqb_spec a' a) as [->|]; [|by eexists]. simpl.
  destruct (lock_set w semid a Hb H0 Eo) as (sma & Ea & Hl). rewrite (deref_ok _ _ _ Ea). cbn [mbind outcome_bind].
  destruct (ipc_checkid _ _); [by eexists|]. simpl. destruct (Z.eqb_spec (sem_nsems sma) nsems); [|by eexists]. simpl.
  destruct (ipcperms _ _ _); [by eexists|]. exists 0. split; [done|]. intros _. split; [by apply Hl|eauto].
Qed.

Lemma semop_alloc_ok cr pid alloc w al :
  sem_ok w → allocs w !! pid = Some al → queues w !! pid = None → in_table w (al_semid al) →
  keeps True w (semop_alloc cr pid alloc w).
Proof.
  intros Hw Eal Hnone Hid. unfold semop_alloc. rewrite (deref_ok _ _ _ Eal). cbn [mbind outcome_bind].
  set (w0 := set_allocs (delete pid (allocs w)) w). destruct (so_allocs _ Hw _ _ Eal) as (H0 & Hn & Hs).
  assert (sem_ok w0) as Hw0.
  { apply sem_ok_allocs; [done|]. intros p al' [_ E]%lookup_delete_Some. by eapply so_allocs. }
  assert (pure_ok w → pure_ok w0) as Hp0.
  { apply pure_ok_same; try done. intros H p al'. simpl. intros [_ E]%lookup_delete_Some. by eapply H. }
  destruct (negb alloc); [by exists w0, (SReturned (- ENOMEM))|].
  destruct (sem_revalidate_ok cr (al_semid al) (al_sma al) (al_nsems al)
    (if alters (al_sops al) then S_IWUGO else S_IRUGO) w0) as (err & -> & Hr); [apply Hw0|done|done|].
  cbn [mbind outcome_bind]. destruct (Z.eqb_spec err 0) as [->|]; simpl; [|by exists w0, (SReturned err)].
  destruct (Hr eq_refl) as (Hl & sma & Ea & En). rewrite (deref_ok (arrays w) _ _ Ea). cbn [mbind outcome_bind].
  assert (Z.to_nat (al_nsems al) = length (sem_base sma)) as El by (rewrite <- En; unfold sem_nsems, zlen; lia).
  pose proof (sem_ok_new_undo w0 (al_sma al) sma (al_semid al) pid (Z.to_nat (al_nsems al)) Hw0 Hl Ea El) as Hw3.
  cbv zeta in Hw3. set (w3 := set_arrays _ _) in Hw3 |- *.
  assert (pure_ok w → pure_ok w3) as Hp3.
  { intros Hp. apply Hp0 in Hp as (H1 & H2 & H3). split_and!; try done. intros b. eapply (awake_keep w0); [|done|apply (H3 b)].
    unfold w3. simpl. destruct (decide (b = al_sma al)) as [->|Hne].
    - rewrite lookup_insert_eq. simpl in Ea. by rewrite Ea.
    - rewrite lookup_insert_ne by done. by destruct (arrays w !! b). }
  eapply keeps_trans; [eapply (semop_try_ok w3)|intros _ Hp; split; [by eapply Hp|auto]]; try done.
  - destruct Hl as (? & ? & s & Es & Hc). split; [done|]. split; [done|]. eexists. split; [apply lookup_insert_eq|].
    simpl in Ea, Es. rewrite Ea in Es. by injection Es as <-.
  - apply lookup_insert_eq.
  - simpl. by rewrite <- El.
  - simpl. rewrite lookup_insert_eq. simpl. split; by left.
Qed.

(** ** Waking up *)

(** The set [a] is being worked on; the others are in order. *)
Definition pure_but (a : Z) (w : world) : Prop :=
  pure_queues w ∧ pure_allocs w ∧ ∀ b, b ≠ a → awake_set w b.

Lemma pure_ok_but a w : pure_ok w → pure_but a w.
Proof. intros (H1 & H2 & H3). by split_and!. Qed.

Lemma pure_but_touch a w w' : touch a w w' → queues w' = queues w → pure_but a w → pure_but a w'.
Proof.
  intros Ht Eq (H1 & H2 & H3). split_and!.
  - intros p q. rewrite Eq. apply H1.
  - unfold pure_allocs. by rewrite (to_allocs _ _ _ Ht).
  - intros b Hne. eapply (awake_keep w); [| |by apply H3]; [|intros p _; by rewrite Eq].
    rewrite (to_others _ _ _ Ht) by done. by destruct (arrays w !! b).
Qed.

(** A process that leaves the queue. *)
Lemma leave_awake w p q a sma b :
  sem_ok w → queues w !! p = Some q → q_sma q = a → arrays w !! a = Some sma →
  (b = a → q_status q ≠ 1) → awake_set w b →
  awake_set (set_queues (delete p (queues w))
    (set_arrays (<[a := set_pending (filter (λ x, x ≠ p) (sem_pending sma)) sma]> (arrays w)) w)) b.
Proof.
  intros Hw Hq Hsma Ea Hst Hb. destruct (decide (b = a)) as [->|Hne].
  - specialize (Hst eq_refl). destruct Hb as [(s & p' & q' & Es & Hin & Hq' & Hst' & Hen)|Hb].
    + rewrite Ea in Es. injection Es as <-. left. assert (p' ≠ p) by congruence.
      exists (set_pending (filter (λ x, x ≠ p) (sem_pending sma)) sma), p', q'. simpl. rewrite lookup_insert_eq, lookup_delete_ne by done.
      split; [done|]. split; [by apply list_elem_of_filter|done].
    + right. intros l s p' q' Es Hin Hl Hq' Hst'. simpl in Es, Hq'. rewrite lookup_insert_eq in Es. injection Es as <-. simpl in *.
      apply list_elem_of_filter in Hin as [Hne Hin]. rewrite lookup_delete_ne in Hq' by done. by apply (Hb l sma p' q').
  - revert Hb. apply awake_keep; simpl.
    + rewrite lookup_insert_ne by done. by destruct (arrays w !! b).
    + intros p' (s & Es & Hp). apply lookup_delete_ne. intros <-.
      destruct (so_pending _ Hw _ _ _ Es Hp) as (q' & E & _ & E'). congruence.
Qed.

Lemma semop_leave_ok w pid q a sma error :
  sem_ok w → queues w !! pid = Some q → q_linked q = true → q_sma q = a → arrays w !! a = Some sma →
  ∃ w', semop_leave pid q error w = Ok (w', SReturned error) ∧ sem_ok w' ∧
    (pure_but a w → alters (q_sops q) = true ∨ awake_set w a ∧ q_status q ≠ 1 → pure_ok w').
Proof.
  intros Hw Hq Hlk Hsma Ea. unfold semop_leave, remove_from_queue. rewrite Hsma, (deref_ok _ _ _ Ea). cbn [mbind outcome_bind].
  rewrite (update_q_ok _ pid q) by done. cbn [mbind outcome_bind]. simpl. rewrite delete_insert_eq.
  set (w1 := set_queues (delete pid (queues w)) _).
  assert (sem_ok w1 ∧ touch a w w1) as [Hw1 Ht] by (by eapply (sem_ok_unlink w w1 pid q a sma None)).
  assert (∀ b, (b = a → q_status q ≠ 1) → awake_set w b → awake_set w1 b) as Haw by (intros; by eapply leave_awake).
  assert (pure_but a w → pure_but a w1) as Hp1.
  { intros (H1 & H2 & H3). split_and!; try done.
    - intros p q'. simpl. intros [_ E]%lookup_delete_Some. by eapply H1.
    - intros b Hne. apply Haw; [done|auto]. }
  destruct (alters (q_sops q)).
  - destruct (update_queue_ok a w1 (set_pending (filter (λ x, x ≠ pid) (sem_pending sma)) sma)) as (w' & -> & Hw' & _ & _ & Hp);
      [done|by apply lookup_insert_eq|]. eexists. split; [done|]. split; [done|]. intros Hbut _. apply Hp. by apply Hp1.
  - eexists. split; [done|]. split; [done|]. intros Hbut [?|[Ha Hst]]; [done|].
    destruct (Hp1 Hbut) as (H1 & H2 & H3). split_and!; try done.
    intros b. destruct (decide (b = a)) as [->|]; [|auto]. apply Haw; auto.
Qed.

(** The set was removed after [update_queue] had finished the operation of the
    process, and before the process ran. *)
Definition removed_behind (w : world) (q : sem_queue) : Prop :=
  ipc_lock (sem_ids w) (q_id q) = Ok None ∧ q_status q ≠ - EIDRM.

Lemma alters_decreases sops : decreases sops = true → alters sops = true.
Proof. intros H. unfold alters. rewrite H. apply orb_true_r. Qed.

Lemma sem_ok_forget w pid q : sem_ok w → queues w !! pid = Some q → q_linked q = false →
  sem_ok (set_queues (delete pid (queues w)) w).
Proof.
  intros [[? ? ? ? ? ? ? ? ?] S2 S3 S4 S5] Hq Hlk. constructor; simpl; try done.
  - intros p q' [_ E]%lookup_delete_Some. by apply S2.
  - intros a sma p Ea Hp. destruct (S3 a sma p Ea Hp) as (q' & E & El & Es). exists q'. rewrite lookup_delete_ne; [done|]. congruence.
Qed.

Lemma pure_ok_forget w pid q : sem_ok w → queues w !! pid = Some q → q_linked q = false → pure_ok w →
  pure_ok (set_queues (delete pid (queues w)) w).
Proof.
  intros Hw Hq Hlk (H1 & H2 & H3). split_and!; try done.
  - intros p q'. simpl. intros [_ E]%lookup_delete_Some. by eapply H1.
  - intros b. eapply (awake_keep w); [simpl; by destruct (arrays w !! b)| |apply H3].
    intros p (s & Es & Hp). simpl. apply lookup_delete_ne. intros <-.
    destruct (so_pending _ Hw _ _ _ Es Hp) as (q' & E & El & _). congruence.
Qed.

(** A process that tried again in vain sleeps on. *)
Lemma pure_ok_resleep w pid q a sma q' :
  sem_ok w → queues w !! pid = Some q → q_linked q = true → q_sma q = a → arrays w !! a = Some sma → q_sops q' = q_sops q →
  blocked (vals_of (sem_base sma)) (q_sops q) → pure_ok w → pure_ok (set_queues (<[pid := q']> (queues w)) w).
Proof.
  intros Hw Hq Hlk Hsma Ea Eops Hbl (H1 & H2 & H3). split_and!; try done.
  - intros p q1. simpl. destruct (decide (p = pid)) as [->|Hne].
    + rewrite lookup_insert_eq. intros [= <-] _. rewrite Eops. by eapply H1.
    + rewrite lookup_insert_ne by done. apply H1.
  - intros b. destruct (decide (b = a)) as [->|Hne].
    + destruct (H3 a) as [(s & p' & q1 & Es & Hin & Hq1 & Hst & Hen)|Hb].
      * rewrite Ea in Es. injection Es as <-. left. exists sma, p', q1. simpl. rewrite lookup_insert_ne; [done|]. intros <-.
        rewrite Hq in Hq1. injection Hq1 as <-. destruct Hen as [v Hen]. unfold blocked in Hbl. congruence.
      * right. intros l s p' q1 Es Hin Hl Hq1 Hst. simpl in Es, Hq1. destruct (decide (p' = pid)) as [->|Hnp].
        -- rewrite lookup_insert_eq in Hq1. injection Hq1 as <-. rewrite Eops. congruence.
        -- rewrite lookup_insert_ne in Hq1 by done. by apply (Hb l s p' q1).
    + eapply (awake_keep w); [simpl; by destruct (arrays w !! b)| |apply H3].
      intros p (s & Es & Hp). simpl. apply lookup_insert_ne. intros <-.
      destruct (so_pending _ Hw _ _ _ Es Hp) as (q1 & E & _ & E'). congruence.
Qed.

Lemma semop_wake_ok pid w q :
  sem_ok w → queues w !! pid = Some q → (∃ o, ipc_lock (sem_ids w) (q_id q) = Ok o) → ¬ removed_behind w q →
  keeps True w (semop_wake pid w).
Proof.
  intros Hw Hq [tmp Et] Hrace. unfold semop_wake. rewrite (deref_ok _ _ _ Hq). cbn [mbind outcome_bind].
  rewrite Et. cbn [mbind outcome_bind]. pose proof (so_queues _ Hw _ _ Hq) as Hqok. unfold queue_ok in Hqok.
  destruct tmp as [a0|].
  2: { assert (q_status q = - EIDRM) as Es by (apply dec_stable; intros ?; by apply Hrace). rewrite Es. simpl.
       assert (q_linked q = false) as Hlk.
       { destruct (q_linked q); [|done]. destruct Hqok as (sma & _ & _ & (_ & E & _) & _). congruence. }
       eexists _, _. split; [done|]. split; [by eapply sem_ok_forget|]. intros _. by eapply pure_ok_forget. }
  destruct (q_linked q) eqn:Hlk.
  2: { destruct Hqok as [Hst _]. destruct (Z.eqb_spec (q_status q) 1) as [E1|_]; [exfalso; lia|]. eexists _, _. split; [done|]. split; [by eapply sem_ok_forget|].
       intros _. by eapply pure_ok_forget. }
  pose proof Hqok as (sma & Ea & Hp & Hl & Hs & Hu & Halt & Hst).
  destruct (Z.eqb_spec (q_status q) 1) as [E1|E1].
  2: { destruct (semop_leave_ok w pid q (q_sma q) sma (q_status q)) as (w' & -> & Hw' & Hpure); try done.
       eexists _, _. split; [done|]. split; [done|]. intros _ Hok. apply Hpure; [by apply pure_ok_but|]. right. split; [apply Hok|done]. }
  assert (q_alter q = true) as Eal by (destruct Hst as [?|(_ & _ & ?)]; [unfold EINTR in *; lia|done]).
  destruct (try_on_spec w (q_sma q) sma (q_undo q) (q_sops q) (q_pid q) false)
    as (w1 & code & base' & -> & Ht & Eq & Ea1 & Hb1 & Hres);
    [apply Hw|done|done|by destruct (q_undo q) as [u|]; [destruct Hu|]|]. cbn [mbind outcome_bind].
  assert (sem_ok w1) as Hw1 by (by eapply sem_ok_vals).
  destruct (Z.leb_spec code 0) as [Hc|Hc].
  - destruct (semop_leave_ok w1 pid q (q_sma q) (set_base base' sma) code) as (w' & -> & Hw' & Hpure); try done; [by rewrite Eq|].
    eexists _, _. split; [done|]. split; [done|]. intros _ Hok. apply Hpure.
    + eapply pure_but_touch; [done|done|]. by apply pure_ok_but.
    + left. apply alters_decreases. congruence.
  - assert (blocked (vals_of (sem_base sma)) (q_sops q) ∧ vals_of base' = vals_of (sem_base sma)) as [Hbl Hv].
    { unfold blocked. destruct (run_ops _ _) as [vals'|c] eqn:Er; destruct Hres as [-> ?]; [lia|].
      apply run_ops_codes in Er as [->|[->| ->]]; try done. }
    rewrite (update_q_ok _ pid q) by (by rewrite Eq). cbn [mbind outcome_bind].
    eexists _, _. split; [done|]. split.
    + eapply (sem_ok_mark w1 pid q); [done|by rewrite Eq|done| |by left]. destruct q. simpl in *. by subst.
    + intros _ Hok. eapply (pure_ok_resleep w1 pid q); try done; [by rewrite Eq|simpl; by rewrite Hv|].
      by eapply pure_ok_vals.
Qed.

(** ** semctl *)

Lemma clear_adj_ok l semnum a w :
  (∀ u, u ∈ l → is_Some (undos w !! u)) →
  ∃ w', clear_adj l semnum w = Ok w' ∧ touch a w w' ∧ arrays w' = arrays w ∧ queues w' = queues w.
Proof.
  revert w. induction l as [|u l IH]; intros w Hl; cbn [clear_adj]; [by exists w|].
  destruct (Hl u) as [und Eu]; [by left|]. rewrite (deref_ok _ _ _ Eu). cbn [mbind outcome_bind].
  set (adj := match semnum with Some i => <[Z.to_nat i := 0]> (semadj und) | None => replicate (length (semadj und)) 0 end).
  set (w1 := set_undos (<[u := Undo (u_semid und) adj]> (undos w)) w).
  destruct (IH w1) as (w' & E & Ht & Ea & Eq).
  { intros x Hx. unfold w1. simpl. destruct (decide (x = u)) as [->|]; [rewrite lookup_insert_eq; eauto|].
    rewrite lookup_insert_ne by done. apply Hl. by right. }
  exists w'. split; [done|]. split; [|done]. transitivity w1; [|done]. constructor; simpl; try done; [apply set_like_refl|].
  intros x. destruct (decide (x = u)) as [->|].
  - rewrite Eu, lookup_insert_eq. simpl. unfold adj. split; [done|]. destruct semnum as [i|].
    + split; [by rewrite length_insert|]. intros H. by apply Forall_insert.
    + split; [by rewrite length_replicate|]. intros _. by apply Forall_replicate.
  - rewrite lookup_insert_ne by done. apply undo_like_refl.
Qed.

(** Nothing but undo structures changes. *)
Lemma sem_ok_adj a w w' : sem_ok w → touch a w w' → arrays w' = arrays w → queues w' = queues w → sem_ok w'.
Proof.
  intros [S1 S2 S3 S4 S5] Ht Ea Eq. constructor; rewrite ?Ea, ?Eq; try done.
  - eapply touch_base; [done|done|]. rewrite Ea. by eapply bo_small.
  - intros p q Hq. specialize (S2 p q Hq). unfold queue_ok in *. destruct (q_linked q); [|done].
    eapply queued_ok_touch; [done|done|]. rewrite Ea. congruence.
  - by rewrite (to_allocs _ _ _ Ht).
Qed.

Lemma set_vals_ok w a sma base' :
  sem_ok w → arrays w !! a = Some sma → length base' = length (sem_base sma) → Forall small (vals_of base') →
  let w1 := set_arrays (<[a := set_base base' sma]> (arrays w)) w in sem_ok w1 ∧ touch a w w1.
Proof.
  intros Hw Ea Hl Hs w1. assert (touch a w w1) as Ht.
  { constructor; simpl; try done.
    - intros b Hne. by rewrite lookup_insert_ne.
    - rewrite Ea, lookup_insert_eq. simpl. by rewrite Hl.
    - intros u. apply undo_like_refl. }
  split; [|done]. assert (arrays w1 !! a = Some (set_base base' sma)) as Ea1 by apply lookup_insert_eq.
  eapply (sem_ok_vals a w); try done. eapply touch_base; [apply Hw|done|]. rewrite Ea1. by intros ? [= <-].
Qed.

(** The values are set, and the queue looked at. *)
Lemma update_vals_ok w a sma base' :
  sem_ok w → arrays w !! a = Some sma → length base' = length (sem_base sma) → Forall small (vals_of base') →
  ∃ w', update_queue a (set_arrays (<[a := set_base base' sma]> (arrays w)) w) = Ok w' ∧ sem_ok w' ∧ (pure_but a w → pure_ok w').
Proof.
  intros Hw Ea Hl Hs. destruct (set_vals_ok w a sma base') as [Hw1 Ht]; try done.
  destruct (update_queue_ok a (set_arrays (<[a := set_base base' sma]> (arrays w)) w) (set_base base' sma))
    as (w' & E & Hw' & _ & _ & Hp); [done|apply lookup_insert_eq|].
  exists w'. split; [done|]. split; [done|]. intros Hbut. apply Hp. by eapply pure_but_touch.
Qed.

Lemma count_queue_ok f semnum l w : (∀ p, p ∈ l → is_Some (queues w !! p)) → ∃ n, count_queue f semnum l w = Ok n.
Proof.
  induction l as [|p l IH]; intros H; cbn [count_queue]; [by eexists|]. destruct (H p) as [q Hq]; [by left|].
  rewrite (deref_ok _ _ _ Hq). cbn [mbind outcome_bind]. destruct IH as [n ->]; [intros; apply H; by right|]. by eexists.
Qed.

Lemma set_undos_exist w a sma : base_ok w → arrays w !! a = Some sma → ∀ u, u ∈ sma_undo sma → is_Some (undos w !! u).
Proof. intros H Ea u Hu. destruct (bo_undos _ H a sma u Ea Hu) as (und & -> & _). eauto. Qed.

Lemma getall_ok a copy w sma : sem_ok w → arrays w !! a = Some sma → keeps True w (getall a copy w).
Proof.
  intros Hw Ea. unfold getall. rewrite (deref_ok _ _ _ Ea). cbn [mbind outcome_bind]. destruct copy; by apply keeps_refl.
Qed.

Lemma setval_ok w a sma i curr val :
  sem_ok w → arrays w !! a = Some sma → sem_base sma !! Z.to_nat i = Some curr → 0 <= val <= SEMVMX →
  keeps True w (
    w ← clear_adj (sma_undo sma) (Some i) w;
    sma ← deref (arrays w) a;
    let base := <[Z.to_nat i := Sem val (sempid curr)]> (sem_base sma) in
    w ← update_queue a (set_arrays (<[a := set_base base sma]> (arrays w)) w);
    Ok (w, CReturns 0 [])).
Proof.
  intros Hw Ea Ei Hv. destruct (clear_adj_ok (sma_undo sma) (Some i) a w) as (w1 & -> & Ht & Ea1 & Eq).
  { eapply set_undos_exist; [apply Hw|done]. }
  cbn [mbind outcome_bind]. rewrite Ea1, (deref_ok _ _ _ Ea). cbn [mbind outcome_bind]. rewrite <- Ea1 in Ea |- *.
  assert (sem_ok w1) as Hw1 by (by eapply sem_ok_adj).
  destruct (update_vals_ok w1 a sma (<[Z.to_nat i := Sem val (sempid curr)]> (sem_base sma))) as (w' & -> & Hw' & Hp); try done.
  - by rewrite length_insert.
  - rewrite vals_insert. apply Forall_insert; [by eapply bo_small; [apply Hw1|]|]. simpl. unfold small, SEMVMX in *. lia.
  - eexists _, _. split; [done|]. split; [done|]. intros _ Hok. apply Hp. eapply pure_but_touch; [done|done|]. by apply pure_ok_but.
Qed.

Lemma semctl_main_ok cr semid semnum cmd version val copy w :
  sem_ok w → 0 <= semid → in_table w semid → keeps True w (semctl_main cr semid semnum cmd version val copy w).
Proof.
  intros Hw H0 Hid. unfold semctl_main. destruct (Hid H0) as [o Eo]. rewrite Eo. cbn [mbind outcome_bind].
  destruct o as [a|]; [|by apply keeps_refl].
  destruct (lock_set w semid a (so_base _ Hw) H0 Eo) as (sma & Ea & _). rewrite (deref_ok _ _ _ Ea). cbn [mbind outcome_bind].
  destruct (ipc_checkid _ _); [by apply keeps_refl|]. destruct (ipcperms _ _ _); [by apply keeps_refl|].
  destruct (cmd =? GETALL). { destruct (_ <? _); [by apply keeps_refl|by eapply getall_ok]. }
  destruct (cmd =? SETALL); [by apply keeps_refl|]. destruct (cmd =? IPC_STAT). { destruct copy; by apply keeps_refl. }
  destruct (_ || _) eqn:Er; [by apply keeps_refl|]. apply orb_false_iff in Er as [E1%Z.ltb_ge E2%Z.leb_gt].
  destruct (lookup_lt_is_Some_2 (sem_base sma) (Z.to_nat semnum)) as [curr Ec]; [unfold sem_nsems, zlen in E2; lia|].
  rewrite Ec. destruct (cmd =? GETVAL); [by apply keeps_refl|]. destruct (cmd =? GETPID); [by apply keeps_refl|].
  assert (∀ f, ∃ n, count_queue f semnum (sem_pending sma) w = Ok n) as Hcount.
  { intros f. apply count_queue_ok. intros p Hp. destruct (so_pending _ Hw _ _ _ Ea Hp) as (q & -> & _). eauto. }
  unfold count_semncnt, count_semzcnt. rewrite (deref_ok _ _ _ Ea). cbn [mbind outcome_bind].
  destruct (cmd =? GETNCNT). { destruct (Hcount (λ sop, sem_op sop <? 0)) as [n ->]. by apply keeps_refl. }
  destruct (cmd =? GETZCNT). { destruct (Hcount (λ sop, sem_op sop =? 0)) as [n ->]. by apply keeps_refl. }
  destruct (cmd =? SETVAL); [|by apply keeps_refl].
  destruct (_ || _) eqn:Ev; [by apply keeps_refl|]. apply orb_false_iff in Ev as [E3%Z.ltb_ge E4%Z.ltb_ge].
  by apply setval_ok.
Qed.

Lemma setall_resume_ok cr semid a nsems array alloc copy w :
  sem_ok w → 0 <= semid → in_table w semid → zlen array = nsems → Forall (λ v, 0 <= v) array →
  keeps True w (setall_resume cr semid a nsems array alloc copy w).
Proof.
  intros Hw H0 Hid Hlen Hpos. unfold setall_resume. destruct (_ && _); [by apply keeps_refl|].
  destruct (negb copy); [by apply keeps_refl|]. destruct (existsb _ array) eqn:Eb; [by apply keeps_refl|].
  destruct (sem_revalidate_ok cr semid a nsems S_IWUGO w) as (err & -> & Hr); [apply Hw|done|done|].
  cbn [mbind outcome_bind]. destruct (Z.eqb_spec err 0) as [->|]; simpl; [|by apply keeps_refl].
  destruct (Hr eq_refl) as (_ & sma & Ea & En). rewrite (deref_ok _ _ _ Ea). cbn [mbind outcome_bind].
  set (base := zip_with _ _ _). unfold sem_nsems, zlen in En, Hlen.
  destruct (set_vals_ok w a sma base) as [Hw1 Ht]; try done.
  { unfold base. rewrite length_zip_with. lia. }
  { unfold base, vals_of. rewrite fmap_zip_with_r by (done || lia). rewrite List.Forall_forall in *. intros v Hv. split; [auto|].
    apply Z.nle_gt. intros Hle. apply not_true_iff_false in Eb. apply Eb, List.existsb_exists. exists v. split; [done|].
    unfold SEMVMX. lia. }
  set (w1 := set_arrays _ w) in *.
  destruct (clear_adj_ok (sma_undo sma) None a w1) as (w2 & -> & Ht2 & Ea2 & Eq2).
  { apply (set_undos_exist w a sma); [apply Hw|done]. }
  cbn [mbind outcome_bind]. assert (sem_ok w2) as Hw2 by (by eapply sem_ok_adj).
  destruct (update_queue_ok a w2 (set_base base sma)) as (w' & -> & Hw' & _ & _ & Hp);
    [done|rewrite Ea2; apply lookup_insert_eq|].
  eexists _, _. split; [done|]. split; [done|]. intros _ Hok. apply Hp.
  eapply pure_but_touch; [done|done|]. eapply pure_but_touch; [done|done|]. by apply pure_ok_but.
Qed.

(** ** Removing a set *)

Lemma invalidate_spec l w : (∀ u, u ∈ l → is_Some (undos w !! u)) →
  ∃ m, invalidate l w = Ok (set_undos m w) ∧
    ∀ x, m !! x = (λ und, if decide (x ∈ l) then Undo (-1) (semadj und) else und) <$> undos w !! x.
Proof.
  revert w. induction l as [|u l IH]; intros w Hl; cbn [invalidate].
  { exists (undos w). split; [by destruct w|]. intros x.
    by destruct (undos w !! x). }
  destruct (Hl u) as [und Eu]; [by left|]. rewrite (deref_ok _ _ _ Eu). cbn [mbind outcome_bind].
  set (w1 := set_undos _ w). destruct (IH w1) as (m & -> & Hm).
  { intros x Hx. unfold w1. simpl. destruct (decide (x = u)) as [->|]; [rewrite lookup_insert_eq; eauto|].
    rewrite lookup_insert_ne by done. apply Hl. by right. }
  exists m. split; [done|]. intros x. rewrite Hm. unfold w1. simpl. destruct (decide (x = u)) as [->|Hne].
  - rewrite lookup_insert_eq, Eu. simpl. rewrite (decide_True (P := u ∈ u :: l)) by (by left). by destruct (decide (u ∈ l)).
  - rewrite lookup_insert_ne by done. destruct (undos w !! x) as [und'|]; simpl; [|done]. f_equal.
    apply decide_ext. rewrite elem_of_cons. naive_solver.
Qed.

Definition removed_queue (q : sem_queue) : sem_queue := set_woken true (set_linked false (set_status (- EIDRM) q)).

Lemma wake_removed_spec l w : NoDup l → (∀ p, p ∈ l → is_Some (queues w !! p)) →
  ∃ m, wake_removed l w = Ok (set_queues m w) ∧
    ∀ p, m !! p = (λ q, if decide (p ∈ l) then removed_queue q else q) <$> queues w !! p.
Proof.
  intros Hnd. revert w. induction Hnd as [|p l Hp Hnd IH]; intros w Hl; cbn [wake_removed].
  { exists (queues w). split; [by destruct w|]. intros x.
    by destruct (queues w !! x). }
  destruct (Hl p) as [q Eq]; [by left|]. rewrite (update_q_ok _ p q) by done. cbn [mbind outcome_bind].
  set (w1 := set_queues _ w). destruct (IH w1) as (m & -> & Hm).
  { intros x Hx. unfold w1. simpl. destruct (decide (x = p)) as [->|]; [rewrite lookup_insert_eq; eauto|].
    rewrite lookup_insert_ne by done. apply Hl. by right. }
  exists m. split; [done|]. intros x. rewrite Hm. unfold w1. simpl. destruct (decide (x = p)) as [->|Hne].
  - rewrite lookup_insert_eq, Eq. simpl. rewrite (decide_True (P := p ∈ p :: l)) by (by left). by rewrite decide_False.
  - rewrite lookup_insert_ne by done. destruct (queues w !! x) as [q'|]; simpl; [|done]. f_equal.
    apply decide_ext. rewrite elem_of_cons. naive_solver.
Qed.

Lemma freeary_ok w semid a sma :
  sem_ok w → live w semid a → arrays w !! a = Some sma →
  ∃ w', freeary semid w = Ok w' ∧ sem_ok w' ∧ (pure_ok w → pure_ok w').
Proof.
  intros Hw Hl Ea. pose proof (so_base _ Hw) as Hb. unfold freeary.
  pose proof Hl as (H0 & Hlk & _). destruct (rmid_exists (sem_ids w) semid a Hlk) as [ids Eids].
  destruct (rmid_lock (sem_ids w) semid a ids (bo_ids _ Hb) (bo_inj _ Hb) H0 Eids) as (Hids & Hent & Hlock).
  rewrite Eids. cbn [mbind outcome_bind]. rewrite (deref_ok _ _ _ Ea). cbn [mbind outcome_bind].
  destruct (invalidate_spec (sma_undo sma) (set_ids ids w)) as (m & -> & Hm); [by apply (set_undos_exist w a)|].
  cbn [mbind outcome_bind].
  destruct (wake_removed_spec (sem_pending sma) (set_undos m (set_ids ids w))) as (qs & -> & Hqs).
  { by eapply so_nodup. }
  { intros p Hp. destruct (so_pending _ Hw _ _ _ Ea Hp) as (q & Eq & _). simpl. rewrite Eq. eauto. }
  simpl in Hm, Hqs. cbn [mbind outcome_bind]. eexists. split; [done|]. set (w' := set_used _ _).
  assert (∀ b s, arrays w' !! b = Some s → b ≠ a ∧ arrays w !! b = Some s) as Harr.
  { intros b s. simpl. intros [? ?]%lookup_delete_Some. by split; [apply not_eq_sym|]. }
  assert (∀ b s, arrays w !! b = Some s → b ≠ a → arrays w' !! b = Some s) as Hfw.
  { intros b s Es Hne. simpl. by rewrite lookup_delete_ne. }
  assert (∀ id b, live w id b → b ≠ a → live w' id b) as Hlive.
  { intros id b (Hid & E & s & Es & Hc) Hne. split; [done|]. split; [by apply Hlock|]. exists s. auto. }
  assert (∀ b s x, b ≠ a → arrays w !! b = Some s → x ∈ sma_undo s → x ∉ sma_undo sma) as Hdisj.
  { intros b s x Hne Es Hx Hx'. apply Hne. by eapply undo_set_unique. }
  assert (∀ b s p, b ≠ a → arrays w !! b = Some s → p ∈ sem_pending s → p ∉ sem_pending sma) as Hqd.
  { intros b s p Hne Es Hp Hp'. destruct (so_pending _ Hw _ _ _ Es Hp) as (q & Eq & _ & E1).
    destruct (so_pending _ Hw _ _ _ Ea Hp') as (q' & Eq' & _ & E2). congruence. }
  split.
  - destruct Hw as [[B1 B2 B3 [B4 B4'] B5 B6 B7 B8 B9] S2 S3 S4 S5].
    constructor; [constructor|..]; try done.
    + intros i b Hi. destruct (Hent i b Hi) as [Hi' Hne]. destruct (B2 i b Hi') as [s Es]. exists s. auto.
    + intros i j b Hi Hj. destruct (Hent i b Hi) as [Hi' _]. destruct (Hent j b Hj) as [Hj' _]. by eapply B3.
    + split; [intros b [s Es]; apply B4; exists s; by apply Harr|]. intros x [und E]. apply B4'. simpl in E.
      rewrite Hm in E. destruct (undos w !! x); [eauto|done].
    + intros b s x Es Hx. destruct (Harr b s Es) as [Hne Es']. destruct (B5 b s x Es' Hx) as (und & E & Hok & L).
      exists und. simpl. rewrite Hm, E. simpl. rewrite decide_False by (by eapply Hdisj). auto.
    + intros p l x El Hx. destruct (B6 p l x El Hx) as (und & E & Hd). simpl. rewrite Hm, E. simpl.
      destruct (decide (x ∈ sma_undo sma)) as [|Hnx]; eexists; (split; [done|]); [by left|].
      destruct Hd as [?|(b & s & Es & Hb')]; [by left|right]. exists b, s. split; [|done]. apply Hfw; [done|]. congruence.
    + intros b s Es. apply Harr in Es as [_ Es]. eauto.
    + intros p q'. simpl. rewrite Hqs. destruct (queues w !! p) as [q|] eqn:Eq; [|done]. simpl.
      destruct (decide (p ∈ sem_pending sma)) as [|Hnp]; intros [= <-]; [by split|].
      specialize (S2 p q Eq). unfold queue_ok in *. destruct (q_linked q); [|done].
      assert (q_sma q ≠ a) as Hne. { intros Eqa. destruct S2 as (s & Es & Hp & _). rewrite Eqa in Es. congruence. }
      eapply queued_ok_mono; [done|intros L; by apply Hlive|]. intros s Es. exists s. by split_and!; auto.
    + intros b s p Es Hp. apply Harr in Es as [Hne Es]. destruct (S3 b s p Es Hp) as (q & Eq & Hq). exists q. simpl.
      rewrite Hqs, Eq. simpl. by rewrite decide_False by (by eapply Hqd).
    + intros b s Es. apply Harr in Es as [_ Es]. eauto.
  - intros (H1 & H2 & H3). split_and!; try done.
    + intros p q'. simpl. rewrite Hqs. destruct (queues w !! p) as [q|] eqn:Eq; [|done]. simpl.
      destruct (decide (p ∈ sem_pending sma)); intros [= <-]; [done|]. by apply (H1 p).
    + intros b. destruct (decide (b = a)) as [->|Hne].
      { right. intros l s p q Es. by apply Harr in Es as [? _]. }
      eapply (awake_keep w); [| |apply H3].
      * destruct (arrays w' !! b) as [s|] eqn:Es; [|by destruct (arrays w !! b)]. by apply Harr in Es as [_ ->].
      * intros p (s & Es & Hp). simpl. rewrite Hqs. destruct (queues w !! p); simpl; [|done].
        by rewrite decide_False by (by eapply Hqd).
Qed.

(** ** Other changes of a set *)

(** The set keeps its sequence number, size and queue, and the undo structures
    that processes have. *)
Lemma sem_ok_alike w a sma sma' :
  sem_ok w → arrays w !! a = Some sma → p_seq (sem_perm sma') = p_seq (sem_perm sma) →
  length (sem_base sma') = length (sem_base sma) → sem_pending sma' = sem_pending sma →
  (∀ x, x ∈ sma_undo sma' → x ∈ sma_undo sma) →
  (∀ p l x, semundo w !! p = Some l → x ∈ l → x ∈ sma_undo sma → x ∈ sma_undo sma') →
  Forall small (vals_of (sem_base sma')) →
  sem_ok (set_arrays (<[a := sma']> (arrays w)) w).
Proof.
  intros [[B1 B2 B3 [B4 B4'] B5 B6 B7 B8 B9] S2 S3 S4 S5] Ea Es El Ep Hun Hund Hsm. set (w' := set_arrays _ w).
  assert (∀ b s', arrays w' !! b = Some s' → ∃ s, arrays w !! b = Some s ∧ length (sem_base s') = length (sem_base s) ∧
    sem_pending s' = sem_pending s ∧ Forall small (vals_of (sem_base s')) ∧ (∀ x, x ∈ sma_undo s' → x ∈ sma_undo s)) as Hinv.
  { intros b s'. simpl. destruct (decide (b = a)) as [->|Hne].
    - rewrite lookup_insert_eq. intros [= <-]. exists sma. by split_and!.
    - rewrite lookup_insert_ne by done. intros E. exists s'. split_and!; eauto. }
  assert (∀ b s, arrays w !! b = Some s → ∃ s', arrays w' !! b = Some s' ∧ p_seq (sem_perm s') = p_seq (sem_perm s) ∧
    length (sem_base s') = length (sem_base s) ∧ sem_pending s' = sem_pending s ∧
    (∀ p l x, semundo w !! p = Some l → x ∈ l → x ∈ sma_undo s → x ∈ sma_undo s')) as Hfw.
  { intros b s Eb. simpl. destruct (decide (b = a)) as [->|Hne].
    - rewrite lookup_insert_eq. rewrite Ea in Eb. injection Eb as <-. exists sma'. by split_and!.
    - rewrite lookup_insert_ne by done. exists s. by split_and!. }
  assert (∀ id b, live w id b → live w' id b) as Hlive.
  { intros id b (H0 & E & s & Eb & Hc). split; [done|]. split; [done|]. destruct (Hfw b s Eb) as (s' & Es' & Eseq & _).
    exists s'. split; [done|]. unfold ipc_checkid in *. by rewrite Eseq. }
  constructor; [constructor|..]; try done.
  - intros i b Hi. destruct (B2 i b Hi) as [s Eb]. destruct (Hfw b s Eb) as (s' & E & _). eauto.
  - split; [|done]. intros b [s' E]. destruct (Hinv b s' E) as (s & Eb & _). apply B4. eauto.
  - intros b s' x E Hx. destruct (Hinv b s' E) as (s & Eb & Elen & _ & _ & H). rewrite Elen.
    destruct (B5 b s x Eb (H x Hx)) as (und & Eu & Hok & L). exists und. auto.
  - intros p l x E Hx. destruct (B6 p l x E Hx) as (und & Eu & Hd). exists und. split; [done|].
    destruct Hd as [?|(b & s & Eb & Hb)]; [by left|right]. destruct (Hfw b s Eb) as (s' & E' & _ & _ & _ & H). exists b, s'. eauto.
  - intros b s' E. destruct (Hinv b s' E) as (s & Eb & _ & _ & H & _). done.
  - intros p q Hq. specialize (S2 p q Hq). unfold queue_ok in *. destruct (q_linked q); [|done].
    eapply queued_ok_mono; [done|apply Hlive|]. intros s Eb. destruct (Hfw _ s Eb) as (s' & E' & _ & Elen & Epend & H).
    exists s'. split_and!; try done. intros x _ Hx Hx'. split; [|done].
    destruct (default_semundo _ _ _ Hx') as (l & El' & Hl). eauto.
  - intros b s' p E Hp. destruct (Hinv b s' E) as (s & Eb & _ & E2 & _). rewrite E2 in Hp. eauto.
  - intros b s' E. destruct (Hinv b s' E) as (s & Eb & _ & -> & _). eauto.
Qed.

Lemma semctl_down_ok cr semid cmd setbuf w :
  sem_ok w → 0 <= semid → in_table w semid → keeps True w (semctl_down cr semid cmd setbuf w).
Proof.
  intros Hw H0 Hid. unfold semctl_down. destruct (_ && _); [by apply keeps_refl|].
  destruct (Hid H0) as [o Eo]. rewrite Eo. cbn [mbind outcome_bind]. destruct o as [a|]; [|by apply keeps_refl].
  destruct (lock_set w semid a (so_base _ Hw) H0 Eo) as (sma & Ea & Hl). rewrite (deref_ok _ _ _ Ea). cbn [mbind outcome_bind].
  destruct (ipc_checkid _ _); [by apply keeps_refl|]. specialize (Hl eq_refl). destruct (_ && _); [by apply keeps_refl|].
  destruct (cmd =? IPC_RMID).
  { destruct (freeary_ok w semid a sma) as (w' & -> & Hw' & Hp); try done. by eexists _, _. }
  destruct (cmd =? IPC_SET); [|by apply keeps_refl]. destruct setbuf as [[[uid gid] mode]|]; [|by apply keeps_refl].
  eexists _, _. split; [done|]. split.
  - eapply sem_ok_alike; try done. simpl. by eapply bo_small; [apply Hw|].
  - intros _ (H1 & H2 & H3). split_and!; try done. intros b. eapply (awake_keep w); [|done|apply H3]. simpl.
    destruct (decide (b = a)) as [->|Hne]; [by rewrite lookup_insert_eq, Ea|].
    rewrite lookup_insert_ne by done. by destruct (arrays w !! b).
Qed.

Lemma semctl_nolock_ok lim cr semid cmd version copy w :
  sem_ok w → 0 <= semid → in_table w semid → keeps True w (semctl_nolock lim cr semid cmd version copy w).
Proof.
  intros Hw H0 Hid. unfold semctl_nolock. destruct (_ || _); [destruct copy; by apply keeps_refl|].
  destruct (cmd =? SEM_STAT); [|by apply keeps_refl]. destruct (_ <? _); [by apply keeps_refl|].
  destruct (Hid H0) as [o Eo]. rewrite Eo. cbn [mbind outcome_bind]. destruct o as [a|]; [|by apply keeps_refl].
  destruct (lock_set w semid a (so_base _ Hw) H0 Eo) as (sma & Ea & _). rewrite (deref_ok _ _ _ Ea). cbn [mbind outcome_bind].
  destruct (ipcperms _ _ _); [by apply keeps_refl|]. destruct copy; by apply keeps_refl.
Qed.

Lemma sys_semctl_ok lim cr semid semnum cmd val copy setbuf w :
  sem_ok w → in_table w semid → keeps True w (sys_semctl lim cr semid semnum cmd val copy setbuf w).
Proof.
  intros Hw Hid. unfold sys_semctl. destruct (Z.ltb_spec semid 0); [by apply keeps_refl|].
  destruct (ipc_parse_version cmd) as [cmd' v]. destruct (_ || _ || _); [by apply semctl_nolock_ok|].
  case_bool_decide; [by apply semctl_main_ok|]. destruct (_ || _); [|by apply keeps_refl].
  destruct (semctl_down_ok cr semid cmd' setbuf w) as (w' & r & -> & Hw' & Hp); try done. by eexists _, _.
Qed.

(** ** Creating a set *)

(** The table grows, or a new set comes. *)
Lemma sem_ok_table w w' :
  sem_ok w → ids_ok (sem_ids w') → undos w' = undos w → semundo w' = semundo w → queues w' = queues w →
  allocs w' = allocs w → next_addr w <= next_addr w' →
  (∀ i b, entries (sem_ids w) !! i = Some (Some b) → entries (sem_ids w') !! i = Some (Some b)) →
  (∀ b s, arrays w !! b = Some s → arrays w' !! b = Some s) →
  (∀ b s, arrays w' !! b = Some s → arrays w !! b = Some s ∨
     b < next_addr w' ∧ sem_pending s = [] ∧ sma_undo s = [] ∧ Forall small (vals_of (sem_base s))) →
  (∀ i b, entries (sem_ids w') !! i = Some (Some b) → is_Some (arrays w' !! b)) →
  (∀ i j b, entries (sem_ids w') !! i = Some (Some b) → entries (sem_ids w') !! j = Some (Some b) → i = j) →
  sem_ok w' ∧ (pure_ok w → pure_ok w').
Proof.
  intros [[B1 B2 B3 [B4 B4'] B5 B6 B7 B8 B9] S2 S3 S4 S5] Hids Eu Es Eq Eal Hnext Hent Harr Hnew Hex Hinj.
  assert (∀ id b, live w id b → live w' id b) as Hlive.
  { intros id b (H0 & E & s & Eb & Hc). split; [done|]. split; [|eauto].
    pose proof (Hent _ _ (lock_entry _ _ _ H0 E)) as He.
    assert (0 <= id mod SEQ_MULTIPLIER) by (apply Z.mod_pos_bound; unfold SEQ_MULTIPLIER, IPCMNI; lia).
    by apply (ipc_lock_some (sem_ids w') (id mod SEQ_MULTIPLIER)); [apply Z.rem_mod_nonneg|done|apply Hids|]. }
  split.
  - constructor; [constructor|..]; rewrite ?Eu, ?Es, ?Eq, ?Eal; try done.
    + split; [|intros x Hx; specialize (B4' x Hx); lia]. intros b [s Eb].
      destruct (Hnew b s Eb) as [E|(? & _)]; [|done]. assert (b < next_addr w) by (apply B4; eauto). lia.
    + intros b s x Eb Hx. destruct (Hnew b s Eb) as [E|(_ & _ & E & _)]; [|rewrite E in Hx; by apply elem_of_nil in Hx].
      destruct (B5 b s x E Hx) as (und & E' & Hok & L). exists und. auto.
    + intros p l x E Hx. destruct (B6 p l x E Hx) as (und & E' & Hd). exists und. split; [done|].
      destruct Hd as [?|(b & s & Eb & Hb)]; [by left|right]. exists b, s. auto.
    + intros b s Eb. destruct (Hnew b s Eb) as [E|(_ & _ & _ & E)]; [eauto|done].
    + intros p q Hq. specialize (S2 p q Hq). unfold queue_ok in *. destruct (q_linked q); [|done].
      eapply queued_ok_mono; [done|apply Hlive|]. intros s Eb. exists s. rewrite Es. split_and!; auto.
    + intros b s p Eb Hp. destruct (Hnew b s Eb) as [E|(_ & E & _)]; [eauto|]. rewrite E in Hp. by apply elem_of_nil in Hp.
    + intros b s Eb. destruct (Hnew b s Eb) as [E|(_ & E & _)]; [eauto|]. rewrite E. constructor.
  - intros (H1 & H2 & H3). split_and!; [intros p q; rewrite Eq; apply H1|rewrite Eal; apply H2|].
    intros b. eapply (awake_keep w); [|by rewrite Eq|apply H3]. destruct (arrays w !! b) as [s|] eqn:Eb.
    + by rewrite (Harr b s Eb).
    + destruct (arrays w' !! b) as [s|] eqn:Eb'; [|done]. destruct (Hnew b s Eb') as [E|(_ & E & _)]; [congruence|done].
Qed.

Lemma newary_ok lim cr key nsems semflg alloc grow w w' r :
  sem_ok w → newary lim cr key nsems semflg alloc grow w = (w', r) → sem_ok w' ∧ (pure_ok w → pure_ok w').
Proof.
  intros Hw. unfold newary. destruct (_ =? _); [by intros [= <- _]|]. destruct (_ <? _); [by intros [= <- _]|].
  destruct (negb alloc); [by intros [= <- _]|]. set (a := next_addr w). pose proof (so_base _ Hw) as Hb.
  destruct (ipc_addid (sem_ids w) a (sc_semmni lim) cr grow) as [ids o] eqn:Eadd.
  destruct (ipc_addid_ok _ _ _ _ _ _ _ (bo_ids _ Hb) Eadd) as [Hids _].
  destruct (addid_entries _ _ _ _ _ _ _ (bo_ids _ Hb) Eadd) as [Hfw Hbw].
  assert (arrays w !! a = None) as Hfresh.
  { destruct (arrays w !! a) as [s|] eqn:E; [|done]. destruct (bo_addr _ Hb) as [H _]. specialize (H a). rewrite E in H.
    specialize (H (mk_is_Some _ _ eq_refl)). unfold a in H. lia. }
  destruct o as [[id perm]|]; intros [= <- _]; apply (sem_ok_table w); simpl; try done.
  - unfold a. lia.
  - intros b s Es. rewrite lookup_insert_ne; [done|]. congruence.
  - intros b s. destruct (decide (b = a)) as [->|Hne].
    + rewrite lookup_insert_eq. intros [= <-]. right. simpl. split_and!; try done; [lia|]. unfold vals_of. rewrite fmap_replicate.
      by apply Forall_replicate.
    + rewrite lookup_insert_ne by done. auto.
  - intros i b Hi. destruct (Hbw i b Hi) as [E|(? & ? & _ & _ & ->)]; [|rewrite lookup_insert_eq; eauto].
    destruct (bo_entries _ Hb _ _ E) as [s Es]. rewrite lookup_insert_ne; [eauto|]. congruence.
  - assert (∀ i, entries (sem_ids w) !! i ≠ Some (Some a)) as Hna.
    { intros i E. destruct (bo_entries _ Hb _ _ E) as [s Es]. congruence. }
    intros i j b Hi Hj. destruct (Hbw i b Hi) as [E|(? & ? & E1 & -> & ->)]; destruct (Hbw j _ Hj) as [E'|(? & ? & E2 & -> & ?)].
    + by eapply bo_inj.
    + subst b. by apply Hna in E.
    + by apply Hna in E'.
    + congruence.
  - auto.
  - intros i b Hi. destruct (Hbw i b Hi) as [E|(? & ? & [=] & _)]. by eapply bo_entries.
  - intros i j b Hi Hj. destruct (Hbw i b Hi) as [E|(? & ? & [=] & _)]. destruct (Hbw j b Hj) as [E'|(? & ? & [=] & _)].
    by eapply bo_inj.
Qed.

Lemma sys_semget_ok lim cr key nsems semflg alloc grow w :
  sem_ok w → keeps True w (sys_semget lim cr key nsems semflg alloc grow w).
Proof.
  intros Hw. assert (keeps True w (Ok (newary lim cr key nsems semflg alloc grow w))) as Hnew.
  { destruct (newary lim cr key nsems semflg alloc grow w) as [w' r] eqn:E.
    destruct (newary_ok _ _ _ _ _ _ _ _ _ _ Hw E). by exists w', r. }
  unfold sys_semget. destruct (_ || _); [by apply keeps_refl|]. destruct (_ =? _); [done|].
  destruct (Z.eqb_spec (ipc_findkey (key_of w) (sem_ids w) key) (-1)) as [|Hne].
  { destruct (negb _); [by apply keeps_refl|done]. }
  destruct (_ && _); [by apply keeps_refl|]. unfold ipc_findkey in *. set (l := take _ _) in *.
  destruct (find_from_entry (key_of w) key 0 l) as [?|[Hr [a Ha]]]; [done|]. set (id := find_from _ _ _ _) in *.
  rewrite Z.sub_0_r in Ha, Hr. unfold l in Ha. apply lookup_take_Some in Ha as [Ha _].
  pose proof (bo_ids _ (so_base _ Hw)) as Hids. pose proof (io_size _ Hids) as [Hsz Hmax].
  assert (id < IPCMNI). { apply lookup_lt_Some in Ha. unfold zlen in *. lia. }
  rewrite (ipc_lock_some (sem_ids w) id id (Some a)); [|apply Z.rem_small; unfold SEQ_MULTIPLIER; lia|lia|done|done].
  cbn [mbind outcome_bind]. destruct (bo_entries _ (so_base _ Hw) _ _ Ha) as [sma Ea]. rewrite (deref_ok _ _ _ Ea).
  cbn [mbind outcome_bind]. destruct (_ <? _); [by apply keeps_refl|]. destruct (ipcperms _ _ _); by apply keeps_refl.
Qed.
