(* ===== verification/SemLive.v ===== *)
(** Any number of processes that use semaphore sets: the calls of [ipc/sem.c] in
    any order.  The invariant of [SemSystem] holds in every state that is
    reached, calls do not trap, and nobody sleeps on without a reason. *)

From S2P Require Import Prelude Errno Ipc Sem SemAtomic SemSystem SemCalls.

(** ** Exit *)

(** No value is near the end of the range of an int. *)
Definition room (w : world) : Prop :=
  ∀ a sma, arrays w !! a = Some sma → Forall (λ v, v < 2 ^ 30 - 2 ^ 15) (vals_of (sem_base sma)).

Lemma exit_vals pid base adj :
  length adj = length base → Forall (λ v, v < 2 ^ 30 - 2 ^ 15) (vals_of base) → Forall small (vals_of base) →
  Forall (λ v, - 2 ^ 15 <= v < 2 ^ 15) adj → Forall small (vals_of (zip_with (exit_sem pid) base adj)).
Proof.
  revert adj. induction base as [|s base IH]; intros [|d adj] Hl H1 H2 H3; simpl; [constructor..|].
  apply Forall_cons_1 in H1 as [? ?], H2 as [[? ?] ?], H3 as [? ?]. simpl in Hl. constructor; [|apply IH; auto]. unfold exit_sem, small. simpl.
  rewrite swrap_small by lia. zbool; simpl; lia.
Qed.

(** An undo structure of a process is dealt with; [sem_exit] does this for each
    of them. *)
Definition exit_next (pid : Z) (w : world) : outcome world :=
  match semundo w !! pid with
  | Some (u :: l) => exit_undo pid u (set_semundo (<[pid := l]> (semundo w)) w)
  | _ => Ok w
  end.

Lemma exit_next_ok pid w :
  sem_ok w → queues w !! pid = None → room w →
  ∃ w', exit_next pid w = Ok w' ∧ sem_ok w' ∧ (pure_ok w → pure_ok w').
Proof.
  intros Hw Hnone Hroom. unfold exit_next. destruct (semundo w !! pid) as [[|u l]|] eqn:El; [by exists w| |by exists w].
  pose proof (bo_nodup _ (so_base _ Hw) _ _ El) as [Hul Hnd]%list.NoDup_cons.
  set (w0 := set_semundo (<[pid := l]> (semundo w)) w).
  assert (sem_ok w0) as Hw0 by (apply (sem_ok_pop w pid (u :: l)); try done; intros ? ?; by right).
  assert (∀ p k, semundo w0 !! p = Some k → u ∉ k) as Hfree.
  { intros p k. simpl. destruct (decide (p = pid)) as [->|Hne]; [rewrite lookup_insert_eq; by intros [= <-]|].
    rewrite lookup_insert_ne by done. intros Ek Hk. apply Hne. eapply (bo_owner _ (so_base _ Hw)); [done|done|done|by left]. }
  assert (pure_ok w → pure_ok w0) as Hp0 by (by apply pure_ok_same).
  destruct (bo_semundo _ (so_base _ Hw) _ _ u El) as (und & Eu & Hd); [by left|].
  unfold exit_undo. change (undos w0) with (undos w). rewrite (deref_ok _ _ _ Eu). cbn [mbind outcome_bind].
  destruct (Z.eqb_spec (u_semid und) (-1)) as [Es|Es].
  { eexists. split; [done|]. split; [|intros Hp; apply (pure_ok_same w0); auto].
    apply (sem_ok_free w0); try done. intros a sma Ea. eapply (stale_undo w); [apply Hw|done..]. }
  destruct Hd as [?|(a & sma & Ea & Hu)]; [done|].
  destruct (bo_undos _ (so_base _ Hw) a sma u Ea Hu) as (und' & E' & [Hlen Hadj] & (L0 & Llock & s & Es' & Lchk)).
  rewrite Eu in E'. injection E' as <-. rewrite Ea in Es'. injection Es' as <-.
  change (sem_ids w0) with (sem_ids w). rewrite Llock. cbn [mbind outcome_bind]. change (arrays w0) with (arrays w).
  rewrite (deref_ok _ _ _ Ea). cbn [mbind outcome_bind]. rewrite Lchk, bool_decide_true by done. cbn [negb].
  set (sma' := set_base _ _).
  assert (sem_ok (set_arrays (<[a := sma']> (arrays w0)) w0)) as Hw1.
  { apply (sem_ok_alike w0 a sma); try done; simpl.
    - rewrite length_zip_with. lia.
    - intros x [_ ?]%list_elem_of_filter. done.
    - intros p k x Ek Hx Hxs. apply list_elem_of_filter. split; [|done]. intros ->. by eapply Hfree.
    - apply exit_vals; [done|by eapply Hroom|by eapply bo_small; [apply Hw|]|done]. }
  change (arrays w) with (arrays w0).
  destruct (update_queue_ok a (set_arrays (<[a := sma']> (arrays w0)) w0) sma') as (w2 & -> & Hw2 & Ht & _ & Hp);
    [done|apply lookup_insert_eq|].
  cbn [mbind outcome_bind]. eexists. split; [done|]. split.
  - apply sem_ok_free; [done|by rewrite (to_semundo _ _ _ Ht)|]. intros b s2 Eb Hub.
    destruct (touch_set_inv _ _ _ _ _ Ht Eb) as (s1 & E1 & _ & _ & Eun & _). rewrite Eun in Hub. simpl in E1.
    destruct (decide (b = a)) as [->|Hne].
    + rewrite lookup_insert_eq in E1. injection E1 as <-. simpl in Hub. by apply list_elem_of_filter in Hub as [? _].
    + rewrite lookup_insert_ne in E1 by done. apply Hne. by eapply (undo_set_unique w); [apply Hw|..].
  - intros Hok%Hp0. eapply (pure_ok_same w2); try done. apply Hp. destruct Hok as (H1 & H2 & H3). split_and!; try done.
    intros b Hne. eapply (awake_keep w0); [|done|apply H3]. simpl. rewrite lookup_insert_ne by done. by destruct (arrays w !! b).
Qed.

(** ** Calls *)

(** A call, or a part of one that runs without letting go of a lock. *)
Inductive call :=
| KSemget (lim : limits) (cr : cred) (key nsems semflg : Z) (alloc grow : bool)
| KSemctl (lim : limits) (cr : cred) (semid semnum cmd val : Z) (copy : bool) (setbuf : option (Z * Z * Z))
| KGetall (cr : cred) (semid a nsems : Z) (alloc copy : bool)
| KSetall (cr : cred) (semid a : Z) (array : list Z) (alloc copy : bool)
| KSemop (lim : limits) (cr : cred) (pid semid : Z) (sops : list sembuf) (alloc copy : bool)
| KAlloc (cr : cred) (pid : Z) (alloc : bool)
| KWake (pid : Z)
| KExit (pid : Z).

Definition state_of {R} (o : outcome (world * R)) : outcome world := '(w, _) ← o; Ok w.

Definition run_call (c : call) (w : world) : outcome world :=
  match c with
  | KSemget lim cr key nsems semflg alloc grow => state_of (sys_semget lim cr key nsems semflg alloc grow w)
  | KSemctl lim cr semid semnum cmd val copy setbuf => state_of (sys_semctl lim cr semid semnum cmd val copy setbuf w)
  | KGetall cr semid a nsems alloc copy => state_of (getall_resume cr semid a nsems alloc copy w)
  | KSetall cr semid a array alloc copy => state_of (setall_resume cr semid a (zlen array) array alloc copy w)
  | KSemop lim cr pid semid sops alloc copy => state_of (sys_semop lim cr pid semid sops alloc copy w)
  | KAlloc cr pid alloc => state_of (semop_alloc cr pid alloc w)
  | KWake pid => state_of (semop_wake pid w)
  | KExit pid => exit_next pid w
  end.

(** A process that runs does one thing at a time; what comes from a user has the
    width of its type. *)
Definition legal (w : world) (c : call) : Prop :=
  match c with
  | KSemget _ _ _ _ _ _ _ | KSemctl _ _ _ _ _ _ _ _ => True
  | KGetall _ semid _ _ _ _ => 0 <= semid
  | KSetall _ semid _ array _ _ => 0 <= semid ∧ Forall (λ v, 0 <= v < 2 ^ 16) array
  | KSemop _ _ pid _ sops _ _ => queues w !! pid = None ∧ allocs w !! pid = None ∧ Forall user_sop sops
  | KAlloc _ pid _ => queues w !! pid = None ∧ is_Some (allocs w !! pid)
  | KWake pid => is_Some (queues w !! pid)
  | KExit pid => queues w !! pid = None ∧ allocs w !! pid = None ∧ room w
  end.

(** The slot behind the table is not asked for, and a set is not removed between
    the end of an operation in [update_queue] and the return of its process. *)
Definition safe (w : world) (c : call) : Prop :=
  match c with
  | KSemget _ _ _ _ _ _ _ | KExit _ => True
  | KSemctl _ _ semid _ _ _ _ _ | KGetall _ semid _ _ _ _ | KSetall _ semid _ _ _ _ | KSemop _ _ _ semid _ _ _ =>
      in_table w semid
  | KAlloc _ pid _ => ∀ al, allocs w !! pid = Some al → in_table w (al_semid al)
  | KWake pid => ∀ q, queues w !! pid = Some q → in_table w (q_id q) ∧ 0 <= q_id q ∧ ¬ removed_behind w q
  end.

(** Calls whose operations decrease something, if they increase anything. *)
Definition pure_call (c : call) : Prop :=
  match c with KSemop _ _ _ _ sops _ _ => pure_ops sops | _ => True end.

Lemma keeps_state {R} (P : Prop) w (o : outcome (world * R)) :
  keeps P w o → ∃ w', state_of o = Ok w' ∧ sem_ok w' ∧ (P → pure_ok w → pure_ok w').
Proof. intros (w' & r & -> & Hw & Hp). by exists w'. Qed.

Lemma call_ok c w : sem_ok w → legal w c → safe w c →
  ∃ w', run_call c w = Ok w' ∧ sem_ok w' ∧ (pure_call c → pure_ok w → pure_ok w').
Proof.
  intros Hw Hl Hs. destruct c; simpl in *.
  - by apply keeps_state, sys_semget_ok.
  - by apply keeps_state, sys_semctl_ok.
  - apply keeps_state. unfold getall_resume. destruct (negb alloc); [by apply keeps_refl|].
    destruct (sem_revalidate_ok cr semid a nsems S_IRUGO w) as (err & -> & Hr); [apply Hw|done|done|].
    cbn [mbind outcome_bind]. destruct (Z.eqb_spec err 0) as [->|]; simpl; [|by apply keeps_refl].
    destruct (Hr eq_refl) as (_ & sma & Ea & _). by eapply getall_ok.
  - apply keeps_state. destruct Hl as [H0 Hpos]. apply setall_resume_ok; try done. eapply Forall_impl; [|exact Hpos]. simpl. lia.
  - destruct Hl as (H1 & _ & H2). by apply keeps_state, sys_semop_ok.
  - destruct Hl as (H1 & al & Eal). apply keeps_state. eapply semop_alloc_ok; eauto.
  - destruct Hl as [q Hq]. destruct (Hs q Hq) as (Hid & H0 & Hrace). apply keeps_state. eapply semop_wake_ok; eauto.
  - destruct Hl as (H1 & _ & H2). destruct (exit_next_ok pid w) as (w' & -> & Hw' & Hp); try done. exists w'. auto.
Qed.

(** ** Reachable states *)

Section reachable.
Variable allowed : call → Prop.

Inductive sem_step (w w' : world) : Prop :=
| sem_step_call c : allowed c → legal w c → safe w c → run_call c w = Ok w' → sem_step w w'.

Definition reachable (w : world) : Prop := ∃ lim w0, sem_init lim true = Ok w0 ∧ 0 <= sc_semmni lim ∧ rtc sem_step w0 w.

Lemma sem_init_ok lim w0 : 0 <= sc_semmni lim → sem_init lim true = Ok w0 → sem_ok w0 ∧ pure_ok w0.
Proof.
  intros Hn E. unfold sem_init in E. destruct (ipc_init_ids_ok (sc_semmni lim) Hn) as (ids & Ei & Hids & _ & Hnone).
  rewrite Ei in E. injection E as <-. split.
  - constructor; [constructor|..]; simpl; try done; try (intros; set_solver).
    + intros i a Hi. rewrite Forall_lookup in Hnone. by apply Hnone in Hi.
    + intros i j a Hi. rewrite Forall_lookup in Hnone. by apply Hnone in Hi.
    + split; intros x [? E]; by rewrite lookup_empty in E.
  - split_and!; try done. intros a. right. intros l sma p q E. simpl in E. by rewrite lookup_empty in E.
Qed.

Lemma reachable_sem_ok w : reachable w → sem_ok w.
Proof.
  intros (lim & w0 & E & Hn & Hr). destruct (sem_init_ok lim w0 Hn E) as [H _]. clear E.
  induction Hr as [|w0 w1 w2 [c _ Hl Hs E] Hr IH]; [done|]. apply IH.
  destruct (call_ok c w0 H Hl Hs) as (w' & E' & Hok & _). congruence.
Qed.

Lemma reachable_pure_ok w : (∀ c, allowed c → pure_call c) → reachable w → pure_ok w.
Proof.
  intros Hall (lim & w0 & E & Hn & Hr). destruct (sem_init_ok lim w0 Hn E) as [H Hp]. clear E.
  induction Hr as [|w0 w1 w2 [c Hc Hl Hs E] Hr IH]; [done|].
  destruct (call_ok c w0 H Hl Hs) as (w' & E' & Hok & Hpure). assert (w' = w1) as -> by congruence.
  apply IH; [done|]. apply Hpure; auto.
Qed.
End reachable.

(** The process that was told to try again returns from its call. *)
Lemma runner_returns w p q sma :
  sem_ok w → arrays w !! q_sma q = Some sma → queues w !! p = Some q → q_linked q = true → q_status q = 1 →
  enabled (vals_of (sem_base sma)) (q_sops q) →
  ∃ w', semop_wake p w = Ok (w', SReturned 0).
Proof.
  intros Hw Ea Hq Hlk Hst [vals' Hen]. unfold semop_wake. rewrite (deref_ok _ _ _ Hq). cbn [mbind outcome_bind].
  pose proof (so_queues _ Hw _ _ Hq) as Hqok. unfold queue_ok in Hqok. rewrite Hlk in Hqok.
  destruct Hqok as (s & Ea' & Hp & (_ & El & _) & Hs & Hu & _). rewrite Ea in Ea'. injection Ea' as <-.
  rewrite El, Hst. cbn [mbind outcome_bind Z.eqb Pos.eqb].
  destruct (try_on_spec w (q_sma q) sma (q_undo q) (q_sops q) (q_pid q) false)
    as (w1 & code & base' & -> & Ht & Eq & Ea1 & Hb1 & Hres);
    [apply Hw|done|done|by destruct (q_undo q) as [u|]; [destruct Hu|]|]. cbn [mbind outcome_bind].
  rewrite Hen in Hres. destruct Hres as [-> _]. simpl. assert (sem_ok w1) as Hw1 by (by eapply sem_ok_vals).
  destruct (semop_leave_ok w1 p q (q_sma q) (set_base base' sma) 0) as (w' & -> & _); try done; [by rewrite Eq|]. by exists w'.
Qed.

(** ** Theorems *)

(** C11: In every state that processes reach with calls in any order, no call
    traps: it does not go through a dangling or null pointer, index outside a
    set, or reach a BUG, whatever its arguments, with two exceptions (an
    identifier of the slot behind the table, and a set removed between
    [update_queue]'s end of an operation and the return of its process).  The
    state stays well formed: identifiers name sets, sizes agree, undo structures
    belong to one process and one set, a sleeping process is in the queue of its
    set or was woken with the result of its call, and nothing that was freed is
    referred to. *)
Theorem sem_calls_safe allowed w c :
  reachable allowed w → legal w c → safe w c → ∃ w', run_call c w = Ok w' ∧ sem_ok w'.
Proof.
  intros Hr Hl Hs. destruct (call_ok c w (reachable_sem_ok _ _ Hr) Hl Hs) as (w' & E & Hok & _). eauto.
Qed.

(** C5: No wake-up is lost among processes whose calls either decrease some
    semaphore or increase none: in every state they reach, a process in the queue
    of a set that was not told to try again cannot go on with the present values,
    or there is a process in that queue that was woken and whose call returns
    success, after which the queue is looked at again. *)
Theorem sem_no_lost_wakeup w a sma p q :
  reachable pure_call w → arrays w !! a = Some sma → p ∈ sem_pending sma → queues w !! p = Some q → q_status q ≠ 1 →
  run_ops (vals_of (sem_base sma)) (q_sops q) = inr 1 ∨
  ∃ p' q' w', p' ∈ sem_pending sma ∧ queues w !! p' = Some q' ∧ q_woken q' = true ∧
    semop_wake p' w = Ok (w', SReturned 0).
Proof.
  intros Hr Ea Hp Hq Hst. pose proof (reachable_sem_ok _ _ Hr) as Hw.
  destruct (reachable_pure_ok pure_call w) as (_ & _ & Haw); [done|done|].
  destruct (Haw a) as [(s & p' & q' & Es & Hp' & Hq' & Hst' & Hen)|Hb]; [right|left; apply (Hb [p] sma p q); try done; by left].
  rewrite Ea in Es. injection Es as <-. destruct (so_pending _ Hw _ _ _ Ea Hp') as (q2 & E2 & Hlk & Hsma).
  rewrite Hq' in E2. injection E2 as <-. rewrite <- Hsma in Ea.
  destruct (runner_returns w p' q' sma) as [w' E]; try done. exists p', q', w'. split_and!; try done.
  pose proof (so_queues _ Hw _ _ Hq') as Hqok. unfold queue_ok in Hqok. rewrite Hlk in Hqok.
  destruct Hqok as (_ & _ & _ & _ & _ & _ & _ & [E1|(_ & ? & _)]); [|done]. rewrite Hst' in E1. done.
Qed.

(** ** Runs *)

Definition sample_limits : limits := Limits 10 20 10 2.

Fixpoint run_all (cs : list call) (w : world) : outcome world :=
  match cs with [] => Ok w | c :: cs => w ← run_call c w; run_all cs w end.

Definition sample_run (cs : list call) : outcome world := w ← sem_init sample_limits true; run_all cs w.

Definition owner : cred := Cred 5 5 5 [] false false.
Definition mk_set (n : Z) : call := KSemget sample_limits owner 0 n 0x180 true true.
Definition do_op (pid : Z) (sops : list sembuf) : call := KSemop sample_limits owner pid 0 sops true true.

(** Processes 1 and 3 wait for a semaphore that process 2 then increases. *)
Definition sample_calls : list call :=
  [mk_set 1; do_op 1 [Sembuf 0 (-1) 0]; do_op 3 [Sembuf 0 (-1) 0]; KSemctl sem_ctls owner 0 0 SETVAL 1 true None].

(** Whether a call of a run may be made. *)
Definition lock_works (w : world) (semid : Z) : bool :=
  match ipc_lock (sem_ids w) semid with Ok _ => true | Trap _ => false end.

Definition may_call (w : world) (c : call) : bool :=
  match c with
  | KSemget _ _ _ _ _ _ _ => true
  | KSemctl _ _ semid _ _ _ _ _ => lock_works w semid
  | KSemop _ _ pid semid sops _ _ =>
      match queues w !! pid, allocs w !! pid with None, None => true | _, _ => false end &&
      forallb (λ sop, (0 <=? sem_num sop) && (- 2 ^ 15 <=? sem_op sop) && (sem_op sop <? 2 ^ 15)) sops &&
      (decreases sops || negb (alters sops)) && lock_works w semid
  | _ => false
  end.

Fixpoint run_checked (cs : list call) (w : world) : option world :=
  match cs with
  | [] => Some w
  | c :: cs => if may_call w c then match run_call c w with Ok w => run_checked cs w | Trap _ => None end else None
  end.

Lemma lock_works_in_table w semid : lock_works w semid = true → in_table w semid.
Proof. unfold lock_works. intros H _. destruct (ipc_lock _ _); [eauto|done]. Qed.

Lemma may_call_ok w c : may_call w c = true → pure_call c ∧ legal w c ∧ safe w c.
Proof.
  destruct c; simpl; try done; [intros H; split_and!; try done; by apply lock_works_in_table|].
  intros [[[H1 H2]%andb_prop H3]%andb_prop H4]%andb_prop. split_and!.
  - intros E. rewrite E in H3. simpl in H3. by destruct (alters sops).
  - by destruct (queues w !! pid).
  - by destruct (queues w !! pid), (allocs w !! pid).
  - apply List.Forall_forall. intros sop Hin. rewrite List.forallb_forall in H2.
    specialize (H2 sop Hin). apply andb_prop in H2 as [[? ?]%andb_prop ?]. split; lia.
  - by apply lock_works_in_table.
Qed.

Lemma run_checked_reachable cs w w' : run_checked cs w = Some w' → rtc (sem_step pure_call) w w'.
Proof.
  revert w. induction cs as [|c cs IH]; intros w E; cbn [run_checked] in E; [by injection E as <-|].
  destruct (may_call w c) eqn:Em; [|done]. destruct (run_call c w) as [w1|] eqn:Ec; [|done].
  destruct (may_call_ok w c Em) as (Ha & Hl & Hs). eapply rtc_l; [by econstructor|]. by apply IH.
Qed.

Definition sample_world : world :=
  match sample_run sample_calls with Ok w => w | Trap _ => World (Ids 0 0 0 0 0 []) ∅ ∅ ∅ ∅ ∅ 0 0 end.

Lemma sample_reachable : reachable pure_call sample_world.
Proof.
  eexists sample_limits, _. split; [reflexivity|]. split; [done|]. apply run_checked_reachable with sample_calls.
  vm_compute. reflexivity.
Qed.

Lemma sem_calls_safe_witness : ∃ w', run_call (KWake 1) sample_world = Ok w' ∧ sem_ok w'.
Proof.
  apply (sem_calls_safe pure_call).
  - exact sample_reachable.
  - vm_compute. eauto.
  - intros q Hq. vm_compute in Hq. injection Hq as <-. split; [|split].
    + intros _. vm_compute. eauto.
    + vm_compute. discriminate.
    + intros [H _]. vm_compute in H. discriminate.
Defined.

Lemma sem_no_lost_wakeup_witness :
  ∃ sma q, arrays sample_world !! 1 = Some sma ∧ queues sample_world !! 3 = Some q ∧ q_status q ≠ 1 ∧
    (run_ops (vals_of (sem_base sma)) (q_sops q) = inr 1 ∨
     ∃ p' q' w', p' ∈ sem_pending sma ∧ queues sample_world !! p' = Some q' ∧ q_woken q' = true ∧
       semop_wake p' sample_world = Ok (w', SReturned 0)).
Proof.
  destruct (arrays sample_world !! 1) as [sma|] eqn:Ea; [|vm_compute in Ea; discriminate].
  destruct (queues sample_world !! 3) as [q|] eqn:Eq; [|vm_compute in Eq; discriminate].
  exists sma, q. split; [done|]. split; [done|]. assert (q_status q ≠ 1) as Hst.
  { vm_compute in Eq. injection Eq as <-. simpl. lia. }
  split; [done|]. apply (sem_no_lost_wakeup sample_world 1 sma 3 q).
  - exact sample_reachable.
  - exact Ea.
  - vm_compute in Ea. injection Ea as <-. right. left.
  - exact Eq.
  - exact Hst.
Defined.

(** ** Deviations *)

(** Process 2 waits until semaphore 0 is zero and then increases semaphore 1,
    for which process 1 waits.  When semaphore 0 becomes zero, [update_queue]
    runs the operations of process 2, but it has passed process 1 and does not
    come back to it: process 1 sleeps on although its semaphore is 1, and nobody
    is left to wake it. *)
Lemma mixed_operations_lose_wakeup :
  ∃ w sma q, sample_run [mk_set 2; KSemctl sem_ctls owner 0 0 SETVAL 1 true None; do_op 1 [Sembuf 1 (-1) 0];
      do_op 2 [Sembuf 0 0 0; Sembuf 1 1 0]; do_op 3 [Sembuf 0 (-1) 0]; KWake 2] = Ok w ∧
    arrays w !! 1 = Some sma ∧ vals_of (sem_base sma) = [0; 1] ∧ sem_pending sma = [1] ∧
    queues w !! 1 = Some q ∧ q_woken q = false ∧ run_ops (vals_of (sem_base sma)) (q_sops q) = inl [0; 0].
Proof. eexists _, _, _. split; [vm_compute; reflexivity|]. vm_compute. split_and!; reflexivity. Qed.

(** Process 1 waited for zero and [update_queue] has finished its call; when the
    set is removed before it runs, it finds the set gone, its status is not
    -EIDRM, and it reaches the BUG. *)
Lemma removal_races_with_wakeup :
  sample_run [mk_set 1; KSemctl sem_ctls owner 0 0 SETVAL 1 true None; do_op 1 [Sembuf 0 0 0]; do_op 2 [Sembuf 0 (-1) 0];
    KSemctl sem_ctls owner 0 0 IPC_RMID 0 true None; KWake 1] = Trap Bug.
Proof. vm_compute. reflexivity. Qed.
