(* ===== verification/Msg.v ===== *)
(** System V message queues, [ipc/msg.c].

    Queues live in a store and are known by their address.  A sleeping process
    has one [msg_receiver] or one [msg_sender], on its stack, known by the
    process.  A call runs until it sleeps; [msgsnd_wake] and [msgrcv_wake]
    continue it.  Time stamps and the text of /proc are left out. *)

From S2P Require Import Prelude Errno Ipc.

Definition MSG_STAT : Z := 11.
Definition MSG_INFO : Z := 12.
Definition MSG_NOERROR : Z := 4096.
Definition MSG_EXCEPT : Z := 8192.
Definition MSGMNI : Z := 16.
Definition MSGMAX : Z := 8192.
Definition MSGMNB : Z := 16384.
Definition MSGPOOL : Z := MSGMNI * MSGMNB / 1024.
Definition MSGTQL : Z := MSGMNB.
Definition MSGMAP : Z := MSGMNB.
Definition MSGSSZ : Z := 16.
Definition __MSGSEG : Z := MSGPOOL * 1024 / MSGSSZ.
Definition MSGSEG : Z := if __MSGSEG <=? 0xffff then __MSGSEG else 0xffff.

Definition SEARCH_ANY : Z := 1.
Definition SEARCH_EQUAL : Z := 2.
Definition SEARCH_NOTEQUAL : Z := 3.
Definition SEARCH_LESSEQUAL : Z := 4.

(** What is left of a page behind the header of a message (two list pointers,
    type, size and link) and of a segment (the link). *)
Definition DATALEN_MSG : Z := 4096 - 20.
Definition DATALEN_SEG : Z := 4096 - 4.

(** ** Data *)

(** The text follows the header, the rest is in the segments. *)
Record msg_msg := Msg { m_type : Z; m_ts : Z; m_text : list Z; m_segs : list (list Z) }.

(** [r_msg] is an error or a message; [r_sz], [r_flg], [r_msqid] and [r_msq] are
    the variables of the call. *)
Record msg_receiver := Receiver {
  r_mode : Z; r_msgtype : Z; r_maxsize : Z; r_msg : Z + msg_msg;
  r_msqid : Z; r_msq : Z; r_sz : Z; r_flg : Z; r_woken : bool
}.

(** [s_linked] is [list.next != NULL]. *)
Record msg_sender := Sender { s_linked : bool; s_msqid : Z; s_msq : Z; s_msg : msg_msg; s_flg : Z; s_woken : bool }.

(** Receivers and senders are named by their process. *)
Record msg_queue := MsgQueue {
  q_perm : kern_ipc_perm; q_cbytes : Z; q_qnum : Z; q_qbytes : Z; q_lspid : Z; q_lrpid : Z;
  q_messages : list msg_msg; q_receivers : list Z; q_senders : list Z
}.

Record mworld := MWorld {
  msg_ids : ipc_ids; msqs : gmap Z msg_queue; receivers : gmap Z msg_receiver; senders : gmap Z msg_sender;
  msg_bytes : Z; msg_hdrs : Z; msq_next : Z
}.

Definition set_msqs (m : gmap Z msg_queue) (w : mworld) : mworld :=
  MWorld (msg_ids w) m (receivers w) (senders w) (msg_bytes w) (msg_hdrs w) (msq_next w).
Definition set_receivers (m : gmap Z msg_receiver) (w : mworld) : mworld :=
  MWorld (msg_ids w) (msqs w) m (senders w) (msg_bytes w) (msg_hdrs w) (msq_next w).
Definition set_senders (m : gmap Z msg_sender) (w : mworld) : mworld :=
  MWorld (msg_ids w) (msqs w) (receivers w) m (msg_bytes w) (msg_hdrs w) (msq_next w).
Definition set_counts (bytes hdrs : Z) (w : mworld) : mworld :=
  MWorld (msg_ids w) (msqs w) (receivers w) (senders w) bytes hdrs (msq_next w).
Definition set_table (ids : ipc_ids) (next : Z) (w : mworld) : mworld :=
  MWorld ids (msqs w) (receivers w) (senders w) (msg_bytes w) (msg_hdrs w) next.

Definition set_receiving (l : list Z) (q : msg_queue) : msg_queue :=
  MsgQueue (q_perm q) (q_cbytes q) (q_qnum q) (q_qbytes q) (q_lspid q) (q_lrpid q) (q_messages q) l (q_senders q).
Definition set_sending (l : list Z) (q : msg_queue) : msg_queue :=
  MsgQueue (q_perm q) (q_cbytes q) (q_qnum q) (q_qbytes q) (q_lspid q) (q_lrpid q) (q_messages q) (q_receivers q) l.
Definition set_contents (cbytes qnum : Z) (l : list msg_msg) (q : msg_queue) : msg_queue :=
  MsgQueue (q_perm q) cbytes qnum (q_qbytes q) (q_lspid q) (q_lrpid q) l (q_receivers q) (q_senders q).
Definition set_pids (lspid lrpid : Z) (q : msg_queue) : msg_queue :=
  MsgQueue (q_perm q) (q_cbytes q) (q_qnum q) (q_qbytes q) lspid lrpid (q_messages q) (q_receivers q) (q_senders q).

Definition set_r_msg (m : Z + msg_msg) (r : msg_receiver) : msg_receiver :=
  Receiver (r_mode r) (r_msgtype r) (r_maxsize r) m (r_msqid r) (r_msq r) (r_sz r) (r_flg r) true.
Definition set_s_woken (linked : bool) (s : msg_sender) : msg_sender :=
  Sender linked (s_msqid s) (s_msq s) (s_msg s) (s_flg s) true.

Definition msg_flag (flg f : Z) : bool := c_true (Z.land flg f).

(** ** Texts *)

(** The rest of a text in segments; the [k]-th allocation and copy of the call
    succeed if [alloc k] and [copy k]. *)
Fixpoint load_segs (fuel : nat) (k : nat) (alloc copy : nat → bool) (src : list Z) : outcome (Z + list (list Z)) :=
  match src with
  | [] => Ok (inr [])
  | _ =>
      match fuel with
      | O => Trap Fuel
      | S fuel =>
          if negb (alloc k) then Ok (inl (- ENOMEM))
          else if negb (copy k) then Ok (inl (- EFAULT))
          else
            let alen := Z.to_nat (if DATALEN_SEG <? zlen src then DATALEN_SEG else zlen src) in
            rest ← load_segs fuel (S k) alloc copy (drop alen src);
            match rest with
            | inl e => Ok (inl e)
            | inr segs => Ok (inr (take alen src :: segs))
            end
      end
  end.

(** The first part and the segments; on an error all of it is freed. *)
Definition load_msg (src : list Z) (alloc copy : nat → bool) : outcome (Z + (list Z * list (list Z))) :=
  let alen := Z.to_nat (if DATALEN_MSG <? zlen src then DATALEN_MSG else zlen src) in
  if negb (alloc 0%nat) then Ok (inl (- ENOMEM))
  else if negb (copy 0%nat) then Ok (inl (- EFAULT))
  else
    segs ← load_segs (length src) 1 alloc copy (drop alen src);
    match segs with
    | inl e => Ok (inl e)
    | inr segs => Ok (inr (take alen src, segs))
    end.

(** [n] bytes of a part of a message; behind its end there is other memory. *)
Definition part (n : Z) (l : list Z) : outcome (list Z) :=
  if zlen l <? n then Trap Fault else Ok (take (Z.to_nat n) l).

Fixpoint store_segs (k : nat) (copy : nat → bool) (segs : list (list Z)) (len : Z) : outcome (option (list Z)) :=
  if len <=? 0 then Ok (Some [])
  else
    match segs with
    | [] => Trap Fault
    | seg :: segs =>
        let alen := if DATALEN_SEG <? len then DATALEN_SEG else len in
        if negb (copy k) then Ok None
        else
          out ← part alen seg;
          rest ← store_segs (S k) copy segs (len - alen);
          Ok (option_map (app out) rest)
    end.

(** What is stored for the user, or [None] for -1. *)
Definition store_msg (msg : msg_msg) (len : Z) (copy : nat → bool) : outcome (option (list Z)) :=
  let alen := if DATALEN_MSG <? len then DATALEN_MSG else len in
  if negb (copy 0%nat) then Ok None
  else
    out ← part alen (m_text msg);
    rest ← store_segs 1 copy (m_segs msg) (len - alen);
    Ok (option_map (app out) rest).

(** ** Queues *)

(** [msg_ctlmax], [msg_ctlmnb] and [msg_ctlmni]. *)
Record msg_limits := MsgLimits { msg_ctlmax : Z; msg_ctlmnb : Z; msg_ctlmni : Z }.
Definition msg_ctls : msg_limits := MsgLimits MSGMAX MSGMNB MSGMNI.

Definition msg_init (lim : msg_limits) (alloc : bool) : outcome mworld :=
  ids ← ipc_init_ids (msg_ctlmni lim) alloc; Ok (MWorld ids ∅ ∅ ∅ 0 0 1).

Definition newque (lim : msg_limits) (cr : cred) (key msgflg : Z) (alloc grow : bool) (w : mworld) : mworld * Z :=
  if negb alloc then (w, - ENOMEM)
  else
    let a := msq_next w in
    match ipc_addid (msg_ids w) a (msg_ctlmni lim) cr grow with
    | (ids, None) => (set_table ids a w, - ENOSPC)
    | (ids, Some (id, p)) =>
        let p := Perm key (p_uid p) (p_gid p) (p_cuid p) (p_cgid p) (Z.land msgflg S_IRWXUGO) (p_seq p) in
        let msq := MsgQueue p 0 0 (u32 (msg_ctlmnb lim)) 0 0 [] [] [] in
        (set_table ids (a + 1) (set_msqs (<[a := msq]> (msqs w)) w), ipc_buildid id (p_seq p))
    end.

(** The senders of [l] are woken; with [kill] they are taken out of the list,
    which is about to go. *)
Fixpoint ss_wakeup (l : list Z) (kill : bool) (w : mworld) : outcome mworld :=
  match l with
  | [] => Ok w
  | p :: l =>
      s ← deref (senders w) p;
      ss_wakeup l kill (set_senders (<[p := set_s_woken (if kill then false else s_linked s) s]> (senders w)) w)
  end.

(** The receivers of [l] are woken with an error. *)
Fixpoint expunge_all (l : list Z) (res : Z) (w : mworld) : outcome mworld :=
  match l with
  | [] => Ok w
  | p :: l =>
      r ← deref (receivers w) p;
      expunge_all l res (set_receivers (<[p := set_r_msg (inl res) r]> (receivers w)) w)
  end.

Definition freeque (msqid : Z) (w : mworld) : outcome mworld :=
  '(ids, a) ← ipc_rmid (msg_ids w) msqid;
  msq ← deref (msqs w) a;
  w ← expunge_all (q_receivers msq) (- EIDRM) (set_table ids (msq_next w) w);
  w ← ss_wakeup (q_senders msq) true w;
  Ok (set_counts (s32 (msg_bytes w - q_cbytes msq)) (s32 (msg_hdrs w - zlen (q_messages msq)))
        (set_msqs (delete a (msqs w)) w)).

Definition msq_key (w : mworld) (a : Z) : Z :=
  match msqs w !! a with Some msq => p_key (q_perm msq) | None => 0 end.

Definition sys_msgget (lim : msg_limits) (cr : cred) (key msgflg : Z) (alloc grow : bool) (w : mworld)
    : outcome (mworld * Z) :=
  if key =? IPC_PRIVATE then Ok (newque lim cr key msgflg alloc grow w)
  else
    let id := ipc_findkey (msq_key w) (msg_ids w) key in
    if id =? -1 then
      if negb (msg_flag msgflg IPC_CREAT) then Ok (w, - ENOENT) else Ok (newque lim cr key msgflg alloc grow w)
    else if msg_flag msgflg IPC_CREAT && msg_flag msgflg IPC_EXCL then Ok (w, - EEXIST)
    else
      p ← ipc_lock (msg_ids w) id;
      match p with
      | None => Trap Bug
      | Some a =>
          msq ← deref (msqs w) a;
          if ipcperms cr (q_perm msq) msgflg then Ok (w, - EACCES)
          else Ok (w, ipc_buildid id (p_seq (q_perm msq)))
      end.

(** ** msgctl *)

(** What is stored for the user: the permissions, the counters and the pids.  An
    old program gets the bytes and the limit in full and bytes, messages and limit
    cut off at 16 bits. *)
Definition copy_msqid_to_user (version : Z) (perm : list Z) (cbytes qnum qbytes lspid lrpid : Z) : list Z :=
  let cut v := if USHRT_MAX <? v then USHRT_MAX else v in
  if version =? IPC_64 then perm ++ [cbytes; qnum; qbytes; lspid; lrpid]
  else ipc64_perm_to_ipc_perm perm ++ [cbytes; qbytes; cut cbytes; cut qnum; cut qbytes; lspid; lrpid].

(** [struct msginfo] as IPC_INFO and MSG_INFO fill it. *)
Definition msginfo (lim : msg_limits) (cmd : Z) (w : mworld) : list Z :=
  [if cmd =? MSG_INFO then in_use (msg_ids w) else MSGPOOL;
   if cmd =? MSG_INFO then msg_hdrs w else MSGMAP;
   msg_ctlmax lim; msg_ctlmnb lim; msg_ctlmni lim; MSGSSZ;
   if cmd =? MSG_INFO then msg_bytes w else MSGTQL;
   u16 MSGSEG].

(** What IPC_SET reads: the limit, in a new structure or in the two fields of an
    old one, and owner, group and mode. *)
Record msq_setbuf := Setbuf { sb_qbytes : Z; sb_uid : Z; sb_gid : Z; sb_mode : Z }.

Definition copy_msqid_from_user (version qbytes lqbytes uid gid mode : Z) : msq_setbuf :=
  if version =? IPC_64 then Setbuf qbytes uid gid mode
  else Setbuf (if qbytes =? 0 then lqbytes else qbytes) uid gid mode.

(** The arguments of IPC_SET: limit, limit of an old structure, owner, group,
    mode. *)
Record msq_user := MsqUser { mu_qbytes : Z; mu_lqbytes : Z; mu_uid : Z; mu_gid : Z; mu_mode : Z }.

(** IPC_SET and IPC_RMID; [cap_res] is the capability to exceed the limit. *)
Definition msgctl_change (lim : msg_limits) (cr : cred) (cap_res : bool) (msqid cmd : Z) (setbuf : msq_setbuf) (w : mworld)
    : outcome (mworld * Z) :=
  p ← ipc_lock (msg_ids w) msqid;
  match p with
  | None => Ok (w, - EINVAL)
  | Some a =>
      msq ← deref (msqs w) a;
      let p := q_perm msq in
      if ipc_checkid p msqid then Ok (w, - EIDRM)
      else if negb (euid cr =? p_cuid p) && negb (euid cr =? p_uid p) && negb (cap_sys_admin cr) then Ok (w, - EPERM)
      else if cmd =? IPC_SET then
        if (u32 (msg_ctlmnb lim) <? sb_qbytes setbuf) && negb cap_res then Ok (w, - EPERM)
        else
          let m := Z.lor (Z.land (p_mode p) (Z.lnot S_IRWXUGO)) (Z.land S_IRWXUGO (sb_mode setbuf)) in
          let p := Perm (p_key p) (sb_uid setbuf) (sb_gid setbuf) (p_cuid p) (p_cgid p) m (p_seq p) in
          let msq := MsgQueue p (q_cbytes msq) (q_qnum msq) (sb_qbytes setbuf) (q_lspid msq) (q_lrpid msq)
                       (q_messages msq) (q_receivers msq) (q_senders msq) in
          w ← expunge_all (q_receivers msq) (- EAGAIN) (set_msqs (<[a := msq]> (msqs w)) w);
          w ← ss_wakeup (q_senders msq) false w;
          Ok (w, 0)
      else w ← freeque msqid w; Ok (w, 0)
  end.

(** [buf] is [None] for a null pointer, and tells whether the user's memory can
    be accessed.  The result has what is stored for the user. *)
Definition sys_msgctl (lim : msg_limits) (cr : cred) (cap_res : bool) (msqid cmd : Z) (buf : option bool) (u : msq_user)
    (w : mworld) : outcome (mworld * (Z * list Z)) :=
  if (msqid <? 0) || (cmd <? 0) then Ok (w, (- EINVAL, []))
  else
    let '(cmd, version) := ipc_parse_version cmd in
    if (cmd =? IPC_INFO) || (cmd =? MSG_INFO) then
      if negb (bool_decide (buf = Some true)) then Ok (w, (- EFAULT, []))
      else Ok (w, (if max_id (msg_ids w) <? 0 then 0 else max_id (msg_ids w),
                   msginfo lim cmd w))
    else if (cmd =? MSG_STAT) || (cmd =? IPC_STAT) then
      if bool_decide (buf = None) then Ok (w, (- EFAULT, []))
      else if (cmd =? MSG_STAT) && (ids_size (msg_ids w) <? msqid) then Ok (w, (- EINVAL, []))
      else
        p ← ipc_lock (msg_ids w) msqid;
        match p with
        | None => Ok (w, (- EINVAL, []))
        | Some a =>
            msq ← deref (msqs w) a;
            if negb (cmd =? MSG_STAT) && ipc_checkid (q_perm msq) msqid then Ok (w, (- EIDRM, []))
            else if ipcperms cr (q_perm msq) S_IRUGO then Ok (w, (- EACCES, []))
            else if bool_decide (buf = Some true)
            then Ok (w, (if cmd =? MSG_STAT then ipc_buildid msqid (p_seq (q_perm msq)) else 0,
                         copy_msqid_to_user version (kernel_to_ipc64_perm (q_perm msq)) (q_cbytes msq) (q_qnum msq)
                           (q_qbytes msq) (q_lspid msq) (q_lrpid msq)))
            else Ok (w, (- EFAULT, []))
        end
    else if (cmd =? IPC_SET) && negb (bool_decide (buf = Some true)) then Ok (w, (- EFAULT, []))
    else if (cmd =? IPC_SET) || (cmd =? IPC_RMID) then
      '(w, err) ← msgctl_change lim cr cap_res msqid cmd
        (copy_msqid_from_user version (mu_qbytes u) (mu_lqbytes u) (mu_uid u) (mu_gid u) (mu_mode u)) w;
      Ok (w, (err, []))
    else Ok (w, (- EINVAL, [])).

(** ** Sending *)

Definition testmsg (msg : msg_msg) (type mode : Z) : bool :=
  if mode =? SEARCH_ANY then true
  else if mode =? SEARCH_LESSEQUAL then m_type msg <=? type
  else if mode =? SEARCH_EQUAL then m_type msg =? type
  else if mode =? SEARCH_NOTEQUAL then negb (m_type msg =? type)
  else false.

(** The loop of [pipelined_send] over the rest [l] of the receivers of the queue
    at [a]. *)
Fixpoint pipelined_loop (l : list Z) (a : Z) (msg : msg_msg) (w : mworld) : outcome (mworld * bool) :=
  match l with
  | [] => Ok (w, false)
  | p :: l =>
      r ← deref (receivers w) p;
      if testmsg msg (r_msgtype r) (r_mode r) then
        msq ← deref (msqs w) a;
        let msq := set_receiving (filter (λ x, x ≠ p) (q_receivers msq)) msq in
        if r_maxsize r <? m_ts msg then
          pipelined_loop l a msg
            (set_receivers (<[p := set_r_msg (inl (- E2BIG)) r]> (receivers w)) (set_msqs (<[a := msq]> (msqs w)) w))
        else
          Ok (set_receivers (<[p := set_r_msg (inr msg) r]> (receivers w))
                (set_msqs (<[a := set_pids p (q_lrpid msq) msq]> (msqs w)) w), true)
      else pipelined_loop l a msg w
  end.

Definition pipelined_send (a : Z) (msg : msg_msg) (w : mworld) : outcome (mworld * bool) :=
  msq ← deref (msqs w) a; pipelined_loop (q_receivers msq) a msg w.

(** A call returns without a message; it has sent one and returns 0; it has taken
    one, which is then freed, and returns [ret] with what was stored for the user;
    or it sleeps. *)
Inductive msg_end :=
| MReturns (ret : Z)
| MSent (msg : msg_msg)
| MTook (msg : msg_msg) (ret : Z) (out : option (Z * list Z))
| MAsleep.

(** The queue has no room for [sz] more bytes. *)
Definition msq_full (sz : Z) (msq : msg_queue) : bool :=
  (q_qbytes msq <? u32 (sz + q_cbytes msq)) || (q_qbytes msq <? u32 (1 + q_qnum msq)).

(** From [retry] on, with the queue at [a]. *)
Definition msgsnd_try (cr : cred) (pid msqid a msgflg : Z) (msg : msg_msg) (w : mworld) : outcome (mworld * msg_end) :=
  msq ← deref (msqs w) a;
  if ipc_checkid (q_perm msq) msqid then Ok (w, MReturns (- EIDRM))
  else if ipcperms cr (q_perm msq) S_IWUGO then Ok (w, MReturns (- EACCES))
  else if msq_full (m_ts msg) msq then
    if msg_flag msgflg IPC_NOWAIT then Ok (w, MReturns (- EAGAIN))
    else Ok (set_senders (<[pid := Sender true msqid a msg msgflg false]> (senders w))
               (set_msqs (<[a := set_sending (q_senders msq ++ [pid]) msq]> (msqs w)) w), MAsleep)
  else
    '(w, taken) ← pipelined_send a msg w;
    msq ← deref (msqs w) a;
    let '(msq, w) :=
      if taken : bool then (msq, w)
      else (set_contents (u32 (q_cbytes msq + m_ts msg)) (u32 (q_qnum msq + 1)) (q_messages msq ++ [msg]) msq,
            set_counts (s32 (msg_bytes w + m_ts msg)) (s32 (msg_hdrs w + 1)) w) in
    Ok (set_msqs (<[a := set_pids pid (q_lrpid msq) msq]> (msqs w)) w, MSent msg).

(** [mtype] is [None] when the type cannot be read; the text has [msgsz] bytes. *)
Definition sys_msgsnd (lim : msg_limits) (cr : cred) (pid msqid : Z) (mtype : option Z) (text : list Z) (msgflg : Z)
    (alloc copy : nat → bool) (w : mworld) : outcome (mworld * msg_end) :=
  if (u32 (msg_ctlmax lim) <? zlen text) || (s32 (zlen text) <? 0) || (msqid <? 0) then Ok (w, MReturns (- EINVAL))
  else
    match mtype with
    | None => Ok (w, MReturns (- EFAULT))
    | Some mtype =>
        if mtype <? 1 then Ok (w, MReturns (- EINVAL))
        else
          m ← load_msg text alloc copy;
          match m with
          | inl err => Ok (w, MReturns err)
          | inr (head, segs) =>
              p ← ipc_lock (msg_ids w) msqid;
              match p with
              | None => Ok (w, MReturns (- EINVAL))
              | Some a => msgsnd_try cr pid msqid a msgflg (Msg mtype (zlen text) head segs) w
              end
          end
    end.

(** A sleeping sender runs again; [signal] tells whether a signal is pending. *)
Definition msgsnd_wake (cr : cred) (pid : Z) (signal : bool) (w : mworld) : outcome (mworld * msg_end) :=
  s ← deref (senders w) pid;
  p ← ipc_lock (msg_ids w) (s_msqid s);
  let w0 := set_senders (delete pid (senders w)) w in
  match p with
  | None => Ok (w0, MReturns (- EIDRM))
  | Some a =>
      w ← (if s_linked s then
             msq ← deref (msqs w) (s_msq s);
             Ok (set_msqs (<[s_msq s := set_sending (filter (λ x, x ≠ pid) (q_senders msq)) msq]> (msqs w)) w0)
           else Ok w0);
      if signal then Ok (w, MReturns (- EINTR))
      else msgsnd_try cr pid (s_msqid s) a (s_flg s) (s_msg s) w
  end.

(** ** Receiving *)

(** The type and how to search for it. *)
Definition convert_mode (msgtyp msgflg : Z) : Z * Z :=
  if msgtyp =? 0 then (msgtyp, SEARCH_ANY)
  else if msgtyp <? 0 then (s32 (- msgtyp), SEARCH_LESSEQUAL)
  else if msg_flag msgflg MSG_EXCEPT then (msgtyp, SEARCH_NOTEQUAL)
  else (msgtyp, SEARCH_EQUAL).

(** The position of the message that is taken; the search for the lowest type
    goes on with a lower type. *)
Fixpoint find_msg (l : list msg_msg) (i : nat) (msgtyp mode : Z) (found : option nat) : option nat :=
  match l with
  | [] => found
  | msg :: l =>
      if testmsg msg msgtyp mode then
        if (mode =? SEARCH_LESSEQUAL) && negb (m_type msg =? 1)
        then find_msg l (S i) (m_type msg - 1) mode (Some i)
        else Some i
      else find_msg l (S i) msgtyp mode found
  end.

(** From [out_success] on. *)
Definition msgrcv_success (msg : msg_msg) (msgsz : Z) (put : bool) (copy : nat → bool) : outcome msg_end :=
  let msgsz := if m_ts msg <? msgsz then m_ts msg else msgsz in
  if negb put then Ok (MTook msg (- EFAULT) None)
  else
    out ← store_msg msg msgsz copy;
    match out with
    | None => Ok (MTook msg (- EFAULT) None)
    | Some text => Ok (MTook msg msgsz (Some (m_type msg, text)))
    end.

(** From [retry] on, with the queue at [a]. *)
Definition msgrcv_try (cr : cred) (pid msqid a msgsz msgtyp mode msgflg : Z) (put : bool) (copy : nat → bool) (w : mworld)
    : outcome (mworld * msg_end) :=
  msq ← deref (msqs w) a;
  if ipcperms cr (q_perm msq) S_IRUGO then Ok (w, MReturns (- EACCES))
  else
    match find_msg (q_messages msq) 0 msgtyp mode None ≫= λ i, pair i <$> q_messages msq !! i with
    | Some (i, msg) =>
        if (msgsz <? m_ts msg) && negb (msg_flag msgflg MSG_NOERROR) then Ok (w, MReturns (- E2BIG))
        else
          let msq := set_pids (q_lspid msq) pid
            (set_contents (u32 (q_cbytes msq - m_ts msg)) (u32 (q_qnum msq - 1)) (delete i (q_messages msq)) msq) in
          let w := set_counts (s32 (msg_bytes w - m_ts msg)) (s32 (msg_hdrs w - 1)) (set_msqs (<[a := msq]> (msqs w)) w) in
          w ← ss_wakeup (q_senders msq) false w;
          r ← msgrcv_success msg msgsz put copy;
          Ok (w, r)
    | None =>
        if msg_flag msgflg IPC_NOWAIT then Ok (w, MReturns (- ENOMSG))
        else
          let r := Receiver mode msgtyp (if msg_flag msgflg MSG_NOERROR then INT_MAX else msgsz) (inl (- EAGAIN))
                     msqid a msgsz msgflg false in
          Ok (set_receivers (<[pid := r]> (receivers w))
                (set_msqs (<[a := set_receiving (q_receivers msq ++ [pid]) msq]> (msqs w)) w), MAsleep)
    end.

Definition sys_msgrcv (cr : cred) (pid msqid msgsz msgtyp msgflg : Z) (put : bool) (copy : nat → bool) (w : mworld)
    : outcome (mworld * msg_end) :=
  if (msqid <? 0) || (s32 msgsz <? 0) then Ok (w, MReturns (- EINVAL))
  else
    let '(msgtyp, mode) := convert_mode msgtyp msgflg in
    p ← ipc_lock (msg_ids w) msqid;
    match p with
    | None => Ok (w, MReturns (- EINVAL))
    | Some a => msgrcv_try cr pid msqid a msgsz msgtyp mode msgflg put copy w
    end.

(** A sleeping receiver runs again. *)
Definition msgrcv_wake (cr : cred) (pid : Z) (signal put : bool) (copy : nat → bool) (w : mworld)
    : outcome (mworld * msg_end) :=
  r ← deref (receivers w) pid;
  let w0 := set_receivers (delete pid (receivers w)) w in
  match r_msg r with
  | inr msg => e ← msgrcv_success msg (r_sz r) put copy; Ok (w0, e)
  | inl err =>
      t ← ipc_lock (msg_ids w) (r_msqid r);
      if err =? - EAGAIN then
        BUG_if (bool_decide (t = None)) (
        msq ← deref (msqs w) (r_msq r);
        let w := set_msqs (<[r_msq r := set_receiving (filter (λ x, x ≠ pid) (q_receivers msq)) msq]> (msqs w)) w0 in
        if signal then Ok (w, MReturns (- EINTR))
        else msgrcv_try cr pid (r_msqid r) (r_msq r) (r_sz r) (r_msgtype r) (r_mode r) (r_flg r) put copy w)
      else Ok (w0, MReturns err)
  end.
