(* ===== verification/MsgText.v ===== *)
(** Messages of [ipc/msg.c]: texts survive being cut into segments, and the
    search takes the message that was asked for. *)

From S2P Require Import Prelude Errno Ipc Msg.

(** ** Texts *)

Lemma load_segs_step fuel k alloc copy src :
  src ≠ [] → load_segs (S fuel) k alloc copy src =
    if negb (alloc k) then Ok (inl (- ENOMEM))
    else if negb (copy k) then Ok (inl (- EFAULT))
    else
      let alen := Z.to_nat (if DATALEN_SEG <? zlen src then DATALEN_SEG else zlen src) in
      rest ← load_segs fuel (S k) alloc copy (drop alen src);
      match rest with
      | inl e => Ok (inl e)
      | inr segs => Ok (inr (take alen src :: segs))
      end.
Proof. by destruct src. Qed.

Lemma load_segs_ok fuel k alloc copy src :
  (length src <= fuel)%nat →
  ∃ r, load_segs fuel k alloc copy src = Ok r ∧
    match r with
    | inl e => e = - ENOMEM ∧ (∃ j, alloc j = false) ∨ e = - EFAULT ∧ (∃ j, copy j = false)
    | inr segs => concat segs = src ∧ Forall (λ s, 0 < zlen s <= DATALEN_SEG) segs ∧
        ∀ i s, segs !! i = Some s → (S i < length segs)%nat → zlen s = DATALEN_SEG
    end.
Proof.
  revert k src. induction fuel as [|fuel IH]; intros k src Hl.
  { assert (src = []) as -> by (apply length_zero_iff_nil; lia). exists (inr []). split_and!; try done; constructor. }
  destruct src as [|c src]; [exists (inr []); split_and!; try done; constructor|].
  remember (c :: src) as l eqn:El. rewrite load_segs_step by (by rewrite El).
  destruct (alloc k) eqn:Ea; simpl; [|eexists; split; [done|]; left; eauto].
  destruct (copy k) eqn:Ec; simpl; [|eexists; split; [done|]; right; eauto].
  set (alen := Z.to_nat _). assert (0 < length l)%nat by (subst l; simpl; lia).
  assert ((0 < alen <= length l)%nat ∧ Z.of_nat alen <= DATALEN_SEG) as [Ha Ha'].
  { unfold alen, zlen, DATALEN_SEG. zbool; lia. }
  destruct (IH (S k) (drop alen l)) as (r & -> & Hr); [rewrite length_drop; lia|].
  cbn [mbind outcome_bind]. destruct r as [e|segs]; [by exists (inl e)|]. exists (inr (take alen l :: segs)). split; [done|].
  destruct Hr as (Hc & Hf & Hfull). split_and!.
  - simpl. by rewrite Hc, take_drop.
  - constructor; [|done]. unfold zlen. rewrite length_take. lia.
  - intros [|i] s Hi Hlt; simpl in Hi; [|apply (Hfull i); [done|simpl in Hlt; lia]]. injection Hi as <-.
    destruct segs as [|s segs]; [simpl in Hlt; lia|]. apply Forall_cons_1 in Hf as [Hs _].
    assert (drop alen l ≠ []) as Hne by (rewrite <- Hc; simpl; destruct s; [unfold zlen in Hs; simpl in Hs; lia|done]).
    assert (alen < length l)%nat as Hlt'. { apply Nat.nle_gt. intros Hge. by rewrite drop_ge in Hne. }
    unfold zlen. rewrite length_take. unfold alen, zlen, DATALEN_SEG in *. revert Hlt'. zbool; lia.
Qed.

(** A message as [sys_msgsnd] makes it. *)
Definition msg_wf (msg : msg_msg) : Prop :=
  m_ts msg = zlen (m_text msg ++ concat (m_segs msg)) ∧ zlen (m_text msg) <= DATALEN_MSG ∧
  (m_segs msg ≠ [] → zlen (m_text msg) = DATALEN_MSG) ∧ Forall (λ s, 0 < zlen s <= DATALEN_SEG) (m_segs msg) ∧
  ∀ i s, m_segs msg !! i = Some s → (S i < length (m_segs msg))%nat → zlen s = DATALEN_SEG.

Definition msg_bytes_of (msg : msg_msg) : list Z := m_text msg ++ concat (m_segs msg).

Lemma load_msg_ok src alloc copy type :
  ∃ r, load_msg src alloc copy = Ok r ∧
    match r with
    | inl e => e = - ENOMEM ∧ (∃ j, alloc j = false) ∨ e = - EFAULT ∧ (∃ j, copy j = false)
    | inr (text, segs) => msg_wf (Msg type (zlen src) text segs) ∧ text ++ concat segs = src
    end.
Proof.
  unfold load_msg. destruct (alloc 0%nat) eqn:Ea; simpl; [|eexists; split; [done|]; left; eauto].
  destruct (copy 0%nat) eqn:Ec; simpl; [|eexists; split; [done|]; right; eauto].
  set (alen := Z.to_nat _). assert (Z.of_nat alen = Z.min DATALEN_MSG (zlen src)) as Ha.
  { unfold alen, zlen, DATALEN_MSG. zbool; lia. }
  destruct (load_segs_ok (length src) 1 alloc copy (drop alen src)) as (r & -> & Hr); [rewrite length_drop; lia|].
  cbn [mbind outcome_bind]. destruct r as [e|segs]; [by exists (inl e)|]. eexists. split; [done|].
  destruct Hr as (Hc & Hf & Hfull). rewrite Hc, take_drop. split; [|done].
  assert (zlen (take alen src) = Z.of_nat alen) as Ht by (unfold zlen in *; rewrite length_take; lia).
  split_and!; simpl; try done.
  - by rewrite Hc, take_drop.
  - lia.
  - intros Hne. destruct segs as [|s segs]; [done|]. apply Forall_cons_1 in Hf as [Hs _]. simpl in Hc.
    assert (0 < length (drop alen src))%nat as Hd by (rewrite <- Hc, length_app; unfold zlen in Hs; lia).
    rewrite length_drop in Hd. unfold zlen in *. lia.
Qed.

Lemma part_ok n l : 0 <= n <= zlen l → part n l = Ok (take (Z.to_nat n) l).
Proof. intros H. unfold part. by destruct (Z.ltb_spec (zlen l) n); [lia|]. Qed.

Lemma store_segs_ok k copy segs len :
  Forall (λ s, 0 < zlen s <= DATALEN_SEG) segs →
  (∀ i s, segs !! i = Some s → (S i < length segs)%nat → zlen s = DATALEN_SEG) →
  0 <= len <= zlen (concat segs) →
  ∃ r, store_segs k copy segs len = Ok r ∧
    match r with None => ∃ j, copy j = false | Some out => out = take (Z.to_nat len) (concat segs) end.
Proof.
  intros Hf. revert k len. induction Hf as [|s segs Hs Hf IH]; intros k len Hfull Hlen; cbn [store_segs].
  { unfold zlen in Hlen. simpl in Hlen. destruct (Z.leb_spec len 0); [|lia]. eexists. split; [done|]. simpl. by rewrite take_nil. }
  destruct (Z.leb_spec len 0).
  { eexists. split; [done|]. simpl. by replace (Z.to_nat len) with 0%nat by lia. }
  destruct (copy k) eqn:Ec; cbn [negb]; [|exists None; eauto]. simpl in Hlen. rewrite zlen_app in Hlen.
  set (alen := if DATALEN_SEG <? len then DATALEN_SEG else len).
  assert (alen = Z.min len (zlen s) ∧ (len <= zlen s ∨ alen = zlen s)) as [Ea Hcase].
  { unfold alen. destruct (decide (segs = [])) as [->|Hne].
    - unfold zlen in Hlen at 2. simpl in Hlen. zbool; lia.
    - assert (zlen s = DATALEN_SEG) as -> by (apply (Hfull 0%nat s eq_refl); destruct segs; [done|simpl; lia]). zbool; lia. }
  rewrite part_ok by lia. cbn [mbind outcome_bind].
  destruct (IH (S k) (len - alen)) as (r & -> & Hr).
  { intros i x Hi Hlt. apply (Hfull (S i) x Hi). simpl. lia. }
  { pose proof (zlen_nonneg (concat segs)). lia. }
  cbn [mbind outcome_bind]. eexists. split; [done|]. destruct r as [out|]; simpl; [|done]. rewrite Hr. unfold zlen in *.
  rewrite take_app. replace (Z.to_nat len - length s)%nat with (Z.to_nat (len - alen)) by lia. f_equal.
  destruct Hcase; [by replace alen with len by lia|]. rewrite !take_ge by lia. done.
Qed.

Lemma store_msg_ok msg len copy :
  msg_wf msg → 0 <= len <= m_ts msg →
  ∃ out, store_msg msg len copy = Ok out ∧
    match out with Some l => l = take (Z.to_nat len) (msg_bytes_of msg) | None => ∃ j, copy j = false end.
Proof.
  intros (Hts & H1 & H2 & H3 & H4) Hlen. unfold store_msg.
  destruct (copy 0%nat) eqn:Ec; cbn [negb]; [|exists None; eauto]. rewrite Hts, zlen_app in Hlen.
  set (alen := if DATALEN_MSG <? len then DATALEN_MSG else len).
  assert (alen = Z.min len (zlen (m_text msg)) ∧ (len <= zlen (m_text msg) ∨ alen = zlen (m_text msg))) as [Ea Hcase].
  { unfold alen. destruct (decide (m_segs msg = [])) as [E|Hne].
    - rewrite E in Hlen. unfold zlen in Hlen at 2. simpl in Hlen. zbool; lia.
    - rewrite (H2 Hne). zbool; lia. }
  pose proof (zlen_nonneg (m_text msg)).
  rewrite part_ok by lia. cbn [mbind outcome_bind].
  destruct (store_segs_ok 1 copy (m_segs msg) (len - alen)) as (r & -> & Hr); [done|done| |].
  { pose proof (zlen_nonneg (concat (m_segs msg))). lia. }
  cbn [mbind outcome_bind]. eexists. split; [done|]. destruct r as [out|]; simpl; [|done]. rewrite Hr. unfold msg_bytes_of, zlen in *.
  rewrite take_app. replace (Z.to_nat len - length (m_text msg))%nat with (Z.to_nat (len - alen)) by lia. f_equal.
  destruct Hcase; [by replace alen with len by lia|]. rewrite !take_ge by lia. done.
Qed.

(** C32: The text of a message survives the way through the kernel: when the parts
    it is cut into can be allocated and copied, what [store_msg] hands out for a
    length up to the message's is the beginning of the text, and neither
    direction reads behind a part.  The message fits into its pages.  When
    something fails, it is for want of memory or because of the user's memory,
    and the error says which. *)
Theorem msg_text_roundtrip src alloc copy type :
  ∃ r, load_msg src alloc copy = Ok r ∧
    match r with
    | inl e => e = - ENOMEM ∧ (∃ j, alloc j = false) ∨ e = - EFAULT ∧ (∃ j, copy j = false)
    | inr (text, segs) =>
        Forall (λ p, zlen p <= DATALEN_SEG) segs ∧ zlen text <= DATALEN_MSG ∧
        ∀ len copy', 0 <= len <= zlen src →
          ∃ out, store_msg (Msg type (zlen src) text segs) len copy' = Ok out ∧
            match out with Some l => l = take (Z.to_nat len) src | None => ∃ j, copy' j = false end
    end.
Proof.
  destruct (load_msg_ok src alloc copy type) as (r & -> & Hr). exists r. split; [done|].
  destruct r as [e|[text segs]]; [done|]. destruct Hr as [(Hts & H1 & H2 & H3 & H4) Hsrc]. simpl in *.
  split; [eapply Forall_impl; [|exact H3]; simpl; lia|]. split; [done|]. intros len copy' Hlen.
  destruct (store_msg_ok (Msg type (zlen src) text segs) len copy') as (out & E & Hout); [by split_and!|done|].
  exists out. split; [done|]. unfold msg_bytes_of in Hout. simpl in Hout. by rewrite Hsrc in Hout.
Qed.

(** ** The search *)

(** The first message with [P]. *)
Definition first_index (P : msg_msg → bool) (l : list msg_msg) : option nat := fst <$> list_find (λ m, P m = true) l.

(** The lowest type of the messages up to [t]. *)
Definition lowest_type (t : Z) (l : list msg_msg) : option Z :=
  foldr (λ m o, if m_type m <=? t then Some (match o with Some x => Z.min x (m_type m) | None => m_type m end) else o) None l.

(** The message that a call asks for: any, the first of a type, of another type,
    or of the lowest type up to one. *)
Definition wanted (msgtyp msgflg : Z) (l : list msg_msg) : option nat :=
  if msgtyp =? 0 then first_index (λ _, true) l
  else if 0 <? msgtyp then
    first_index (λ m, if msg_flag msgflg MSG_EXCEPT then negb (m_type m =? msgtyp) else m_type m =? msgtyp) l
  else lowest_type (- msgtyp) l ≫= λ t, first_index (λ m, m_type m =? t) l.

Lemma first_index_cons P m l : first_index P (m :: l) = if P m then Some 0%nat else S <$> first_index P l.
Proof.
  unfold first_index. simpl. destruct (P m) eqn:E; [by rewrite decide_True|].
  rewrite decide_False by congruence. by destruct (list_find _ l) as [[i x]|].
Qed.

Lemma find_msg_plain l i msgtyp mode found :
  mode ≠ SEARCH_LESSEQUAL →
  find_msg l i msgtyp mode found =
    match first_index (λ m, testmsg m msgtyp mode) l with Some j => Some (i + j)%nat | None => found end.
Proof.
  intros Hm. revert i. induction l as [|m l IH]; intros i; [done|]. cbn [find_msg]. rewrite first_index_cons.
  destruct (testmsg m msgtyp mode); [destruct (Z.eqb_spec mode SEARCH_LESSEQUAL); [done|]; simpl; f_equal; lia|].
  rewrite IH. destruct (first_index _ l) as [j|]; simpl; [f_equal; lia|done].
Qed.

Lemma lowest_type_mono t t' l : t' <= t →
  match lowest_type t l with
  | None => lowest_type t' l = None
  | Some x => x <= t ∧ lowest_type t' l = if x <=? t' then Some x else None
  end.
Proof.
  intros Ht. induction l as [|m l IH]; [done|]. simpl. fold (lowest_type t l) (lowest_type t' l).
  destruct (lowest_type t l) as [x|].
  - destruct IH as [Hx ->]. zbool; split; try lia; try (f_equal; lia); try done.
  - rewrite IH. zbool; try split; try lia; try done.
Qed.

Lemma lowest_type_in t l y : lowest_type t l = Some y →
  y <= t ∧ (Forall (λ m, 1 <= m_type m) l → 1 <= y) ∧ is_Some (first_index (λ m, m_type m =? y) l).
Proof.
  revert y. induction l as [|m l IH]; intros y; [done|]. simpl. fold (lowest_type t l). rewrite first_index_cons.
  destruct (Z.leb_spec (m_type m) t) as [Hle|Hgt].
  - intros [= <-]. destruct (lowest_type t l) as [z|].
    + destruct (IH z eq_refl) as (H1 & H2 & H3). split_and!; [lia| |].
      * intros [Hm Hf]%Forall_cons_1. specialize (H2 Hf). lia.
      * destruct (Z.eqb_spec (m_type m) (Z.min z (m_type m))); [eauto|]. rewrite Z.min_l by lia. destruct H3 as [j ->]. eauto.
    + split_and!; [lia|by intros [Hm _]%Forall_cons_1|]. rewrite Z.eqb_refl. eauto.
  - intros E. destruct (IH y E) as (H1 & H2 & [j Hj]). split_and!; [lia|by intros [_ Hf]%Forall_cons_1; auto|].
    rewrite Hj. destruct (_ =? _); simpl; eauto.
Qed.

Lemma find_msg_lowest l i t found :
  Forall (λ m, 1 <= m_type m) l →
  find_msg l i t SEARCH_LESSEQUAL found =
    match lowest_type t l ≫= λ x, first_index (λ m, m_type m =? x) l with
    | Some j => Some (i + j)%nat
    | None => found
    end.
Proof.
  intros Hf. revert i t found. induction Hf as [|m l Hm Hf IH]; intros i t found; [done|].
  cbn [find_msg]. change (testmsg m t SEARCH_LESSEQUAL) with (m_type m <=? t). cbn [lowest_type foldr].
  fold (lowest_type t l). pose proof (λ t', lowest_type_mono t t' l) as Hmono.
  destruct (Z.leb_spec (m_type m) t) as [Hle|Hgt].
  - specialize (Hmono (m_type m - 1)). change (SEARCH_LESSEQUAL =? SEARCH_LESSEQUAL) with true. cbn [andb].
    set (x := match lowest_type t l with Some x => Z.min x (m_type m) | None => m_type m end).
    cbn [mbind option_bind]. rewrite first_index_cons.
    destruct (Z.eqb_spec (m_type m) 1) as [E1|Hne1]; cbn [negb].
    + assert (x = 1) as ->.
      { unfold x. destruct (lowest_type t l) as [y|] eqn:E; [|done]. apply lowest_type_in in E as (_ & H & _).
        specialize (H Hf). lia. }
      rewrite E1. simpl. f_equal. lia.
    + rewrite IH. destruct (lowest_type t l) as [y|] eqn:E.
      * apply lowest_type_in in E as (_ & _ & [j Hj]). destruct Hmono as [Hy ->]; [lia|]. unfold x.
        destruct (Z.leb_spec y (m_type m - 1)); simpl.
        -- rewrite (Z.min_l y) by lia. rewrite Hj. destruct (Z.eqb_spec (m_type m) y); [lia|]. simpl. f_equal. lia.
        -- rewrite Z.min_r by lia. rewrite Z.eqb_refl. f_equal. lia.
      * rewrite Hmono by lia. unfold x. simpl. rewrite Z.eqb_refl. f_equal. lia.
  - rewrite IH. destruct (lowest_type t l) as [y|] eqn:E; [|done]. apply lowest_type_in in E as (Hy & _ & [j Hj]). simpl.
    rewrite first_index_cons, Hj. destruct (Z.eqb_spec (m_type m) y); [lia|]. simpl. f_equal. lia.
Qed.

(** C35: The search of [sys_msgrcv] takes the message that the call describes: for
    type 0 the oldest, for a positive type the oldest of that type or, with
    MSG_EXCEPT, of another type, for a negative type the oldest of the lowest type
    up to its absolute value; it finds none exactly when there is none.  The
    type is any long but the most negative one, and messages have positive
    types. *)
Theorem msgrcv_search_exact l msgtyp msgflg :
  - 2 ^ 31 < msgtyp < 2 ^ 31 → Forall (λ m, 1 <= m_type m) l →
  let '(typ, mode) := convert_mode msgtyp msgflg in find_msg l 0 typ mode None = wanted msgtyp msgflg l.
Proof.
  intros Ht Hf. unfold convert_mode, wanted. destruct (Z.eqb_spec msgtyp 0).
  { rewrite find_msg_plain by done. by destruct (first_index _ l). }
  destruct (Z.ltb_spec msgtyp 0).
  { rewrite swrap_small by lia. destruct (Z.ltb_spec 0 msgtyp); [lia|]. rewrite find_msg_lowest by done.
    by destruct (lowest_type (- msgtyp) l ≫= _). }
  destruct (Z.ltb_spec 0 msgtyp); [|lia].
  destruct (msg_flag msgflg MSG_EXCEPT); rewrite find_msg_plain by done;
    [change (λ m, testmsg m msgtyp SEARCH_NOTEQUAL) with (λ m, negb (m_type m =? msgtyp))
    |change (λ m, testmsg m msgtyp SEARCH_EQUAL) with (λ m, m_type m =? msgtyp)]; by destruct (first_index _ l).
Qed.

Lemma msgrcv_search_exact_witness :
  find_msg [Msg 7 0 [] []; Msg 3 0 [] []; Msg 5 0 [] []; Msg 3 0 [] []] 0 6 SEARCH_LESSEQUAL None = Some 1%nat.
Proof.
  apply (msgrcv_search_exact [Msg 7 0 [] []; Msg 3 0 [] []; Msg 5 0 [] []; Msg 3 0 [] []] (-6) 0); [lia|].
  repeat constructor; simpl; lia.
Defined.

(** The most negative type has no absolute value and matches nothing. *)
Lemma most_negative_type_matches_nothing :
  convert_mode (- 2 ^ 31) 0 = (- 2 ^ 31, SEARCH_LESSEQUAL) ∧
  find_msg [Msg 7 0 [] []] 0 (- 2 ^ 31) SEARCH_LESSEQUAL None = None.
Proof. split; reflexivity. Qed.
