(* ===== verification/MsgSystem.v ===== *)
(** Message queues shared by any number of processes ([ipc/msg.c]): the invariant
    of the queues and of the sleeping senders and receivers. *)

From S2P Require Import Prelude Errno Ipc Msg MsgText.

(** ** Invariant *)

Definition good_msg (m : msg_msg) : Prop := msg_wf m ∧ 1 <= m_type m ∧ 0 <= m_ts m < 2 ^ 31.

(** The identifier leads to the queue at [a]. *)
Definition leads (w : mworld) (msqid a : Z) : Prop := 0 <= msqid ∧ ipc_lock (msg_ids w) msqid = Ok (Some a).

(** The slot of the identifier is inside the table. *)
Definition known (w : mworld) (msqid : Z) : Prop := 0 <= msqid ∧ msqid mod SEQ_MULTIPLIER < ids_size (msg_ids w).

Definition total_size (l : list msg_msg) : Z := foldr (λ m n, m_ts m + n) 0 l.

(** A queue counts its messages; its receivers wait for none of them, and its
    senders that were not woken have no room. *)
Record queue_ok (w : mworld) (a : Z) (q : msg_queue) : Prop := {
  qo_bytes : q_cbytes q = total_size (q_messages q) ∧ q_cbytes q < 2 ^ 31;
  qo_num : q_qnum q = zlen (q_messages q) ∧ q_qnum q < 2 ^ 31;
  qo_limit : q_qbytes q < 2 ^ 31;
  qo_msgs : Forall good_msg (q_messages q);
  qo_nodup : NoDup (q_receivers q) ∧ NoDup (q_senders q);
  qo_receivers : ∀ p, p ∈ q_receivers q → ∃ r, receivers w !! p = Some r ∧ r_msq r = a ∧ r_msg r = inl (- EAGAIN) ∧
    ∀ m, m ∈ q_messages q → testmsg m (r_msgtype r) (r_mode r) = false;
  qo_senders : ∀ p, p ∈ q_senders q → ∃ s, senders w !! p = Some s ∧ s_linked s = true ∧ s_msq s = a ∧
    (s_woken s = false → msq_full (m_ts (s_msg s)) q = true)
}.

(** A sleeping receiver has a message or an error and was woken, or it waits in
    its queue. *)
Definition receiver_ok (w : mworld) (p : Z) (r : msg_receiver) : Prop :=
  0 <= r_sz r < 2 ^ 31 ∧ known w (r_msqid r) ∧
  match r_msg r with
  | inr m => r_woken r = true ∧ good_msg m ∧ testmsg m (r_msgtype r) (r_mode r) = true ∧ m_ts m <= r_maxsize r
  | inl e => if decide (e = - EAGAIN) then leads w (r_msqid r) (r_msq r) ∧
                 ∃ q, msqs w !! r_msq r = Some q ∧ p ∈ q_receivers q
             else r_woken r = true
  end.

Definition sender_ok (w : mworld) (p : Z) (s : msg_sender) : Prop :=
  good_msg (s_msg s) ∧ known w (s_msqid s) ∧
  if s_linked s then leads w (s_msqid s) (s_msq s) ∧ ∃ q, msqs w !! s_msq s = Some q ∧ p ∈ q_senders q
  else s_woken s = true.

Record msg_ok (w : mworld) : Prop := {
  mo_ids : ids_ok (msg_ids w);
  mo_entries : ∀ i a, entries (msg_ids w) !! i = Some (Some a) → is_Some (msqs w !! a);
  mo_inj : ∀ i j a, entries (msg_ids w) !! i = Some (Some a) → entries (msg_ids w) !! j = Some (Some a) → i = j;
  mo_addr : ∀ a, is_Some (msqs w !! a) → a < msq_next w;
  mo_queues : ∀ a q, msqs w !! a = Some q → queue_ok w a q;
  mo_receivers : ∀ p r, receivers w !! p = Some r → receiver_ok w p r;
  mo_senders : ∀ p s, senders w !! p = Some s → sender_ok w p s
}.

Lemma mod_nonneg id : 0 <= id mod SEQ_MULTIPLIER.
Proof. apply Z.mod_pos_bound. unfold SEQ_MULTIPLIER, IPCMNI. lia. Qed.

Lemma leads_known w id a : ids_ok (msg_ids w) → leads w id a → known w id.
Proof.
  intros [[Hs _] _ _ _] [H0 E]. split; [done|]. apply lock_entry in E; [|done]. apply lookup_lt_Some in E.
  pose proof (mod_nonneg id). unfold zlen in Hs. lia.
Qed.

Lemma known_lock w id : ids_ok (msg_ids w) → known w id → ∃ o, ipc_lock (msg_ids w) id = Ok o.
Proof.
  intros [[Hs _] _ _ _] [H0 Hlt]. pose proof (mod_nonneg id). unfold zlen in Hs.
  destruct (lookup_lt_is_Some_2 (entries (msg_ids w)) (Z.to_nat (id mod SEQ_MULTIPLIER))) as [o Eo]; [lia|]. exists o.
  apply (ipc_lock_some _ (id mod SEQ_MULTIPLIER)); try done. apply Z.rem_mod_nonneg; [done|]. unfold SEQ_MULTIPLIER, IPCMNI. lia.
Qed.

(** ** Messages in the kernel *)

Definition contents (m : gmap Z msg_queue) : list msg_msg := concat ((λ x, q_messages x.2) <$> map_to_list m).

Definition held (r : msg_receiver) : list msg_msg := match r_msg r with inr m => [m] | inl _ => [] end.
Definition hands (m : gmap Z msg_receiver) : list msg_msg := concat ((λ x, held x.2) <$> map_to_list m).

Definition all_msgs (w : mworld) : list msg_msg := contents (msqs w) ++ hands (receivers w).

(** The parts of a map, one entry apart. *)
Lemma map_concat_delete {A B} (f : A → list B) (m : gmap Z A) i x :
  m !! i = Some x → concat ((λ y, f y.2) <$> map_to_list m) ≡ₚ f x ++ concat ((λ y, f y.2) <$> map_to_list (delete i m)).
Proof. intros H. by rewrite <- (map_to_list_delete m i x H). Qed.

Lemma map_concat_insert {A B} (f : A → list B) (m : gmap Z A) i x :
  concat ((λ y, f y.2) <$> map_to_list (<[i := x]> m)) ≡ₚ f x ++ concat ((λ y, f y.2) <$> map_to_list (delete i m)).
Proof. rewrite (map_concat_delete f _ i x) by apply lookup_insert_eq. by rewrite delete_insert_eq. Qed.

Lemma contents_insert m a q q' : m !! a = Some q →
  contents (<[a := q']> m) ++ q_messages q ≡ₚ contents m ++ q_messages q'.
Proof.
  intros H. unfold contents. rewrite (map_concat_insert (λ q, q_messages q)), (map_concat_delete (λ q, q_messages q) m a q H).
  solve_Permutation.
Qed.

Lemma hands_insert m p r r' : m !! p = Some r → hands (<[p := r']> m) ++ held r ≡ₚ hands m ++ held r'.
Proof. intros H. unfold hands. rewrite (map_concat_insert held), (map_concat_delete held m p r H). solve_Permutation. Qed.

(** ** Changing one queue *)

Lemma queue_ok_frame w w' b q :
  queue_ok w b q → (∀ p, p ∈ q_receivers q → receivers w' !! p = receivers w !! p) →
  (∀ p, p ∈ q_senders q → senders w' !! p = senders w !! p) → queue_ok w' b q.
Proof.
  intros [A1 A2 A3 A4 A5 A6 A7] Hr Hs. constructor; try done.
  - intros p Hp. rewrite Hr by done. auto.
  - intros p Hp. rewrite Hs by done. auto.
Qed.

Lemma receiver_ok_frame w w' p r :
  receiver_ok w p r → (known w (r_msqid r) → known w' (r_msqid r)) → (leads w (r_msqid r) (r_msq r) → leads w' (r_msqid r) (r_msq r)) →
  (∀ q, msqs w !! r_msq r = Some q → p ∈ q_receivers q → ∃ q', msqs w' !! r_msq r = Some q' ∧ p ∈ q_receivers q') →
  receiver_ok w' p r.
Proof.
  intros (H0 & Hk & H) Hk' Hl Hq. split; [done|]. split; [auto|]. destruct (r_msg r) as [e|m]; [|done]. destruct (decide (e = - EAGAIN)); [|done].
  destruct H as (Hlead & q & E & Hp). split; [auto|]. eauto.
Qed.

Lemma sender_ok_frame w w' p s :
  sender_ok w p s → (known w (s_msqid s) → known w' (s_msqid s)) → (leads w (s_msqid s) (s_msq s) → leads w' (s_msqid s) (s_msq s)) →
  (∀ q, msqs w !! s_msq s = Some q → p ∈ q_senders q → ∃ q', msqs w' !! s_msq s = Some q' ∧ p ∈ q_senders q') →
  sender_ok w' p s.
Proof.
  intros (H0 & Hk & H) Hk' Hl Hq. split; [done|]. split; [auto|]. destruct (s_linked s); [|done]. destruct H as (Hlead & q & E & Hp). split; [auto|]. eauto.
Qed.

(** A process that is free to change: it waits at [q], or does not sleep. *)
Definition loose {A} (l : list Z) (m : gmap Z A) (p : Z) : Prop := p ∈ l ∨ m !! p = None.

(** The queue at [a] becomes [q'], and with it processes that wait there. *)
Lemma msg_ok_set w w' a q q' :
  msg_ok w → msqs w !! a = Some q → msg_ids w' = msg_ids w → msq_next w' = msq_next w →
  msqs w' = <[a := q']> (msqs w) → queue_ok w' a q' →
  (∀ p, receivers w' !! p = receivers w !! p ∧ (p ∈ q_receivers q → p ∈ q_receivers q') ∨
     loose (q_receivers q) (receivers w) p ∧ ∀ r, receivers w' !! p = Some r → receiver_ok w' p r) →
  (∀ p, senders w' !! p = senders w !! p ∧ (p ∈ q_senders q → p ∈ q_senders q') ∨
     loose (q_senders q) (senders w) p ∧ ∀ s, senders w' !! p = Some s → sender_ok w' p s) →
  msg_ok w'.
Proof.
  intros [M1 M2 M3 M4 M5 M6 M7] Ea Ei En Em Hq Hr Hs.
  assert (∀ id b, leads w id b → leads w' id b) as Hlead by (unfold leads; by rewrite Ei).
  assert (∀ id, known w id → known w' id) as Hknown by (unfold known; by rewrite Ei).
  constructor; rewrite ?Ei, ?En, ?Em; try done.
  - intros i b Hi. destruct (decide (b = a)) as [->|]; [rewrite lookup_insert_eq; eauto|]. rewrite lookup_insert_ne by done. eauto.
  - intros b Hb. apply M4. destruct (decide (b = a)) as [->|]; [eauto|]. by rewrite lookup_insert_ne in Hb.
  - intros b qb Hb. destruct (decide (b = a)) as [->|Hne].
    + rewrite lookup_insert_eq in Hb. by injection Hb as <-.
    + rewrite lookup_insert_ne in Hb by done. pose proof (M5 b qb Hb) as Hqb. pose proof (M5 a q Ea) as Hqa.
      apply (queue_ok_frame w); [done|..].
      * intros p Hp. destruct (qo_receivers _ _ _ Hqb p Hp) as (r & E1 & E2 & _).
        destruct (Hr p) as [[? _]|[[Hin|?] _]]; [done| |congruence].
        destruct (qo_receivers _ _ _ Hqa p Hin) as (r' & E3 & E4 & _). congruence.
      * intros p Hp. destruct (qo_senders _ _ _ Hqb p Hp) as (s & E1 & _ & E2 & _).
        destruct (Hs p) as [[? _]|[[Hin|?] _]]; [done| |congruence].
        destruct (qo_senders _ _ _ Hqa p Hin) as (s' & E3 & _ & E4 & _). congruence.
  - intros p r Hp. destruct (Hr p) as [[E Hin]|[_ H]]; [|auto]. rewrite E in Hp.
    eapply receiver_ok_frame; [by apply M6|apply Hknown|apply Hlead|]. intros qx Ex Hx. rewrite Em. destruct (decide (r_msq r = a)) as [Er|Hne].
    + rewrite Er, lookup_insert_eq. rewrite Er, Ea in Ex. injection Ex as <-. eauto.
    + rewrite lookup_insert_ne by done. eauto.
  - intros p s Hp. destruct (Hs p) as [[E Hin]|[_ H]]; [|auto]. rewrite E in Hp.
    eapply sender_ok_frame; [by apply M7|apply Hknown|apply Hlead|]. intros qx Ex Hx. rewrite Em. destruct (decide (s_msq s = a)) as [Er|Hne].
    + rewrite Er, lookup_insert_eq. rewrite Er, Ea in Ex. injection Ex as <-. eauto.
    + rewrite lookup_insert_ne by done. eauto.
Qed.

(** ** Waking *)

Lemma ss_wakeup_spec l kill w : NoDup l → (∀ p, p ∈ l → is_Some (senders w !! p)) →
  ∃ m, ss_wakeup l kill w = Ok (set_senders m w) ∧
    ∀ p, m !! p = (λ s, if decide (p ∈ l) then set_s_woken (if kill then false else s_linked s) s else s) <$> senders w !! p.
Proof.
  intros Hnd. revert w. induction Hnd as [|p l Hp Hnd IH]; intros w Hl; cbn [ss_wakeup].
  { exists (senders w). split; [by destruct w|]. intros x. by destruct (senders w !! x). }
  destruct (Hl p) as [s Es]; [by left|]. rewrite (deref_ok _ _ _ Es). cbn [mbind outcome_bind].
  set (w1 := set_senders _ w). destruct (IH w1) as (m & -> & Hm).
  { intros x Hx. unfold w1. simpl. destruct (decide (x = p)) as [->|]; [rewrite lookup_insert_eq; eauto|].
    rewrite lookup_insert_ne by done. apply Hl. by right. }
  exists m. split; [done|]. intros x. rewrite Hm. unfold w1. simpl. destruct (decide (x = p)) as [->|Hne].
  - rewrite lookup_insert_eq, Es. simpl. rewrite (decide_True (P := p ∈ p :: l)) by (by left). by rewrite decide_False.
  - rewrite lookup_insert_ne by done. destruct (senders w !! x) as [s'|]; simpl; [|done]. f_equal.
    apply decide_ext. rewrite elem_of_cons. naive_solver.
Qed.

Lemma expunge_all_spec l res w : NoDup l → (∀ p, p ∈ l → is_Some (receivers w !! p)) →
  ∃ m, expunge_all l res w = Ok (set_receivers m w) ∧
    ∀ p, m !! p = (λ r, if decide (p ∈ l) then set_r_msg (inl res) r else r) <$> receivers w !! p.
Proof.
  intros Hnd. revert w. induction Hnd as [|p l Hp Hnd IH]; intros w Hl; cbn [expunge_all].
  { exists (receivers w). split; [by destruct w|]. intros x. by destruct (receivers w !! x). }
  destruct (Hl p) as [r Er]; [by left|]. rewrite (deref_ok _ _ _ Er). cbn [mbind outcome_bind].
  set (w1 := set_receivers _ w). destruct (IH w1) as (m & -> & Hm).
  { intros x Hx. unfold w1. simpl. destruct (decide (x = p)) as [->|]; [rewrite lookup_insert_eq; eauto|].
    rewrite lookup_insert_ne by done. apply Hl. by right. }
  exists m. split; [done|]. intros x. rewrite Hm. unfold w1. simpl. destruct (decide (x = p)) as [->|Hne].
  - rewrite lookup_insert_eq, Er. simpl. rewrite (decide_True (P := p ∈ p :: l)) by (by left). by rewrite decide_False.
  - rewrite lookup_insert_ne by done. destruct (receivers w !! x) as [r'|]; simpl; [|done]. f_equal.
    apply decide_ext. rewrite elem_of_cons. naive_solver.
Qed.

(** Whose messages do not change. *)
Lemma hands_same (m m' : gmap Z msg_receiver) :
  (∀ p, held <$> m' !! p = held <$> m !! p) → hands m' ≡ₚ hands m.
Proof.
  revert m'. induction m as [|p r m Hp IH] using map_ind; intros m' H.
  - assert (m' = ∅) as ->; [|done]. apply map_eq. intros p. specialize (H p). rewrite lookup_empty in *. by destruct (m' !! p).
  - pose proof (H p) as Hp'. rewrite lookup_insert_eq in Hp'. destruct (m' !! p) as [r'|] eqn:Er; [|done].
    injection Hp' as Eh. unfold hands. rewrite (map_concat_insert held), (map_concat_delete held m' p r' Er), Eh, (delete_id m p Hp).
    f_equiv. apply (IH (delete p m')). intros x. destruct (decide (x = p)) as [->|Hne].
    + by rewrite lookup_delete_eq, Hp.
    + rewrite lookup_delete_ne by done. specialize (H x). by rewrite lookup_insert_ne in H.
Qed.

(** ** Handing a message over *)

Lemma queue_ok_pids w a q x y : queue_ok w a q → queue_ok w a (set_pids x y q).
Proof. intros [? ? ? ? ? ? ?]. by constructor. Qed.

(** Some of the receivers leave. *)
Lemma queue_ok_receiving w w' a q l :
  queue_ok w a q → NoDup l → (∀ p, p ∈ l → p ∈ q_receivers q ∧ receivers w' !! p = receivers w !! p) →
  (∀ p, p ∈ q_senders q → senders w' !! p = senders w !! p) → queue_ok w' a (set_receiving l q).
Proof.
  intros [A1 A2 A3 A4 [A5 A5'] A6 A7] Hnd Hl Hs. constructor; simpl; try done.
  - intros p Hp. destruct (Hl p Hp) as [Hin ->]. auto.
  - intros p Hp. rewrite Hs by done. destruct (A7 p Hp) as (s & E1 & E2 & E3 & E4). by exists s.
Qed.

(** The receiver [p] leaves the queue with [res]. *)
Lemma receiver_leaves w a q p r res q' :
  msg_ok w → msqs w !! a = Some q → p ∈ q_receivers q → receivers w !! p = Some r →
  (q' = set_receiving (filter (λ x, x ≠ p) (q_receivers q)) q ∨
   ∃ x y, q' = set_pids x y (set_receiving (filter (λ x, x ≠ p) (q_receivers q)) q)) →
  match res with
  | inr m => good_msg m ∧ testmsg m (r_msgtype r) (r_mode r) = true ∧ m_ts m <= r_maxsize r
  | inl e => e ≠ - EAGAIN
  end →
  let w' := set_receivers (<[p := set_r_msg res r]> (receivers w)) (set_msqs (<[a := q']> (msqs w)) w) in
  msg_ok w' ∧ hands (receivers w') ≡ₚ hands (receivers w) ++ match res with inr m => [m] | inl _ => [] end.
Proof.
  intros Hw Ea Hp Er Eq' Hres w'. pose proof (mo_queues _ Hw a q Ea) as Hq.
  destruct (qo_receivers _ _ _ Hq p Hp) as (r' & E & Ermsq & Ermsg & _). rewrite Er in E. injection E as <-.
  assert (q_receivers q' = filter (λ x, x ≠ p) (q_receivers q) ∧ q_senders q' = q_senders q) as [Er' Es'].
  { by destruct Eq' as [->|(x & y & ->)]. }
  assert (queue_ok w' a (set_receiving (filter (λ x, x ≠ p) (q_receivers q)) q)) as Hq1.
  { eapply queue_ok_receiving; [done|apply list.NoDup_filter, Hq| |done].
    intros x [Hne Hx]%list_elem_of_filter. split; [done|]. simpl. by rewrite lookup_insert_ne. }
  split.
  - eapply (msg_ok_set w w' a q q'); try done.
    + destruct Eq' as [->|(x & y & ->)]; [done|by apply queue_ok_pids].
    + intros x. destruct (decide (x = p)) as [->|Hne].
      * right. split; [by left|]. simpl. rewrite lookup_insert_eq. intros ? [= <-].
        destruct (mo_receivers _ Hw p r Er) as (H0 & Hk & _). split; [done|]. split; [done|]. simpl. destruct res as [e|m]; [|done].
        by rewrite decide_False.
      * left. simpl. rewrite lookup_insert_ne by done. split; [done|]. intros Hx. rewrite Er'. by apply list_elem_of_filter.
    + intros x. left. by rewrite Es'.
  - simpl. pose proof (hands_insert (receivers w) p r (set_r_msg res r) Er) as H. unfold held in H. rewrite Ermsg in H. simpl in H.
    rewrite app_nil_r in H. exact H.
Qed.

Record offered (a : Z) (msg : msg_msg) (l : list Z) (w : mworld) (q : msg_queue) (w' : mworld) (taken : bool) (q' : msg_queue) : Prop := {
  of_ok : msg_ok w';
  of_msqs : msqs w' = <[a := q']> (msqs w);
  of_queue : q' = set_pids (q_lspid q') (q_lrpid q) (set_receiving (q_receivers q') q);
  of_table : msg_ids w' = msg_ids w ∧ msq_next w' = msq_next w ∧ senders w' = senders w;
  of_receivers : ∀ p, p ∈ q_receivers q' → p ∈ q_receivers q ∧ receivers w' !! p = receivers w !! p;
  of_none : ∀ p, receivers w !! p = None → receivers w' !! p = None;
  of_nomatch : taken = false → ∀ p r, p ∈ q_receivers q' → p ∈ l → receivers w !! p = Some r →
    testmsg msg (r_msgtype r) (r_mode r) = false;
  of_hands : hands (receivers w') ≡ₚ hands (receivers w) ++ if taken then [msg] else []
}.

Lemma pipelined_spec l a msg w q :
  msg_ok w → msqs w !! a = Some q → good_msg msg → NoDup l → (∀ p, p ∈ l → p ∈ q_receivers q) →
  ∃ w' taken q', pipelined_loop l a msg w = Ok (w', taken) ∧ offered a msg l w q w' taken q'.
Proof.
  intros Hw Ea Hmsg Hnd. revert w q Hw Ea. induction Hnd as [|p l Hpl Hnd IH]; intros w q Hw Ea Hsub; cbn [pipelined_loop].
  { exists w, false, q. split; [done|]. constructor; try done.
    - by rewrite insert_id.
    - by destruct q.
    - intros _ p r _ H. by apply elem_of_nil in H.
    - by rewrite app_nil_r. }
  assert (p ∈ q_receivers q) as Hp by (apply Hsub; by left). pose proof (mo_queues _ Hw a q Ea) as Hq.
  destruct (qo_receivers _ _ _ Hq p Hp) as (r & Er & Ermsq & Ermsg & _). rewrite (deref_ok _ _ _ Er). cbn [mbind outcome_bind].
  destruct (testmsg msg (r_msgtype r) (r_mode r)) eqn:Et.
  2: { destruct (IH w q Hw Ea) as (w' & taken & q' & -> & [O1 O2 O3 O4 O5 O6 O7 O8]); [intros; apply Hsub; by right|].
       exists w', taken, q'. split; [done|]. constructor; try done. intros Hf x rx Hx [->|Hin]%elem_of_cons Erx; [congruence|eauto]. }
  rewrite (deref_ok _ _ _ Ea). cbn [mbind outcome_bind]. destruct (Z.ltb_spec (r_maxsize r) (m_ts msg)) as [Hbig|Hfit].
  - set (q1 := set_receiving (filter (λ x, x ≠ p) (q_receivers q)) q).
    destruct (receiver_leaves w a q p r (inl (- E2BIG)) q1) as [Hw1 Hh1]; try done; [by left|].
    set (w1 := set_receivers _ _) in Hw1, Hh1 |- *.
    destruct (IH w1 q1 Hw1) as (w' & taken & q' & -> & [O1 O2 O3 O4 O5 O6 O7 O8]).
    { apply lookup_insert_eq. }
    { intros x Hx. apply list_elem_of_filter. split; [congruence|]. apply Hsub. by right. }
    assert (∀ x, x ∈ q_receivers q' → x ≠ p ∧ x ∈ q_receivers q) as Hx.
    { intros x Hx. destruct (O5 x Hx) as [H _]. by apply list_elem_of_filter in H. }
    exists w', taken, q'. split; [done|]. constructor; try done.
    + rewrite O2. simpl. by rewrite insert_insert_eq.
    + intros x Hin. destruct (Hx x Hin). destruct (O5 x Hin) as [_ ->]. simpl. by rewrite lookup_insert_ne.
    + intros x Hn. apply O6. simpl. rewrite lookup_insert_ne; [done|]. congruence.
    + intros Hf x rx Hin [->|Hl]%elem_of_cons Erx; [by destruct (Hx p Hin)|]. apply (O7 Hf x rx Hin Hl). simpl.
      rewrite lookup_insert_ne; [done|]. intros <-. done.
    + by rewrite O8, Hh1, app_nil_r.
  - set (q1 := set_pids p _ _). destruct (receiver_leaves w a q p r (inr msg) q1) as [Hw1 Hh1]; try done.
    { right. by eexists _, _. }
    eexists _, true, q1. split; [done|]. constructor; try done; simpl.
    + intros x [Hne Hx]%list_elem_of_filter. split; [done|]. by rewrite lookup_insert_ne.
    + intros x Hn. rewrite lookup_insert_ne; [done|]. congruence.
Qed.
