(* ===== verification/MsgCalls.v ===== *)
(** The calls of [ipc/msg.c] keep the invariant of [MsgSystem], and neither lose
    nor copy a message. *)

From S2P Require Import Prelude Errno Ipc Msg MsgText MsgSystem.

(** ** What a call did with messages *)

Definition sent_by (r : msg_end) : list msg_msg := match r with MSent m => [m] | _ => [] end.
Definition took_by (r : msg_end) : list msg_msg := match r with MTook m _ _ => [m] | _ => [] end.

(** A call that took a message hands out its type and the beginning of its text;
    only a fault keeps it from that. *)
Definition end_ok (r : msg_end) : Prop :=
  match r with
  | MTook m ret (Some (t, text)) => t = m_type m ∧ text = take (Z.to_nat ret) (msg_bytes_of m) ∧ 0 <= ret <= m_ts m
  | MTook m ret None => ret = - EFAULT
  | _ => True
  end.

(** The call returns or sleeps; messages come from senders and go to takers, and
    no queue disappears. *)
Definition mkeeps (w : mworld) (o : outcome (mworld * msg_end)) : Prop :=
  ∃ w' r, o = Ok (w', r) ∧ msg_ok w' ∧ all_msgs w ++ sent_by r ≡ₚ all_msgs w' ++ took_by r ∧ end_ok r ∧
    ∀ b, is_Some (msqs w !! b) → is_Some (msqs w' !! b).

Lemma mkeeps_refl w r : msg_ok w → sent_by r = [] → took_by r = [] → end_ok r → mkeeps w (Ok (w, r)).
Proof. intros Hw H1 H2 H3. exists w, r. rewrite H1, H2. by split_and!. Qed.

Lemma mkeeps_trans w w1 o :
  mkeeps w1 o → all_msgs w ≡ₚ all_msgs w1 → (∀ b, is_Some (msqs w !! b) → is_Some (msqs w1 !! b)) → mkeeps w o.
Proof. intros (w' & r & -> & Hw & Hp & He & Hb) H1 H2. exists w', r. rewrite H1. split_and!; auto. Qed.

Lemma contents_append m a q q' extra :
  m !! a = Some q → q_messages q' = q_messages q ++ extra → contents (<[a := q']> m) ≡ₚ contents m ++ extra.
Proof.
  intros H E. pose proof (contents_insert m a q q' H) as Hp. rewrite E in Hp.
  apply (Permutation_app_inv_r (q_messages q)). rewrite Hp. solve_Permutation.
Qed.

Lemma contents_same m a q q' : m !! a = Some q → q_messages q' = q_messages q → contents (<[a := q']> m) ≡ₚ contents m.
Proof. intros H E. rewrite (contents_append m a q q' []) by (done || by rewrite app_nil_r). by rewrite app_nil_r. Qed.

Lemma contents_take m a q q' x :
  m !! a = Some q → q_messages q ≡ₚ q_messages q' ++ [x] → contents m ≡ₚ contents (<[a := q']> m) ++ [x].
Proof.
  intros H E. pose proof (contents_insert m a q q' H) as Hp. rewrite E in Hp.
  apply (Permutation_app_inv_r (q_messages q')). rewrite <- Hp. solve_Permutation.
Qed.

Lemma insert_is_Some {A} (m : gmap Z A) a x b : is_Some (m !! b) → is_Some (<[a := x]> m !! b).
Proof. intros H. destruct (decide (b = a)) as [->|]; [rewrite lookup_insert_eq; eauto|by rewrite lookup_insert_ne]. Qed.

(** ** Sending *)

Lemma total_size_nonneg l : Forall good_msg l → 0 <= total_size l.
Proof. induction 1 as [|m l (_ & _ & ?) Hf IH]; simpl; [done|]. unfold total_size in *. lia. Qed.

Lemma total_size_app l k : total_size (l ++ k) = total_size l + total_size k.
Proof. induction l as [|m l IH]; simpl; [done|]. unfold total_size in *. lia. Qed.

(** The limits in plain numbers. *)
Lemma msq_full_spec w a q sz : queue_ok w a q → 0 <= sz < 2 ^ 31 →
  msq_full sz q = (q_qbytes q <? sz + q_cbytes q) || (q_qbytes q <? 1 + q_qnum q).
Proof.
  intros [[A1 A1'] [A2 A2'] _ A4 _ _ _] Hsz. unfold msq_full. pose proof (total_size_nonneg _ A4). pose proof (zlen_nonneg (q_messages q)).
  by rewrite !wrap_small by lia.
Qed.

(** A message that nobody takes is put at the end of the queue. *)
Lemma msg_enqueue_ok w a q msg pid bytes hdrs :
  msg_ok w → msqs w !! a = Some q → good_msg msg → msq_full (m_ts msg) q = false →
  (∀ p r, p ∈ q_receivers q → receivers w !! p = Some r → testmsg msg (r_msgtype r) (r_mode r) = false) →
  let q' := set_pids pid (q_lrpid q) (set_contents (u32 (q_cbytes q + m_ts msg)) (u32 (q_qnum q + 1)) (q_messages q ++ [msg]) q) in
  let w' := set_msqs (<[a := q']> (msqs w)) (set_counts bytes hdrs w) in
  msg_ok w' ∧ all_msgs w' ≡ₚ all_msgs w ++ [msg].
Proof.
  intros Hw Ea Hmsg Hfull Hno q' w'. pose proof (mo_queues _ Hw a q Ea) as Hq. pose proof Hmsg as (_ & _ & Hts).
  rewrite (msq_full_spec w a q) in Hfull by done. apply orb_false_iff in Hfull as [F1%Z.ltb_ge F2%Z.ltb_ge].
  pose proof Hq as [[A1 A1'] [A2 A2'] A3 A4 A5 A6 A7]. pose proof (total_size_nonneg _ A4). pose proof (zlen_nonneg (q_messages q)).
  assert (q_cbytes q' = q_cbytes q + m_ts msg ∧ q_qnum q' = q_qnum q + 1) as [Eb En].
  { simpl. by rewrite !wrap_small by lia. }
  assert (queue_ok w' a q') as Hq'.
  { constructor; try done.
    - rewrite Eb. simpl. rewrite total_size_app. simpl. lia.
    - rewrite En. simpl. rewrite zlen_app. unfold zlen at 2. simpl. lia.
    - simpl. apply Forall_app. by split; [|constructor].
    - intros p Hp. destruct (A6 p Hp) as (r & E1 & E2 & E3 & E4). exists r. split_and!; try done.
      simpl. intros m [Hm| ->%list_elem_of_singleton]%elem_of_app; eauto.
    - intros p Hp. destruct (A7 p Hp) as (s & E1 & E2 & E3 & E4). exists s. split_and!; try done. intros Hwk.
      specialize (E4 Hwk). destruct (mo_senders _ Hw p s E1) as ((_ & _ & Hs) & _).
      rewrite (msq_full_spec w a q) in E4 by done. unfold msq_full. rewrite Eb, En. simpl.
      rewrite !wrap_small by lia. apply orb_true_iff. apply orb_true_iff in E4 as [?%Z.ltb_lt|?%Z.ltb_lt]; [left|right]; lia. }
  split.
  - eapply (msg_ok_set w w' a q q'); try done; intros p; by left.
  - unfold all_msgs. simpl. rewrite (contents_append (msqs w) a q q' [msg]) by done. solve_Permutation.
Qed.

Lemma msgsnd_try_ok cr pid msqid a msgflg msg w q :
  msg_ok w → msqs w !! a = Some q → leads w msqid a → senders w !! pid = None → good_msg msg →
  mkeeps w (msgsnd_try cr pid msqid a msgflg msg w).
Proof.
  intros Hw Ea Hl Hnone Hmsg. unfold msgsnd_try. rewrite (deref_ok _ _ _ Ea). cbn [mbind outcome_bind].
  destruct (ipc_checkid _ _); [by apply mkeeps_refl|]. destruct (ipcperms _ _ _); [by apply mkeeps_refl|].
  pose proof (mo_queues _ Hw a q Ea) as Hq. destruct (msq_full (m_ts msg) q) eqn:Ef.
  - destruct (msg_flag msgflg IPC_NOWAIT); [by apply mkeeps_refl|].
    set (q' := set_sending (q_senders q ++ [pid]) q). set (w' := set_senders _ _). exists w', MAsleep.
    assert (pid ∉ q_senders q) as Hnin. { intros Hin. destruct (qo_senders _ _ _ Hq pid Hin) as (s & E & _). congruence. }
    split; [done|]. split; [|split; [|split; [done|intros b; apply insert_is_Some]]].
    2: { simpl. rewrite !app_nil_r. unfold all_msgs, w'. simpl. by rewrite (contents_same (msqs w) a q q'). }
    eapply (msg_ok_set w w' a q q'); try done.
    + destruct Hq as [A1 A2 A3 A4 [A5 A5'] A6 A7]. constructor; simpl; try done.
      * split; [done|]. apply list.NoDup_app. split_and!; [done| |apply NoDup_singleton]. intros p Hp ->%list_elem_of_singleton. done.
      * intros p [Hp| ->%list_elem_of_singleton]%elem_of_app.
        -- destruct (A7 p Hp) as (s & E1 & E2 & E3 & E4). exists s. rewrite lookup_insert_ne by congruence. by split_and!.
        -- eexists. rewrite lookup_insert_eq. by split_and!.
    + intros p. by left.
    + intros p. destruct (decide (p = pid)) as [->|Hne].
      * right. split; [by right|]. simpl. rewrite lookup_insert_eq. intros s [= <-]. split; [done|]. simpl. split; [apply (leads_known w _ a); [apply Hw|done]|]. split; [done|].
        exists q'. rewrite lookup_insert_eq. split; [done|]. simpl. apply elem_of_app. right. by left.
      * left. simpl. rewrite lookup_insert_ne by done. split; [done|]. intros Hp. apply elem_of_app. by left.
  - unfold pipelined_send. rewrite (deref_ok _ _ _ Ea). cbn [mbind outcome_bind].
    destruct (pipelined_spec (q_receivers q) a msg w q) as (w1 & taken & q1 & -> & [O1 O2 O3 O4 O5 O6 O7 O8]); try done; [apply Hq|].
    cbn [mbind outcome_bind]. assert (msqs w1 !! a = Some q1) as Ea1 by (rewrite O2; apply lookup_insert_eq).
    rewrite (deref_ok _ _ _ Ea1). cbn [mbind outcome_bind]. assert (contents (msqs w1) ≡ₚ contents (msqs w)) as Hc1.
    { rewrite O2. apply (contents_same _ _ q); [done|]. by rewrite O3. }
    assert (∀ b, is_Some (msqs w !! b) → is_Some (msqs w1 !! b)) as Hdom by (intros b; rewrite O2; apply insert_is_Some).
    destruct taken; cbv beta iota zeta.
    + eexists _, _. split; [done|]. split_and!; try done.
      * eapply (msg_ok_set w1 _ a q1 (set_pids pid (q_lrpid q1) q1)); try done; [|intros p; by left..].
        apply queue_ok_pids. eapply queue_ok_frame; [by apply (mo_queues _ O1)|done|done].
      * simpl. rewrite app_nil_r. unfold all_msgs. simpl. rewrite (contents_same (msqs w1) a q1), Hc1, O8 by done. solve_Permutation.
      * intros b Hb. apply insert_is_Some. auto.
    + destruct (msg_enqueue_ok w1 a q1 msg pid (s32 (msg_bytes w1 + m_ts msg)) (s32 (msg_hdrs w1 + 1))) as [Hw2 Hp2]; try done.
      { rewrite O3. done. }
      { intros p r Hp. destruct (O5 p Hp) as [Hin ->]. intros Er. by eapply O7. }
      eexists _, _. split; [done|]. split; [exact Hw2|]. split_and!; try done.
      * simpl sent_by. simpl took_by. rewrite app_nil_r, Hp2. unfold all_msgs. rewrite Hc1, O8. simpl. solve_Permutation.
      * intros b Hb. apply insert_is_Some. simpl. auto.
Qed.

(** The identifier does not name the slot behind the table. *)
Definition in_table (w : mworld) (msqid : Z) : Prop := 0 <= msqid → ∃ o, ipc_lock (msg_ids w) msqid = Ok o.

Lemma leads_queue w msqid a : msg_ok w → leads w msqid a → ∃ q, msqs w !! a = Some q.
Proof. intros Hw [H0 E]. apply (mo_entries _ Hw _ _ (lock_entry _ _ _ H0 E)). Qed.

(** A text that passes the first test has less than 2^31 bytes. *)
Lemma s32_size z : 0 <= z < 2 ^ 32 → 0 <= s32 z → z < 2 ^ 31.
Proof. intros Hz. unfold swrap. Z.div_mod_to_equations. lia. Qed.

Lemma sys_msgsnd_ok lim cr pid msqid mtype text msgflg alloc copy w :
  msg_ok w → in_table w msqid → senders w !! pid = None →
  mkeeps w (sys_msgsnd lim cr pid msqid mtype text msgflg alloc copy w).
Proof.
  intros Hw Hid Hnone. unfold sys_msgsnd. destruct (_ || _ || _) eqn:E; [by apply mkeeps_refl|].
  apply orb_false_iff in E as [[E1%Z.ltb_ge E2%Z.ltb_ge]%orb_false_iff E3%Z.ltb_ge].
  destruct mtype as [mtype|]; [|by apply mkeeps_refl]. destruct (Z.ltb_spec mtype 1); [by apply mkeeps_refl|].
  destruct (load_msg_ok text alloc copy mtype) as (r & -> & Hr). cbn [mbind outcome_bind].
  destruct r as [e|[head segs]]; [by apply mkeeps_refl|]. destruct (Hid E3) as [o Eo]. rewrite Eo. cbn [mbind outcome_bind].
  destruct o as [a|]; [|by apply mkeeps_refl]. assert (leads w msqid a) as Hl by (by split).
  destruct (leads_queue w msqid a Hw Hl) as [q Ea]. eapply msgsnd_try_ok; try done. split; [apply Hr|]. split; [done|]. simpl.
  pose proof (zlen_nonneg text). pose proof (wrap_bound 32 (msg_ctlmax lim)). split; [done|]. apply s32_size; lia.
Qed.

(** A sender that was taken out of its queue is forgotten. *)
Lemma msg_ok_forget_sender w pid s :
  msg_ok w → senders w !! pid = Some s → s_linked s = false → msg_ok (set_senders (delete pid (senders w)) w).
Proof.
  intros [M1 M2 M3 M4 M5 M6 M7] Es Hlk. constructor; simpl; try done.
  - intros a q Ea. pose proof (M5 a q Ea) as Hq. apply (queue_ok_frame w); [done|done|]. intros p Hp. simpl.
    apply lookup_delete_ne. intros <-. destruct (qo_senders _ _ _ Hq pid Hp) as (s' & E1 & E2 & _). congruence.
  - intros p s' [_ E]%lookup_delete_Some. apply (sender_ok_frame w); [by apply M7|done|done|]. eauto.
Qed.

(** A sender leaves its queue. *)
Lemma sender_leaves w pid s q :
  msg_ok w → senders w !! pid = Some s → s_linked s = true → msqs w !! s_msq s = Some q →
  let w' := set_msqs (<[s_msq s := set_sending (filter (λ x, x ≠ pid) (q_senders q)) q]> (msqs w))
              (set_senders (delete pid (senders w)) w) in
  msg_ok w' ∧ all_msgs w ≡ₚ all_msgs w'.
Proof.
  intros Hw Es Hlk Ea w'. set (q' := set_sending _ q) in w'. pose proof (mo_queues _ Hw _ _ Ea) as Hq.
  assert (pid ∈ q_senders q) as Hin.
  { destruct (mo_senders _ Hw _ _ Es) as (_ & _ & H). rewrite Hlk in H. destruct H as (_ & q0 & E & Hin). congruence. }
  split; [|unfold all_msgs; simpl; by rewrite (contents_same _ _ q)].
  eapply (msg_ok_set w w' _ q q'); try done.
  - destruct Hq as [A1 A2 A3 A4 [A5 A5'] A6 A7]. constructor; simpl; try done; [split; [done|by apply list.NoDup_filter]|].
    intros p [Hne Hp]%list_elem_of_filter. destruct (A7 p Hp) as (s' & E1 & E2 & E3 & E4). exists s'.
    rewrite lookup_delete_ne by done. by split_and!.
  - intros p. by left.
  - intros p. destruct (decide (p = pid)) as [->|Hne].
    + right. split; [by left|]. simpl. rewrite lookup_delete_eq. done.
    + left. simpl. rewrite lookup_delete_ne by done. split; [done|]. intros Hp. by apply list_elem_of_filter.
Qed.

Lemma msgsnd_wake_ok cr pid signal w s :
  msg_ok w → senders w !! pid = Some s → mkeeps w (msgsnd_wake cr pid signal w).
Proof.
  intros Hw Es. unfold msgsnd_wake. rewrite (deref_ok _ _ _ Es). cbn [mbind outcome_bind].
  destruct (mo_senders _ Hw _ _ Es) as (Hmsg & Hk & Hs). pose proof (proj1 Hk) as H0.
  destruct (known_lock w _ (mo_ids _ Hw) Hk) as [o Eo]. rewrite Eo. cbn [mbind outcome_bind]. destruct (s_linked s) eqn:Hlk.
  - destruct Hs as ([_ El] & q & Ea & _). rewrite Eo in El. injection El as ->. rewrite (deref_ok _ _ _ Ea). cbn [mbind outcome_bind].
    destruct (sender_leaves w pid s q Hw Es Hlk Ea) as [Hw1 Hp1]. cbv zeta in Hw1, Hp1. set (w1 := set_msqs _ _) in Hw1, Hp1 |- *.
    assert (∀ b, is_Some (msqs w !! b) → is_Some (msqs w1 !! b)) as Hdom by (intros b; apply insert_is_Some).
    eapply mkeeps_trans; [|exact Hp1|exact Hdom]. destruct signal; [by apply mkeeps_refl|].
    eapply msgsnd_try_ok; [done|apply lookup_insert_eq|by split|apply lookup_delete_eq|done].
  - pose proof (msg_ok_forget_sender w pid s Hw Es Hlk) as Hw0. set (w0 := set_senders _ w) in *.
    apply (mkeeps_trans w w0); [|done|done]. destruct o as [a|]; [|by apply mkeeps_refl]. cbn [mbind outcome_bind].
    destruct signal; [by apply mkeeps_refl|]. assert (leads w (s_msqid s) a) as Hl by (by split).
    destruct (leads_queue w _ a Hw Hl) as [q Ea]. eapply msgsnd_try_ok; [done|done|done|apply lookup_delete_eq|done].
Qed.

(** ** Receiving *)

Lemma find_msg_none l i t mode found : find_msg l i t mode found = None →
  found = None ∧ ∀ m, m ∈ l → testmsg m t mode = false.
Proof.
  revert i t found. induction l as [|m l IH]; intros i t found; cbn [find_msg]; [intros ->; split; [done|]; intros m H; by apply elem_of_nil in H|].
  destruct (testmsg m t mode) eqn:Et.
  - destruct (_ && _); [|done]. intros H. by apply IH in H as [? _].
  - intros H. apply IH in H as [-> H]. split; [done|]. intros m' [->|Hin]%elem_of_cons; auto.
Qed.

Lemma find_msg_some l i t mode found k : find_msg l i t mode found = Some k →
  found = Some k ∨ (i <= k < i + length l)%nat.
Proof.
  revert i t found. induction l as [|m l IH]; intros i t found; cbn [find_msg]; [auto|]. simpl.
  destruct (testmsg m t mode).
  - destruct (_ && _); [|intros [= <-]; right; lia]. intros [[= <-]|?]%IH; right; lia.
  - intros [?|?]%IH; [by left|right; lia].
Qed.

Lemma msgrcv_success_ok m sz put copy : good_msg m → 0 <= sz →
  ∃ r, msgrcv_success m sz put copy = Ok r ∧ took_by r = [m] ∧ sent_by r = [] ∧ end_ok r.
Proof.
  intros (Hwf & _ & Hts) Hsz. unfold msgrcv_success. destruct put; simpl; [|by eexists].
  set (n := if m_ts m <? sz then m_ts m else sz). assert (0 <= n <= m_ts m) as Hn by (unfold n; zbool; lia).
  destruct (store_msg_ok m n copy Hwf Hn) as (out & -> & Hout). cbn [mbind outcome_bind].
  destruct out as [l|]; eexists; split_and!; try done; simpl; subst; by split_and!.
Qed.

Lemma total_size_perm l k : l ≡ₚ k → total_size l = total_size k.
Proof. induction 1; unfold total_size in *; simpl; lia. Qed.

(** A message is taken out of the queue, and the senders are woken. *)
Lemma dequeue_ok w a q i msg pid bytes hdrs :
  msg_ok w → msqs w !! a = Some q → q_messages q !! i = Some msg →
  let q' := set_pids (q_lspid q) pid
    (set_contents (u32 (q_cbytes q - m_ts msg)) (u32 (q_qnum q - 1)) (delete i (q_messages q)) q) in
  ∃ w', ss_wakeup (q_senders q') false (set_counts bytes hdrs (set_msqs (<[a := q']> (msqs w)) w)) = Ok w' ∧
    msg_ok w' ∧ all_msgs w ≡ₚ all_msgs w' ++ [msg] ∧ good_msg msg ∧ ∀ b, is_Some (msqs w !! b) → is_Some (msqs w' !! b).
Proof.
  intros Hw Ea Hi q'. pose proof (mo_queues _ Hw a q Ea) as Hq. pose proof Hq as [[A1 A1'] [A2 A2'] A3 A4 [A5 A5'] A6 A7].
  pose proof (delete_Permutation _ _ _ Hi) as Hperm.
  assert (good_msg msg ∧ Forall good_msg (delete i (q_messages q))) as [Hm Hdel].
  { rewrite Hperm in A4. by apply Forall_cons_1 in A4. }
  pose proof (total_size_nonneg _ Hdel) as Hpos. pose proof (total_size_perm _ _ Hperm) as Hsum. simpl in Hsum.
  assert (0 < zlen (q_messages q) ∧ zlen (delete i (q_messages q)) = zlen (q_messages q) - 1) as [Hlen Hlen'].
  { pose proof (lookup_lt_Some _ _ _ Hi). unfold zlen. rewrite length_delete; [lia|]. by rewrite Hi. }
  pose proof Hm as (_ & _ & Hts).
  destruct (ss_wakeup_spec (q_senders q') false (set_counts bytes hdrs (set_msqs (<[a := q']> (msqs w)) w))) as (m & -> & Hsm); [done| |].
  { intros p Hp. destruct (A7 p Hp) as (s & E & _). simpl. rewrite E. eauto. }
  simpl in Hsm. set (w' := set_senders m _). exists w'. split; [done|].
  assert (∀ p, p ∈ q_senders q → ∃ s, senders w !! p = Some s ∧ m !! p = Some (set_s_woken true s) ∧ s_linked s = true ∧ s_msq s = a) as Hsnd.
  { intros p Hp. destruct (A7 p Hp) as (s & E1 & E2 & E3 & _). exists s. rewrite Hsm, E1. simpl. rewrite decide_True, E2 by done. done. }
  split_and!; try done.
  - eapply (msg_ok_set w w' a q q'); try done.
    + constructor; simpl; try done.
      * rewrite wrap_small; unfold total_size in *; lia.
      * rewrite wrap_small; lia.
      * intros p Hp. destruct (A6 p Hp) as (r & E1 & E2 & E3 & E4). exists r. split_and!; try done. intros x Hx. apply E4.
        rewrite Hperm. by right.
      * intros p Hp. destruct (Hsnd p Hp) as (s & E1 & E2 & E3 & E4). exists (set_s_woken true s). by split_and!.
    + intros p. by left.
    + intros p. destruct (decide (p ∈ q_senders q)) as [Hp|Hp].
      * right. split; [by left|]. destruct (Hsnd p Hp) as (s & E1 & E2 & E3 & E4). simpl. rewrite E2. intros ? [= <-].
        destruct (mo_senders _ Hw p s E1) as (Hg & Hk & Hs). split; [done|]. split; [done|]. rewrite E3 in Hs. simpl. destruct Hs as [Hl _].
        split; [done|]. exists q'. by rewrite E4, lookup_insert_eq.
      * left. split; [|done]. simpl. rewrite Hsm. destruct (senders w !! p); simpl; [|done]. by rewrite decide_False.
  - unfold all_msgs. simpl. rewrite (contents_take (msqs w) a q q' msg); [solve_Permutation|done|]. etransitivity; [exact Hperm|]. simpl. solve_Permutation.
  - intros b. apply insert_is_Some.
Qed.

(** The receiver waits. *)
Lemma receive_sleeps w a q pid r :
  msg_ok w → msqs w !! a = Some q → receivers w !! pid = None → leads w (r_msqid r) a → r_msq r = a →
  r_msg r = inl (- EAGAIN) → 0 <= r_sz r < 2 ^ 31 →
  (∀ m, m ∈ q_messages q → testmsg m (r_msgtype r) (r_mode r) = false) →
  let w' := set_receivers (<[pid := r]> (receivers w)) (set_msqs (<[a := set_receiving (q_receivers q ++ [pid]) q]> (msqs w)) w) in
  msg_ok w' ∧ all_msgs w ≡ₚ all_msgs w'.
Proof.
  intros Hw Ea Hnone Hl Eq Em Hsz Hno w'. set (q' := set_receiving _ q) in w'. pose proof (mo_queues _ Hw _ _ Ea) as Hq.
  assert (pid ∉ q_receivers q) as Hnin. { intros Hin. destruct (qo_receivers _ _ _ Hq pid Hin) as (s & E & _). congruence. }
  split.
  - eapply (msg_ok_set w w' a q q'); try done.
    + destruct Hq as [A1 A2 A3 A4 [A5 A5'] A6 A7]. constructor; simpl; try done.
      * split; [|done]. apply list.NoDup_app. split_and!; [done| |apply NoDup_singleton]. intros p Hp ->%list_elem_of_singleton. done.
      * intros p [Hp| ->%list_elem_of_singleton]%elem_of_app.
        -- destruct (A6 p Hp) as (s & E1 & E2 & E3 & E4). exists s. rewrite lookup_insert_ne by congruence. by split_and!.
        -- exists r. rewrite lookup_insert_eq. by split_and!.
    + intros p. destruct (decide (p = pid)) as [->|Hne].
      * right. split; [by right|]. simpl. rewrite lookup_insert_eq. intros ? [= <-]. split; [done|].
        split; [apply (leads_known w _ a); [apply Hw|done]|]. rewrite Em, decide_True, Eq by done. split; [done|].
        exists q'. simpl. rewrite lookup_insert_eq. split; [done|]. simpl. apply elem_of_app. right. by left.
      * left. simpl. rewrite lookup_insert_ne by done. split; [done|]. intros Hp. apply elem_of_app. by left.
    + intros p. by left.
  - unfold all_msgs. simpl. rewrite (contents_same _ _ q) by done. f_equiv. unfold hands. rewrite (map_concat_insert held).
    rewrite delete_id by done. unfold held at 2. by rewrite Em.
Qed.

Lemma msgrcv_try_ok cr pid msqid a msgsz msgtyp mode msgflg put copy w q :
  msg_ok w → msqs w !! a = Some q → leads w msqid a → receivers w !! pid = None → 0 <= msgsz < 2 ^ 31 →
  mkeeps w (msgrcv_try cr pid msqid a msgsz msgtyp mode msgflg put copy w).
Proof.
  intros Hw Ea Hl Hnone Hsz. unfold msgrcv_try. rewrite (deref_ok _ _ _ Ea). cbn [mbind outcome_bind].
  destruct (ipcperms _ _ _); [by apply mkeeps_refl|]. destruct (find_msg (q_messages q) 0 msgtyp mode None) as [i|] eqn:Ef.
  - apply find_msg_some in Ef as [?|Hi]; [done|]. destruct (lookup_lt_is_Some_2 (q_messages q) i) as [msg Em]; [lia|].
    simpl. rewrite Em. simpl. destruct (_ && _); [by apply mkeeps_refl|].
    destruct (dequeue_ok w a q i msg pid (s32 (msg_bytes w - m_ts msg)) (s32 (msg_hdrs w - 1))) as (w' & E & Hw' & Hp & Hg & Hdom); try done.
    simpl in E. rewrite E. cbn [mbind outcome_bind].
    destruct (msgrcv_success_ok msg msgsz put copy Hg) as (r & -> & Ht & Hs & He); [lia|]. cbn [mbind outcome_bind].
    exists w', r. rewrite Ht, Hs, app_nil_r. by split_and!.
  - simpl. apply find_msg_none in Ef as [_ Hno]. destruct (msg_flag msgflg IPC_NOWAIT); [by apply mkeeps_refl|].
    set (r := Receiver _ _ _ _ _ _ _ _ _). destruct (receive_sleeps w a q pid r) as [Hw' Hp]; try done.
    eexists _, _. split; [done|]. split; [exact Hw'|]. simpl sent_by. simpl took_by. rewrite !app_nil_r. split_and!; try done.
    intros b. apply insert_is_Some.
Qed.

Lemma sys_msgrcv_ok cr pid msqid msgsz msgtyp msgflg put copy w :
  msg_ok w → in_table w msqid → receivers w !! pid = None → 0 <= msgsz < 2 ^ 32 →
  mkeeps w (sys_msgrcv cr pid msqid msgsz msgtyp msgflg put copy w).
Proof.
  intros Hw Hid Hnone Hsz. unfold sys_msgrcv. destruct (_ || _) eqn:E; [by apply mkeeps_refl|].
  apply orb_false_iff in E as [E1%Z.ltb_ge E2%Z.ltb_ge]. destruct (convert_mode msgtyp msgflg) as [typ mode].
  destruct (Hid E1) as [o Eo]. rewrite Eo. cbn [mbind outcome_bind]. destruct o as [a|]; [|by apply mkeeps_refl].
  assert (leads w msqid a) as Hl by (by split). destruct (leads_queue w _ a Hw Hl) as [q Ea].
  eapply msgrcv_try_ok; try done. split; [lia|]. by apply s32_size.
Qed.

(** A receiver that does not wait in a queue is forgotten. *)
Lemma msg_ok_forget_receiver w pid r :
  msg_ok w → receivers w !! pid = Some r → r_msg r ≠ inl (- EAGAIN) →
  let w' := set_receivers (delete pid (receivers w)) w in
  msg_ok w' ∧ all_msgs w ≡ₚ all_msgs w' ++ held r.
Proof.
  intros [M1 M2 M3 M4 M5 M6 M7] Er Hne w'. split.
  - constructor; simpl; try done.
    + intros a q Ea. pose proof (M5 a q Ea) as Hq. apply (queue_ok_frame w); [done| |done]. intros p Hp. simpl.
      apply lookup_delete_ne. intros <-. destruct (qo_receivers _ _ _ Hq pid Hp) as (r' & E1 & _ & E2 & _). congruence.
    + intros p r' [_ E]%lookup_delete_Some. apply (receiver_ok_frame w); [by apply M6|done|done|]. eauto.
  - unfold all_msgs, hands. simpl. rewrite (map_concat_delete held _ pid r Er). solve_Permutation.
Qed.

(** A receiver that waits leaves its queue. *)
Lemma receiver_gone w pid r q :
  msg_ok w → receivers w !! pid = Some r → r_msg r = inl (- EAGAIN) → msqs w !! r_msq r = Some q →
  let w' := set_msqs (<[r_msq r := set_receiving (filter (λ x, x ≠ pid) (q_receivers q)) q]> (msqs w))
              (set_receivers (delete pid (receivers w)) w) in
  msg_ok w' ∧ all_msgs w ≡ₚ all_msgs w'.
Proof.
  intros Hw Er Em Ea w'. set (q' := set_receiving _ q) in w'. pose proof (mo_queues _ Hw _ _ Ea) as Hq.
  assert (pid ∈ q_receivers q) as Hin.
  { destruct (mo_receivers _ Hw _ _ Er) as (_ & _ & H). rewrite Em, decide_True in H by done. destruct H as (_ & q0 & E & Hin). congruence. }
  split.
  - eapply (msg_ok_set w w' _ q q'); try done.
    + eapply queue_ok_receiving; [done|apply list.NoDup_filter, Hq| |done]. intros x [Hne Hx]%list_elem_of_filter. split; [done|].
      simpl. by rewrite lookup_delete_ne.
    + intros p. destruct (decide (p = pid)) as [->|Hne].
      * right. split; [by left|]. simpl. rewrite lookup_delete_eq. done.
      * left. simpl. rewrite lookup_delete_ne by done. split; [done|]. intros Hp. by apply list_elem_of_filter.
    + intros p. by left.
  - unfold all_msgs, hands. simpl. rewrite (contents_same _ _ q), (map_concat_delete held _ pid r Er) by done.
    unfold held at 1. by rewrite Em.
Qed.

Lemma msgrcv_wake_ok cr pid signal put copy w r :
  msg_ok w → receivers w !! pid = Some r → mkeeps w (msgrcv_wake cr pid signal put copy w).
Proof.
  intros Hw Er. unfold msgrcv_wake. rewrite (deref_ok _ _ _ Er). cbn [mbind outcome_bind].
  destruct (mo_receivers _ Hw _ _ Er) as (Hsz & Hk & Hr). pose proof (proj1 Hk) as H0.
  destruct (known_lock w _ (mo_ids _ Hw) Hk) as [o Eo]. destruct (r_msg r) as [e|m] eqn:Em.
  - rewrite Eo. cbn [mbind outcome_bind]. destruct (Z.eqb_spec e (- EAGAIN)) as [->|Hne].
    + rewrite decide_True in Hr by done. destruct Hr as ([_ El] & q & Ea & _). rewrite Eo in El. injection El as ->. simpl.
      rewrite (deref_ok _ _ _ Ea). cbn [mbind outcome_bind].
      destruct (receiver_gone w pid r q Hw Er Em Ea) as [Hw1 Hp1]. cbv zeta in Hw1, Hp1. set (w1 := set_msqs _ _) in Hw1, Hp1 |- *.
      assert (∀ b, is_Some (msqs w !! b) → is_Some (msqs w1 !! b)) as Hdom by (intros b; apply insert_is_Some).
      eapply mkeeps_trans; [|exact Hp1|exact Hdom]. destruct signal; [by apply mkeeps_refl|].
      eapply msgrcv_try_ok; [done|apply lookup_insert_eq|by split|apply lookup_delete_eq|done].
    + destruct (msg_ok_forget_receiver w pid r Hw Er) as [Hw0 Hp0]; [congruence|].
      eexists _, _. split; [done|]. split; [exact Hw0|]. simpl. rewrite !app_nil_r. split_and!; try done. rewrite Hp0. unfold held.
      by rewrite Em, app_nil_r.
  - destruct Hr as (_ & Hg & _). destruct (msg_ok_forget_receiver w pid r Hw Er) as [Hw0 Hp0]; [congruence|].
    destruct (msgrcv_success_ok m (r_sz r) put copy Hg) as (e & -> & Ht & Hs & He); [lia|]. cbn [mbind outcome_bind].
    eexists _, e. split; [done|]. split; [exact Hw0|]. rewrite Ht, Hs, app_nil_r. split_and!; try done. rewrite Hp0. unfold held.
    by rewrite Em.
Qed.

(** ** msgctl *)

(** What a call that sends and takes nothing leaves; a queue that is removed goes
    with its messages. *)
Definition controls {R} (w : mworld) (o : outcome (mworld * R)) : Prop :=
  ∃ w' r, o = Ok (w', r) ∧ msg_ok w' ∧ all_msgs w ≡ₚ all_msgs w' ++ contents (msqs w ∖ msqs w').

Lemma contents_gone (m m' : gmap Z msg_queue) :
  (∀ b, is_Some (m !! b) → is_Some (m' !! b)) → contents (m ∖ m') = [].
Proof.
  intros H. assert (m ∖ m' = ∅) as ->; [|done]. apply map_eq. intros b. rewrite lookup_empty, lookup_difference.
  destruct (m' !! b) as [x|] eqn:E; [done|]. destruct (m !! b) as [y|] eqn:E'; [|done].
  destruct (H b) as [z Ez]; [by rewrite E'|]. congruence.
Qed.

Lemma controls_refl {R} w (r : R) : msg_ok w → controls w (Ok (w, r)).
Proof. intros H. exists w, r. split_and!; try done. rewrite contents_gone by done. by rewrite app_nil_r. Qed.

(** The receivers of the queue [q] get [res], and its senders are woken. *)
Lemma wake_everyone w w1 a q res kill :
  msg_ok w → msqs w !! a = Some q → receivers w1 = receivers w → senders w1 = senders w →
  ∃ mr ms, (w2 ← expunge_all (q_receivers q) res w1; ss_wakeup (q_senders q) kill w2) = Ok (set_senders ms (set_receivers mr w1)) ∧
    hands mr ≡ₚ hands (receivers w) ∧
    (∀ p, p ∉ q_receivers q → mr !! p = receivers w !! p) ∧ (∀ p, p ∉ q_senders q → ms !! p = senders w !! p) ∧
    (∀ p, p ∈ q_receivers q → ∃ r, receivers w !! p = Some r ∧ r_msq r = a ∧ receiver_ok w p r ∧ r_msg r = inl (- EAGAIN) ∧
       mr !! p = Some (set_r_msg (inl res) r) ∧ ∀ m, m ∈ q_messages q → testmsg m (r_msgtype r) (r_mode r) = false) ∧
    (∀ p, p ∈ q_senders q → ∃ s, senders w !! p = Some s ∧ s_msq s = a ∧ s_linked s = true ∧ sender_ok w p s ∧
       ms !! p = Some (set_s_woken (if kill then false else true) s)).
Proof.
  intros Hw Ea Er Es. pose proof (mo_queues _ Hw a q Ea) as [_ _ _ _ [A5 A5'] A6 A7].
  destruct (expunge_all_spec (q_receivers q) res w1 A5) as (mr & -> & Hmr).
  { intros p Hp. destruct (A6 p Hp) as (r & E & _). rewrite Er, E. eauto. }
  cbn [mbind outcome_bind]. destruct (ss_wakeup_spec (q_senders q) kill (set_receivers mr w1) A5') as (ms & -> & Hms).
  { intros p Hp. destruct (A7 p Hp) as (s & E & _). simpl. rewrite Es, E. eauto. }
  simpl in Hms. exists mr, ms. split; [done|].
  assert (∀ p, p ∈ q_receivers q → ∃ r, receivers w !! p = Some r ∧ r_msq r = a ∧ receiver_ok w p r ∧ r_msg r = inl (- EAGAIN) ∧
    mr !! p = Some (set_r_msg (inl res) r) ∧ ∀ m, m ∈ q_messages q → testmsg m (r_msgtype r) (r_mode r) = false) as Hrec.
  { intros p Hp. destruct (A6 p Hp) as (r & E1 & E2 & E3 & E4). exists r. rewrite Hmr, Er, E1. simpl. rewrite decide_True by done.
    split_and!; try done. by apply (mo_receivers _ Hw). }
  split_and!; try done.
  - apply hands_same. intros p. rewrite Hmr, Er. destruct (receivers w !! p) as [r|] eqn:E; [|done]. simpl. f_equal.
    destruct (decide (p ∈ q_receivers q)) as [Hp|]; [|done]. destruct (Hrec p Hp) as (r' & E' & _ & _ & Em & _).
    rewrite E in E'. injection E' as <-. unfold held. by rewrite Em.
  - intros p Hp. rewrite Hmr, Er. destruct (receivers w !! p); simpl; [|done]. by rewrite decide_False.
  - intros p Hp. rewrite Hms, Es. destruct (senders w !! p); simpl; [|done]. by rewrite decide_False.
  - intros p Hp. destruct (A7 p Hp) as (s & E1 & E2 & E3 & _). exists s. rewrite Hms, Es, E1. simpl. rewrite decide_True, E2 by done.
    split_and!; try done. by apply (mo_senders _ Hw).
Qed.

Lemma msgset_ok w a q q' :
  msg_ok w → msqs w !! a = Some q → q_messages q' = q_messages q → q_cbytes q' = q_cbytes q → q_qnum q' = q_qnum q →
  q_receivers q' = q_receivers q → q_senders q' = q_senders q → q_qbytes q' < 2 ^ 31 →
  ∃ w', (w2 ← expunge_all (q_receivers q) (- EAGAIN) (set_msqs (<[a := q']> (msqs w)) w); ss_wakeup (q_senders q) false w2) = Ok w' ∧
    msg_ok w' ∧ all_msgs w ≡ₚ all_msgs w' ++ contents (msqs w ∖ msqs w').
Proof.
  intros Hw Ea E1 E2 E3 E4 E5 Hb. pose proof (mo_queues _ Hw a q Ea) as [A1 A2 A3 A4 A5 A6 A7].
  destruct (wake_everyone w (set_msqs (<[a := q']> (msqs w)) w) a q (- EAGAIN) false) as (mr & ms & -> & Hh & Hr & Hs & Hrq & Hsq); try done.
  set (w' := set_senders ms _). exists w'. split; [done|]. split.
  - eapply (msg_ok_set w w' a q q'); try done.
    + constructor; rewrite ?E1, ?E2, ?E3, ?E4, ?E5; try done.
      * intros p Hp. destruct (Hrq p Hp) as (r & _ & F2 & _ & F3 & F4 & F5). exists (set_r_msg (inl (- EAGAIN)) r). by split_and!.
      * intros p Hp. destruct (Hsq p Hp) as (s & _ & F2 & F3 & _ & F4). exists (set_s_woken true s). by split_and!.
    + intros p. rewrite E4. destruct (decide (p ∈ q_receivers q)) as [Hp|Hp]; [|left; split; [by apply Hr|done]].
      right. split; [by left|]. destruct (Hrq p Hp) as (r & _ & F2 & (G1 & G2 & G3) & F3 & F4 & _). simpl. rewrite F4. intros ? [= <-].
      split; [done|]. split; [done|]. simpl. rewrite F3, decide_True in G3 by done. destruct G3 as [Hl _]. split; [done|].
      exists q'. by rewrite F2, lookup_insert_eq, E4.
    + intros p. rewrite E5. destruct (decide (p ∈ q_senders q)) as [Hp|Hp]; [|left; split; [by apply Hs|done]].
      right. split; [by left|]. destruct (Hsq p Hp) as (s & _ & F2 & F3 & (G1 & G2 & G3) & F4). simpl. rewrite F4. intros ? [= <-].
      split; [done|]. split; [done|]. simpl. rewrite F3 in G3. destruct G3 as [Hl _]. split; [done|].
      exists q'. by rewrite F2, lookup_insert_eq, E5.
  - rewrite contents_gone by (intros b; apply insert_is_Some). rewrite app_nil_r. unfold all_msgs. simpl.
    by rewrite (contents_same _ _ q), Hh.
Qed.

Lemma freeque_ok w msqid a q :
  msg_ok w → leads w msqid a → msqs w !! a = Some q →
  ∃ w', freeque msqid w = Ok w' ∧ msg_ok w' ∧ all_msgs w ≡ₚ all_msgs w' ++ contents (msqs w ∖ msqs w').
Proof.
  intros Hw [H0 Hlk] Ea. unfold freeque. destruct (rmid_exists (msg_ids w) msqid a Hlk) as [ids Eids].
  destruct (rmid_lock (msg_ids w) msqid a ids (mo_ids _ Hw) (mo_inj _ Hw) H0 Eids) as (Hids & Hent & Hlock).
  destruct (ipc_rmid_ok _ _ _ _ (mo_ids _ Hw) H0 Eids) as (_ & _ & _ & _ & Hsize).
  rewrite Eids. cbn [mbind outcome_bind]. rewrite (deref_ok _ _ _ Ea). cbn [mbind outcome_bind].
  destruct (wake_everyone w (set_table ids (msq_next w) w) a q (- EIDRM) true) as (mr & ms & E & Hh & Hr & Hs & Hrq & Hsq); try done.
  destruct (expunge_all (q_receivers q) (- EIDRM) (set_table ids (msq_next w) w)) as [w2|]; cbn [mbind outcome_bind] in E |- *; [|done].
  rewrite E. cbn [mbind outcome_bind]. simpl. set (w' := set_counts _ _ _). exists w'. split; [done|].
  assert (∀ b s, msqs w' !! b = Some s ↔ b ≠ a ∧ msqs w !! b = Some s) as Harr.
  { intros b s. simpl. rewrite lookup_delete_Some. naive_solver. }
  assert (∀ id b, leads w id b → b ≠ a → leads w' id b) as Hlead by (intros id b [? ?] Hne; split; [done|by apply Hlock]).
  assert (∀ id, known w id → known w' id) as Hknown.
  { intros id [Hid Ho]. split; [done|]. simpl. by rewrite Hsize. }
  assert (∀ p r, receivers w !! p = Some r → p ∉ q_receivers q → receiver_ok w' p r) as Hrok.
  { intros p r Er Hp. destruct (mo_receivers _ Hw p r Er) as (G1 & G2 & G3). split; [done|]. split; [auto|].
    destruct (r_msg r) as [e|m]; [|done]. destruct (decide (e = - EAGAIN)) as [->|]; [|done].
    destruct G3 as (Hl & q0 & E0 & Hin). assert (r_msq r ≠ a) by (intros Eq; rewrite Eq in E0; congruence).
    split; [by apply Hlead|]. exists q0. by rewrite Harr. }
  assert (∀ p s, senders w !! p = Some s → p ∉ q_senders q → sender_ok w' p s) as Hsok.
  { intros p s Es Hp. destruct (mo_senders _ Hw p s Es) as (G1 & G2 & G3). split; [done|]. split; [auto|].
    destruct (s_linked s); [|done]. destruct G3 as (Hl & q0 & E0 & Hin). assert (s_msq s ≠ a) by (intros Eq; rewrite Eq in E0; congruence).
    split; [by apply Hlead|]. exists q0. by rewrite Harr. }
  split.
  - constructor; try done.
    + intros i b Hi. destruct (Hent i b Hi) as [Hi' Hne]. destruct (mo_entries _ Hw i b Hi') as [s Es]. exists s. by apply Harr.
    + intros i j b Hi Hj. destruct (Hent i b Hi) as [Hi' _]. destruct (Hent j b Hj) as [Hj' _]. by eapply (mo_inj _ Hw).
    + intros b [s Es]. apply Harr in Es as [_ Es]. apply (mo_addr _ Hw). eauto.
    + intros b s Es. apply Harr in Es as [Hne Es]. pose proof (mo_queues _ Hw b s Es) as Hq. apply (queue_ok_frame w); [done|..].
      * intros p Hp. simpl. apply Hr. intros Hp'. destruct (qo_receivers _ _ _ Hq p Hp) as (r & F1 & F2 & _).
        destruct (Hrq p Hp') as (r' & F3 & F4 & _). congruence.
      * intros p Hp. simpl. apply Hs. intros Hp'. destruct (qo_senders _ _ _ Hq p Hp) as (r & F1 & _ & F2 & _).
        destruct (Hsq p Hp') as (r' & F3 & F4 & _). congruence.
    + intros p r. simpl. destruct (decide (p ∈ q_receivers q)) as [Hp|Hp]; [|rewrite Hr by done; auto].
      destruct (Hrq p Hp) as (r0 & F1 & _ & (G1 & G2 & _) & _ & -> & _). intros [= <-]. split; [done|]. split; [by apply Hknown|]. done.
    + intros p s. simpl. destruct (decide (p ∈ q_senders q)) as [Hp|Hp]; [|rewrite Hs by done; auto].
      destruct (Hsq p Hp) as (s0 & F1 & _ & _ & (G1 & G2 & _) & ->). intros [= <-]. split; [done|]. split; [by apply Hknown|]. done.
  - assert (msqs w ∖ msqs w' = {[a := q]}) as ->.
    { apply map_eq. intros b. rewrite lookup_difference. simpl. destruct (decide (b = a)) as [->|Hne].
      - by rewrite lookup_delete_eq, lookup_singleton_eq.
      - rewrite lookup_delete_ne, lookup_singleton_ne by done. by destruct (msqs w !! b). }
    unfold all_msgs. simpl. rewrite Hh. unfold contents at 1 3. rewrite (map_concat_delete (λ q, q_messages q) _ a q Ea).
    rewrite map_to_list_singleton. simpl. rewrite app_nil_r. unfold contents. solve_Permutation.
Qed.

(** The limit that IPC_SET asks for. *)
Definition small_limit (u : msq_user) : Prop := 0 <= mu_qbytes u < 2 ^ 31 ∧ 0 <= mu_lqbytes u < 2 ^ 31.

Lemma msgctl_change_ok lim cr cap_res msqid cmd setbuf w :
  msg_ok w → 0 <= msqid → in_table w msqid → sb_qbytes setbuf < 2 ^ 31 →
  controls w (msgctl_change lim cr cap_res msqid cmd setbuf w).
Proof.
  intros Hw H0 Hid Hb. unfold msgctl_change. destruct (Hid H0) as [o Eo]. rewrite Eo. cbn [mbind outcome_bind].
  destruct o as [a|]; [|by apply controls_refl]. assert (leads w msqid a) as Hl by (by split).
  destruct (leads_queue w _ a Hw Hl) as [q Ea]. rewrite (deref_ok _ _ _ Ea). cbn [mbind outcome_bind].
  destruct (ipc_checkid _ _); [by apply controls_refl|]. destruct (_ && _); [by apply controls_refl|].
  destruct (cmd =? IPC_SET).
  - destruct (_ && _); [by apply controls_refl|]. cbv zeta. set (q' := MsgQueue _ _ _ _ _ _ _ _ _).
    destruct (msgset_ok w a q q') as (w' & E & Hw' & Hp); try done.
    change (q_receivers q') with (q_receivers q). change (q_senders q') with (q_senders q).
    destruct (expunge_all _ _ _) as [w2|]; cbn [mbind outcome_bind] in E |- *; [|done]. rewrite E. by eexists _, _.
  - destruct (freeque_ok w msqid a q) as (w' & -> & Hw' & Hp); try done. by eexists _, _.
Qed.

Lemma sys_msgctl_ok lim cr cap_res msqid cmd buf u w :
  msg_ok w → in_table w msqid → small_limit u → controls w (sys_msgctl lim cr cap_res msqid cmd buf u w).
Proof.
  intros Hw Hid [Hu1 Hu2]. unfold sys_msgctl. destruct (_ || _) eqn:E; [by apply controls_refl|].
  apply orb_false_iff in E as [E%Z.ltb_ge _]. destruct (ipc_parse_version cmd) as [cmd' version].
  destruct (_ || _); [destruct (negb _); by apply controls_refl|].
  destruct (_ || _).
  - destruct (bool_decide _); [by apply controls_refl|]. destruct (_ && _); [by apply controls_refl|].
    destruct (Hid E) as [o Eo]. rewrite Eo. cbn [mbind outcome_bind]. destruct o as [a|]; [|by apply controls_refl].
    destruct (leads_queue w msqid a Hw) as [q Ea]; [by split|]. rewrite (deref_ok _ _ _ Ea). cbn [mbind outcome_bind].
    destruct (_ && _); [by apply controls_refl|]. destruct (ipcperms _ _ _); [by apply controls_refl|].
    destruct (bool_decide _); by apply controls_refl.
  - destruct (_ && _); [by apply controls_refl|]. destruct (_ || _); [|by apply controls_refl].
    set (sb := copy_msqid_from_user _ _ _ _ _ _). destruct (msgctl_change_ok lim cr cap_res msqid cmd' sb w) as (w' & r & -> & Hw' & Hp); try done.
    { unfold sb, copy_msqid_from_user. destruct (version =? IPC_64); simpl; [lia|]. destruct (_ =? _); lia. }
    by eexists _, _.
Qed.

(** ** Creating a queue *)

(** The table grows, or a new queue comes. *)
Lemma msg_ok_table w w' :
  msg_ok w → ids_ok (msg_ids w') → receivers w' = receivers w → senders w' = senders w → msq_next w <= msq_next w' →
  (∀ i b, entries (msg_ids w) !! i = Some (Some b) → entries (msg_ids w') !! i = Some (Some b)) →
  ids_size (msg_ids w) <= ids_size (msg_ids w') →
  (∀ b q, msqs w !! b = Some q → msqs w' !! b = Some q) →
  (∀ b q, msqs w' !! b = Some q → msqs w !! b = Some q ∨
     b < msq_next w' ∧ q_messages q = [] ∧ q_receivers q = [] ∧ q_senders q = [] ∧ q_cbytes q = 0 ∧ q_qnum q = 0 ∧ q_qbytes q < 2 ^ 31) →
  (∀ i b, entries (msg_ids w') !! i = Some (Some b) → is_Some (msqs w' !! b)) →
  (∀ i j b, entries (msg_ids w') !! i = Some (Some b) → entries (msg_ids w') !! j = Some (Some b) → i = j) →
  msg_ok w'.
Proof.
  intros [M1 M2 M3 M4 M5 M6 M7] Hids Er Es Hnext Hent Hsize Harr Hnew Hex Hinj.
  assert (∀ id b, leads w id b → leads w' id b) as Hlead.
  { intros id b [H0 E]. split; [done|]. pose proof (Hent _ _ (lock_entry _ _ _ H0 E)) as He.
    assert (0 <= id mod SEQ_MULTIPLIER) by (apply Z.mod_pos_bound; unfold SEQ_MULTIPLIER, IPCMNI; lia).
    by apply (ipc_lock_some (msg_ids w') (id mod SEQ_MULTIPLIER)); [apply Z.rem_mod_nonneg|done|apply Hids|]. }
  assert (∀ id, known w id → known w' id) as Hknown by (intros id [H0 H]; split; [done|lia]).
  constructor; rewrite ?Er, ?Es; try done.
  - intros b [q Eb]. destruct (Hnew b q Eb) as [E|(? & _)]; [|done]. assert (b < msq_next w) by (apply M4; eauto). lia.
  - intros b q Eb. destruct (Hnew b q Eb) as [E|(_ & F1 & F2 & F3 & F4 & F5 & F6)].
    + eapply queue_ok_frame; [by apply M5|by rewrite Er|by rewrite Es].
    + constructor; rewrite ?F1, ?F2, ?F3, ?F4, ?F5; try done; [split; constructor|..]; intros p Hp; by apply elem_of_nil in Hp.
  - intros p r Hr. eapply receiver_ok_frame; [by apply M6|apply Hknown|apply Hlead|]. intros q Eq Hp. eauto.
  - intros p s Hs. eapply sender_ok_frame; [by apply M7|apply Hknown|apply Hlead|]. intros q Eq Hp. eauto.
Qed.

Lemma newque_ok lim cr key msgflg alloc grow w w' r :
  msg_ok w → 0 <= msg_ctlmnb lim < 2 ^ 31 → newque lim cr key msgflg alloc grow w = (w', r) →
  msg_ok w' ∧ all_msgs w ≡ₚ all_msgs w' ++ contents (msqs w ∖ msqs w').
Proof.
  intros Hw Hlim. unfold newque. assert (∀ w1, msqs w1 = msqs w → receivers w1 = receivers w →
    all_msgs w ≡ₚ all_msgs w1 ++ contents (msqs w ∖ msqs w1)) as Hsame.
  { intros w1 E1 E2. rewrite contents_gone by (by rewrite E1). rewrite app_nil_r. unfold all_msgs. by rewrite E1, E2. }
  destruct (negb alloc); [intros [= <- _]; auto|]. set (a := msq_next w).
  destruct (ipc_addid (msg_ids w) a (msg_ctlmni lim) cr grow) as [ids o] eqn:Eadd.
  destruct (ipc_addid_ok _ _ _ _ _ _ _ (mo_ids _ Hw) Eadd) as [Hids _].
  destruct (addid_entries _ _ _ _ _ _ _ (mo_ids _ Hw) Eadd) as [Hfw Hbw].
  pose proof (addid_size _ _ _ _ _ _ _ (mo_ids _ Hw) Eadd) as Hsize.
  assert (msqs w !! a = None) as Hfresh.
  { destruct (msqs w !! a) as [s|] eqn:E; [|done]. assert (a < msq_next w) by (apply (mo_addr _ Hw); rewrite E; eauto). unfold a in *. lia. }
  destruct o as [[id perm]|]; intros [= <- _].
  - set (q := MsgQueue _ _ _ _ _ _ _ _ _). split.
    + apply (msg_ok_table w); simpl; try done.
      * unfold a. lia.
      * intros b s Es. rewrite lookup_insert_ne; [done|]. congruence.
      * intros b s. destruct (decide (b = a)) as [->|Hne]; [|rewrite lookup_insert_ne by done; auto].
        rewrite lookup_insert_eq. intros [= <-]. right. simpl. rewrite wrap_small by lia. split_and!; try done; lia.
      * intros i b Hi. destruct (Hbw i b Hi) as [E|(? & ? & _ & _ & ->)]; [|rewrite lookup_insert_eq; eauto].
        destruct (mo_entries _ Hw _ _ E) as [s Es]. rewrite lookup_insert_ne; [eauto|]. congruence.
      * assert (∀ i, entries (msg_ids w) !! i ≠ Some (Some a)) as Hna.
        { intros i E. destruct (mo_entries _ Hw _ _ E) as [s Es]. congruence. }
        intros i j b Hi Hj. destruct (Hbw i b Hi) as [E|(? & ? & E1 & -> & ->)]; destruct (Hbw j _ Hj) as [E'|(? & ? & E2 & -> & ?)].
        -- by eapply (mo_inj _ Hw).
        -- subst b. by apply Hna in E.
        -- by apply Hna in E'.
        -- congruence.
    + rewrite contents_gone by (intros b; apply insert_is_Some). rewrite app_nil_r. unfold all_msgs. simpl.
      unfold contents at 2. rewrite (map_concat_insert (λ q, q_messages q)), delete_id by done. done.
  - split; [|by apply Hsame]. apply (msg_ok_table w); simpl; try done.
    + auto.
    + intros i b Hi. destruct (Hbw i b Hi) as [E|(? & ? & [=] & _)]. by eapply (mo_entries _ Hw).
    + intros i j b Hi Hj. destruct (Hbw i b Hi) as [E|(? & ? & [=] & _)]. destruct (Hbw j b Hj) as [E'|(? & ? & [=] & _)].
      by eapply (mo_inj _ Hw).
Qed.

Lemma sys_msgget_ok lim cr key msgflg alloc grow w :
  msg_ok w → 0 <= msg_ctlmnb lim < 2 ^ 31 → controls w (sys_msgget lim cr key msgflg alloc grow w).
Proof.
  intros Hw Hlim. assert (controls w (Ok (newque lim cr key msgflg alloc grow w))) as Hnew.
  { destruct (newque lim cr key msgflg alloc grow w) as [w' r] eqn:E.
    destruct (newque_ok _ _ _ _ _ _ _ _ _ Hw Hlim E). by exists w', r. }
  unfold sys_msgget. destruct (_ =? _); [done|].
  destruct (Z.eqb_spec (ipc_findkey (msq_key w) (msg_ids w) key) (-1)) as [|Hne].
  { destruct (negb _); [by apply controls_refl|done]. }
  destruct (_ && _); [by apply controls_refl|]. unfold ipc_findkey in *. set (l := take _ _) in *.
  destruct (find_from_entry (msq_key w) key 0 l) as [?|[Hr [a Ha]]]; [done|]. set (id := find_from _ _ _ _) in *.
  rewrite Z.sub_0_r in Ha, Hr. unfold l in Ha. apply lookup_take_Some in Ha as [Ha _].
  pose proof (io_size _ (mo_ids _ Hw)) as [Hsz Hmax].
  assert (id < IPCMNI). { apply lookup_lt_Some in Ha. unfold zlen in *. lia. }
  rewrite (ipc_lock_some (msg_ids w) id id (Some a)); [|apply Z.rem_small; unfold SEQ_MULTIPLIER; lia|lia|done|done].
  cbn [mbind outcome_bind]. destruct (mo_entries _ Hw _ _ Ha) as [q Ea]. rewrite (deref_ok _ _ _ Ea).
  cbn [mbind outcome_bind]. destruct (ipcperms _ _ _); by apply controls_refl.
Qed.
