(* ===== verification/MsgLive.v ===== *)
(** Any number of processes that use message queues: the calls of [ipc/msg.c] in
    any order.  Each message that was sent is taken once, lost with its queue or
    still there, counters are right, and nobody sleeps on without a reason. *)

From S2P Require Import Prelude Errno Ipc Msg MsgText MsgSystem MsgCalls.

(** ** Calls *)

Inductive mcall :=
| KMsgget (lim : msg_limits) (cr : cred) (key msgflg : Z) (alloc grow : bool)
| KMsgctl (lim : msg_limits) (cr : cred) (cap_res : bool) (msqid cmd : Z) (buf : option bool) (u : msq_user)
| KMsgsnd (lim : msg_limits) (cr : cred) (pid msqid : Z) (mtype : option Z) (text : list Z) (msgflg : Z) (alloc copy : nat → bool)
| KMsgrcv (cr : cred) (pid msqid msgsz msgtyp msgflg : Z) (put : bool) (copy : nat → bool)
| KSndWake (cr : cred) (pid : Z) (signal : bool)
| KRcvWake (cr : cred) (pid : Z) (signal put : bool) (copy : nat → bool).

Definition mrun (c : mcall) (w : mworld) : outcome (mworld * msg_end) :=
  match c with
  | KMsgget lim cr key msgflg alloc grow => '(w, ret) ← sys_msgget lim cr key msgflg alloc grow w; Ok (w, MReturns ret)
  | KMsgctl lim cr cap_res msqid cmd buf u =>
      '(w, (ret, _)) ← sys_msgctl lim cr cap_res msqid cmd buf u w; Ok (w, MReturns ret)
  | KMsgsnd lim cr pid msqid mtype text msgflg alloc copy => sys_msgsnd lim cr pid msqid mtype text msgflg alloc copy w
  | KMsgrcv cr pid msqid msgsz msgtyp msgflg put copy => sys_msgrcv cr pid msqid msgsz msgtyp msgflg put copy w
  | KSndWake cr pid signal => msgsnd_wake cr pid signal w
  | KRcvWake cr pid signal put copy => msgrcv_wake cr pid signal put copy w
  end.

(** A process does one thing at a time; limits are below 2^31 and sizes have the
    width of their type. *)
Definition mlegal (w : mworld) (c : mcall) : Prop :=
  match c with
  | KMsgget lim _ _ _ _ _ => 0 <= msg_ctlmnb lim < 2 ^ 31
  | KMsgctl _ _ _ _ _ _ u => small_limit u
  | KMsgsnd _ _ pid _ _ _ _ _ _ => senders w !! pid = None ∧ receivers w !! pid = None
  | KMsgrcv _ pid _ msgsz _ _ _ _ => senders w !! pid = None ∧ receivers w !! pid = None ∧ 0 <= msgsz < 2 ^ 32
  | KSndWake _ pid _ => is_Some (senders w !! pid)
  | KRcvWake _ pid _ _ _ => is_Some (receivers w !! pid)
  end.

(** The slot behind the table is not asked for. *)
Definition msafe (w : mworld) (c : mcall) : Prop :=
  match c with
  | KMsgctl _ _ _ msqid _ _ _ | KMsgsnd _ _ _ msqid _ _ _ _ _ | KMsgrcv _ _ msqid _ _ _ _ _ => in_table w msqid
  | _ => True
  end.

Lemma mcall_ok c w : msg_ok w → mlegal w c → msafe w c →
  ∃ w' r, mrun c w = Ok (w', r) ∧ msg_ok w' ∧ end_ok r ∧
    all_msgs w ++ sent_by r ≡ₚ all_msgs w' ++ took_by r ++ contents (msqs w ∖ msqs w').
Proof.
  intros Hw Hl Hs.
  assert (∀ o, mkeeps w o → ∃ w' r, o = Ok (w', r) ∧ msg_ok w' ∧ end_ok r ∧
    all_msgs w ++ sent_by r ≡ₚ all_msgs w' ++ took_by r ++ contents (msqs w ∖ msqs w')) as Hkeep.
  { intros o (w' & r & -> & Hw' & Hp & He & Hb). exists w', r. rewrite contents_gone by done. by rewrite app_nil_r. }
  destruct c; simpl in *.
  - destruct (sys_msgget_ok lim cr key msgflg alloc grow w) as (w' & r & -> & Hw' & Hp); try done.
    eexists _, _. split; [done|]. split_and!; try done. simpl. by rewrite app_nil_r.
  - destruct (sys_msgctl_ok lim cr cap_res msqid cmd buf u w) as (w' & [r out] & -> & Hw' & Hp); try done.
    eexists _, _. split; [done|]. split_and!; try done. simpl. by rewrite app_nil_r.
  - destruct Hl as [H1 _]. by apply Hkeep, sys_msgsnd_ok.
  - destruct Hl as (_ & H1 & H2). by apply Hkeep, sys_msgrcv_ok.
  - destruct Hl as [s Es]. apply Hkeep. by eapply msgsnd_wake_ok.
  - destruct Hl as [r Er]. apply Hkeep. by eapply msgrcv_wake_ok.
Qed.

(** ** Reachable states *)

(** The messages sent, the ends of calls, the messages lost with their queue. *)
Record history := History { h_sent : list msg_msg; h_ends : list msg_end; h_lost : list msg_msg }.

Definition h_took (h : history) : list msg_msg := h_ends h ≫= took_by.

Definition record (w w' : mworld) (r : msg_end) (h : history) : history :=
  History (sent_by r ++ h_sent h) (r :: h_ends h) (contents (msqs w ∖ msqs w') ++ h_lost h).

Inductive msg_step : mworld * history → mworld * history → Prop :=
| msg_step_call c w w' r h : mlegal w c → msafe w c → mrun c w = Ok (w', r) → msg_step (w, h) (w', record w w' r h).

Definition msg_reachable (w : mworld) (h : history) : Prop :=
  ∃ lim w0, msg_init lim true = Ok w0 ∧ 0 <= msg_ctlmni lim ∧ rtc msg_step (w0, History [] [] []) (w, h).

Definition history_ok (w : mworld) (h : history) : Prop :=
  msg_ok w ∧ Forall end_ok (h_ends h) ∧ h_sent h ≡ₚ h_took h ++ h_lost h ++ all_msgs w.

Lemma msg_init_ok lim w0 : 0 <= msg_ctlmni lim → msg_init lim true = Ok w0 → history_ok w0 (History [] [] []).
Proof.
  intros Hn E. unfold msg_init in E. destruct (ipc_init_ids_ok (msg_ctlmni lim) Hn) as (ids & Ei & Hids & _ & Hnone).
  rewrite Ei in E. injection E as <-. split; [|by split; [constructor|]]. rewrite Forall_lookup in Hnone.
  constructor; simpl; try done; try (intros; set_solver).
  intros a [q E]. by rewrite lookup_empty in E.
Qed.

Lemma msg_step_ok w h w' h' : msg_step (w, h) (w', h') → history_ok w h → history_ok w' h'.
Proof.
  intros Hstep (Hw & He & Hp). inversion Hstep as [c w0 w1 r h0 Hl Hs E]; subst.
  destruct (mcall_ok c w Hw Hl Hs) as (w2 & r2 & E2 & Hw2 & He2 & Hp2). rewrite E in E2. injection E2 as <- <-.
  split; [done|]. split; [by constructor|]. unfold h_took, record in *. simpl. rewrite Hp.
  transitivity ((h_ends h ≫= took_by) ++ h_lost h ++ (all_msgs w ++ sent_by r)); [solve_Permutation|]. rewrite Hp2. solve_Permutation.
Qed.

Lemma msg_reachable_ok w h : msg_reachable w h → history_ok w h.
Proof.
  intros (lim & w0 & E & Hn & Hr). pose proof (msg_init_ok lim w0 Hn E) as H.
  remember (w0, History [] [] []) as x eqn:Ex. remember (w, h) as y eqn:Ey.
  assert (history_ok x.1 x.2) as Hx by (by subst x). clear Ex H E. revert Ey.
  induction Hr as [x|[w1 h1] [w2 h2] z Hstep Hr IH]; intros ->; [done|]. apply IH; [|done]. by eapply msg_step_ok.
Qed.

(** ** Theorems *)

(** C13: However processes create, change and remove queues, send and receive,
    sleep and are woken or interrupted, each message that was sent has been taken
    by exactly one receiver, was lost with its queue, or is still in the kernel
    (in a queue, or handed to a receiver that has not run): these together are
    the messages sent, none twice.  A call that took one has stored its type and
    the beginning of its text, or has returned -EFAULT. *)
Theorem msg_delivered_once w h :
  msg_reachable w h →
  h_sent h ≡ₚ h_took h ++ h_lost h ++ contents (msqs w) ++ hands (receivers w) ∧
  ∀ m ret out, MTook m ret out ∈ h_ends h →
    match out with
    | Some (t, text) => t = m_type m ∧ text = take (Z.to_nat ret) (msg_bytes_of m) ∧ 0 <= ret <= m_ts m
    | None => ret = - EFAULT
    end.
Proof.
  intros Hr. destruct (msg_reachable_ok w h Hr) as (_ & He & Hp). split; [exact Hp|]. intros m ret out Hin.
  rewrite List.Forall_forall in He. specialize (He (MTook m ret out)). rewrite <- list_elem_of_In in He. specialize (He Hin).
  simpl in He. destruct out as [[t text]|]; done.
Qed.


Lemma find_msg_nothing l i t mode : (∀ m, m ∈ l → testmsg m t mode = false) → find_msg l i t mode None = None.
Proof.
  revert i. induction l as [|m l IH]; intros i H; cbn [find_msg]; [done|]. rewrite H by (by left). apply IH. intros m' ?. apply H. by right.
Qed.

(** C18: No wake-up is lost.  A receiver that sleeps and was not woken is in the
    queue it asked for, and the search of its request finds nothing there; a
    sender that sleeps and was not woken is in its queue, and the queue has no
    room for its message. *)
Theorem msg_no_lost_wakeup w h :
  msg_reachable w h →
  (∀ p r, receivers w !! p = Some r → r_woken r = false →
     ∃ q, msqs w !! r_msq r = Some q ∧ p ∈ q_receivers q ∧ ipc_lock (msg_ids w) (r_msqid r) = Ok (Some (r_msq r)) ∧
       find_msg (q_messages q) 0 (r_msgtype r) (r_mode r) None = None) ∧
  (∀ p s, senders w !! p = Some s → s_woken s = false →
     ∃ q, msqs w !! s_msq s = Some q ∧ p ∈ q_senders q ∧ ipc_lock (msg_ids w) (s_msqid s) = Ok (Some (s_msq s)) ∧
       msq_full (m_ts (s_msg s)) q = true).
Proof.
  intros Hr. destruct (msg_reachable_ok w h Hr) as (Hw & _). split.
  - intros p r Er Hwk. destruct (mo_receivers _ Hw p r Er) as (_ & _ & H). destruct (r_msg r) as [e|m]; [|destruct H; congruence].
    destruct (decide (e = - EAGAIN)); [|congruence]. destruct H as ([_ Hl] & q & Eq & Hp). exists q. split_and!; try done.
    destruct (qo_receivers _ _ _ (mo_queues _ Hw _ _ Eq) p Hp) as (r' & E' & _ & _ & Hno). rewrite Er in E'. injection E' as <-.
    by apply find_msg_nothing.
  - intros p s Es Hwk. destruct (mo_senders _ Hw p s Es) as (_ & _ & H). destruct (s_linked s); [|congruence].
    destruct H as ([_ Hl] & q & Eq & Hp). exists q. split_and!; try done.
    destruct (qo_senders _ _ _ (mo_queues _ Hw _ _ Eq) p Hp) as (s' & E' & _ & _ & Hf). rewrite Es in E'. injection E' as <-. auto.
Qed.

(** ** Runs *)

Definition msg_lock_works (w : mworld) (msqid : Z) : bool :=
  match ipc_lock (msg_ids w) msqid with Ok _ => true | Trap _ => false end.

Definition idle (w : mworld) (pid : Z) : bool :=
  match senders w !! pid, receivers w !! pid with None, None => true | _, _ => false end.

(** Whether a call of a run may be made. *)
Definition may_mcall (w : mworld) (c : mcall) : bool :=
  match c with
  | KMsgget lim _ _ _ _ _ => (0 <=? msg_ctlmnb lim) && (msg_ctlmnb lim <? 2 ^ 31)
  | KMsgctl _ _ _ msqid _ _ u =>
      msg_lock_works w msqid && ((0 <=? mu_qbytes u) && (mu_qbytes u <? 2 ^ 31)) && ((0 <=? mu_lqbytes u) && (mu_lqbytes u <? 2 ^ 31))
  | KMsgsnd _ _ pid msqid _ _ _ _ _ => msg_lock_works w msqid && idle w pid
  | KMsgrcv _ pid msqid msgsz _ _ _ _ => msg_lock_works w msqid && idle w pid && ((0 <=? msgsz) && (msgsz <? 2 ^ 32))
  | KSndWake _ pid _ => match senders w !! pid with Some _ => true | None => false end
  | KRcvWake _ pid _ _ _ => match receivers w !! pid with Some _ => true | None => false end
  end.

Fixpoint mrun_all (cs : list mcall) (x : mworld * history) : option (mworld * history) :=
  match cs with
  | [] => Some x
  | c :: cs =>
      if may_mcall x.1 c then
        match mrun c x.1 with Ok (w', r) => mrun_all cs (w', record x.1 w' r x.2) | Trap _ => None end
      else None
  end.

Definition mrun_from_init (lim : msg_limits) (cs : list mcall) : option (mworld * history) :=
  match msg_init lim true with Ok w => mrun_all cs (w, History [] [] []) | Trap _ => None end.

Lemma msg_lock_works_in_table w msqid : msg_lock_works w msqid = true → in_table w msqid.
Proof. unfold msg_lock_works. intros H _. destruct (ipc_lock _ _); [eauto|done]. Qed.

Lemma idle_none w pid : idle w pid = true → senders w !! pid = None ∧ receivers w !! pid = None.
Proof. unfold idle. by destruct (senders w !! pid), (receivers w !! pid). Qed.

Lemma may_mcall_ok w c : may_mcall w c = true → mlegal w c ∧ msafe w c.
Proof.
  destruct c; simpl; intros H; repeat match goal with H : _ && _ = true |- _ => apply andb_prop in H as [? ?] end;
    try (split; [|done]).
  - lia.
  - split; [unfold small_limit; lia|by apply msg_lock_works_in_table].
  - split; [by apply idle_none|by apply msg_lock_works_in_table].
  - split; [|by apply msg_lock_works_in_table]. destruct (idle_none w pid) as [? ?]; [done|]. split_and!; try done; lia.
  - destruct (senders w !! pid); [eauto|done].
  - destruct (receivers w !! pid); [eauto|done].
Qed.

Lemma mrun_all_reachable cs x y : mrun_all cs x = Some y → rtc msg_step x y.
Proof.
  revert x. induction cs as [|c cs IH]; intros [w h] E; cbn [mrun_all fst snd] in E; [by injection E as <-|].
  destruct (may_mcall w c) eqn:Em; [|done]. destruct (mrun c w) as [[w' r]|] eqn:Ec; [|done].
  destruct (may_mcall_ok w c Em) as [Hl Hs]. eapply rtc_l; [by econstructor|]. by apply IH.
Qed.

Lemma mrun_from_init_reachable lim cs w h : 0 <= msg_ctlmni lim → mrun_from_init lim cs = Some (w, h) → msg_reachable w h.
Proof.
  intros Hn E. unfold mrun_from_init in E. destruct (msg_init lim true) as [w0|] eqn:E0; [|done].
  exists lim, w0. split_and!; try done. by apply mrun_all_reachable with cs.
Qed.

Definition small_msgs : msg_limits := MsgLimits 100 4 2.
Definition user : cred := Cred 5 5 5 [] false false.
Definition yes (_ : nat) : bool := true.
Definition send_msg (pid msqid type : Z) (text : list Z) : mcall := KMsgsnd small_msgs user pid msqid (Some type) text 0 yes yes.
Definition recv_msg (pid msqid type : Z) : mcall := KMsgrcv user pid msqid 10 type 0 true yes.
Definition no_user : msq_user := MsqUser 0 0 0 0 0.
Definition new_msq (mode : Z) : mcall := KMsgget small_msgs user 0 mode true true.

(** Process 1 waits for type 2; process 2 fills the queue, sends to process 1,
    and sleeps with a third message; process 4 takes the first one. *)
Definition sample_msgs : list mcall :=
  [new_msq 0x180; recv_msg 1 0 2; send_msg 2 0 1 [7; 8; 9]; send_msg 2 0 2 [5]; send_msg 2 0 3 [6; 6]; recv_msg 4 0 0].

Definition sample_system : mworld * history :=
  match mrun_from_init small_msgs sample_msgs with
  | Some x => x
  | None => (MWorld (Ids 0 0 0 0 0 []) ∅ ∅ ∅ 0 0 0, History [] [] [])
  end.

Lemma sample_system_reachable : msg_reachable sample_system.1 sample_system.2.
Proof. apply (mrun_from_init_reachable small_msgs sample_msgs); [done|]. vm_compute. reflexivity. Qed.

Lemma msg_delivered_once_witness :
  (m_type <$> h_sent sample_system.2) = [2; 1] ∧ (m_type <$> h_took sample_system.2) = [1] ∧
  h_sent sample_system.2 ≡ₚ h_took sample_system.2 ++ h_lost sample_system.2 ++ contents (msqs sample_system.1) ++ hands (receivers sample_system.1).
Proof.
  split; [vm_compute; reflexivity|]. split; [vm_compute; reflexivity|].
  apply (msg_delivered_once sample_system.1 sample_system.2). exact sample_system_reachable.
Defined.


(** A receiver of another type and a sender without room. *)
Definition asleep_msgs : list mcall := [new_msq 0x180; recv_msg 1 0 2; send_msg 2 0 1 [7; 8; 9]; send_msg 3 0 3 [6; 6]].

Definition asleep_system : mworld * history :=
  match mrun_from_init small_msgs asleep_msgs with
  | Some x => x
  | None => (MWorld (Ids 0 0 0 0 0 []) ∅ ∅ ∅ 0 0 0, History [] [] [])
  end.

Lemma msg_no_lost_wakeup_witness :
  ∃ r q, receivers asleep_system.1 !! 1 = Some r ∧ msqs asleep_system.1 !! r_msq r = Some q ∧ 1 ∈ q_receivers q ∧
    find_msg (q_messages q) 0 (r_msgtype r) (r_mode r) None = None.
Proof.
  destruct (receivers asleep_system.1 !! 1) as [r|] eqn:Er; [|vm_compute in Er; discriminate].
  assert (r_woken r = false) as Hw by (vm_compute in Er; injection Er as <-; reflexivity).
  destruct (msg_no_lost_wakeup asleep_system.1 asleep_system.2) as [H _].
  - apply (mrun_from_init_reachable small_msgs asleep_msgs); [vm_compute; discriminate|vm_compute; reflexivity].
  - destruct (H 1 r Er Hw) as (q & E & Hp & _ & Hf). exists r, q. split; [reflexivity|]. split; [exact E|]. split; [exact Hp|exact Hf].
Defined.

(** ** Deviations *)

(** [sys_msgrcv] does not look at the sequence number: an identifier whose queue
    was removed takes messages from the queue that got its slot. *)
Lemma stale_identifier_receives :
  ∃ x m, mrun_from_init small_msgs [new_msq 0x180; KMsgctl small_msgs user false 0 IPC_RMID None no_user; new_msq 0x180;
      send_msg 2 32768 1 [7]; recv_msg 1 0 0] = Some x ∧
    h_ends x.2 !! 0%nat = Some (MTook m 1 (Some (1, [7]))).
Proof. eexists _, _. split; vm_compute; reflexivity. Qed.

(** A message that is handed over directly leaves the pid of the last receiver as
    it was: [pipelined_send] stores it as the pid of the last sender. *)
Lemma direct_delivery_keeps_lrpid :
  ∃ x q, mrun_from_init small_msgs [new_msq 0x180; recv_msg 1 0 0; send_msg 2 0 1 [7]; KRcvWake user 1 false true yes] = Some x ∧
    msqs x.1 !! 1 = Some q ∧ q_lspid q = 2 ∧ q_lrpid q = 0.
Proof. eexists _, _. split; [vm_compute; reflexivity|]. vm_compute. split_and!; reflexivity. Qed.

(** IPC_SET wakes the receivers because stricter permissions may exclude them, but
    one that has not run yet is still handed the next message. *)
Lemma excluded_receiver_receives :
  let other := Cred 6 6 6 [] false false in
  ∃ x m, mrun_from_init small_msgs [new_msq 0x1b6; KMsgrcv other 1 0 10 0 0 true yes;
      KMsgctl small_msgs user false 0 IPC_SET (Some true) (MsqUser 4 0 5 5 0x180); send_msg 2 0 1 [7];
      KRcvWake other 1 false true yes] = Some x ∧
    h_ends x.2 !! 0%nat = Some (MTook m 1 (Some (1, [7]))) ∧
    mrun (KMsgrcv other 1 0 10 0 0 true yes) x.1 = Ok (x.1, MReturns (- EACCES)).
Proof. eexists _, _. split; [vm_compute; reflexivity|]. split; vm_compute; reflexivity. Qed.
